(** * all_my_code: colocation, conform history and seasonal-cycle checks

    A shallow embedding of the parts of [all_my_code] that its specification
    describes in detail:

    - [munging/collocation.py]: [make_bins], [_make_bins_from_gridded_coord],
      [colocate_dataarray], [grid_flat_data];
    - [munging/conform.py]: [add_docs_line1_to_attribute_history];
    - [stats/seas_cycle.py]: [_get_number_of_time_steps_in_year] and the
      argument checks of the two seasonal-cycle fitters.

    Numbers.  A float64 coordinate or value is modelled as an exact
    rational or NaN ([val]); the rounding of IEEE arithmetic is not
    modelled there.  A datetime64[ns] or timedelta64[ns] is an int64 count
    of nanoseconds, NaT being the smallest int64: in the datetime branch
    of the bin constructors the additions and subtractions wrap around as
    numpy's do, and the mean of the differences is taken in float64, with
    its rounding and in the order numpy adds.  In an array of [val] a
    datetime is the number of its nanoseconds and NaT is NaN.

    Effects.  Python exceptions and the two observable effects of
    [colocate_dataarray] (printing and loading the restricted array) are
    modelled by a small writer-and-error monad [M]. *)

From Stdlib Require Import String Ascii Bool ZArith QArith Qround Qabs Qreduction Qpower.
From Stdlib Require Import Lia Lqa List.
Import ListNotations.

Set Implicit Arguments.
Close Scope Q_scope.
Open Scope string_scope.
Open Scope list_scope.
Open Scope nat_scope.

(* ================================================================= *)
(** * Exceptions, events and the monad *)

Module Py.

(** The messages of the exceptions raised by the modelled code (or by the
    library calls it makes), with their payload kept structured. *)
Inductive message :=
| MsgSameLength                      (* "All given coords need to be the same length" *)
| MsgAtLeastOne                      (* "You need to have at least one coordinate to match" *)
| MsgNotInDa (not_matched : list string)   (* "Coords are not in da: [...]" *)
| MsgTypeMismatch (keys : list string)     (* "Dimensions to not have the same type: {...}" *)
| MsgRangeTooLarge (name : string) (shape : list nat)
                                     (* "the range of the input coordinates is too large ..." *)
| MsgBinsLonger                      (* "bins must be one longer than centers" *)
| MsgZeroSizeReduction               (* numpy: zero-size array to reduction operation *)
| MsgIndexOutOfBounds                (* numpy: index 0 is out of bounds for axis 0 with size 0 *)
| MsgArangeNaT                       (* numpy: arange: cannot use NaT datetime values *)
| MsgArangeZeroStep                  (* numpy: arange: step cannot be zero *)
| MsgNegativeDimensions              (* numpy: negative dimensions are not allowed *)
| MsgBinsMonotonic                   (* pandas: "bins must increase monotonically." *)
| MsgBinEdgesUnique                  (* pandas: "Bin edges must be unique" *)
| MsgIndexNotMonotonic               (* pandas: slice bound on an unsorted index *)
| MsgBoolIndexMismatch (dim blen : nat)
                                     (* numpy: boolean index did not match indexed array *)
| MsgNotEvenlySpaced                 (* "time array is not evenly spaced: ..." *)
| MsgMonthlyOnly                     (* "this function only works for monthly data" *)
| MsgOddYears                        (* "n_years must be an odd number" *)
| MsgArraysSameLength                (* pandas: "All arrays must be of the same length" *)
| MsgUnhashable                      (* "unhashable type" *)
| MsgNoSuchCoord (dim : string).     (* xarray: no variable of that name *)

Inductive exn :=
| AssertionError (m : message)
| ValueError (m : message)
| IndexError (m : message)
| KeyError (m : message)
| TypeError (m : message).

(** Observable effects of [colocate_dataarray]. *)
Inductive event :=
| Print (s : string)
| Load.

Inductive outcome (A : Type) :=
| Raise (e : exn)
| Return (a : A).
Arguments Raise {A} e.
Arguments Return {A} a.

(** A computation: the events it emitted, and how it ended. *)
Definition M (A : Type) : Type := (list event * outcome A)%type.

Definition ret {A} (a : A) : M A := ([], Return a).
Definition raise {A} (e : exn) : M A := ([], Raise e).
Definition emit (ev : event) : M unit := ([ev], Return tt).

Definition bind {A B} (m : M A) (f : A -> M B) : M B :=
  match m with
  | (l, Raise e) => (l, Raise e)
  | (l, Return a) => let (l', o) := f a in (l ++ l', o)
  end.

(** Python's [assert cond, msg]. *)
Definition assert (cond : bool) (m : message) : M unit :=
  if cond then ret tt else raise (AssertionError m).

Fixpoint mapM {A B} (f : A -> M B) (l : list A) : M (list B) :=
  match l with
  | [] => ret []
  | a :: r => bind (f a) (fun b => bind (mapM f r) (fun bs => ret (b :: bs)))
  end.

Definition events {A} (m : M A) : list event := fst m.
Definition result {A} (m : M A) : outcome A := snd m.

End Py.
Import Py.

Declare Scope py_scope.
Delimit Scope py_scope with py.
Notation "x <- m ;; k" := (bind m (fun x => k))
  (at level 61, m at next level, right associativity) : py_scope.
Notation "m ;; k" := (bind m (fun _ => k))
  (at level 61, right associativity) : py_scope.

(* ================================================================= *)
(** * numpy: scalars and one-dimensional arrays *)

Module Np.

(** A float64 (or a datetime64/timedelta64 in nanoseconds; NaT is NaN). *)
Inductive val :=
| NaN
| Num (q : Q).

Definition isnan (v : val) : bool :=
  match v with NaN => true | Num _ => false end.

(** dtype.kind *)
Inductive kind := Kb | Ki | Ku | Kf | Kc | Km | KM | KO | KS | KU.

Definition kind_eqb (a b : kind) : bool :=
  match a, b with
  | Kb, Kb | Ki, Ki | Ku, Ku | Kf, Kf | Kc, Kc
  | Km, Km | KM, KM | KO, KO | KS, KS | KU, KU => true
  | _, _ => false
  end.

(** A one-dimensional array: its dtype kind and its elements. *)
Record array := mkarray { dtype_kind : kind; elems : list val }.

Definition size (a : array) : nat := length (elems a).

(** [np.issubdtype(x.dtype, np.datetime64)] *)
Definition is_datetime (a : array) : bool := kind_eqb (dtype_kind a) KM.

(** Arithmetic: NaN propagates. *)
Definition lift2 (f : Q -> Q -> Q) (a b : val) : val :=
  match a, b with
  | Num x, Num y => Num (f x y)
  | _, _ => NaN
  end.
Definition vadd := lift2 Qplus.
Definition vsub := lift2 Qminus.
Definition vmul := lift2 Qmult.

(** [v / n] for a positive integer constant [n]. *)
Definition vdivn (v : val) (n : positive) : val :=
  match v with
  | Num x => Num (x / inject_Z (Zpos n))%Q
  | NaN => NaN
  end.

(** Comparisons of IEEE numbers: anything compared with NaN is false. *)
Definition Qltb (x y : Q) : bool := negb (Qle_bool y x).
Definition vltb (a b : val) : bool :=
  match a, b with
  | Num x, Num y => Qltb x y
  | _, _ => false
  end.

(** The order numpy sorts and searches with: NaN after every number. *)
Definition sort_ltb (a b : val) : bool :=
  match a, b with
  | Num x, Num y => Qltb x y
  | Num _, NaN => true
  | NaN, _ => false
  end.
Definition sort_leb (a b : val) : bool := negb (sort_ltb b a).

(** [np.diff] *)
Fixpoint diff (l : list val) : list val :=
  match l with
  | a :: ((b :: _) as r) => vsub b a :: diff r
  | _ => []
  end.

(** Sum of the numbers of a list, and how many there are (NaNs skipped). *)
Fixpoint nansum (l : list val) : Q :=
  match l with
  | [] => 0%Q
  | NaN :: r => nansum r
  | Num x :: r => (x + nansum r)%Q
  end.
Fixpoint nancount (l : list val) : nat :=
  match l with
  | [] => 0
  | NaN :: r => nancount r
  | Num _ :: r => S (nancount r)
  end.

(** [np.nanmean]: NaN (with a warning) when nothing is left to average. *)
Definition nanmean (l : list val) : val :=
  match nancount l with
  | O => NaN
  | S n => Num (nansum l / inject_Z (Z.of_nat (S n)))%Q
  end.

(** [np.nanmin] / [np.nanmax]: raise on an empty array, NaN (with a warning)
    on an all-NaN one. *)
Definition vmin (a b : val) : val :=
  match a, b with
  | NaN, _ => b
  | _, NaN => a
  | Num x, Num y => if Qle_bool x y then a else b
  end.
Definition vmax (a b : val) : val :=
  match a, b with
  | NaN, _ => b
  | _, NaN => a
  | Num x, Num y => if Qle_bool x y then b else a
  end.
Definition nanmin (l : list val) : M val :=
  match l with
  | [] => raise (ValueError MsgZeroSizeReduction)
  | a :: r => ret (fold_left vmin r a)
  end.
Definition nanmax (l : list val) : M val :=
  match l with
  | [] => raise (ValueError MsgZeroSizeReduction)
  | a :: r => ret (fold_left vmax r a)
  end.

(** [x[0]] and [x[-1]] *)
Definition item_first (l : list val) : M val :=
  match l with
  | [] => raise (IndexError MsgIndexOutOfBounds)
  | a :: _ => ret a
  end.
Definition item_last (l : list val) : M val :=
  match l with
  | [] => raise (IndexError MsgIndexOutOfBounds)
  | a :: r => ret (List.last r a)
  end.

(** [np.linspace(start, stop, num)] with [endpoint=True]:
    [start + i * step] with [step = (stop - start) / (num - 1)], the last
    element being set to [stop]. *)
Definition linspace (start stop : val) (num : nat) : list val :=
  match num with
  | 0 => []
  | 1 => [start]
  | S (S d as div) =>
      let step := vdivn (vsub stop start) (Pos.of_nat div) in
      map (fun i => vadd (vmul (Num (inject_Z (Z.of_nat i))) step) start) (seq 0 div)
      ++ [stop]
  end.

(** Truncation towards zero ([astype] from float to an integer type). *)
Definition Qtrunc (q : Q) : Z :=
  if Qle_bool 0 q then Qfloor q else Qceiling q.

(** ** int64: datetime64[ns] and timedelta64[ns] *)

(** The int64 an integer is stored as: numpy's additions and subtractions
    of int64 wrap around. *)
Definition wrap64 (z : Z) : Z := ((z + 2 ^ 63) mod 2 ^ 64 - 2 ^ 63)%Z.

(** NaT is the smallest int64. *)
Definition NaT : Z := (- 2 ^ 63)%Z.

(** The int64 stored for an element of a datetime64 array, and the element
    an int64 stands for. *)
Definition stored (v : val) : Z :=
  match v with
  | NaN => NaT
  | Num x => wrap64 (Qtrunc x)
  end.
Definition of_stored (z : Z) : val :=
  if (z =? NaT)%Z then NaN else Num (inject_Z z).

(** [a + b] and [a - b] on datetime64 and timedelta64: NaT when either is
    NaT. *)
Definition dt_add (a b : Z) : Z :=
  if ((a =? NaT) || (b =? NaT))%Z then NaT else wrap64 (a + b).
Definition dt_sub (a b : Z) : Z :=
  if ((a =? NaT) || (b =? NaT))%Z then NaT else wrap64 (a - b).

(** [np.diff(x).astype(int)] on a datetime64 array: the stored
    differences, that of a NaT being the smallest int64. *)
Fixpoint diff64 (l : list Z) : list Z :=
  match l with
  | a :: ((b :: _) as r) => dt_sub b a :: diff64 r
  | _ => []
  end.

(** [dx / n] on a timedelta64: integer division truncating towards zero. *)
Definition timedelta_div (a n : Z) : Z :=
  if ((a =? NaT) || (n =? 0))%Z then NaT else Z.quot a n.

(** ** float64: the mean of the stored differences *)

(** The integer nearest to a rational, ties going to the even one. *)
Definition round_half_even (q : Q) : Z :=
  let f := Qfloor q in
  match Qcompare (q - inject_Z f)%Q (1 # 2)%Q with
  | Lt => f
  | Gt => (f + 1)%Z
  | Eq => if Z.even f then f else (f + 1)%Z
  end.

(** The exponent of a positive rational: [2 ^ e <= q < 2 ^ (e + 1)]. *)
Definition ilog2 (q : Q) : Z :=
  let e := (Z.log2 (Qnum q) - Z.log2 (Zpos (Qden q)))%Z in
  if Qle_bool (Qpower 2%Q e) q then e else (e - 1)%Z.

(** The float64 nearest to a rational (53 bits, ties to even).  The
    numbers met here are far from the overflow and underflow of a
    float64. *)
Definition round64 (q : Q) : Q :=
  let q := Qred q in
  if Qeq_bool q 0 then 0%Q
  else
    let u := Qpower 2%Q (ilog2 (Qabs q) - 52)%Z in
    Qred (inject_Z (round_half_even (q / u)%Q) * u)%Q.

Definition fadd (x y : Q) : Q := round64 (x + y)%Q.
Definition fdiv (x y : Q) : Q := round64 (x / y)%Q.

(** numpy's pairwise summation of float64 ([DOUBLE_pairwise_sum]): fewer
    than 8 numbers are added in turn; up to 128, eight running sums take
    the numbers eight at a time, are added by pairs, and the numbers left
    over are added in turn; more are cut in two. *)
Fixpoint add_lanes (r a : list Q) : list Q :=
  match r, a with
  | x :: r', y :: a' => fadd x y :: add_lanes r' a'
  | _, _ => r
  end.

Fixpoint lane_sums (blocks : nat) (a r : list Q) : list Q :=
  match blocks with
  | 0 => r
  | S k => lane_sums k (skipn 8 a) (add_lanes r (firstn 8 a))
  end.

Fixpoint pairwise_sum (fuel : nat) (a : list Q) : Q :=
  match fuel with
  | 0 => 0%Q
  | S fuel' =>
      let n := length a in
      if n <? 8 then fold_left fadd a 0%Q
      else if n <=? 128 then
        let m := n - n mod 8 in
        match lane_sums (m / 8 - 1) (skipn 8 a) (firstn 8 a) with
        | [r0; r1; r2; r3; r4; r5; r6; r7] =>
            fold_left fadd (skipn m a)
              (fadd (fadd (fadd r0 r1) (fadd r2 r3))
                    (fadd (fadd r4 r5) (fadd r6 r7)))
        | _ => 0%Q
        end
      else
        let n2 := n / 2 - (n / 2) mod 8 in
        fadd (pairwise_sum fuel' (firstn n2 a)) (pairwise_sum fuel' (skipn n2 a))
  end.

(** [np.add.reduce] of an int64 array with [dtype=float64]: the array is
    cast through a buffer of 8192 elements, and the pairwise sum of each
    buffer is added to the result, which starts at 0. *)
Definition bufsize : nat := 8 * 1024.

Fixpoint sum_buffered (fuel : nat) (a : list Q) (acc : Q) : Q :=
  match fuel with
  | 0 => acc
  | S fuel' =>
      match a with
      | [] => acc
      | _ => sum_buffered fuel' (skipn bufsize a)
               (fadd acc (pairwise_sum (S bufsize) (firstn bufsize a)))
      end
  end.

Definition add_reduce (l : list Z) : Q :=
  let a := map (fun z => round64 (inject_Z z)) l in
  sum_buffered (length a) a 0%Q.

(** [np.nanmean] of an int64 array, which holds no NaN: [np.mean], the sum
    in float64 divided by the number of elements; NaN (with a warning) on
    an empty array. *)
Definition mean_int64 (l : list Z) : val :=
  match l with
  | [] => NaN
  | _ => Num (fdiv (add_reduce l) (round64 (inject_Z (Z.of_nat (length l)))))
  end.

(** [.astype("timedelta64[ns]")] on a float64: truncated towards zero; NaN
    becomes NaT, and so does a number that no int64 holds (the conversion
    of x86-64 gives the smallest int64 then). *)
Definition astype_timedelta (v : val) : Z :=
  match v with
  | NaN => NaT
  | Num x =>
      let z := Qtrunc x in
      if ((- 2 ^ 63 <? z) && (z <? 2 ^ 63))%Z then z else NaT
  end.

(** [np.arange(start, stop, step, dtype="datetime64[ns]")]: the length is
    computed in int64, [(stop - start + (step - 1)) / step] for a positive
    step, and the values are [start + i * step]. *)
Definition arange_datetime (start stop step : Z) : M (list val) :=
  if ((start =? NaT) || (stop =? NaT) || (step =? NaT))%Z then
    raise (ValueError MsgArangeNaT)
  else if (step =? 0)%Z then raise (ValueError MsgArangeZeroStep)
  else
    let len :=
      if ((0 <? step) && (start <? stop))%Z then
        Z.quot (wrap64 (stop - start + (step - 1))) step
      else if ((step <? 0) && (stop <? start))%Z then
        Z.quot (wrap64 (stop - start + (step + 1))) step
      else 0%Z in
    if (len <? 0)%Z then raise (ValueError MsgNegativeDimensions)
    else
      ret (map (fun i => of_stored (wrap64 (start + Z.of_nat i * step)))
               (seq 0 (Z.to_nat len))).

(** [a.searchsorted(v, side="left")] on a sorted array: the number of
    elements ordered before [v]; with [side="right"], the number of elements
    not ordered after [v]. *)
Definition searchsorted_left (a : list val) (v : val) : nat :=
  length (filter (fun x => sort_ltb x v) a).
Definition searchsorted_right (a : list val) (v : val) : nat :=
  length (filter (fun x => sort_leb x v) a).

End Np.
Import Np.

(* ================================================================= *)
(** * pandas: label slicing of a sorted index, and [pd.cut] *)

Module Pd.

Definition vleb (a b : val) : bool :=
  match a, b with
  | Num x, Num y => Qle_bool x y
  | _, _ => false
  end.

Fixpoint pairwise (r : val -> val -> bool) (l : list val) : bool :=
  match l with
  | a :: ((b :: _) as t) => r a b && pairwise r t
  | _ => true
  end.

(** [Index.is_monotonic_increasing] / [is_monotonic_decreasing]: not strict,
    and false as soon as a NaN is met. *)
Definition is_monotonic_increasing (l : list val) : bool := pairwise vleb l.
Definition is_monotonic_decreasing (l : list val) : bool :=
  pairwise (fun a b => vleb b a) l.

(** [Index._searchsorted_monotonic(label, side)] *)
Definition searchsorted_monotonic (idx : list val) (label : val) (left : bool)
  : M nat :=
  if is_monotonic_increasing idx then
    ret (if left then searchsorted_left idx label
         else searchsorted_right idx label)
  else if is_monotonic_decreasing idx then
    let pos := if left then searchsorted_right (rev idx) label
               else searchsorted_left (rev idx) label in
    ret (length idx - pos)
  else raise (KeyError MsgIndexNotMonotonic).

(** [Index.slice_locs(lo, hi)]: the positions [start, stop) selected by the
    label slice [lo:hi], both ends included.  On an index that is not
    monotonic pandas still finds a bound that is one of its labels; the
    model raises there, as pandas does for any other bound. *)
Definition slice_locs (idx : list val) (lo hi : val) : M (nat * nat) :=
  (start <- searchsorted_monotonic idx lo true ;;
   stop <- searchsorted_monotonic idx hi false ;;
   ret (start, stop))%py.

(** Python's [l[start:stop]] *)
Definition py_slice {A} (l : list A) (start stop : nat) : list A :=
  firstn (stop - start) (skipn start l).

(** [algos.unique]: NaNs count as one value. *)
Definition same_val (a b : val) : bool :=
  match a, b with
  | NaN, NaN => true
  | Num x, Num y => Qeq_bool x y
  | _, _ => false
  end.
Fixpoint unique (l : list val) : list val :=
  match l with
  | [] => []
  | a :: r => a :: filter (fun b => negb (same_val a b)) (unique r)
  end.

(** The code [pd.cut] gives one value: the index [i] of the interval
    [(bins[i], bins[i+1]]] it falls in, or null. *)
Definition cut1 (bins : list val) (v : val) : option nat :=
  let ids := searchsorted_left bins v in
  if isnan v || (ids =? length bins) || (ids =? 0) then None
  else Some (ids - 1).

(** [pd.cut(x, bins, labels=np.arange(len(bins) - 1))], right-closed
    intervals, as pandas 1.x checks its bins ([np.diff(bins) < 0], then
    duplicates unless there are exactly two edges). *)
Definition cut (x : list val) (bins : list val) : M (list (option nat)) :=
  if existsb (fun d => vltb d (Num 0)) (diff bins) then
    raise (ValueError MsgBinsMonotonic)
  else if (length (unique bins) <? length bins) && negb (length bins =? 2) then
    raise (ValueError MsgBinEdgesUnique)
  else ret (map (cut1 bins) x).

End Pd.
Import Pd.

(* ================================================================= *)
(** * xarray: a DataArray with one coordinate array per dimension *)

Module Xr.

(** An n-dimensional array of values: its shape and the value at each
    index.  Nothing is stored, so an array too large to hold in memory is a
    value like any other. *)
Record ndarray := mkndarray {
  nd_shape : list nat;
  nd_get : list nat -> val
}.

Record DataArray := mkDataArray {
  da_name : string;
  da_axes : list (string * array);     (* dims, in order, with da[dim] *)
  da_values : list nat -> val
}.

Definition da_dims (da : DataArray) : list string := map fst (da_axes da).
Definition da_shape (da : DataArray) : list nat :=
  map (fun kx => size (snd kx)) (da_axes da).
Definition da_size (da : DataArray) : Z :=
  fold_right (fun n acc => (Z.of_nat n * acc)%Z) 1%Z (da_shape da).

Fixpoint assoc {A} (k : string) (l : list (string * A)) : option A :=
  match l with
  | [] => None
  | (k', a) :: r => if String.eqb k k' then Some a else assoc k r
  end.

Definition mem (k : string) (l : list string) : bool :=
  existsb (String.eqb k) l.

(** [da[k]] for a dimension [k] of [da]. *)
Definition da_coord (da : DataArray) (k : string) : array :=
  match assoc k (da_axes da) with
  | Some a => a
  | None => mkarray KO []
  end.

(** One dimension of [da.sel]: the restricted coordinate and the
    position in [da] of its first element. *)
Definition sel_axis (ranges : list (string * (val * val)))
    (kx : string * array) : M (string * array * nat) :=
  let (k, x) := kx in
  match assoc k ranges with
  | None => ret (k, x, 0)
  | Some (lo, hi) =>
      (ss <- slice_locs (elems x) lo hi ;;
       let (start, stop) := ss : nat * nat in
       ret (k, mkarray (dtype_kind x) (py_slice (elems x) start stop), start))%py
  end.

Fixpoint shift (offsets idx : list nat) : list nat :=
  match offsets, idx with
  | o :: os, i :: is_ => (o + i) :: shift os is_
  | _, _ => idx
  end.

(** [da.sel(k1=slice(lo1, hi1), ...)] *)
Definition sel (da : DataArray) (ranges : list (string * (val * val)))
  : M DataArray :=
  (axs <- mapM (sel_axis ranges) (da_axes da) ;;
   let offsets := map snd axs in
   ret (mkDataArray (da_name da) (map fst axs)
                    (fun idx => da_values da (shift offsets idx))))%py.

(** An element of a numpy index tuple: an integer array or [slice(None)]. *)
Inductive index_item :=
| IdxArray (ix : list nat)
| IdxSlice.

Definition is_slice (i : index_item) : bool :=
  match i with IdxSlice => true | IdxArray _ => false end.

Fixpoint drop_while {A} (p : A -> bool) (l : list A) : list A :=
  match l with
  | [] => []
  | a :: r => if p a then drop_while p r else l
  end.

(** Whether the integer arrays of an index tuple are next to each other. *)
Definition adjacent (items : list index_item) : bool :=
  forallb is_slice
    (drop_while (fun i => negb (is_slice i)) (drop_while is_slice items)).

(** The index into the source for row [j] of the integer arrays and the
    positions [s] along the sliced dimensions. *)
Fixpoint fill (items : list index_item) (j : nat) (s : list nat) : list nat :=
  match items with
  | [] => []
  | IdxArray ix :: r => nth j ix 0 :: fill r j s
  | IdxSlice :: r =>
      match s with
      | [] => 0 :: fill r j []
      | h :: t => h :: fill r j t
      end
  end.

Fixpoint sliced_shape (items : list index_item) (shape : list nat) : list nat :=
  match items, shape with
  | IdxSlice :: r, n :: ns => n :: sliced_shape r ns
  | IdxArray _ :: r, _ :: ns => sliced_shape r ns
  | _, _ => []
  end.

Definition count_leading_slices (items : list index_item) : nat :=
  length items - length (drop_while is_slice items).

(** [a[index]] where [index] holds integer arrays of one length [len] and
    full slices.  The dimension of the integer arrays stays in place when
    they are next to each other and comes first otherwise. *)
Definition getitem (a : ndarray) (items : list index_item) (len : nat)
  : ndarray :=
  let ss := sliced_shape items (nd_shape a) in
  if adjacent items then
    let nb := count_leading_slices items in
    mkndarray (firstn nb ss ++ len :: skipn nb ss)
      (fun oi => nd_get a (fill items (nth nb oi 0)
                                (firstn nb oi ++ skipn (S nb) oi)))
  else
    mkndarray (len :: ss)
      (fun oi => nd_get a (fill items (hd 0 oi) (tl oi))).

(** [a.T] *)
Definition transpose (a : ndarray) : ndarray :=
  mkndarray (rev (nd_shape a)) (fun oi => nd_get a (rev oi)).

(** [a[mask] = np.NaN] for a boolean mask along the first dimension. *)
Definition setitem_mask_nan (a : ndarray) (mask : list bool) : M ndarray :=
  let dim := hd 0 (nd_shape a) in
  if dim =? length mask then
    ret (mkndarray (nd_shape a)
           (fun oi => if nth (hd 0 oi) mask false then NaN else nd_get a oi))
  else raise (IndexError (MsgBoolIndexMismatch dim (length mask))).

(** The elements of a one-dimensional array. *)
Definition tolist (a : ndarray) : list val :=
  map (fun i => nd_get a [i]) (seq 0 (hd 0 (nd_shape a))).

End Xr.
Import Xr.

(* ================================================================= *)
(** * munging/collocation.py *)

Module Collocation.

Local Open Scope py_scope.

(** [make_bins], the helper nested in [colocate_dataarray]. *)
Definition make_bins (x : array) : M (list val) :=
  bins <-
    (if is_datetime x then
       let dx := astype_timedelta (mean_int64 (diff64 (map stored (elems x)))) in
       x0 <- item_first (elems x) ;;
       xl <- item_last (elems x) ;;
       arange_datetime (dt_sub (stored x0) (timedelta_div dx 2))
                       (dt_add (stored xl) dx) dx
     else
       let dx := nanmean (diff (elems x)) in
       x0 <- item_first (elems x) ;;
       xl <- item_last (elems x) ;;
       ret (linspace (vsub x0 (vdivn dx 2)) (vadd xl (vdivn dx 2)) (size x + 1))) ;;
  assert (size x + 1 =? length bins) MsgBinsLonger ;;
  ret bins.

Section GriddedCoord.

(** [estimate_grid_spacing] of [munging/grid.py], a module that is not part
    of the sources at hand: it is a parameter of the model. *)
Variable estimate_grid_spacing : list val -> val.

Definition _make_bins_from_gridded_coord (x : array) : M (list val) :=
  bins <-
    (if is_datetime x then
       let dx := astype_timedelta (mean_int64 (diff64 (map stored (elems x)))) in
       x0 <- item_first (elems x) ;;
       xl <- item_last (elems x) ;;
       arange_datetime (dt_sub (stored x0) (timedelta_div dx 2))
                       (dt_add (stored xl) dx) dx
     else
       let dx := estimate_grid_spacing (elems x) in
       x0 <- item_first (elems x) ;;
       xl <- item_last (elems x) ;;
       ret (linspace (vsub x0 (vdivn dx 2)) (vadd xl (vdivn dx 2)) (size x + 1))) ;;
  assert (size x + 1 =? length bins) MsgBinsLonger ;;
  ret bins.

End GriddedCoord.

(** [vprint]: prints only when [verbose]. *)
Definition vprint (verbose : bool) (s : string) : M unit :=
  if verbose then emit (Print s) else ret tt.

(** The ceiling on the number of cells loaded: [720 * 1440 * 365 * 2]. *)
Definition max_size : Z := (720 * 1440 * 365 * 2)%Z.

(** The query: the keyword arguments [coords], in the order given. *)
Definition query := list (string * array).

Definition coord (coords : query) (k : string) : array :=
  match assoc k coords with
  | Some a => a
  | None => mkarray KO []
  end.

(** [binned.isnull().any(axis=1)] for a frame of [len] rows. *)
Definition isnull_any (binned : list (string * list (option nat))) (len : nat)
  : list bool :=
  map (fun j => existsb (fun col =>
                  match nth j (snd col) None with None => true | Some _ => false end)
                binned)
      (seq 0 len).

(** [binned.fillna(0)] then [.astype(int)] *)
Definition fillna0 (col : list (option nat)) : list nat :=
  map (fun c => match c with Some i => i | None => 0 end) col.

Definition colocate_dataarray (da : DataArray) (verbose : bool) (coords : query)
  : M ndarray :=
  let dims := da_dims da in
  let keys := map fst coords in
  let not_matched := filter (fun k => negb (mem k dims)) keys in
  let coord_lengths := nodup Nat.eq_dec (map (fun k => size (coord coords k)) keys) in
  assert (length coord_lengths =? 1) MsgSameLength ;;
  assert (0 <? length keys) MsgAtLeastOne ;;
  assert (length not_matched =? 0) (MsgNotInDa not_matched) ;;
  let type_missmatch :=
    filter (fun k => negb (kind_eqb (dtype_kind (coord coords k))
                                    (dtype_kind (da_coord da k)))) keys in
  assert (length type_missmatch =? 0) (MsgTypeMismatch type_missmatch) ;;
  vprint verbose (da_name da ++ ":")%string ;;
  ranges <- mapM (fun k => lo <- nanmin (elems (coord coords k)) ;;
                           hi <- nanmax (elems (coord coords k)) ;;
                           ret (k, (lo, hi))) keys ;;
  xdr <- sel da ranges ;;
  if (da_size xdr >? max_size)%Z then
    raise (ValueError (MsgRangeTooLarge (da_name da) (da_shape da)))
  else if (da_size xdr =? 0)%Z then
    vprint verbose "no data within coordinate ranges - returning nans" ;;
    ret (mkndarray [hd 0 coord_lengths] (fun _ => NaN))
  else
    vprint verbose "loading" ;;
    emit Load ;;
    vprint verbose "making bins" ;;
    bins <- mapM (fun kx => b <- make_bins (snd kx) ;; ret (fst kx, b)) (da_axes xdr) ;;
    binned <- mapM (fun k => c <- cut (elems (coord coords k))
                                      (match assoc k bins with Some b => b | None => [] end) ;;
                             ret (k, c)) keys ;;
    vprint verbose "fetch data" ;;
    let len := hd 0 coord_lengths in
    let null := isnull_any binned len in
    let index :=
      map (fun key => match assoc key binned with
                      | Some col => IdxArray (fillna0 col)
                      | None => IdxSlice
                      end) dims in
    let out := transpose (getitem (mkndarray (da_shape xdr) (da_values xdr)) index len) in
    setitem_mask_nan out null.

End Collocation.
Import Collocation.


(* ================================================================= *)
(** * [grid_flat_data] and the pandas frame it builds *)

Module FlatGrid.

Local Open Scope py_scope.

(** A row or column label: an integer position or a name. *)
Inductive label :=
| LInt (i : nat)
| LStr (s : string).

(** A pandas Series with the default integer index: a name and values. *)
Record Series := mkSeries { s_name : string; s_values : list val }.

(** A pandas DataFrame: row labels and named columns of values. *)
Record DataFrame := mkDataFrame {
  df_index : list label;
  df_columns : list (string * list val)
}.

(** What a Python name may be bound to at the end of [grid_flat_data]. *)
Inductive pyobj :=
| PdDataFrame (f : DataFrame)
| XrDataArray (f : DataFrame) (sparse : bool)
| XrDataset (f : DataFrame) (sparse : bool).

(** [d.update(other)] on a dict kept in insertion order. *)
Fixpoint dict_set {A} (k : string) (a : A) (d : list (string * A))
  : list (string * A) :=
  match d with
  | [] => [(k, a)]
  | (k', a') :: r => if String.eqb k k' then (k, a) :: r
                     else (k', a') :: dict_set k a r
  end.
Definition dict_update {A} (d other : list (string * A)) : list (string * A) :=
  fold_left (fun acc ka => dict_set (fst ka) (snd ka) acc) other d.

(** [pd.DataFrame.from_dict(cols)]: the columns must have one length; the
    rows get the labels 0, 1, ... *)
Definition from_dict (cols : list (string * list val)) : M DataFrame :=
  let n := match cols with [] => 0 | c :: _ => length (snd c) end in
  if forallb (fun c => length (snd c) =? n) cols then
    ret (mkDataFrame (map LInt (seq 0 n)) cols)
  else raise (ValueError MsgArraysSameLength).

(** [d.get(l)] for a dict keyed by column names. *)
Definition dict_get {A} (d : list (string * A)) (l : label) : option A :=
  match l with
  | LStr s => assoc s d
  | LInt _ => None
  end.

(** The rows of a frame at the given positions. *)
Definition take_rows (f : DataFrame) (rows : list nat) : list (string * list val) :=
  map (fun c => (fst c, map (fun i => nth i (snd c) NaN) rows)) (df_columns f).

(** [df.groupby(by=d).mean()] for a dict [d]: pandas uses a dict as a map
    from ROW LABELS to group keys ("if a dict or Series is passed, the
    Series or dict VALUES will be used to determine the groups"); rows whose
    label has no entry get a null key and are dropped.  A group key must be
    hashable, which an array is not. *)
Definition groupby_dict_mean (f : DataFrame) (d : list (string * list val))
  : M DataFrame :=
  let keyed := map (dict_get d) (df_index f) in
  if existsb (fun k => match k with Some _ => true | None => false end) keyed then
    raise (TypeError MsgUnhashable)
  else
    (* every row was dropped: no group is left *)
    ret (mkDataFrame [] (take_rows f [])).

Definition grid_flat_data (data_columns : list Series) (sparse : bool)
    (coordinate_columns : list (string * Series)) : M pyobj :=
  let sizes := nodup Nat.eq_dec
                 (map (fun kv => length (s_values (snd kv))) coordinate_columns) in
  assert (length sizes =? 1) MsgSameLength ;;
  let coordinate_cols :=
    map (fun kv => (fst kv, s_values (snd kv))) coordinate_columns in
  let coordinate_cols :=
    dict_update coordinate_cols
      (map (fun v => (s_name v, s_values v)) data_columns) in
  df <- from_dict coordinate_cols ;;
  out <- groupby_dict_mean df coordinate_cols ;;
  let out := PdDataFrame out in
  match out with
  | XrDataArray f _ => ret (XrDataArray f sparse)
  | XrDataset f _ => ret (XrDataset f sparse)
  | PdDataFrame _ => ret out
  end.

(** What the specification asks of [grid_flat_data], for comparison: rows
    grouped by the tuple of their coordinate values, each data column
    averaged per group. *)
Definition row_key (coords : list (string * Series)) (i : nat) : list val :=
  map (fun kv => nth i (s_values (snd kv)) NaN) coords.

Definition same_key (a b : list val) : bool :=
  (length a =? length b) && forallb (fun p => same_val (fst p) (snd p)) (combine a b).

Fixpoint distinct_keys (ks : list (list val)) : list (list val) :=
  match ks with
  | [] => []
  | k :: r => k :: filter (fun k' => negb (same_key k k')) (distinct_keys r)
  end.

Definition spec_group_means (data_columns : list Series)
    (coordinate_columns : list (string * Series))
  : list (list val * list (string * val)) :=
  let n := match coordinate_columns with
           | [] => 0
           | kv :: _ => length (s_values (snd kv))
           end in
  let rows := seq 0 n in
  map (fun k =>
         let members := filter (fun i => same_key k (row_key coordinate_columns i)) rows in
         (k, map (fun v => (s_name v,
                            nanmean (map (fun i => nth i (s_values v) NaN) members)))
                 data_columns))
      (distinct_keys (map (row_key coordinate_columns) rows)).

End FlatGrid.
Import FlatGrid.

(* ================================================================= *)
(** * munging/conform.py: the history decorator *)

Module Conform.

Local Open Scope py_scope.

(** [str.isspace] on the characters below 128. *)
Definition is_space (c : ascii) : bool :=
  let n := nat_of_ascii c in
  ((9 <=? n) && (n <=? 13)) || ((28 <=? n) && (n <=? 32)).

Fixpoint lstrip (s : string) : string :=
  match s with
  | EmptyString => EmptyString
  | String c r => if is_space c then lstrip r else s
  end.

Fixpoint rstrip (s : string) : string :=
  match s with
  | EmptyString => EmptyString
  | String c r =>
      match rstrip r with
      | EmptyString => if is_space c then EmptyString else String c EmptyString
      | r' => String c r'
      end
  end.

(** [s.strip()] *)
Definition strip (s : string) : string := rstrip (lstrip s).

(** [s.split(sep)] for a one-character separator. *)
Fixpoint split (sep : ascii) (s : string) : list string :=
  match s with
  | EmptyString => [EmptyString]
  | String c r =>
      if Ascii.eqb c sep then EmptyString :: split sep r
      else match split sep r with
           | h :: t => String c h :: t
           | [] => [String c EmptyString]
           end
  end.

(** [sep.join(l)] *)
Fixpoint join (sep : string) (l : list string) : string :=
  match l with
  | [] => EmptyString
  | [a] => a
  | a :: r => (a ++ sep ++ join sep r)%string
  end.

Definition newline : ascii := ascii_of_nat 10.
Definition semicolon : ascii := ";"%char.

Section Decorator.

(** What a dataset holds besides its attributes, a positional argument and
    the keyword arguments of a transform are left abstract. *)
Variable Content : Type.
Variable Arg : Type.
Variable Kwargs : Type.

(** An xarray object as the decorator sees it: string attributes, and the
    rest. *)
Record Dataset := mkDataset {
  attrs : list (string * string);
  content : Content
}.

(** A dataset given as positional argument. *)
Variable arg_of : Dataset -> Arg.

(** The module global [__version__], and [Timestamp.today()] formatted with
    [%y%m%d] when the note is written. *)
Variable __version__ : string.
Variable now : string.

(** [ds.assign_attrs({key: msg})] *)
Definition assign_attrs (ds : Dataset) (key msg : string) : Dataset :=
  mkDataset (dict_set key msg (attrs ds)) (content ds).

(** [ds.attrs.get(key, '')] *)
Definition attrs_get (ds : Dataset) (key : string) : string :=
  match assoc key (attrs ds) with
  | Some h => h
  | None => EmptyString
  end.

(** An instance of [add_docs_line1_to_attribute_history]. *)
Record decorated := mkdecorated {
  func : list Arg -> Kwargs -> M Dataset;
  name : string;
  msg : string
}.

(** [__init__]: the message is the first line of the stripped docstring, or
    empty when there is none. *)
Definition init (f : list Arg -> Kwargs -> M Dataset) (f_name : string)
    (docs : option string) : decorated :=
  mkdecorated f f_name
    (match docs with
     | Some d => hd EmptyString (split newline (strip d))
     | None => EmptyString
     end).

(** The version part of the prefix.  The source writes it without the [f]
    of a format string, so the braces are literal. *)
Definition version : string :=
  if String.eqb __version__ EmptyString then EmptyString else ".{__version__}".

Definition prefix : string := ("[amc" ++ version ++ "@" ++ now ++ "] ")%string.

(** [_add_history] *)
Definition _add_history (self : decorated) (ds : Dataset) (key : string)
  : Dataset :=
  let m := (prefix ++ msg self)%string in
  let hist := attrs_get ds key in
  let m :=
    if negb (String.eqb hist EmptyString) then
      let hist := split semicolon hist in
      let hist := map strip hist in
      join "; " (hist ++ [m])
    else m in
  assign_attrs ds key m.

(** What [__call__] returns: the dataset with its history, or the bound
    method [__caller__] waiting for a dataset. *)
Inductive called :=
| Out (ds : Dataset)
| Caller (kwargs : Kwargs).

(** [__call__]: with exactly one positional argument the function is run
    and its output annotated (an exception is re-raised); otherwise the
    keyword arguments are kept and [__caller__] is returned. *)
Definition __call__ (self : decorated) (args : list Arg) (kwargs : Kwargs)
  : M called :=
  if length args =? 1 then
    out <- func self args kwargs ;;
    ret (Out (_add_history self out "history"))
  else ret (Caller kwargs).

(** [__caller__] *)
Definition __caller__ (self : decorated) (kwargs : Kwargs) (ds : Dataset)
  : M Dataset :=
  out <- func self [arg_of ds] kwargs ;;
  ret (_add_history self out "history").

(** The bodies of the transforms work on coordinates and data through
    xarray; only their docstrings matter to the decorator.  The docstrings
    of [coord_05_offset] and [correct_coord_names] are given up to the
    section that lists their parameters. *)
Variables lon_180W_180E_body lon_0E_360E_body coord_05_offset_body
  transpose_dims_body correct_coord_names_body interpolate_1deg_body
  time_center_monthly_body : list Arg -> Kwargs -> M Dataset.

Definition nl : string := String newline EmptyString.

Definition lon_180W_180E : decorated :=
  init lon_180W_180E_body "lon_180W_180E"
    (Some (nl ++ "    Regrid the data to [-180 : 180] from [0 : 360]" ++ nl ++ "    ")%string).

Definition lon_0E_360E : decorated :=
  init lon_0E_360E_body "lon_0E_360E"
    (Some (nl ++ "    Regrid the data to [0 : 360] from [-180 : 180] " ++ nl ++ "    ")%string).

Definition coord_05_offset : decorated :=
  init coord_05_offset_body "coord_05_offset"
    (Some (nl ++ "    Interpolate data if the grid centers are offset." ++ nl
           ++ "    Only works for 1deg data" ++ nl ++ "    ")%string).

Definition transpose_dims : decorated :=
  init transpose_dims_body "transpose_dims"
    (Some (nl ++ "    Transpose dimensions to [time, depth, lat, lon]. " ++ nl
           ++ "    Can specify if remaining dimensions should be ordered before " ++ nl
           ++ "    or after the default dimensions." ++ nl ++ "    ")%string).

Definition correct_coord_names : decorated :=
  init correct_coord_names_body "correct_coord_names"
    (Some (nl ++ "    Rename coordinates to [time, lat, lon, depth] with fuzzy matching"
           ++ nl ++ "    " ++ nl ++ "    ")%string).

Definition interpolate_1deg : decorated :=
  init interpolate_1deg_body "interpolate_1deg"
    (Some (nl ++ "    interpolate the data to 1 degree resolution [-89.5 : 89.5] x [-179.5 : 179.5]"
           ++ nl ++ "    ")%string).

Definition time_center_monthly : decorated :=
  init time_center_monthly_body "time_center_monthly"
    (Some (nl ++ "    Date centered on a given date (default 15th)" ++ nl
           ++ "    " ++ nl ++ "    Data must be monthly for this function to work" ++ nl ++ "    ")%string).

Definition _func_registry : list decorated :=
  [ lon_0E_360E; lon_180W_180E; interpolate_1deg; coord_05_offset;
    transpose_dims; correct_coord_names; time_center_monthly ].

End Decorator.

End Conform.

(* ================================================================= *)
(** * stats/seas_cycle.py: the checks of the seasonal-cycle fitters *)

Module SeasCycle.

Local Open Scope py_scope.

(** A time stamp; the code reads its [.dt.year] (and [.dt.month]). *)
Record datetime := mkdatetime { year : Z; month : nat; day : nat }.

(** [np.unique(years, return_counts=True)]: the distinct years in
    increasing order, each with its number of occurrences. *)
Fixpoint insert_count (y : Z) (l : list (Z * nat)) : list (Z * nat) :=
  match l with
  | [] => [(y, 1)]
  | (y', c) :: r =>
      if (y <? y')%Z then (y, 1) :: l
      else if (y =? y')%Z then (y', S c) :: r
      else (y', c) :: insert_count y r
  end.
Definition unique_counts (years : list Z) : list (Z * nat) :=
  fold_right insert_count [] years.

Definition _get_number_of_time_steps_in_year (time : list datetime)
    (raise_if_uneven : bool) : M nat :=
  let years := map year time in
  let counts := map snd (unique_counts years) in
  match counts with
  | [] => raise (IndexError MsgIndexOutOfBounds)
  | c0 :: _ =>
      let all_the_same := forallb (fun c => c =? c0) counts in
      if negb all_the_same && raise_if_uneven then
        raise (ValueError MsgNotEvenlySpaced)
      else ret c0
  end.

Section Fitters.

(** The values of the array and the result of a fit are left abstract, and so
    are the computations that follow the checks: rolling windows with a
    least-squares fit of the harmonic model, or with monthly means. *)
Variable Values : Type.
Variable Dataset : Type.
Variable graven_fit :
  list datetime -> Values -> forall (window stride : Z), M Dataset.
Variable climatology_means :
  list datetime -> Values -> forall (window stride : Z), M Dataset.

(** A DataArray: its coordinates by name, and its values. *)
Record DataArray := mkDataArray {
  da_coords : list (string * list datetime);
  da_data : Values
}.

(** [da[dim]] *)
Definition da_getitem (da : DataArray) (dim : string) : M (list datetime) :=
  match assoc dim (da_coords da) with
  | Some t => ret t
  | None => raise (KeyError (MsgNoSuchCoord dim))
  end.

Definition seascycl_fit_graven (da : DataArray) (n_years : Z) (dim : string)
  : M Dataset :=
  time <- da_getitem da dim ;;
  stride <- _get_number_of_time_steps_in_year time true ;;
  let window := (n_years * Z.of_nat stride)%Z in
  assert (stride =? 12) MsgMonthlyOnly ;;
  assert (negb (n_years mod 2 =? 0)%Z) MsgOddYears ;;
  graven_fit time (da_data da) window (Z.of_nat stride).

Definition seascycl_fit_climatology (da : DataArray) (n_years : Z) (dim : string)
  : M Dataset :=
  time <- da_getitem da dim ;;
  stride <- _get_number_of_time_steps_in_year time true ;;
  assert (stride =? 12) MsgMonthlyOnly ;;
  let window := (n_years * Z.of_nat stride)%Z in
  climatology_means time (da_data da) window (Z.of_nat stride).

End Fitters.

(** A series sampled once a month: [n] consecutive months starting with
    month [m0] (1 to 12) of year [y0]. *)
Definition month_index (t : datetime) : Z :=
  (12 * year t + Z.of_nat (month t) - 1)%Z.
Definition monthly_from (start : Z) (n : nat) : list datetime :=
  map (fun i => let k := (start + Z.of_nat i)%Z in
                mkdatetime (k / 12) (Z.to_nat (k mod 12) + 1) 15)
      (seq 0 n).

(** Monthly cadence: each sample is one calendar month after the previous
    one. *)
Fixpoint monthly_cadence (time : list datetime) : bool :=
  match time with
  | a :: ((b :: _) as r) =>
      (month_index b =? month_index a + 1)%Z && monthly_cadence r
  | _ => true
  end.

End SeasCycle.

(* ================================================================= *)
(** * Vocabulary of the properties *)

Unset Implicit Arguments.

Definition inside (lo c hi : val) : Prop :=
  match lo, c, hi with
  | Num l, Num x, Num h => (l < x /\ x <= h)%Q
  | _, _, _ => False
  end.

(** Each center lies in the interval between its two edges. *)
Definition centers_inside (centers bins : list val) : Prop :=
  forall i, i < length centers ->
    inside (nth i bins NaN) (nth i centers NaN) (nth (S i) bins NaN).

(** The edge [i] is the number [e], up to the representation of rationals. *)
Definition edge_is (bins : list val) (i : nat) (e : Q) : Prop :=
  match nth i bins NaN with
  | Num b => (b == e)%Q
  | NaN => False
  end.

(** Centers evenly spaced by [d], starting at [a]. *)
Definition evenly_spaced (qs : list Q) (a d : Q) : Prop :=
  forall i, i < length qs -> (nth i qs 0 == a + inject_Z (Z.of_nat i) * d)%Q.

Definition strictly_increasing (l : list val) : bool := pairwise vltb l.

(** The edges [make_bins] computes for datetime centers evenly spaced by
    [zd >= 2] nanoseconds. *)
Definition datetime_edges (za zd : Z) (n : nat) : list val :=
  map (fun i => Num (inject_Z (za - Z.quot zd 2 + Z.of_nat i * zd))) (seq 0 (S n)).

(** An integer that a float64 holds exactly. *)
Definition representable (z : Z) : Prop := round64 (inject_Z z) = inject_Z z.

(** [n] datetime centers from [first], [step] nanoseconds apart, within
    the int64: the first edge is above the smallest int64 (which is NaT),
    the last center and a step stay below [2 ^ 63], and so does what
    [np.arange] adds up for its length. *)
Definition fits_int64 (first step : Z) (n : nat) : Prop :=
  (- 2 ^ 63 < first - Z.quot step 2)%Z /\
  (first + Z.of_nat n * step < 2 ^ 63)%Z /\
  ((Z.of_nat n + 1) * step + Z.quot step 2 <= 2 ^ 63)%Z.

Definition keys_of (coords : query) : list string := map fst coords.

Definition not_matched_of (da : DataArray) (coords : query) : list string :=
  filter (fun k => negb (mem k (da_dims da))) (keys_of coords).

Definition type_missmatch_of (da : DataArray) (coords : query) : list string :=
  filter (fun k => negb (kind_eqb (dtype_kind (coord coords k))
                                  (dtype_kind (da_coord da k)))) (keys_of coords).

(** All query arrays have [len] elements. *)
Definition same_length (coords : query) (len : nat) : Prop :=
  forall k, In k (keys_of coords) -> size (coord coords k) = len.

(** A query that passes the four assertions. *)
Record valid_query (da : DataArray) (coords : query) (len : nat) : Prop := {
  vq_nonempty : coords <> [];
  vq_length : same_length coords len;
  vq_matched : not_matched_of da coords = [];
  vq_kinds : type_missmatch_of da coords = []
}.

(** The bounding range of each query array. *)
Definition query_ranges (coords : query) : M (list (string * (val * val))) :=
  mapM (fun k => bind (nanmin (elems (coord coords k))) (fun lo =>
                 bind (nanmax (elems (coord coords k))) (fun hi =>
                 ret (k, (lo, hi))))) (keys_of coords).

(** What is left of [colocate_dataarray] once the query is restricted to
    [xdr]. *)
Definition colocate_rest (da xdr : DataArray) (verbose : bool) (coords : query)
    (len : nat) : M ndarray :=
  if (da_size xdr >? max_size)%Z then
    raise (ValueError (MsgRangeTooLarge (da_name da) (da_shape da)))
  else if (da_size xdr =? 0)%Z then
    bind (vprint verbose "no data within coordinate ranges - returning nans") (fun _ =>
    ret (mkndarray [len] (fun _ => NaN)))
  else
    bind (vprint verbose "loading") (fun _ =>
    bind (emit Load) (fun _ =>
    bind (vprint verbose "making bins") (fun _ =>
    bind (mapM (fun kx => bind (make_bins (snd kx)) (fun b => ret (fst kx, b)))
               (da_axes xdr)) (fun bins =>
    bind (mapM (fun k => bind (cut (elems (coord coords k))
                                   (match assoc k bins with Some b => b | None => [] end))
                              (fun c => ret (k, c))) (keys_of coords)) (fun binned =>
    bind (vprint verbose "fetch data") (fun _ =>
    setitem_mask_nan
      (transpose
         (getitem (mkndarray (da_shape xdr) (da_values xdr))
            (map (fun key => match assoc key binned with
                             | Some col => IdxArray (fillna0 col)
                             | None => IdxSlice
                             end) (da_dims da))
            len))
      (isnull_any binned len))))))).

(** ** Sample data *)

(** The target of the specification's scenario: [lat = [-1, 0, 1]] with the
    values 10, 20, 30. *)
Definition lat3 : DataArray :=
  mkDataArray "sst" [("lat", mkarray Kf [Num (-1); Num 0; Num 1])]
    (fun idx => match idx with
                | [0] => Num 10
                | [1] => Num 20
                | [2] => Num 30
                | _ => NaN
                end).

(** A target whose centers are not evenly spaced. *)
Definition uneven3 : DataArray :=
  mkDataArray "sst" [("lat", mkarray Kf [Num 0; Num 1; Num 10])]
    (fun idx => match idx with
                | [0] => Num 10
                | [1] => Num 20
                | [2] => Num 30
                | _ => NaN
                end).

(** Two years of daily fields on a quarter-degree grid:
    731 x 720 x 1440 cells, more than the ceiling. *)
Definition quarter_degree (first : Q) (n : nat) : array :=
  mkarray Kf (map (fun i => Num (first + inject_Z (Z.of_nat i) * (1 # 4))%Q) (seq 0 n)).
Definition daily (n : nat) : array :=
  mkarray KM (map (fun i => Num (inject_Z (Z.of_nat i * 86400000000000))) (seq 0 n)).
Definition daily_quarter_degree : DataArray :=
  mkDataArray "sst"
    [("time", daily 731);
     ("lat", quarter_degree (- (719 # 8)) 720);
     ("lon", quarter_degree (- (1439 # 8)) 1440)]
    (fun _ => Num 0).

(** ** Sorted numeric targets and the rows of a query *)

(** Strictly increasing numbers. *)
Fixpoint increasing (qs : list Q) : Prop :=
  match qs with
  | a :: ((b :: _) as r) => (a < b)%Q /\ increasing r
  | _ => True
  end.

(** A coordinate that is not a datetime and holds strictly increasing
    numbers. *)
Definition numeric_sorted_axis (x : array) : Prop :=
  kind_eqb (dtype_kind x) KM = false /\
  exists qs, elems x = map Num qs /\ increasing qs.

Definition numeric_sorted (da : DataArray) : Prop :=
  forall kx, In kx (da_axes da) -> numeric_sorted_axis (snd kx).

(** The query names every dimension of the target. *)
Definition full_query (da : DataArray) (coords : query) : Prop :=
  forall d, In d (da_dims da) -> In d (keys_of coords).

(** [sel_axis] on a sorted coordinate. *)
Definition restrict_axis (ranges : list (string * (val * val)))
    (kx : string * array) : string * array * nat :=
  match assoc (fst kx) ranges with
  | None => (fst kx, snd kx, 0)
  | Some (lo, hi) =>
      let start := searchsorted_left (elems (snd kx)) lo in
      let stop := searchsorted_right (elems (snd kx)) hi in
      (fst kx,
       mkarray (dtype_kind (snd kx)) (py_slice (elems (snd kx)) start stop),
       start)
  end.

(** [sel] on a target with sorted coordinates. *)
Definition restricted (da : DataArray) (ranges : list (string * (val * val)))
  : DataArray :=
  mkDataArray (da_name da)
    (map fst (map (restrict_axis ranges) (da_axes da)))
    (fun idx => da_values da
                  (shift (map snd (map (restrict_axis ranges) (da_axes da))) idx)).

(** The edges [make_bins] returns for numeric centers. *)
Definition edges_of (x : list val) : list val :=
  match x with
  | [] => []
  | a :: r =>
      let dx := nanmean (diff x) in
      linspace (vsub a (vdivn dx 2)) (vadd (List.last r a) (vdivn dx 2))
               (S (length r) + 1)
  end.

Definition bins_for (xdr : DataArray) (k : string) : list val :=
  edges_of (elems (da_coord xdr k)).

(** The bin of row [j] of the query along the dimension [k]. *)
Definition row_code (xdr : DataArray) (coords : query) (k : string) (j : nat)
  : option nat :=
  cut1 (bins_for xdr k) (nth j (elems (coord coords k)) NaN).

Definition is_none {A} (o : option A) : bool :=
  match o with None => true | Some _ => false end.

(** Row [j] has a coordinate that is NaN or outside every bin. *)
Definition row_null (xdr : DataArray) (coords : query) (j : nat) : bool :=
  existsb (fun k => is_none (row_code xdr coords k j)) (keys_of coords).

(** The cell of the restricted target that row [j] falls in. *)
Definition row_cell (xdr : DataArray) (coords : query) (j : nat) : list nat :=
  map (fun d => match row_code xdr coords d j with Some c => c | None => 0 end)
      (da_dims xdr).

Definition row_value (xdr : DataArray) (coords : query) (j : nat) : val :=
  if row_null xdr coords j then NaN else da_values xdr (row_cell xdr coords j).

(** The bounding range [np.nanmin], [np.nanmax] of a query array. *)
Definition range_of (l : list val) : val * val :=
  match l with
  | [] => (NaN, NaN)
  | a :: r => (fold_left vmin r a, fold_left vmax r a)
  end.

Definition ranges_of (coords : query) : list (string * (val * val)) :=
  map (fun k => (k, range_of (elems (coord coords k)))) (keys_of coords).

(** The value [v] lies in the bin [i] of the edges [bins]. *)
Definition in_bin (bins : list val) (i : nat) (v : val) : Prop :=
  inside (nth i bins NaN) v (nth (S i) bins NaN).

(** The value [v] lies in none of the bins. *)
Definition outside_every_bin (bins : list val) (v : val) : Prop :=
  forall i, S i < length bins -> ~ in_bin bins i v.

(** The coordinate of row [j] of the query along [k]. *)
Definition query_at (coords : query) (k : string) (j : nat) : val :=
  nth j (elems (coord coords k)) NaN.

(** An array with one dimension whose elements all are NaN. *)
Definition all_nan (out : ndarray) (len : nat) : Prop :=
  nd_shape out = [len] /\ forall idx, nd_get out idx = NaN.

(** ** Comparing two runs *)

(** The error [pd.cut] raises on the edges [bins], if any: it does not
    depend on the values that are cut. *)
Definition cut_check (bins : list val) : option exn :=
  if existsb (fun d => vltb d (Num 0)) (diff bins) then
    Some (ValueError MsgBinsMonotonic)
  else if (length (unique bins) <? length bins) && negb (length bins =? 2) then
    Some (ValueError MsgBinEdgesUnique)
  else None.

(** The first error met when the arrays of the query are cut in turn. *)
Fixpoint first_error (bins : string -> list val) (keys : list string) : option exn :=
  match keys with
  | [] => None
  | k :: r =>
      match cut_check (bins k) with
      | Some e => Some e
      | None => first_error bins r
      end
  end.

(** Two runs emit the same events and end alike: with the same exception,
    or with arrays of the same shape. *)
Definition same_outcome (m m' : M ndarray) : Prop :=
  events m = events m' /\
  match result m, result m' with
  | Raise e, Raise e' => e = e'
  | Return o, Return o' => nd_shape o = nd_shape o'
  | _, _ => False
  end.

(** Row [j] of the query holds a NaN. *)
Definition nan_row (coords : query) (j : nat) : Prop :=
  exists k, In k (keys_of coords) /\ query_at coords k j = NaN.

(** The two queries have the same row [j]. *)
Definition same_row (coords coords' : query) (j : nat) : Prop :=
  forall k, In k (keys_of coords) -> query_at coords' k j = query_at coords k j.

(** The edges of the dimension [k] among those computed for a target. *)
Definition edges_in (bins : list (string * list val)) (k : string) : list val :=
  match assoc k bins with Some b => b | None => [] end.

(** The value of row [j], for whatever edges were computed. *)
Definition row_value_with (bins : list (string * list val)) (xdr : DataArray)
    (coords : query) (j : nat) : val :=
  if existsb (fun k => is_none (cut1 (edges_in bins k) (query_at coords k j)))
             (keys_of coords)
  then NaN
  else da_values xdr
         (map (fun d => match cut1 (edges_in bins d) (query_at coords d j) with
                        | Some c => c
                        | None => 0
                        end) (da_dims xdr)).

(** [make_bins] on every coordinate of the restricted target. *)
Definition all_bins (xdr : DataArray) : M (list (string * list val)) :=
  mapM (fun kx => bind (make_bins (snd kx)) (fun b => ret (fst kx, b))) (da_axes xdr).

Definition notnan (v : val) : bool := negb (isnan v).

(** ** Seasonal cycle: sample series *)

(** How many samples of the time axis fall in the year [y]. *)
Definition samples_in (time : list SeasCycle.datetime) (y : Z) : nat :=
  count_occ Z.eq_dec (map SeasCycle.year time) y.

(** Two complete years of monthly samples, January 2000 to December 2001. *)
Definition two_years : list SeasCycle.datetime :=
  SeasCycle.monthly_from (12 * 2000) 24.

(** Monthly samples from March 2000 to December 2001: the first year is
    incomplete. *)
Definition late_start : list SeasCycle.datetime :=
  SeasCycle.monthly_from (12 * 2000 + 2) 22.

(** Twelve samples a year that are not monthly: the first twelve days of
    January 2000 and of January 2001. *)
Definition january_days : list SeasCycle.datetime :=
  map (fun d => SeasCycle.mkdatetime 2000 1 (S d)) (seq 0 12)
  ++ map (fun d => SeasCycle.mkdatetime 2001 1 (S d)) (seq 0 12).

(** A run is rejected when it ends with an exception. *)
Definition rejected {A} (m : M A) : Prop := exists e, result m = Raise e.

(** The count recorded for the year [y]. *)
Fixpoint get_count (y : Z) (l : list (Z * nat)) : nat :=
  match l with
  | [] => 0
  | (y', c) :: r => if (y =? y')%Z then c else get_count y r
  end.

(** Years in strictly increasing order. *)
Fixpoint sorted_years (l : list (Z * nat)) : Prop :=
  match l with
  | [] => True
  | (y, _) :: r => Forall (fun p => (y < fst p)%Z) r /\ sorted_years r
  end.

(** ** Strings *)

(** The character [c] occurs in [s]. *)
Fixpoint contains (c : ascii) (s : string) : bool :=
  match s with
  | EmptyString => false
  | String c' r => Ascii.eqb c' c || contains c r
  end.

(** ** Flat data: a sample *)

(** Three rows, two of them at latitude 0. *)
Definition flat_v : Series := mkSeries "v" [Num 1; Num 2; Num 3].
Definition flat_lat : Series := mkSeries "lat" [Num 0; Num 0; Num 1].

(** ** Queries on the centers of an evenly spaced grid *)

(** A coordinate that is not a datetime and whose centers are a constant
    step [d > 0] apart. *)
Definition even_axis (x : array) : Prop :=
  kind_eqb (dtype_kind x) KM = false /\
  exists qs a d, elems x = map Num qs /\ (0 < d)%Q /\ evenly_spaced qs a d.

Definition even_grid (da : DataArray) : Prop :=
  forall kx, In kx (da_axes da) -> even_axis (snd kx).

(** The value [v] is the center [p] of the coordinate [x]. *)
Definition at_center (x : array) (v : val) (p : nat) : Prop :=
  p < size x /\
  match v, nth p (elems x) NaN with
  | Num a, Num b => (a == b)%Q
  | _, _ => False
  end.

(** Every row [j] of the query sits, along each dimension [k], at the
    center [pos k j] of the target. *)
Definition on_grid (da : DataArray) (coords : query) (len : nat)
    (pos : string -> nat -> nat) : Prop :=
  forall k, In k (keys_of coords) ->
  forall j, j < len -> at_center (da_coord da k) (query_at coords k j) (pos k j).

(** Along each dimension the query visits two centers at least. *)
Definition two_centers (coords : query) (len : nat)
    (pos : string -> nat -> nat) : Prop :=
  forall k, In k (keys_of coords) ->
  exists j j', j < len /\ j' < len /\ pos k j < pos k j'.

(** Three latitudes by three longitudes: the value at latitude [i] and
    longitude [j] is [10 * i + j + 1]. *)
Definition square : DataArray :=
  mkDataArray "sst"
    [("lat", mkarray Kf [Num (-1); Num 0; Num 1]);
     ("lon", mkarray Kf [Num 0; Num 1; Num 2])]
    (fun idx => match idx with
                | [i; j] => Num (inject_Z (Z.of_nat (10 * i + j + 1)))
                | _ => NaN
                end).

(** A target with two dimensions, three latitudes and two longitudes. *)
Definition latlon : DataArray :=
  mkDataArray "sst"
    [("lat", mkarray Kf [Num (-1); Num 0; Num 1]);
     ("lon", mkarray Kf [Num 0; Num 1])]
    (fun idx => match idx with
                | [i; j] => Num (inject_Z (Z.of_nat (10 * i + j)))
                | _ => NaN
                end).

(* ================================================================= *)
(** * Further vocabulary: how [colocate_dataarray] ends *)

(** The events that are not printed. *)
Definition is_load (ev : event) : bool :=
  match ev with
  | Load => true
  | Print _ => false
  end.

(** The run [m] is the run [m'] with its printing left out. *)
Definition quiet {A} (m m' : M A) : Prop :=
  result m = result m' /\ events m = filter is_load (events m').

(** Strictly decreasing numbers. *)
Fixpoint decreasing (qs : list Q) : Prop :=
  match qs with
  | a :: ((b :: _) as r) => (b < a)%Q /\ decreasing r
  | _ => True
  end.

(** A coordinate pandas can slice by label: monotonic, either way. *)
Definition monotonic_axis (x : array) : Prop :=
  is_monotonic_increasing (elems x) = true \/
  is_monotonic_decreasing (elems x) = true.

(** A target with latitudes from north to south. *)
Definition north_south : DataArray :=
  mkDataArray "sst" [("lat", mkarray Kf [Num 1; Num 0; Num (-1)])]
    (fun idx => match idx with
                | [0] => Num 30
                | [1] => Num 20
                | [2] => Num 10
                | _ => NaN
                end).

(** The exceptions [colocate_dataarray] ends with, in the model: three of
    its own assertions and the one of [make_bins], its ValueError and those
    of numpy and pandas, the KeyError of a label slice on an index that is
    not sorted, and the IndexError of a mask that does not fit. *)
Definition colocate_failure (e : exn) : Prop :=
  match e with
  | AssertionError MsgSameLength
  | AssertionError (MsgNotInDa _)
  | AssertionError (MsgTypeMismatch _)
  | AssertionError MsgBinsLonger
  | ValueError MsgZeroSizeReduction
  | ValueError (MsgRangeTooLarge _ _)
  | ValueError MsgArangeNaT
  | ValueError MsgArangeZeroStep
  | ValueError MsgNegativeDimensions
  | ValueError MsgBinsMonotonic
  | ValueError MsgBinEdgesUnique
  | KeyError MsgIndexNotMonotonic
  | IndexError (MsgBoolIndexMismatch _ _) => True
  | _ => False
  end.

(** ** Datetime centers, evenly spaced or not *)

(** Centers given as whole numbers of nanoseconds. *)
Definition datetimes (zs : list Z) : array :=
  mkarray KM (map (fun z => Num (inject_Z z)) zs).

(** Whole numbers of nanoseconds that an int64 holds, NaT apart. *)
Definition in_int64 (z : Z) : Prop := (- 2 ^ 63 < z < 2 ^ 63)%Z.

(** The step the bin constructors take for the datetime centers [zs]:
    the mean of the stored differences, taken in float64 as numpy does,
    and truncated. *)
Definition datetime_step (zs : list Z) : Z :=
  astype_timedelta (mean_int64 (diff64 zs)).

(** What the centers [z0 :: r] span beyond as many steps as they have
    differences (or short of them, when the mean was rounded up). *)
Definition datetime_rest (z0 : Z) (r : list Z) : Z :=
  (List.last r z0 - z0 - Z.of_nat (length r) * datetime_step (z0 :: r))%Z.

(** The edges fit: the rest and half a step make between one nanosecond
    and a whole step. *)
Definition edges_fit (z0 : Z) (r : list Z) : bool :=
  ((1 <=? datetime_rest z0 r + Z.quot (datetime_step (z0 :: r)) 2)
   && (datetime_rest z0 r + Z.quot (datetime_step (z0 :: r)) 2
       <=? datetime_step (z0 :: r)))%Z.

(** The ends of [np.arange] and what it adds up for its length stay
    within the int64. *)
Definition arange_fits (first last dx : Z) : Prop :=
  (- 2 ^ 63 < first - Z.quot dx 2)%Z /\
  (last + dx < 2 ^ 63)%Z /\
  (last + dx - (first - Z.quot dx 2) + dx <= 2 ^ 63)%Z.

(** The first days of the months of 1970, in nanoseconds. *)
Definition month_starts : list Z :=
  map (fun d => (d * 86400000000000)%Z)
      [0; 31; 59; 90; 120; 151; 181; 212; 243; 273; 304; 334]%Z.

(** ** Queries that leave dimensions out *)

(** The positions of row [j] along the dimensions [dims]. *)
Definition row_cell_on (xdr : DataArray) (coords : query) (dims : list string)
    (j : nat) : list nat :=
  map (fun d => match row_code xdr coords d j with Some c => c | None => 0 end) dims.

(** Daily profiles on three latitudes: the value at day [t] and latitude
    [i] is [10 * i + t]. *)
Definition profiles : DataArray :=
  mkDataArray "sst"
    [("depth", mkarray Kf [Num 5; Num 15]);
     ("lat", mkarray Kf [Num (-1); Num 0; Num 1])]
    (fun idx => match idx with
                | [t; i] => Num (inject_Z (Z.of_nat (10 * i + t)))
                | _ => NaN
                end).

(* ================================================================= *)
(** * Exceptions with their message *)

(** The code modelled from here on raises exceptions that the list of
    messages above does not hold; they are kept with their text (that of
    the source for its own exceptions, that of the library otherwise). *)
Module Exc.

Inductive exn :=
| AssertionError (msg : string)
| ValueError (msg : string)
| KeyError (msg : string)
| IndexError (msg : string)
| AttributeError (msg : string)
| UnboundLocalError (msg : string).

Inductive res (A : Type) :=
| Err (e : exn)
| Ok (a : A).
Arguments Err {A} e.
Arguments Ok {A} a.

Definition bind {A B} (m : res A) (f : A -> res B) : res B :=
  match m with
  | Err e => Err e
  | Ok a => f a
  end.

Fixpoint mapM {A B} (f : A -> res B) (l : list A) : res (list B) :=
  match l with
  | [] => Ok []
  | a :: r => bind (f a) (fun b => bind (mapM f r) (fun bs => Ok (b :: bs)))
  end.

End Exc.

(* ================================================================= *)
(** * stats/seas_cycle.py: the monthly means of [seascycl_fit_climatology] *)

(** What follows the checks of [seascycl_fit_climatology], for a series
    that has the time dimension only: [da_data] holds one value per time
    step.

    xarray's rolling windows are aligned to the right when [center=False]:
    the window at step [i] holds the steps [i - window + 1] to [i], the
    steps before the start of the series being NaN.  [construct] with a
    [stride] keeps the windows at the steps 0, [stride], 2 [stride], ... *)
Module Climatology.

(** The positions [0, stride, 2 * stride, ...] below [n]: [x[::stride]]
    (the stride is 12 when the code gets here). *)
Definition every (stride n : nat) : list nat :=
  map (fun r => r * stride) (seq 0 ((n + stride - 1) / stride)).

(** [da.rolling(time=window, center=False, min_periods=stride)
       .construct(time="month", stride=stride)]:
    one row per kept step [i], its element [p] being the value at the
    step [i - window + 1 + p]. *)
Definition construct (x : list val) (n window stride : nat) : list (list val) :=
  map (fun i =>
         map (fun p => if window <=? i + p + 1
                       then nth (i + p + 1 - window) x NaN
                       else NaN)
             (seq 0 window))
      (every stride n).

(** [np.arange(window) % 12 + 1] *)
Definition month_labels (window : nat) : list nat :=
  map (fun p => p mod 12 + 1) (seq 0 window).

Definition isin (m : nat) (l : list nat) : bool := existsb (Nat.eqb m) l.

(** The distinct labels in increasing order. *)
Definition unique_sorted (l : list nat) : list nat :=
  filter (fun m => isin m l) (seq 0 (S (list_max l))).

(** [.assign_coords(month=labels).groupby("month").mean()] on one row: for
    each distinct label, the mean of the elements that carry it, NaNs
    skipped. *)
Definition groupby_mean (labels : list nat) (row : list val) : list (nat * val) :=
  map (fun m =>
         (m, nanmean (map snd (filter (fun lv => fst lv =? m) (combine labels row)))))
      (unique_sorted labels).

(** [x.sel(month=m)] for one label. *)
Definition sel_label (row : list (nat * val)) (m : nat) : Exc.res val :=
  match find (fun lv => fst lv =? m) row with
  | Some lv => Exc.Ok (snd lv)
  | None => Exc.Err (Exc.KeyError "not all values found in index 'month'")
  end.

(** [mon_avg = lambda x, m: x.sel(month=m).mean("month")] *)
Definition mon_avg (row : list (nat * val)) (m : list nat) : Exc.res val :=
  Exc.bind (Exc.mapM (sel_label row) m) (fun vs => Exc.Ok (nanmean vs)).

(** The Dataset returned: for each kept step the twelve labelled means, and
    their difference [jja_minus_djf]. *)
Record Dataset := mkDataset {
  seas_cycle : list (list (nat * val));
  jja_minus_djf : list val
}.

(** The computation, as a continuation of the checks of
    [SeasCycle.seascycl_fit_climatology]; an exception raised here is the
    [Exc.Err] of the value returned. *)
Definition climatology_means (time : list SeasCycle.datetime) (x : list val)
    (window stride : Z) : M (Exc.res Dataset) :=
  ret (if (window <=? 0)%Z then Exc.Err (Exc.ValueError "window must be > 0")
       else
         let seas :=
           map (groupby_mean (month_labels (Z.to_nat window)))
               (construct x (length time) (Z.to_nat window) (Z.to_nat stride)) in
         Exc.bind
           (Exc.mapM (fun row =>
                        Exc.bind (mon_avg row [6; 7; 8]) (fun jja =>
                        Exc.bind (mon_avg row [12; 1; 2]) (fun djf =>
                        Exc.Ok (vsub jja djf))))
                     seas)
           (fun d => Exc.Ok (mkDataset seas d))).

(** The mean of the value labelled [m] in the row of the kept step
    [12 * r], for a window of [n] years: the labelled element of year [q]
    of the window is the step [12 * (r + q) + m - 12 * n]. *)
Definition labelled_mean (x : list val) (n r m : nat) : val :=
  nanmean (map (fun q => if 12 * n <=? 12 * (r + q) + m
                         then nth (12 * (r + q) + m - 12 * n) x NaN
                         else NaN)
               (seq 0 n)).

End Climatology.

(** Two whole years of monthly samples, each holding the number of its
    calendar month. *)
Definition month_numbers : SeasCycle.DataArray (list val) :=
  SeasCycle.mkDataArray [("time", two_years)]
    (map (fun t => Num (inject_Z (Z.of_nat (SeasCycle.month t)))) two_years).

(* ================================================================= *)
(** * munging/conform.py: the longitude transforms *)

From Stdlib Require Import Permutation.

(** The bodies of [lon_180W_180E] and [lon_0E_360E] on a DataArray whose
    coordinates are those of its dimensions and hold numbers. *)
Module Lon.

(** Python's [x % m] on floats, for [m > 0]: the result has the sign of
    [m]. *)
Definition pymod (x m : Q) : Q := (x - m * inject_Z (Qfloor (x / m)))%Q.

Definition vmod (v : val) (m : Q) : val :=
  match v with
  | Num x => Num (pymod x m)
  | NaN => NaN
  end.

(** [(lon - 180) % 360 - 180] *)
Definition to_180 (v : val) : val :=
  vsub (vmod (vsub v (Num 180)) 360) (Num 180).

(** [lon % 360] *)
Definition to_360 (v : val) : val := vmod v 360.

(** The position of a dimension. *)
Fixpoint index_of (k : string) (dims : list string) : option nat :=
  match dims with
  | [] => None
  | k' :: r => if String.eqb k k' then Some 0
               else match index_of k r with
                    | Some i => Some (S i)
                    | None => None
                    end
  end.

(** [ds[name]] *)
Definition getitem (da : DataArray) (name : string) : Exc.res array :=
  match assoc name (da_axes da) with
  | Some x => Exc.Ok x
  | None => Exc.Err (Exc.KeyError name)
  end.

(** [ds.assign_coords({name: new})] for one-dimensional values [new]: the
    name must be that of a dimension, of the length of [new]. *)
Definition assign_coords (da : DataArray) (name : string) (new : list val)
  : Exc.res DataArray :=
  match assoc name (da_axes da) with
  | None =>
      Exc.Err (Exc.ValueError
        "cannot set variable with 1-dimensional data without explicit dimension names")
  | Some x =>
      if length new =? size x then
        Exc.Ok (mkDataArray (da_name da)
                  (map (fun kx => if String.eqb (fst kx) name
                                  then (fst kx, mkarray (dtype_kind (snd kx)) new)
                                  else kx)
                       (da_axes da))
                  (da_values da))
      else Exc.Err (Exc.ValueError "conflicting sizes for dimension")
  end.

(** [np.lexsort] on one key: the positions in the order of their keys,
    equal keys in the order of their positions, NaN last. *)
Fixpoint insert_pos (key : nat -> val) (i : nat) (l : list nat) : list nat :=
  match l with
  | [] => [i]
  | j :: r => if sort_leb (key i) (key j) then i :: l
              else j :: insert_pos key i r
  end.
Definition argsort (xs : list val) : list nat :=
  fold_right (insert_pos (fun i => nth i xs NaN)) [] (seq 0 (length xs)).

(** The index [idx] with its element [d] sent through [f]. *)
Fixpoint at_pos (d : nat) (f : nat -> nat) (idx : list nat) {struct idx}
  : list nat :=
  match idx with
  | [] => []
  | i :: r => match d with
              | 0 => f i :: r
              | S d' => i :: at_pos d' f r
              end
  end.

(** [ds.sortby(name)]: the positions along [name] in the order of the
    coordinate, the values following their coordinates. *)
Definition sortby (da : DataArray) (name : string) : Exc.res DataArray :=
  match assoc name (da_axes da), index_of name (da_dims da) with
  | Some x, Some d =>
      let order := argsort (elems x) in
      Exc.Ok (mkDataArray (da_name da)
                (map (fun kx => if String.eqb (fst kx) name
                                then (fst kx,
                                      mkarray (dtype_kind (snd kx))
                                        (map (fun i => nth i (elems (snd kx)) NaN) order))
                                else kx)
                     (da_axes da))
                (fun idx => da_values da (at_pos d (fun j => nth j order 0) idx)))
  | _, _ => Exc.Err (Exc.KeyError name)
  end.

Definition lon_180W_180E (ds : DataArray) (lon_name : string) : Exc.res DataArray :=
  if negb (mem lon_name (da_dims ds)) then Exc.Ok ds
  else
    Exc.bind (getitem ds lon_name) (fun lon =>
    let lon180 := map to_180 (elems lon) in
    Exc.bind (assign_coords ds lon_name lon180) (fun ds' =>
    sortby ds' lon_name)).

Definition lon_0E_360E (ds : DataArray) (lon_name : string) : Exc.res DataArray :=
  if negb (mem lon_name (da_dims ds)) then Exc.Ok ds
  else
    Exc.bind (getitem ds lon_name) (fun lon =>
    let lon360 := map to_360 (elems lon) in
    Exc.bind (assign_coords ds lon_name lon360) (fun ds' =>
    sortby ds' lon_name)).

End Lon.

(** ** Vocabulary of the longitude transforms *)

(** Numbers that do not decrease. *)
Fixpoint nondecreasing (qs : list Q) : Prop :=
  match qs with
  | a :: ((b :: _) as r) => (a <= b)%Q /\ nondecreasing r
  | _ => True
  end.

(** [out] is [da] with its coordinate [name] (at position [d]) replaced by
    the numbers [ys], the position [j] of [out] holding what [da] holds at
    the position [perm[j]]. *)
Record rearranged (da out : DataArray) (name : string) (d : nat)
    (perm : list nat) (ys : list Q) : Prop := {
  re_dims : da_dims out = da_dims da;
  re_others : forall k, k <> name -> da_coord out k = da_coord da k;
  re_coord : elems (da_coord out name) = map Num ys;
  re_perm : Permutation perm (seq 0 (length ys));
  re_values : forall idx,
      da_values out idx = da_values da (Lon.at_pos d (fun j => nth j perm 0) idx)
}.

(** A field on the longitudes 0, 90, 180, 270. *)
Definition east_only : DataArray :=
  mkDataArray "sst" [("lon", mkarray Kf [Num 0; Num 90; Num 180; Num 270])]
    (fun idx => match idx with
                | [i] => Num (inject_Z (Z.of_nat i))
                | _ => NaN
                end).

(* ================================================================= *)
(** * munging/conform.py: [transpose_dims] *)

Module Transpose.

(** Whether a list of names repeats one. *)
Fixpoint has_duplicate (l : list string) : bool :=
  match l with
  | [] => false
  | k :: r => mem k r || has_duplicate r
  end.

(** [da.transpose] with the names [dims]: they must be those of the
    dimensions, each once; the coordinates go with their dimension, and the
    value at an index is the value the array had at the same index, taken
    name by name. *)
Definition transpose (da : DataArray) (dims : list string) : Exc.res DataArray :=
  if negb (forallb (fun k => mem k (da_dims da)) dims) then
    Exc.Err (Exc.ValueError "Dimensions do not exist")
  else if negb (forallb (fun k => mem k dims) (da_dims da)) then
    Exc.Err (Exc.ValueError "must be a permuted list of the dimensions")
  else if has_duplicate dims then
    Exc.Err (Exc.ValueError "repeated axis in transpose")
  else
    Exc.Ok (mkDataArray (da_name da)
              (map (fun k => (k, da_coord da k)) dims)
              (fun idx =>
                 da_values da
                   (map (fun k => match Lon.index_of k dims with
                                  | Some i => nth i idx 0
                                  | None => 0
                                  end)
                        (da_dims da)))).

Section SetOrder.

(** The order in which Python iterates over the set that holds the given
    names: it is not specified, and depends on the hashes of the names. *)
Variable order_of : list string -> list string.

Definition transpose_dims (ds : DataArray) (default : list string)
    (other_dims_before : bool) : Exc.res DataArray :=
  let old_order := da_dims ds in
  let default := filter (fun d => mem d old_order) default in
  let other := order_of (filter (fun d => negb (mem d default)) old_order) in
  let new_order := if other_dims_before then other ++ default
                   else default ++ other in
  let matching :=
    forallb (fun ab => String.eqb (fst ab) (snd ab)) (combine old_order new_order) in
  if negb matching then transpose ds new_order else Exc.Ok ds.

End SetOrder.

End Transpose.

(** A field stored as (lon, member, time, lat). *)
Definition scrambled : DataArray :=
  mkDataArray "sst"
    [("lon", mkarray Kf [Num 0; Num 1]);
     ("member", mkarray Ki [Num 0; Num 1; Num 2]);
     ("time", mkarray Kf [Num 0]);
     ("lat", mkarray Kf [Num 0; Num 1])]
    (fun idx => match idx with
                | [i; m; t; j] => Num (inject_Z (Z.of_nat (100 * i + 10 * m + j)))
                | _ => NaN
                end).

(* ================================================================= *)
(** * munging/conform.py: the decorator as an object, and the accessor *)

(** [__call__] stores the keyword arguments ON the decorator
    ([self.kwargs = kwargs]) and returns its bound method [__caller__],
    which reads them when it is called.  One decorator object stands for a
    transform of the module, so its attribute is shared by every callable
    it has returned.  Here the attribute is threaded through the calls. *)
Module DecoratorObject.

Section Object.

Variable Content : Type.
Variable Arg : Type.
Variable Kwargs : Type.
Variable arg_of : Conform.Dataset Content -> Arg.
Variable __version__ : string.
Variable now : string.

(** The attribute [kwargs] of a decorator: absent until a call sets it. *)
Definition attribute := option Kwargs.

(** What [__call__] returns: the dataset with its history, or the bound
    method [self.__caller__], which holds nothing but the decorator. *)
Inductive returned :=
| Out (ds : Conform.Dataset Content)
| BoundCaller.

Definition __call__ (self : Conform.decorated Content Arg Kwargs)
    (args : list Arg) (kwargs : Kwargs) (st : attribute)
  : attribute * M returned :=
  if length args =? 1 then
    (st, bind (Conform.func self args kwargs) (fun out =>
         ret (Out (Conform._add_history __version__ now self out "history"))))
  else (Some kwargs, ret BoundCaller).

Definition __caller__ (self : Conform.decorated Content Arg Kwargs)
    (ds : Conform.Dataset Content) (st : attribute)
  : Exc.res (M (Conform.Dataset Content)) :=
  match st with
  | None =>
      Exc.Err (Exc.AttributeError
        "'add_docs_line1_to_attribute_history' object has no attribute 'kwargs'")
  | Some kwargs =>
      Exc.Ok (bind (Conform.func self [arg_of ds] kwargs) (fun out =>
              ret (Conform._add_history __version__ now self out "history")))
  end.

(** [DataConform._make_accessor_func(wrapped)]: the function set on the
    accessor of the object [obj] calls the decorator with [obj] before the
    arguments it is given. *)
Definition run_func (wrapped : Conform.decorated Content Arg Kwargs)
    (obj : Conform.Dataset Content) (args : list Arg) (kwargs : Kwargs)
    (st : attribute) : attribute * M returned :=
  __call__ wrapped (arg_of obj :: args) kwargs st.

(** [apply_process_pipeline(ds, *funcs)] *)
Definition apply_process_pipeline (ds : Conform.Dataset Content)
    (funcs : list (Conform.Dataset Content -> M (Conform.Dataset Content)))
  : M (Conform.Dataset Content) :=
  fold_left (fun acc func => bind acc func) funcs (ret ds).

End Object.

End DecoratorObject.

(* ================================================================= *)
(** * Vocabulary for the history of a pipeline *)

(** The pieces of a history between its semicolons, stripped: what
    [_add_history] makes of the history it finds. *)
Definition pieces (s : string) : list string :=
  map Conform.strip (Conform.split Conform.semicolon s).

(** The entries kept of a history: none of the empty one. *)
Definition entries (hist : string) : list string :=
  if String.eqb hist EmptyString then [] else pieces hist.

(** An entry that splitting and stripping leave as it is. *)
Definition clean (e : string) : Prop :=
  contains Conform.semicolon e = false /\ Conform.strip e = e.

(** A string that does not start with white space. *)
Definition starts_ok (s : string) : Prop :=
  match s with
  | EmptyString => True
  | String c _ => Conform.is_space c = false
  end.

(* ================================================================= *)
(** * munging/conform.py: [coord_05_offset] *)

(** The part of a number above the whole number below it. *)
Definition frac_of (q : Q) : Q := (q - inject_Z (Qfloor q))%Q.

Module Offset.

(** [v // 1] *)
Definition floordiv1 (v : val) : val :=
  match v with
  | Num x => Num (inject_Z (Qfloor x))
  | NaN => NaN
  end.

(** [v - (v // 1)] *)
Definition frac (v : val) : val := vsub v (floordiv1 v).

(** [a != b]: NaN differs from everything. *)
Definition vneb (a b : val) : bool :=
  match a, b with
  | Num x, Num y => negb (Qeq_bool x y)
  | _, _ => true
  end.

(** [has_coords(ds, checklist)] *)
Definition has_coords (ds : DataArray) (checklist : list string) : bool :=
  forallb (fun key => mem key (da_dims ds)) checklist.

Section Interp.

(** [ds.interp({name: new})], the interpolation of xarray, is left
    abstract. *)
Variable interp : DataArray -> string -> list val -> Exc.res DataArray.

Definition coord_05_offset (ds : DataArray) (center : val) (coord_name : string)
  : Exc.res DataArray :=
  let center := frac center in
  if has_coords ds ["time"; "lat"; "lon"] then
    Exc.bind (Lon.getitem ds coord_name) (fun coord =>
    let mod_ := map frac (elems coord) in
    if existsb (fun m => vneb m center) mod_ then
      interp ds coord_name (map (fun x => vadd x center) (elems coord))
    else Exc.Ok ds)
  else Exc.Ok ds.

End Interp.

End Offset.

(** A coordinate of floats or of integers. *)
Definition float_or_int (x : array) : Prop :=
  dtype_kind x = Kf \/ dtype_kind x = Ki.

(* ================================================================= *)
(** * Properties *)

(** ** Bin edges *)

Lemma Qltb_lt (x y : Q) : Qltb x y = true <-> (x < y)%Q.
Proof.
  unfold Qltb. rewrite negb_true_iff.
  split; intro H.
  - apply Qnot_le_lt. intro Hle. apply Qle_bool_iff in Hle. congruence.
  - destruct (Qle_bool y x) eqn:E; [|reflexivity].
    apply Qle_bool_iff in E. exfalso. apply (Qlt_not_le _ _ H E).
Qed.

Lemma Qltb_ge (x y : Q) : Qltb x y = false <-> (y <= x)%Q.
Proof.
  unfold Qltb. rewrite negb_false_iff. apply Qle_bool_iff.
Qed.

Lemma bind_ret_l {A B} (a : A) (f : A -> M B) : bind (ret a) f = f a.
Proof.
  unfold bind, ret. destruct (f a). reflexivity.
Qed.

Lemma bind_raise_l {A B} (e : exn) (f : A -> M B) : bind (raise e) f = raise e.
Proof. reflexivity. Qed.

Lemma nth_map_Num (qs : list Q) (i : nat) :
  i < length qs -> nth i (map Num qs) NaN = Num (nth i qs 0%Q).
Proof.
  intro H. rewrite (nth_indep _ NaN (Num 0%Q)) by (rewrite length_map; exact H).
  apply (map_nth Num).
Qed.

Lemma last_cons {A} (l : list A) (a b : A) :
  List.last (b :: l) a = List.last l b.
Proof.
  revert a b. induction l as [|c r IH]; intros a b; [reflexivity|].
  change (List.last (b :: c :: r) a) with (List.last (c :: r) a).
  rewrite !IH. reflexivity.
Qed.

(** The sum of the differences telescopes. *)
Lemma nansum_diff (a : Q) (qs : list Q) :
  (nansum (diff (map Num (a :: qs))) == List.last qs a - a)%Q.
Proof.
  revert a. induction qs as [|b r IH]; intro a.
  - simpl. lra.
  - change (diff (map Num (a :: b :: r)))
      with (Num (b - a)%Q :: diff (map Num (b :: r))).
    change (nansum (Num (b - a)%Q :: diff (map Num (b :: r))))
      with ((b - a) + nansum (diff (map Num (b :: r))))%Q.
    rewrite IH, last_cons. lra.
Qed.

Lemma nancount_diff (a : Q) (qs : list Q) :
  nancount (diff (map Num (a :: qs))) = length qs.
Proof.
  revert a. induction qs as [|b r IH]; intro a; [reflexivity|].
  change (diff (map Num (a :: b :: r)))
    with (Num (b - a)%Q :: diff (map Num (b :: r))).
  change (nancount (Num (b - a)%Q :: diff (map Num (b :: r))))
    with (S (nancount (diff (map Num (b :: r))))).
  rewrite IH. reflexivity.
Qed.

Lemma last_nth {A} (l : list A) (a : A) :
  List.last l a = nth (length l) (a :: l) a.
Proof.
  revert a. induction l as [|b r IH]; intro a; [reflexivity|].
  rewrite last_cons, IH.
  change (nth (length (b :: r)) (a :: b :: r) a) with (nth (length r) (b :: r) a).
  apply nth_indep. simpl. lia.
Qed.

Lemma nth_map_in {A B} (f : A -> B) (l : list A) (i : nat) (d : B) (d' : A) :
  i < length l -> nth i (map f l) d = f (nth i l d').
Proof.
  revert i. induction l as [|a r IH]; intros [|i] H; simpl in *; try lia.
  - reflexivity.
  - apply IH. lia.
Qed.

Lemma length_linspace (s e : val) (n : nat) : length (linspace s e n) = n.
Proof.
  destruct n as [|[|d]]; [reflexivity|reflexivity|].
  unfold linspace. rewrite length_app, length_map, length_seq. simpl. lia.
Qed.

Lemma inject_pos_of_nat (d : nat) :
  inject_Z (Zpos (Pos.of_nat (S d))) = inject_Z (Z.of_nat (S d)).
Proof.
  f_equal. rewrite <- Pos.of_nat_succ, Zpos_P_of_succ_nat. lia.
Qed.

(** The elements of [linspace]: multiples of the step, then [stop]. *)
Lemma nth_linspace (s e : Q) (d i : nat) :
  i <= S d ->
  nth i (linspace (Num s) (Num e) (S (S d))) NaN =
    if i <? S d
    then Num (inject_Z (Z.of_nat i) * ((e - s) / inject_Z (Z.of_nat (S d))) + s)%Q
    else Num e.
Proof.
  intro Hi. unfold linspace.
  destruct (i <? S d) eqn:E.
  - apply Nat.ltb_lt in E.
    rewrite app_nth1 by (rewrite length_map, length_seq; exact E).
    rewrite (nth_map_in _ _ _ NaN 0) by (rewrite length_seq; exact E).
    rewrite seq_nth by exact E.
    cbn [vadd vmul vsub vdivn lift2]. rewrite inject_pos_of_nat. reflexivity.
  - apply Nat.ltb_ge in E.
    rewrite app_nth2 by (rewrite length_map, length_seq; exact E).
    rewrite length_map, length_seq.
    replace (i - S d) with 0 by lia. reflexivity.
Qed.

(** On a non-empty numeric array [make_bins] never fails: [linspace]
    always returns the number of edges asked for. *)
Lemma make_bins_numeric (k : kind) (a : val) (r : list val) :
  kind_eqb k KM = false ->
  let x := mkarray k (a :: r) in
  let dx := nanmean (diff (a :: r)) in
  make_bins x =
    ([], Return (linspace (vsub a (vdivn dx 2)) (vadd (List.last r a) (vdivn dx 2))
                          (S (length r) + 1))).
Proof.
  intros Hk x dx. unfold make_bins, is_datetime. cbn [dtype_kind elems x].
  rewrite Hk. cbn [item_first item_last bind ret app].
  unfold size. cbn [elems length].
  rewrite length_linspace, Nat.eqb_refl. reflexivity.
Qed.

Lemma gridded_bins_numeric (est : list val -> val) (k : kind) (a : val) (r : list val) :
  kind_eqb k KM = false ->
  let x := mkarray k (a :: r) in
  let dx := est (a :: r) in
  _make_bins_from_gridded_coord est x =
    ([], Return (linspace (vsub a (vdivn dx 2)) (vadd (List.last r a) (vdivn dx 2))
                          (S (length r) + 1))).
Proof.
  intros Hk x dx. unfold _make_bins_from_gridded_coord, is_datetime.
  cbn [dtype_kind elems x].
  rewrite Hk. cbn [item_first item_last bind ret app].
  unfold size. cbn [elems length].
  rewrite length_linspace, Nat.eqb_refl. reflexivity.
Qed.

(** The mean difference of evenly spaced centers is their spacing. *)
Lemma nanmean_diff_even (qs : list Q) (a d : Q) :
  2 <= length qs -> evenly_spaced qs a d ->
  exists m, nanmean (diff (map Num qs)) = Num m /\ (m == d)%Q.
Proof.
  intros Hn Hev. destruct qs as [|q0 r]; [simpl in Hn; lia|].
  unfold nanmean. rewrite nancount_diff.
  destruct r as [|q1 r']; [simpl in Hn; lia|].
  cbn [length]. eexists. split; [reflexivity|].
  rewrite nansum_diff, last_nth.
  rewrite (nth_indep _ q0 0%Q) by (simpl; lia).
  assert (Hl := Hev (length (q1 :: r')) ltac:(simpl; lia)).
  assert (H0 := Hev 0 ltac:(simpl; lia)).
  change (nth 0 (q0 :: q1 :: r') 0%Q) with q0 in H0.
  change (inject_Z (Z.of_nat 0)) with 0%Q in H0.
  cbn [length] in *.
  set (n := inject_Z (Z.of_nat (S (length r')))) in *.
  assert (Hpos : (0 < n)%Q).
  { change 0%Q with (inject_Z 0). unfold n. rewrite <- Zlt_Qlt. lia. }
  rewrite Hl, H0. field. lra.
Qed.

(** When [stop - start] is [n] steps, edge [i] of [linspace] is
    [start + i * step]. *)
Lemma linspace_edges (s e step : Q) (n i : nat) :
  (e - s == inject_Z (Z.of_nat (S n)) * step)%Q ->
  i <= S n ->
  edge_is (linspace (Num s) (Num e) (S (S n))) i
          (s + inject_Z (Z.of_nat i) * step)%Q.
Proof.
  intros He Hi. unfold edge_is. rewrite nth_linspace by exact Hi.
  assert (Hpos : (0 < inject_Z (Z.of_nat (S n)))%Q).
  { change 0%Q with (inject_Z 0). rewrite <- Zlt_Qlt. lia. }
  destruct (i <? S n) eqn:E.
  - rewrite He. field. lra.
  - apply Nat.ltb_ge in E. assert (i = S n) as -> by lia. lra.
Qed.

(** Edges that start [h] below the first center and advance by the spacing
    enclose the centers, as long as [0 < h <= d]. *)
Lemma centers_inside_edges (qs : list Q) (bins : list val) (a d h : Q) :
  evenly_spaced qs a d -> (0 < h)%Q -> (h <= d)%Q ->
  (forall i, i <= length qs ->
     edge_is bins i (a - h + inject_Z (Z.of_nat i) * d)%Q) ->
  centers_inside (map Num qs) bins.
Proof.
  intros Hev Hh Hhd Hedge i Hi. rewrite length_map in Hi.
  rewrite nth_map_Num by exact Hi.
  assert (Hlo := Hedge i ltac:(lia)).
  assert (Hhi := Hedge (S i) ltac:(lia)).
  unfold edge_is in Hlo, Hhi. unfold inside.
  destruct (nth i bins NaN) as [|lo]; [contradiction|].
  destruct (nth (S i) bins NaN) as [|hi]; [contradiction|].
  rewrite Hlo, Hhi, (Hev i Hi).
  rewrite Nat2Z.inj_succ, <- Z.add_1_r, inject_Z_plus.
  change (inject_Z 1) with 1%Q.
  split; lra.
Qed.

(** [linspace] from [q0 - m/2] to [ql + m/2] on centers evenly spaced by
    [d], when [m] is that spacing. *)
Lemma linspace_even (qs : list Q) (a d m : Q) (q0 : Q) (r : list Q) :
  qs = q0 :: r -> 1 <= length r ->
  evenly_spaced qs a d -> (m == d)%Q ->
  forall i, i <= length qs ->
    edge_is (linspace (vsub (Num q0) (vdivn (Num m) 2))
                      (vadd (Num (List.last r q0)) (vdivn (Num m) 2))
                      (S (length r) + 1)) i
            (a - d / 2 + inject_Z (Z.of_nat i) * d)%Q.
Proof.
  intros -> Hr Hev Hm i Hi. cbn [length] in Hi.
  assert (Hl := Hev (length r) ltac:(simpl; lia)).
  assert (H0 := Hev 0 ltac:(simpl; lia)).
  change (nth 0 (q0 :: r) 0%Q) with q0 in H0.
  change (inject_Z (Z.of_nat 0)) with 0%Q in H0.
  rewrite <- (nth_indep _ q0 0%Q), <- last_nth in Hl by (simpl; lia).
  cbn [vsub vadd vdivn lift2].
  destruct (length r) as [|n] eqn:En; [lia|].
  replace (S (S n) + 1) with (S (S (S n))) by lia.
  change (inject_Z 2) with 2%Q.
  assert (He : (List.last r q0 + m / 2 - (q0 - m / 2)
                == inject_Z (Z.of_nat (S (S n))) * d)%Q).
  { rewrite Hl, H0, Hm.
    rewrite (Nat2Z.inj_succ (S n)), <- Z.add_1_r, inject_Z_plus.
    change (inject_Z 1) with 1%Q. field. }
  pose proof (linspace_edges _ _ _ _ _ He Hi) as HL.
  unfold edge_is in *.
  destruct (nth i (linspace (Num (q0 - m / 2)) (Num (List.last r q0 + m / 2)) (S (S (S n)))) NaN)
    as [|b]; [exact HL|].
  rewrite HL, H0, Hm. field.
Qed.

(** *** Datetime centers *)

Lemma Qtrunc_comp (x y : Q) : (x == y)%Q -> Qtrunc x = Qtrunc y.
Proof.
  intro H. unfold Qtrunc.
  rewrite (Qleb_comp 0%Q 0%Q (Qeq_refl 0) x y H).
  rewrite (Qfloor_comp x y H), (Qceiling_comp x y H). reflexivity.
Qed.

Lemma Qtrunc_inject (z : Z) : Qtrunc (inject_Z z) = z.
Proof.
  unfold Qtrunc. rewrite Qfloor_Z, Qceiling_Z. destruct (Qle_bool 0 (inject_Z z)); reflexivity.
Qed.

Lemma Qtrunc_is (x : Q) (z : Z) : (x == inject_Z z)%Q -> Qtrunc x = z.
Proof.
  intro H. rewrite (Qtrunc_comp _ _ H). apply Qtrunc_inject.
Qed.

(** *** int64 and float64 *)

Lemma pow_2_63 : (2 ^ 63 = 9223372036854775808)%Z.
Proof. reflexivity. Qed.

Lemma pow_2_64 : (2 ^ 64 = 18446744073709551616)%Z.
Proof. reflexivity. Qed.

Lemma pow_2_53 : (2 ^ 53 = 9007199254740992)%Z.
Proof. reflexivity. Qed.

Lemma wrap64_id (z : Z) : (- 2 ^ 63 <= z < 2 ^ 63)%Z -> wrap64 z = z.
Proof.
  intro H. unfold wrap64. rewrite pow_2_63, pow_2_64 in *.
  rewrite Z.mod_small by lia. lia.
Qed.

Lemma Qred_inject (z : Z) : Qred (inject_Z z) = inject_Z z.
Proof.
  unfold Qred, inject_Z.
  pose proof (Z.ggcd_correct_divisors z 1) as H.
  pose proof (Z.ggcd_gcd z 1) as G.
  destruct (Z.ggcd z 1) as [g [aa bb]]. cbn [fst snd] in *.
  rewrite Z.gcd_1_r in G. subst g. destruct H as [H1 H2].
  rewrite Z.mul_1_l in H1, H2. subst. reflexivity.
Qed.

Lemma round64_comp (p q : Q) : (p == q)%Q -> round64 p = round64 q.
Proof.
  intro H. unfold round64. rewrite (Qred_complete p q H). reflexivity.
Qed.

Lemma round_half_even_Z (q : Q) (w : Z) :
  (q == inject_Z w)%Q -> round_half_even q = w.
Proof.
  intro H. unfold round_half_even. rewrite (Qfloor_comp _ _ H), Qfloor_Z.
  assert (E : ((q - inject_Z w)%Q ?= (1 # 2)%Q)%Q = Lt).
  { apply (proj1 (Qlt_alt _ _)). rewrite H. lra. }
  rewrite E. reflexivity.
Qed.

Lemma ilog2_inject (z : Z) : (0 < z)%Z -> ilog2 (inject_Z z) = Z.log2 z.
Proof.
  intro H. unfold ilog2, inject_Z. cbn [Qnum Qden].
  change (Z.log2 1) with 0%Z. rewrite Z.sub_0_r.
  destruct (Z.log2_spec z H) as [Hlo _].
  replace (Qle_bool (2 ^ Z.log2 z) (z # 1)) with true; [reflexivity|].
  symmetry. apply Qle_bool_iff.
  rewrite <- (Zpower_Qpower 2 (Z.log2 z)) by apply Z.log2_nonneg.
  change (z # 1)%Q with (inject_Z z). rewrite <- Zle_Qle. exact Hlo.
Qed.

(** An integer of at most 53 bits is a float64. *)
Lemma representable_small (z : Z) : (Z.abs z <= 2 ^ 53)%Z -> representable z.
Proof.
  intro Hz. unfold representable, round64. rewrite Qred_inject.
  destruct (Qeq_bool (inject_Z z) 0) eqn:E0.
  { apply Qeq_bool_eq in E0. unfold Qeq in E0. cbn in E0.
    assert (z = 0%Z) as -> by lia. reflexivity. }
  assert (Hnz : z <> 0%Z).
  { intros ->. discriminate E0. }
  change (Qabs (inject_Z z)) with (inject_Z (Z.abs z)).
  rewrite ilog2_inject by lia.
  set (L := Z.log2 (Z.abs z)).
  assert (HL : (0 <= L <= 53)%Z).
  { split; [apply Z.log2_nonneg|].
    unfold L. destruct (Z.log2_spec (Z.abs z) ltac:(lia)) as [Hlo _].
    apply Z.nlt_ge. intro Hc.
    assert (2 ^ 54 <= 2 ^ Z.log2 (Z.abs z))%Z
      by (apply Z.pow_le_mono_r; lia).
    assert (2 ^ 53 < 2 ^ 54)%Z by reflexivity. lia. }
  rewrite <- (Qred_inject z) at 2. apply Qred_complete.
  destruct (Z.eq_dec L 53) as [E53|N53].
  - (* the one integer of 54 bits *)
    rewrite E53. change (53 - 52)%Z with 1%Z. change (2 ^ 1)%Q with 2%Q.
    assert (Hab : Z.abs z = (2 ^ 53)%Z).
    { destruct (Z.log2_spec (Z.abs z) ltac:(lia)) as [Hlo _].
      fold L in Hlo. rewrite E53 in Hlo. lia. }
    assert (Hw : (inject_Z z / 2 == inject_Z (z / 2))%Q).
    { assert (z = 2 * (z / 2))%Z as E.
      { rewrite pow_2_53 in Hab.
        destruct (Z.abs_eq_or_opp z) as [A|A]; rewrite A in Hab.
        - subst z. reflexivity.
        - assert (z = - 9007199254740992)%Z as -> by lia. reflexivity. }
      rewrite E at 1. rewrite inject_Z_mult. field. }
    rewrite (round_half_even_Z _ (z / 2) Hw). rewrite <- Hw. field.
  - set (c := (2 ^ (52 - L))%Z).
    assert (Hc : (0 < c)%Z) by (apply Z.pow_pos_nonneg; lia).
    assert (Hu : (2 ^ (L - 52) == / inject_Z c)%Q).
    { replace (L - 52)%Z with (- (52 - L))%Z by lia.
      rewrite Qpower_opp. unfold c.
      rewrite (Zpower_Qpower 2 (52 - L)) by lia. reflexivity. }
    assert (Hcq : ~ (inject_Z c == 0)%Q).
    { intro H. unfold Qeq in H. cbn in H. lia. }
    assert (Hw : (inject_Z z / 2 ^ (L - 52) == inject_Z (z * c))%Q).
    { rewrite Hu, inject_Z_mult. field. exact Hcq. }
    rewrite (round_half_even_Z _ (z * c) Hw).
    rewrite Hu, inject_Z_mult. field. exact Hcq.
Qed.

Lemma representable_0 : representable 0.
Proof. reflexivity. Qed.

Lemma fadd_exact (x y : Z) :
  representable (x + y) -> fadd (inject_Z x) (inject_Z y) = inject_Z (x + y).
Proof.
  intro H. unfold fadd.
  rewrite (round64_comp (inject_Z x + inject_Z y) (inject_Z (x + y)));
    [exact H|].
  rewrite inject_Z_plus. reflexivity.
Qed.

Lemma firstn_repeat {A} (x : A) (k n : nat) :
  firstn k (repeat x n) = repeat x (Nat.min k n).
Proof.
  revert n. induction k as [|k IH]; intros [|n]; try reflexivity.
  cbn [firstn repeat Nat.min]. rewrite IH. reflexivity.
Qed.

Lemma skipn_repeat {A} (x : A) (k n : nat) :
  skipn k (repeat x n) = repeat x (n - k).
Proof.
  revert n. induction k as [|k IH]; intros [|n]; try reflexivity.
  cbn [skipn repeat Nat.sub]. apply IH.
Qed.

(** The float64 sum of [n] equal integers [zd] is exact when every
    multiple of [zd] up to the [n]th is a float64: each sum numpy forms on
    the way, in whatever order, is such a multiple. *)
Section EqualTerms.

Variable zd : Z.
Variable N : nat.
Hypothesis Hrep : forall k, 1 <= k <= N -> representable (Z.of_nat k * zd).

Local Abbreviation R k := (inject_Z (Z.of_nat k * zd)).

Lemma fadd_multiples (i j : nat) : i + j <= N -> fadd (R i) (R j) = R (i + j).
Proof.
  intro H. rewrite fadd_exact.
  - f_equal. rewrite Nat2Z.inj_add. ring.
  - replace (Z.of_nat i * zd + Z.of_nat j * zd)%Z with (Z.of_nat (i + j) * zd)%Z
      by (rewrite Nat2Z.inj_add; ring).
    destruct (i + j) as [|k] eqn:E; [exact representable_0|].
    apply Hrep. lia.
Qed.

Lemma fold_fadd_repeat (n j : nat) :
  j + n <= N -> fold_left fadd (repeat (R 1) n) (R j) = R (j + n).
Proof.
  revert j. induction n as [|n IH]; intros j H.
  - rewrite Nat.add_0_r. reflexivity.
  - cbn [repeat fold_left]. rewrite fadd_multiples by lia.
    rewrite IH by lia. f_equal. f_equal. lia.
Qed.

Lemma add_lanes_repeat (i : nat) :
  i + 1 <= N -> add_lanes (repeat (R i) 8) (repeat (R 1) 8) = repeat (R (i + 1)) 8.
Proof.
  intro H. cbn [repeat add_lanes]. rewrite !fadd_multiples by lia. reflexivity.
Qed.

Lemma lane_sums_repeat (b n i : nat) :
  8 * b <= n -> i + b <= N ->
  lane_sums b (repeat (R 1) n) (repeat (R i) 8) = repeat (R (i + b)) 8.
Proof.
  revert n i. induction b as [|b IH]; intros n i Hn Hi.
  - rewrite Nat.add_0_r. reflexivity.
  - cbn [lane_sums]. rewrite firstn_repeat, skipn_repeat.
    replace (Nat.min 8 n) with 8 by lia.
    rewrite add_lanes_repeat by lia. rewrite IH by lia.
    f_equal. f_equal. f_equal. lia.
Qed.

Lemma pairwise_repeat (fuel n : nat) :
  n <= N -> n < fuel -> pairwise_sum fuel (repeat (R 1) n) = R n.
Proof.
  revert n. induction fuel as [|fuel IH]; intros n Hn Hf; [lia|].
  cbn [pairwise_sum]. cbv zeta. rewrite !repeat_length.
  destruct (n <? 8) eqn:E8.
  { change 0%Q with (R 0). rewrite fold_fadd_repeat by lia. reflexivity. }
  apply Nat.ltb_ge in E8.
  destruct (n <=? 128) eqn:E128.
  - pose proof (Nat.div_mod_eq n 8) as Hdm.
    pose proof (Nat.mod_upper_bound n 8 ltac:(lia)) as Hm.
    set (m := n - n mod 8) in *.
    assert (Em : m = 8 * (n / 8)) by (unfold m; lia).
    assert (Hq : 1 <= n / 8) by lia.
    rewrite firstn_repeat, !skipn_repeat.
    replace (Nat.min 8 n) with 8 by lia.
    assert (Eb : m / 8 - 1 = n / 8 - 1).
    { rewrite Em, Nat.mul_comm, Nat.div_mul by lia. reflexivity. }
    rewrite Eb.
    rewrite (lane_sums_repeat (n / 8 - 1) (n - 8) 1) by lia.
    cbn [repeat]. rewrite !fadd_multiples by lia.
    rewrite fold_fadd_repeat by lia. f_equal. f_equal. lia.
  - apply Nat.leb_gt in E128.
    pose proof (Nat.div_mod_eq n 2) as Hd2.
    pose proof (Nat.mod_upper_bound n 2 ltac:(lia)) as Hm2.
    pose proof (Nat.mod_upper_bound (n / 2) 8 ltac:(lia)) as Hm8.
    set (n2 := n / 2 - (n / 2) mod 8) in *.
    assert (H2 : 1 <= n2 /\ n2 < n) by (unfold n2; lia).
    rewrite firstn_repeat, skipn_repeat.
    replace (Nat.min n2 n) with n2 by lia.
    rewrite !IH by lia. rewrite fadd_multiples by lia.
    f_equal. f_equal. lia.
Qed.

Lemma sum_buffered_repeat (fuel n j : nat) :
  n <= fuel -> j + n <= N ->
  sum_buffered fuel (repeat (R 1) n) (R j) = R (j + n).
Proof.
  revert n j. induction fuel as [|fuel IH]; intros n j Hf Hn.
  - assert (n = 0) as -> by lia. rewrite Nat.add_0_r. reflexivity.
  - destruct n as [|n]; [rewrite Nat.add_0_r; reflexivity|].
    cbn [sum_buffered repeat].
    change (R 1 :: repeat (R 1) n) with (repeat (R 1) (S n)).
    assert (Hb : 1 <= bufsize) by (unfold bufsize; lia).
    rewrite firstn_repeat, skipn_repeat.
    rewrite pairwise_repeat by lia.
    rewrite fadd_multiples by lia.
    rewrite IH by lia. f_equal. f_equal. lia.
Qed.

Lemma add_reduce_repeat (n : nat) :
  n <= N -> add_reduce (repeat zd n) = R n.
Proof.
  intro Hn. unfold add_reduce. rewrite map_repeat, repeat_length.
  destruct n as [|n]; [reflexivity|].
  assert (E : round64 (inject_Z zd) = R 1).
  { replace (Z.of_nat 1 * zd)%Z with zd by lia.
    assert (H := Hrep 1 ltac:(lia)).
    replace (Z.of_nat 1 * zd)%Z with zd in H by lia. exact H. }
  rewrite E. change 0%Q with (R 0).
  rewrite sum_buffered_repeat by lia. reflexivity.
Qed.

End EqualTerms.

(** The mean numpy computes of [n] equal differences is the difference. *)
Lemma mean_repeat (zd : Z) (n : nat) :
  1 <= n -> (Z.of_nat n <= 2 ^ 53)%Z ->
  (forall k, 1 <= k <= n -> representable (Z.of_nat k * zd)) ->
  mean_int64 (repeat zd n) = Num (inject_Z zd).
Proof.
  intros Hn Hc Hrep. unfold mean_int64.
  destruct n as [|n]; [lia|].
  change (repeat zd (S n)) with (zd :: repeat zd n) at 1.
  cbv iota. rewrite repeat_length.
  rewrite (add_reduce_repeat zd (S n) Hrep) by lia.
  assert (Hcount : representable (Z.of_nat (S n))) by (apply representable_small; lia).
  unfold representable in Hcount. rewrite Hcount.
  f_equal. unfold fdiv.
  assert (H1 := Hrep 1 ltac:(lia)).
  replace (Z.of_nat 1 * zd)%Z with zd in H1 by lia.
  transitivity (round64 (inject_Z zd)); [|exact H1]. apply round64_comp.
  rewrite inject_Z_mult. field.
  intro H. unfold Qeq in H. cbn in H. lia.
Qed.

(** *** Evenly spaced datetime centers within the int64 *)

Lemma NaT_eqb (z : Z) : (- 2 ^ 63 < z)%Z -> (z =? NaT)%Z = false.
Proof.
  intro H. apply Z.eqb_neq. unfold NaT. lia.
Qed.

Lemma dt_sub_id (a b : Z) :
  (- 2 ^ 63 < a)%Z -> (- 2 ^ 63 < b)%Z -> (- 2 ^ 63 <= a - b < 2 ^ 63)%Z ->
  dt_sub a b = (a - b)%Z.
Proof.
  intros Ha Hb H. unfold dt_sub. rewrite (NaT_eqb a Ha), (NaT_eqb b Hb).
  apply wrap64_id, H.
Qed.

Lemma dt_add_id (a b : Z) :
  (- 2 ^ 63 < a)%Z -> (- 2 ^ 63 < b)%Z -> (- 2 ^ 63 <= a + b < 2 ^ 63)%Z ->
  dt_add a b = (a + b)%Z.
Proof.
  intros Ha Hb H. unfold dt_add. rewrite (NaT_eqb a Ha), (NaT_eqb b Hb).
  apply wrap64_id, H.
Qed.

Lemma of_stored_id (z : Z) : (- 2 ^ 63 < z)%Z -> of_stored z = Num (inject_Z z).
Proof.
  intro H. unfold of_stored. rewrite (NaT_eqb z H). reflexivity.
Qed.

Lemma stored_inject (q : Q) (z : Z) :
  (q == inject_Z z)%Q -> (- 2 ^ 63 <= z < 2 ^ 63)%Z -> stored (Num q) = z.
Proof.
  intros Hq Hz. cbn [stored]. rewrite (Qtrunc_is q z Hq). apply wrap64_id, Hz.
Qed.

Lemma half_step (zd : Z) : (2 <= zd)%Z -> (1 <= Z.quot zd 2 <= zd)%Z.
Proof.
  intro H. rewrite Z.quot_div_nonneg by lia. split.
  - apply Z.div_le_lower_bound; lia.
  - apply Z.div_le_upper_bound; lia.
Qed.

(** What the bounds give for the centers, the step and the edges. *)
Lemma fits_int64_bounds (za zd : Z) (n : nat) :
  (2 <= zd)%Z -> 1 <= n -> fits_int64 za zd n ->
  (zd < 2 ^ 63)%Z /\
  (forall i, i <= n -> (- 2 ^ 63 < za - Z.quot zd 2 + Z.of_nat i * zd < 2 ^ 63)%Z) /\
  (forall i, i <= n -> (- 2 ^ 63 < za + Z.of_nat i * zd < 2 ^ 63)%Z).
Proof.
  intros H2 Hn (H1 & Hs & Hl). pose proof (half_step zd H2) as Hh.
  rewrite pow_2_63 in *.
  assert (Hm : forall i, i <= n -> (0 <= Z.of_nat i * zd <= Z.of_nat n * zd)%Z).
  { intros i Hi. split; [apply Z.mul_nonneg_nonneg; lia|].
    apply Z.mul_le_mono_nonneg_r; lia. }
  assert (Hn1 : (zd <= Z.of_nat n * zd)%Z).
  { replace zd with (1 * zd)%Z at 1 by lia.
    apply Z.mul_le_mono_nonneg_r; lia. }
  split; [lia|]. split; intros i Hi; specialize (Hm i Hi); lia.
Qed.

(** The stored differences of such centers are all the spacing. *)
Lemma diff64_progression (za zd : Z) (n s : nat) :
  (0 < zd < 2 ^ 63)%Z ->
  (forall i, s <= i < s + n -> (- 2 ^ 63 < za + Z.of_nat i * zd < 2 ^ 63)%Z) ->
  diff64 (map (fun i => (za + Z.of_nat i * zd)%Z) (seq s n)) = repeat zd (n - 1).
Proof.
  intros Hzd. revert s. induction n as [|n IH]; intros s H; [reflexivity|].
  destruct n as [|n]; [reflexivity|].
  change (seq s (S (S n))) with (s :: S s :: seq (S (S s)) n).
  cbn [map].
  change (diff64 ((za + Z.of_nat s * zd)%Z :: (za + Z.of_nat (S s) * zd)%Z
                  :: map (fun i => (za + Z.of_nat i * zd)%Z) (seq (S (S s)) n)))
    with (dt_sub (za + Z.of_nat (S s) * zd) (za + Z.of_nat s * zd)
          :: diff64 (map (fun i => (za + Z.of_nat i * zd)%Z) (seq (S s) (S n)))).
  rewrite (IH (S s)) by (intros i Hi; apply H; lia).
  replace (S (S n) - 1) with (S (S n - 1)) by lia. cbn [repeat]. f_equal.
  pose proof (H s ltac:(lia)) as H0. pose proof (H (S s) ltac:(lia)) as H1.
  rewrite dt_sub_id; rewrite ?pow_2_63 in *; lia.
Qed.

Lemma list_as_seq {A} (l : list A) (d : A) :
  l = map (fun i => nth i l d) (seq 0 (length l)).
Proof.
  apply (nth_ext _ _ d d).
  - rewrite length_map, length_seq. reflexivity.
  - intros i Hi. rewrite (nth_map_in _ _ _ d 0) by (rewrite length_seq; exact Hi).
    rewrite seq_nth by exact Hi. reflexivity.
Qed.

Lemma stored_even (qs : list Q) (a d : Q) (za zd : Z) :
  evenly_spaced qs a d -> (a == inject_Z za)%Q -> (d == inject_Z zd)%Q ->
  (forall i, i < length qs -> (- 2 ^ 63 < za + Z.of_nat i * zd < 2 ^ 63)%Z) ->
  map stored (map Num qs)
  = map (fun i => (za + Z.of_nat i * zd)%Z) (seq 0 (length qs)).
Proof.
  intros Hev Ha Hd Hb.
  rewrite (list_as_seq qs 0%Q) at 1. rewrite !map_map.
  apply map_ext_in. intros i Hi. apply in_seq in Hi.
  apply stored_inject; [|specialize (Hb i ltac:(lia)); lia].
  rewrite (Hev i ltac:(lia)), Ha, Hd.
  rewrite inject_Z_plus, inject_Z_mult. reflexivity.
Qed.

(** The step [make_bins] computes for such centers is [zd] itself. *)
Lemma datetime_dx_even (qs : list Q) (a d : Q) (za zd : Z) :
  2 <= length qs -> evenly_spaced qs a d ->
  (a == inject_Z za)%Q -> (d == inject_Z zd)%Q -> (2 <= zd)%Z ->
  fits_int64 za zd (length qs) ->
  (Z.of_nat (length qs) <= 2 ^ 53)%Z ->
  (forall k, 1 <= k < length qs -> representable (Z.of_nat k * zd)) ->
  astype_timedelta (mean_int64 (diff64 (map stored (map Num qs)))) = zd.
Proof.
  intros Hn Hev Ha Hd H2 Hfit Hc Hrep.
  destruct (fits_int64_bounds za zd (length qs) H2 ltac:(lia) Hfit) as (Hz & _ & Hcen).
  rewrite (stored_even qs a d za zd Hev Ha Hd) by (intros i Hi; apply Hcen; lia).
  rewrite diff64_progression; [|lia|intros i Hi; apply Hcen; lia].
  rewrite mean_repeat; [| lia | lia | intros k Hk; apply Hrep; lia].
  cbn [astype_timedelta]. rewrite Qtrunc_inject.
  replace ((- 2 ^ 63 <? zd)%Z && (zd <? 2 ^ 63)%Z) with true; [reflexivity|].
  symmetry. apply andb_true_iff. split; apply Z.ltb_lt; rewrite ?pow_2_63 in *; lia.
Qed.

(** The number of values [arange] returns for these centers. *)
Lemma arange_len_even (n zd h : Z) :
  (0 <= n)%Z -> (1 <= h)%Z -> (h <= zd)%Z ->
  ((n * zd + h + zd - 1) / zd = n + 1)%Z.
Proof.
  intros Hn Hh Hhd.
  replace (n * zd + h + zd - 1)%Z with ((h - 1) + (n + 1) * zd)%Z by ring.
  rewrite Z.div_add by lia. rewrite Z.div_small by lia. lia.
Qed.

Lemma last_map {A B} (f : A -> B) (l : list A) (a : A) :
  List.last (map f l) (f a) = f (List.last l a).
Proof.
  revert a. induction l as [|b r IH]; intro a; [reflexivity|].
  change (map f (b :: r)) with (f b :: map f r).
  rewrite !last_cons. apply IH.
Qed.

Lemma arange_datetime_even (za zd : Z) (n : nat) :
  1 <= n -> (2 <= zd)%Z -> fits_int64 za zd n ->
  arange_datetime (dt_sub za (timedelta_div zd 2))
                  (dt_add (za + (Z.of_nat n - 1) * zd) zd) zd
  = ([], Return (datetime_edges za zd n)).
Proof.
  intros Hn H2 Hfit.
  destruct (fits_int64_bounds za zd n H2 Hn Hfit) as (Hz & Hedge & Hcen).
  pose proof (half_step zd H2) as Hh.
  destruct Hfit as (H1 & Hs & Hl).
  pose proof (Hcen 0 ltac:(lia)) as Hza. cbn [Z.of_nat] in Hza.
  rewrite Z.mul_0_l, Z.add_0_r in Hza.
  pose proof (Hcen (n - 1) ltac:(lia)) as Hlast.
  replace (Z.of_nat (n - 1)) with (Z.of_nat n - 1)%Z in Hlast by lia.
  assert (Hdiv : timedelta_div zd 2 = Z.quot zd 2).
  { unfold timedelta_div. rewrite NaT_eqb by (rewrite pow_2_63; lia). reflexivity. }
  rewrite Hdiv.
  rewrite dt_sub_id by (rewrite ?pow_2_63 in *; lia).
  rewrite dt_add_id by (rewrite ?pow_2_63 in *; lia).
  unfold arange_datetime.
  rewrite !NaT_eqb by (rewrite ?pow_2_63 in *; lia).
  cbn [orb].
  replace (zd =? 0)%Z with false by (symmetry; apply Z.eqb_neq; lia).
  replace (0 <? zd)%Z with true by (symmetry; apply Z.ltb_lt; lia).
  replace (za - Z.quot zd 2 <? za + (Z.of_nat n - 1) * zd + zd)%Z with true
    by (symmetry; apply Z.ltb_lt; rewrite ?pow_2_63 in *; nia).
  cbn [andb].
  replace (za + (Z.of_nat n - 1) * zd + zd - (za - Z.quot zd 2) + (zd - 1))%Z
    with (Z.of_nat n * zd + Z.quot zd 2 + zd - 1)%Z by ring.
  assert (Hnum : (0 <= Z.of_nat n * zd + Z.quot zd 2 + zd - 1 < 2 ^ 63)%Z).
  { rewrite pow_2_63 in *. nia. }
  rewrite wrap64_id by lia.
  rewrite Z.quot_div_nonneg by lia.
  rewrite arange_len_even by lia.
  replace (Z.of_nat n + 1 <? 0)%Z with false by (symmetry; apply Z.ltb_ge; lia).
  replace (Z.to_nat (Z.of_nat n + 1)) with (S n) by lia.
  unfold datetime_edges, ret. do 2 f_equal.
  apply map_ext_in. intros i Hi. apply in_seq in Hi.
  pose proof (Hedge i ltac:(lia)) as Hi'.
  rewrite wrap64_id by lia. apply of_stored_id. lia.
Qed.

Lemma datetime_edges_spec (a d : Q) (za zd : Z) (n i : nat) :
  (a == inject_Z za)%Q -> (d == inject_Z zd)%Q -> i <= n ->
  edge_is (datetime_edges za zd n) i
          (a - inject_Z (Z.quot zd 2) + inject_Z (Z.of_nat i) * d)%Q.
Proof.
  intros Ha Hd Hi. unfold edge_is, datetime_edges.
  rewrite (nth_map_in _ _ _ NaN 0) by (rewrite length_seq; lia).
  rewrite seq_nth by lia. cbn [Nat.add].
  rewrite Ha, Hd. unfold Zminus.
  rewrite !inject_Z_plus, inject_Z_opp, inject_Z_mult. ring.
Qed.

(** The first and the last stored center. *)
Lemma stored_ends (q0 : Q) (r : list Q) (a d : Q) (za zd : Z) :
  evenly_spaced (q0 :: r) a d -> (a == inject_Z za)%Q -> (d == inject_Z zd)%Q ->
  (forall i, i < length (q0 :: r) -> (- 2 ^ 63 < za + Z.of_nat i * zd < 2 ^ 63)%Z) ->
  stored (Num q0) = za /\
  stored (List.last (map Num r) (Num q0))
  = (za + (Z.of_nat (length (q0 :: r)) - 1) * zd)%Z.
Proof.
  intros Hev Ha Hd Hb. split.
  - apply stored_inject.
    + rewrite (Hev 0 ltac:(simpl; lia)), Ha. cbn [nth Z.of_nat].
      change (inject_Z 0) with 0%Q. ring.
    + specialize (Hb 0 ltac:(simpl; lia)). cbn [Z.of_nat] in Hb. lia.
  - rewrite last_map, last_nth, (nth_indep _ q0 0%Q) by (simpl; lia).
    cbn [length].
    replace (Z.of_nat (S (length r)) - 1)%Z with (Z.of_nat (length r)) by lia.
    apply stored_inject.
    + rewrite (Hev (length r) ltac:(simpl; lia)), Ha, Hd.
      rewrite inject_Z_plus, inject_Z_mult. reflexivity.
    + specialize (Hb (length r) ltac:(simpl; lia)). lia.
Qed.

Lemma make_bins_datetime_even (qs : list Q) (a d : Q) (za zd : Z) :
  2 <= length qs -> evenly_spaced qs a d ->
  (a == inject_Z za)%Q -> (d == inject_Z zd)%Q -> (2 <= zd)%Z ->
  fits_int64 za zd (length qs) ->
  (Z.of_nat (length qs) <= 2 ^ 53)%Z ->
  (forall k, 1 <= k < length qs -> representable (Z.of_nat k * zd)) ->
  make_bins (mkarray KM (map Num qs))
  = ([], Return (datetime_edges za zd (length qs))).
Proof.
  intros Hn Hev Ha Hd Hzd Hfit Hc Hrep. unfold make_bins, is_datetime.
  cbn [dtype_kind elems kind_eqb].
  rewrite (datetime_dx_even qs a d za zd Hn Hev Ha Hd Hzd Hfit Hc Hrep).
  destruct (fits_int64_bounds za zd (length qs) Hzd ltac:(lia) Hfit) as (_ & _ & Hcen).
  destruct qs as [|q0 r]; [simpl in Hn; lia|].
  destruct (stored_ends q0 r a d za zd Hev Ha Hd) as [E0 El];
    [intros i Hi; apply Hcen; lia|].
  cbn [map item_first item_last]. cbn [bind ret app].
  rewrite E0, El.
  rewrite (arange_datetime_even za zd (length (q0 :: r))) by (try assumption; simpl; lia).
  cbn [bind ret app]. unfold size, datetime_edges. cbn [elems].
  rewrite length_map, length_seq. cbn [length]. rewrite length_map.
  replace (S (length r) + 1) with (S (S (length r))) by lia.
  rewrite Nat.eqb_refl. reflexivity.
Qed.

Lemma gridded_bins_datetime_even (est : list val -> val) (qs : list Q) (a d : Q) (za zd : Z) :
  2 <= length qs -> evenly_spaced qs a d ->
  (a == inject_Z za)%Q -> (d == inject_Z zd)%Q -> (2 <= zd)%Z ->
  fits_int64 za zd (length qs) ->
  (Z.of_nat (length qs) <= 2 ^ 53)%Z ->
  (forall k, 1 <= k < length qs -> representable (Z.of_nat k * zd)) ->
  _make_bins_from_gridded_coord est (mkarray KM (map Num qs))
  = ([], Return (datetime_edges za zd (length qs))).
Proof.
  intros Hn Hev Ha Hd Hzd Hfit Hc Hrep.
  unfold _make_bins_from_gridded_coord, is_datetime.
  cbn [dtype_kind elems kind_eqb].
  rewrite (datetime_dx_even qs a d za zd Hn Hev Ha Hd Hzd Hfit Hc Hrep).
  destruct (fits_int64_bounds za zd (length qs) Hzd ltac:(lia) Hfit) as (_ & _ & Hcen).
  destruct qs as [|q0 r]; [simpl in Hn; lia|].
  destruct (stored_ends q0 r a d za zd Hev Ha Hd) as [E0 El];
    [intros i Hi; apply Hcen; lia|].
  cbn [map item_first item_last]. cbn [bind ret app].
  rewrite E0, El.
  rewrite (arange_datetime_even za zd (length (q0 :: r))) by (try assumption; simpl; lia).
  cbn [bind ret app]. unfold size, datetime_edges. cbn [elems].
  rewrite length_map, length_seq. cbn [length]. rewrite length_map.
  replace (S (length r) + 1) with (S (S (length r))) by lia.
  rewrite Nat.eqb_refl. reflexivity.
Qed.

(** On every non-empty numeric sequence, evenly spaced or not, [make_bins]
    returns one edge more than there are centers. *)
Lemma make_bins_numeric_length (k : kind) (x : list val) :
  kind_eqb k KM = false -> x <> [] ->
  exists bins, make_bins (mkarray k x) = ([], Return bins)
               /\ length bins = length x + 1.
Proof.
  intros Hk Hx. destruct x as [|a r]; [congruence|].
  eexists. split; [apply (make_bins_numeric k a r Hk)|].
  rewrite length_linspace. simpl. lia.
Qed.




(** ** [colocate_dataarray]: the checks on the query *)

Lemma nodup_constant (l : list nat) (n : nat) :
  l <> [] -> (forall x, In x l -> x = n) -> nodup Nat.eq_dec l = [n].
Proof.
  induction l as [|a r IH]; intros Hne Hall; [congruence|].
  assert (a = n) as -> by (apply Hall; left; reflexivity).
  cbn [nodup]. destruct r as [|b r'].
  - destruct (in_dec Nat.eq_dec n []) as [[]|_]. reflexivity.
  - destruct (in_dec Nat.eq_dec n (b :: r')) as [_|Hn].
    + apply IH; [congruence|]. intros x Hx. apply Hall. right. exact Hx.
    + exfalso. apply Hn. left. apply Hall. right. left. reflexivity.
Qed.

Lemma coord_lengths_same (coords : query) (len : nat) :
  coords <> [] -> same_length coords len ->
  nodup Nat.eq_dec (map (fun k => size (coord coords k)) (map fst coords)) = [len].
Proof.
  intros Hne Hlen. apply nodup_constant.
  - destruct coords; [congruence|]. discriminate.
  - intros x Hx. apply in_map_iff in Hx. destruct Hx as (k & <- & Hk).
    apply Hlen. exact Hk.
Qed.

(** A valid query passes the assertions: the name of the array is printed,
    the ranges are taken, the array is restricted, and the rest follows. *)
Lemma colocate_valid (da : DataArray) (verbose : bool) (coords : query) (len : nat) :
  valid_query da coords len ->
  colocate_dataarray da verbose coords =
    bind (vprint verbose (da_name da ++ ":")%string) (fun _ =>
    bind (query_ranges coords) (fun ranges =>
    bind (sel da ranges) (fun xdr =>
    colocate_rest da xdr verbose coords len))).
Proof.
  intros [Hne Hlen Hm Hk]. unfold colocate_dataarray.
  rewrite (coord_lengths_same coords len Hne Hlen).
  fold (keys_of coords). fold (not_matched_of da coords).
  fold (type_missmatch_of da coords). rewrite Hm, Hk.
  assert (Hkeys : (0 <? length (keys_of coords)) = true).
  { destruct coords; [congruence|]. reflexivity. }
  rewrite Hkeys. cbn [length Nat.eqb assert hd].
  rewrite !bind_ret_l. reflexivity.
Qed.


Lemma events_bind {A B} (m : M A) (f : A -> M B) :
  events (bind m f) =
    events m ++ match result m with
                | Return a => events (f a)
                | Raise _ => []
                end.
Proof.
  destruct m as [l [e|a]]; simpl.
  - rewrite app_nil_r. reflexivity.
  - destruct (f a). reflexivity.
Qed.

Lemma result_bind {A B} (m : M A) (f : A -> M B) :
  result (bind m f) =
    match result m with
    | Return a => result (f a)
    | Raise e => Raise e
    end.
Proof.
  destruct m as [l [e|a]]; simpl; [reflexivity|]. destruct (f a). reflexivity.
Qed.

Lemma events_mapM {A B} (f : A -> M B) (l : list A) :
  (forall a, events (f a) = []) -> events (mapM f l) = [].
Proof.
  intro Hf. induction l as [|a r IH]; [reflexivity|].
  cbn [mapM]. rewrite events_bind, Hf. cbn [app].
  destruct (result (f a)); [reflexivity|].
  rewrite events_bind, IH. cbn [app].
  destruct (result (mapM f r)); reflexivity.
Qed.

Lemma events_nanmin (l : list val) : events (nanmin l) = [].
Proof. destruct l; reflexivity. Qed.

Lemma events_nanmax (l : list val) : events (nanmax l) = [].
Proof. destruct l; reflexivity. Qed.

Lemma events_query_ranges (coords : query) : events (query_ranges coords) = [].
Proof.
  apply events_mapM. intro k.
  rewrite events_bind, events_nanmin. cbn [app].
  destruct (result (nanmin (elems (coord coords k)))); [reflexivity|].
  rewrite events_bind, events_nanmax. cbn [app].
  destruct (result (nanmax (elems (coord coords k)))); reflexivity.
Qed.

Lemma events_searchsorted_monotonic (idx : list val) (label : val) (left : bool) :
  events (searchsorted_monotonic idx label left) = [].
Proof.
  unfold searchsorted_monotonic.
  destruct (is_monotonic_increasing idx); [reflexivity|].
  destruct (is_monotonic_decreasing idx); reflexivity.
Qed.

Lemma events_slice_locs (idx : list val) (lo hi : val) :
  events (slice_locs idx lo hi) = [].
Proof.
  unfold slice_locs. rewrite events_bind, events_searchsorted_monotonic. cbn [app].
  destruct (result (searchsorted_monotonic idx lo true)); [reflexivity|].
  rewrite events_bind, events_searchsorted_monotonic. cbn [app].
  destruct (result (searchsorted_monotonic idx hi false)); reflexivity.
Qed.

Lemma events_sel (da : DataArray) (ranges : list (string * (val * val))) :
  events (sel da ranges) = [].
Proof.
  unfold sel. rewrite events_bind.
  assert (H : events (mapM (sel_axis ranges) (da_axes da)) = []).
  { apply events_mapM. intros [k x]. unfold sel_axis.
    destruct (assoc k ranges) as [[lo hi]|]; [|reflexivity].
    rewrite events_bind, events_slice_locs. cbn [app].
    destruct (result (slice_locs (elems x) lo hi)) as [e|[start stop]]; reflexivity. }
  rewrite H. cbn [app]. destruct (result _); reflexivity.
Qed.

Lemma events_vprint_no_load (verbose : bool) (s : string) :
  ~ In Load (events (vprint verbose s)).
Proof.
  destruct verbose; simpl; [intros [H|[]]; discriminate | intros []].
Qed.

Lemma mem_In (k : string) (l : list string) : mem k l = true <-> In k l.
Proof.
  unfold mem. rewrite existsb_exists. split.
  - intros (x & Hx & E). apply String.eqb_eq in E. subst. exact Hx.
  - intro H. exists k. split; [exact H|apply String.eqb_refl].
Qed.

(** [not_matched] holds exactly the query names that are not dimensions. *)
Lemma not_matched_spec (da : DataArray) (coords : query) (k : string) :
  In k (not_matched_of da coords) <->
  In k (keys_of coords) /\ ~ In k (da_dims da).
Proof.
  unfold not_matched_of. rewrite filter_In, negb_true_iff.
  rewrite <- (mem_In k (da_dims da)). destruct (mem k (da_dims da)); intuition congruence.
Qed.




(** ** [colocate_dataarray]: the ceiling on the restricted size *)

(** C5.  When the target restricted to the bounding ranges of a valid query
    has more cells than the ceiling, [colocate_dataarray] raises the
    ValueError that carries the name and the shape of the target, and
    nothing has been loaded. *)
Theorem C5_range_too_large
    (da : DataArray) (verbose : bool) (coords : query) (len : nat)
    (ranges : list (string * (val * val))) (xdr : DataArray) :
  valid_query da coords len ->
  result (query_ranges coords) = Return ranges ->
  result (sel da ranges) = Return xdr ->
  (da_size xdr > 720 * 1440 * 365 * 2)%Z ->
  result (colocate_dataarray da verbose coords)
    = Raise (ValueError (MsgRangeTooLarge (da_name da) (da_shape da))) /\
  ~ In Load (events (colocate_dataarray da verbose coords)).
Proof.
  intros Hv Hr Hs Hsize.
  rewrite (colocate_valid da verbose coords len Hv).
  assert (Hgt : (da_size xdr >? max_size)%Z = true).
  { apply Z.gtb_lt. unfold max_size. lia. }
  split.
  - rewrite result_bind.
    replace (result (vprint verbose (da_name da ++ ":")%string)) with (Return tt)
      by (destruct verbose; reflexivity).
    rewrite result_bind, Hr, result_bind, Hs.
    unfold colocate_rest. rewrite Hgt. reflexivity.
  - rewrite events_bind.
    replace (result (vprint verbose (da_name da ++ ":")%string)) with (Return tt)
      by (destruct verbose; reflexivity).
    rewrite events_bind, events_query_ranges, Hr.
    rewrite events_bind, events_sel, Hs.
    unfold colocate_rest. rewrite Hgt. cbn [app events raise fst].
    rewrite app_nil_r. apply events_vprint_no_load.
Qed.

(** The theorem on two years of daily quarter-degree fields, queried over
    the whole range of latitudes. *)
Lemma C5_witness :
  result (colocate_dataarray daily_quarter_degree true
            [("lat", mkarray Kf [Num (- (719 # 8)); Num (719 # 8)])])
    = Raise (ValueError (MsgRangeTooLarge "sst" [731; 720; 1440])) /\
  ~ In Load (events (colocate_dataarray daily_quarter_degree true
                       [("lat", mkarray Kf [Num (- (719 # 8)); Num (719 # 8)])])).
Proof.
  refine (C5_range_too_large daily_quarter_degree true
            [("lat", mkarray Kf [Num (- (719 # 8)); Num (719 # 8)])] 2
            [("lat", (Num (- (719 # 8)), Num (719 # 8)))]
            (mkDataArray "sst" (da_axes daily_quarter_degree)
               (fun idx => da_values daily_quarter_degree (shift [0; 0; 0] idx)))
            _ _ _ _).
  - constructor.
    + discriminate.
    + intros k [<-|[]]. reflexivity.
    + reflexivity.
    + reflexivity.
  - reflexivity.
  - vm_compute. reflexivity.
  - vm_compute. reflexivity.
Defined.

(** ** Sorted coordinates *)

Lemma mapM_ret {A B} (f : A -> M B) (g : A -> B) (l : list A) :
  (forall a, In a l -> f a = ret (g a)) -> mapM f l = ret (map g l).
Proof.
  induction l as [|a r IH]; intro H; [reflexivity|].
  cbn [mapM map]. rewrite (H a (or_introl eq_refl)), bind_ret_l.
  rewrite IH by (intros x Hx; apply H; right; exact Hx).
  rewrite bind_ret_l. reflexivity.
Qed.

Lemma increasing_tail (a : Q) (r : list Q) : increasing (a :: r) -> increasing r.
Proof.
  destruct r as [|b r']; [intros; exact I|]. intros [_ H]. exact H.
Qed.

Lemma increasing_head (a : Q) (r : list Q) :
  increasing (a :: r) -> Forall (fun q => (a < q)%Q) r.
Proof.
  revert a. induction r as [|b r' IH]; intros a H; [constructor|].
  destruct H as [Hab Hr]. constructor; [exact Hab|].
  specialize (IH b Hr).
  eapply Forall_impl; [|exact IH]. intros q Hq. simpl in Hq. lra.
Qed.

Lemma monotonic_increasing_sorted (qs : list Q) :
  increasing qs -> is_monotonic_increasing (map Num qs) = true.
Proof.
  unfold is_monotonic_increasing.
  induction qs as [|a r IH]; intro H; [reflexivity|].
  destruct r as [|b r']; [reflexivity|].
  destruct H as [Hab Hr].
  change (pairwise vleb (map Num (a :: b :: r')))
    with (vleb (Num a) (Num b) && pairwise vleb (map Num (b :: r'))).
  rewrite (IH Hr), andb_true_r. cbn [vleb].
  apply Qle_bool_iff. lra.
Qed.

Lemma sel_sorted (da : DataArray) (ranges : list (string * (val * val))) :
  numeric_sorted da -> sel da ranges = ret (restricted da ranges).
Proof.
  intro Hs. unfold sel.
  rewrite (mapM_ret (sel_axis ranges) (restrict_axis ranges)).
  - rewrite bind_ret_l. reflexivity.
  - intros [k x] Hin. destruct (Hs (k, x) Hin) as (_ & qs & Hqs & Hinc).
    unfold sel_axis, restrict_axis. cbn [fst snd] in *.
    destruct (assoc k ranges) as [[lo hi]|]; [|reflexivity].
    unfold slice_locs, searchsorted_monotonic.
    rewrite Hqs, (monotonic_increasing_sorted qs Hinc).
    rewrite !bind_ret_l. reflexivity.
Qed.

Lemma increasing_nth (l : list Q) :
  (forall i, S i < length l -> (nth i l 0 < nth (S i) l 0)%Q) -> increasing l.
Proof.
  induction l as [|a r IH]; intro H; [exact I|].
  destruct r as [|b r']; [exact I|]. split.
  - apply (H 0). simpl. lia.
  - apply IH. intros i Hi. apply (H (S i)). simpl in *. lia.
Qed.

Lemma nth_increasing (l : list Q) (i : nat) :
  increasing l -> S i < length l -> (nth i l 0 < nth (S i) l 0)%Q.
Proof.
  revert i. induction l as [|a r IH]; intros i H Hi; [simpl in Hi; lia|].
  destruct r as [|b r']; [simpl in Hi; lia|].
  destruct H as [Hab Hr]. destruct i as [|i]; [exact Hab|].
  apply (IH i Hr). simpl in *. lia.
Qed.

Lemma increasing_skipn (n : nat) (l : list Q) : increasing l -> increasing (skipn n l).
Proof.
  revert l. induction n as [|n IH]; intros l H; [exact H|].
  destruct l as [|a r]; [exact I|]. apply IH. exact (increasing_tail a r H).
Qed.

Lemma increasing_firstn (n : nat) (l : list Q) : increasing l -> increasing (firstn n l).
Proof.
  revert l. induction n as [|n IH]; intros l H; [exact I|].
  destruct l as [|a r]; [exact I|].
  cbn [firstn]. destruct r as [|b r']; [destruct n; exact I|].
  destruct H as [Hab Hr]. specialize (IH (b :: r') Hr).
  destruct n as [|n]; [exact I|]. cbn [firstn] in *. split; assumption.
Qed.

Lemma py_slice_map {A B} (f : A -> B) (l : list A) (s e : nat) :
  py_slice (map f l) s e = map f (py_slice l s e).
Proof.
  unfold py_slice. rewrite skipn_map, firstn_map. reflexivity.
Qed.

Lemma restrict_axis_sorted (ranges : list (string * (val * val))) (kx : string * array) :
  numeric_sorted_axis (snd kx) ->
  numeric_sorted_axis (snd (fst (restrict_axis ranges kx))).
Proof.
  intros (Hk & qs & Hqs & Hinc). unfold restrict_axis.
  destruct (assoc (fst kx) ranges) as [[lo hi]|]; cbn [fst snd].
  - split; [exact Hk|]. cbn [elems dtype_kind].
    exists (py_slice qs (searchsorted_left (elems (snd kx)) lo)
                     (searchsorted_right (elems (snd kx)) hi)).
    split.
    + rewrite Hqs at 1. apply py_slice_map.
    + unfold py_slice. apply increasing_firstn, increasing_skipn, Hinc.
  - split; [exact Hk|]. exists qs. split; assumption.
Qed.

Lemma restricted_sorted (da : DataArray) (ranges : list (string * (val * val))) :
  numeric_sorted da -> numeric_sorted (restricted da ranges).
Proof.
  intros Hs kx Hin. unfold restricted in Hin. cbn [da_axes] in Hin.
  apply in_map_iff in Hin. destruct Hin as (t & <- & Ht).
  apply in_map_iff in Ht. destruct Ht as (kx0 & <- & H0).
  apply restrict_axis_sorted, Hs, H0.
Qed.

(** The elements of [linspace] as rationals. *)
Lemma linspace_Num (s e : Q) (d : nat) :
  linspace (Num s) (Num e) (S (S d)) =
    map Num (map (fun i => (inject_Z (Z.of_nat i)
                            * ((e - s) / inject_Z (Zpos (Pos.of_nat (S d)))) + s)%Q)
                 (seq 0 (S d)) ++ [e]).
Proof.
  unfold linspace. rewrite map_app, map_map. reflexivity.
Qed.

Lemma linspace_increasing (s e : Q) (d : nat) :
  (s < e)%Q ->
  exists bq, linspace (Num s) (Num e) (S (S d)) = map Num bq /\
             increasing bq /\ length bq = S (S d).
Proof.
  intro Hse. eexists. split; [apply linspace_Num|].
  set (f := fun i => (inject_Z (Z.of_nat i)
                      * ((e - s) / inject_Z (Zpos (Pos.of_nat (S d)))) + s)%Q).
  assert (Hlen : length (map f (seq 0 (S d)) ++ [e]) = S (S d)).
  { rewrite length_app, length_map, length_seq. simpl. lia. }
  split; [|exact Hlen].
  assert (Hpos : (0 < inject_Z (Z.of_nat (S d)))%Q).
  { change 0%Q with (inject_Z 0). rewrite <- Zlt_Qlt. lia. }
  set (st := ((e - s) / inject_Z (Z.of_nat (S d)))%Q).
  assert (Hstep : (0 < st)%Q).
  { apply Qlt_shift_div_l; [exact Hpos|]. lra. }
  assert (He : (e == s + inject_Z (Z.of_nat (S d)) * st)%Q).
  { unfold st. field. lra. }
  assert (Hnth : forall i, i < S d ->
            (nth i (map f (seq 0 (S d)) ++ [e]) 0 == s + inject_Z (Z.of_nat i) * st)%Q).
  { intros i Hi. rewrite app_nth1 by (rewrite length_map, length_seq; exact Hi).
    rewrite (nth_map_in _ _ _ 0%Q 0) by (rewrite length_seq; exact Hi).
    rewrite seq_nth by exact Hi. unfold f, st. rewrite inject_pos_of_nat.
    cbn [Nat.add]. ring. }
  assert (Hlast : nth (S d) (map f (seq 0 (S d)) ++ [e]) 0%Q = e).
  { rewrite app_nth2 by (rewrite length_map, length_seq; lia).
    rewrite length_map, length_seq, Nat.sub_diag. reflexivity. }
  clearbody st.
  apply increasing_nth. intros i Hi. rewrite Hlen in Hi.
  destruct (Nat.eq_dec (S i) (S d)) as [E|E].
  - rewrite E, Hlast, (Hnth i) by lia.
    assert (i = d) as -> by lia.
    rewrite He, (Nat2Z.inj_succ d), <- Z.add_1_r, inject_Z_plus.
    change (inject_Z 1) with 1%Q. lra.
  - rewrite (Hnth i), (Hnth (S i)) by lia.
    rewrite (Nat2Z.inj_succ i), <- Z.add_1_r, inject_Z_plus.
    change (inject_Z 1) with 1%Q. lra.
Qed.

(** ** Edges of a sorted coordinate, and [pd.cut] on them *)

Lemma last_In {A} (l : list A) (a : A) : l <> [] -> In (List.last l a) l.
Proof.
  revert a. induction l as [|b r IH]; intros a H; [congruence|].
  rewrite last_cons. destruct r as [|c r']; [left; reflexivity|].
  right. apply IH. discriminate.
Qed.

(** One center: no spacing to average, and both edges are NaN. *)
Lemma edges_of_single (q : Q) : edges_of [Num q] = [NaN; NaN].
Proof. reflexivity. Qed.

Lemma edges_of_cons (q0 : Q) (r : list Q) :
  edges_of (map Num (q0 :: r)) =
    linspace (vsub (Num q0) (vdivn (nanmean (diff (map Num (q0 :: r)))) 2))
             (vadd (Num (List.last r q0)) (vdivn (nanmean (diff (map Num (q0 :: r)))) 2))
             (S (length r) + 1).
Proof.
  unfold edges_of. cbn [map]. rewrite last_map, length_map. reflexivity.
Qed.

(** Two centers or more: the edges are strictly increasing numbers. *)
Lemma edges_of_sorted (qs : list Q) :
  increasing qs -> 2 <= length qs ->
  exists bq, edges_of (map Num qs) = map Num bq /\
             increasing bq /\ length bq = S (length qs).
Proof.
  intros Hinc Hn.
  destruct qs as [|q0 [|q1 r']]; try (simpl in Hn; lia).
  rewrite edges_of_cons.
  unfold nanmean. rewrite nancount_diff.
  cbn [vsub vadd vdivn lift2 length].
  set (m := (nansum (diff (map Num (q0 :: q1 :: r')))
             / inject_Z (Z.of_nat (S (length r'))))%Q).
  assert (Hm : (0 < m)%Q).
  { unfold m. apply Qlt_shift_div_l.
    - change 0%Q with (inject_Z 0). rewrite <- Zlt_Qlt. lia.
    - rewrite nansum_diff.
      pose proof (increasing_head q0 (q1 :: r') Hinc) as Hall.
      rewrite Forall_forall in Hall.
      specialize (Hall (List.last (q1 :: r') q0)
                       (last_In (q1 :: r') q0 ltac:(discriminate))).
      lra. }
  assert (Hlast : (q0 < List.last (q1 :: r') q0)%Q).
  { pose proof (increasing_head q0 (q1 :: r') Hinc) as Hall.
    rewrite Forall_forall in Hall.
    apply Hall, last_In. discriminate. }
  replace (S (S (length r')) + 1) with (S (S (S (length r')))) by lia.
  destruct (linspace_increasing (q0 - m / inject_Z 2)
              (List.last (q1 :: r') q0 + m / inject_Z 2) (S (length r')))
    as (bq & Hbq & Hincb & Hlen).
  { change (inject_Z 2) with 2%Q. unfold Qdiv. change (/ 2)%Q with (1 # 2)%Q. lra. }
  exists bq. split; [exact Hbq|]. split; [exact Hincb|exact Hlen].
Qed.

Lemma filter_all {A} (p : A -> bool) (l : list A) :
  Forall (fun x => p x = true) l -> filter p l = l.
Proof.
  induction 1 as [|x r Hx _ IH]; [reflexivity|].
  cbn [filter]. rewrite Hx, IH. reflexivity.
Qed.

Lemma filter_none {A} (p : A -> bool) (l : list A) :
  Forall (fun x => p x = false) l -> filter p l = [].
Proof.
  induction 1 as [|x r Hx _ IH]; [reflexivity|].
  cbn [filter]. rewrite Hx, IH. reflexivity.
Qed.

Lemma diff_nonneg_sorted (bq : list Q) :
  increasing bq ->
  existsb (fun d => vltb d (Num 0)) (diff (map Num bq)) = false.
Proof.
  induction bq as [|a r IH]; intro H; [reflexivity|].
  destruct r as [|b r']; [reflexivity|].
  destruct H as [Hab Hr].
  change (diff (map Num (a :: b :: r')))
    with (Num (b - a)%Q :: diff (map Num (b :: r'))).
  cbn [existsb]. rewrite (IH Hr), orb_false_r.
  cbn [vltb]. apply Qltb_ge. lra.
Qed.

Lemma unique_sorted (bq : list Q) :
  increasing bq -> unique (map Num bq) = map Num bq.
Proof.
  induction bq as [|a r IH]; intro H; [reflexivity|].
  cbn [map unique]. rewrite (IH (increasing_tail a r H)).
  f_equal. apply filter_all.
  pose proof (increasing_head a r H) as Hall.
  rewrite Forall_forall in *. intros v Hv.
  apply in_map_iff in Hv. destruct Hv as (q & <- & Hq).
  specialize (Hall q Hq). cbn [same_val].
  rewrite negb_true_iff.
  destruct (Qeq_bool a q) eqn:E; [|reflexivity].
  apply Qeq_bool_iff in E. lra.
Qed.

(** Bins that pass the checks of [pd.cut]: two NaN edges, or strictly
    increasing numbers. *)
Lemma cut_ok (x bins : list val) :
  bins = [NaN; NaN] \/ (exists bq, bins = map Num bq /\ increasing bq) ->
  cut x bins = ret (map (cut1 bins) x).
Proof.
  intros [-> | (bq & -> & Hinc)]; [reflexivity|].
  unfold cut. rewrite (diff_nonneg_sorted bq Hinc), (unique_sorted bq Hinc).
  rewrite Nat.ltb_irrefl. reflexivity.
Qed.

(** The edges of a sorted numeric coordinate that is not empty pass. *)
Lemma edges_of_ok (x : array) :
  numeric_sorted_axis x -> elems x <> [] ->
  make_bins x = ret (edges_of (elems x)) /\
  (edges_of (elems x) = [NaN; NaN] \/
   exists bq, edges_of (elems x) = map Num bq /\ increasing bq).
Proof.
  intros (Hk & qs & Hqs & Hinc) Hne. split.
  - destruct x as [k el]. cbn [elems dtype_kind] in *.
    destruct el as [|a r]; [congruence|].
    rewrite (make_bins_numeric k a r Hk). reflexivity.
  - rewrite Hqs in *. destruct qs as [|q0 [|q1 r']]; [exfalso; apply Hne; reflexivity| |].
    + left. reflexivity.
    + right. destruct (edges_of_sorted (q0 :: q1 :: r') Hinc) as (bq & H1 & H2 & _).
      * simpl. lia.
      * exists bq. split; assumption.
Qed.

(** ** [colocate_dataarray] on a query that names every dimension *)

Lemma assoc_In {A} (k : string) (l : list (string * A)) :
  In k (map fst l) -> exists a, assoc k l = Some a /\ In (k, a) l.
Proof.
  induction l as [|[k' a'] r IH]; intro H; [destruct H|].
  cbn [assoc]. destruct (String.eqb k k') eqn:E.
  - apply String.eqb_eq in E. subst. exists a'. split; [reflexivity|left; reflexivity].
  - destruct H as [H|H].
    + cbn in H. subst. rewrite String.eqb_refl in E. discriminate.
    + destruct (IH H) as (a & Ha & Hin). exists a. split; [exact Ha|right; exact Hin].
Qed.

Lemma assoc_map_snd {A B} (g : string * A -> B) (k : string) (l : list (string * A)) :
  assoc k (map (fun kx => (fst kx, g kx)) l) =
    match assoc k l with
    | Some a => Some (g (k, a))
    | None => None
    end.
Proof.
  induction l as [|[k' a'] r IH]; [reflexivity|].
  cbn [map assoc fst]. destruct (String.eqb k k') eqn:E; [|exact IH].
  apply String.eqb_eq in E. subst. reflexivity.
Qed.

Lemma assoc_map_key {B} (h : string -> B) (k : string) (keys : list string) :
  In k keys -> assoc k (map (fun k' => (k', h k')) keys) = Some (h k).
Proof.
  induction keys as [|k' r IH]; intro H; [destruct H|].
  cbn [map assoc]. destruct (String.eqb k k') eqn:E.
  - apply String.eqb_eq in E. subst. reflexivity.
  - destruct H as [H|H]; [subst; rewrite String.eqb_refl in E; discriminate|].
    apply IH, H.
Qed.

(** A restricted target with cells has no empty coordinate. *)
Lemma size_pos_axes (xdr : DataArray) :
  da_size xdr <> 0%Z -> forall kx, In kx (da_axes xdr) -> elems (snd kx) <> [].
Proof.
  unfold da_size, da_shape. induction (da_axes xdr) as [|kx0 r IH]; intros Hs kx Hin.
  - destruct Hin.
  - cbn [map fold_right] in Hs. destruct Hin as [<-|Hin].
    + intro E. apply Hs. unfold size. rewrite E. reflexivity.
    + apply IH; [|exact Hin]. intro E. apply Hs. rewrite E. lia.
Qed.

Lemma result_vprint_bind {B} (verbose : bool) (s : string) (f : unit -> M B) :
  result (bind (vprint verbose s) f) = result (f tt).
Proof.
  rewrite result_bind. destruct verbose; reflexivity.
Qed.

Lemma result_emit_bind {B} (ev : event) (f : unit -> M B) :
  result (bind (emit ev) f) = result (f tt).
Proof.
  rewrite result_bind. reflexivity.
Qed.

(** Indexing with one integer array per dimension gives a
    one-dimensional array: element [j] is the cell named by the [j]-th
    entries of the arrays. *)
Lemma adjacent_arrays (ixs : list (list nat)) :
  adjacent (map IdxArray ixs) = true.
Proof.
  unfold adjacent. destruct ixs as [|ix r]; [reflexivity|].
  cbn [map drop_while is_slice negb].
  induction r as [|ix' r IH]; [reflexivity|]. exact IH.
Qed.

Lemma sliced_shape_arrays (ixs : list (list nat)) (sh : list nat) :
  sliced_shape (map IdxArray ixs) sh = [].
Proof.
  revert sh. induction ixs as [|ix r IH]; intros [|n sh]; try reflexivity. apply IH.
Qed.

Lemma fill_arrays (ixs : list (list nat)) (j : nat) (s : list nat) :
  fill (map IdxArray ixs) j s = map (fun ix => nth j ix 0) ixs.
Proof.
  induction ixs as [|ix r IH]; [reflexivity|]. cbn [map fill]. f_equal. exact IH.
Qed.

Lemma getitem_arrays (a : ndarray) (ixs : list (list nat)) (len : nat) :
  nd_shape (getitem a (map IdxArray ixs) len) = [len] /\
  forall j, nd_get (getitem a (map IdxArray ixs) len) [j]
            = nd_get a (map (fun ix => nth j ix 0) ixs).
Proof.
  unfold getitem. rewrite adjacent_arrays.
  assert (Hnb : count_leading_slices (map IdxArray ixs) = 0).
  { unfold count_leading_slices. destruct ixs; cbn; lia. }
  rewrite Hnb, sliced_shape_arrays.
  cbn [nd_shape nd_get firstn skipn app nth]. split; [reflexivity|].
  intro j. rewrite fill_arrays. reflexivity.
Qed.

Lemma nth_fillna0 (col : list (option nat)) (j : nat) :
  j < length col ->
  nth j (fillna0 col) 0 = match nth j col None with Some c => c | None => 0 end.
Proof.
  intro H. unfold fillna0.
  rewrite (nth_map_in _ col j 0 None H). reflexivity.
Qed.

Lemma length_isnull_any (binned : list (string * list (option nat))) (len : nat) :
  length (isnull_any binned len) = len.
Proof.
  unfold isnull_any. rewrite length_map, length_seq. reflexivity.
Qed.

Lemma nth_isnull_any (binned : list (string * list (option nat))) (len j : nat) :
  j < len ->
  nth j (isnull_any binned len) false =
    existsb (fun col => is_none (nth j (snd col) None)) binned.
Proof.
  intro H. unfold isnull_any.
  rewrite (nth_map_in _ _ _ false 0) by (rewrite length_seq; exact H).
  rewrite seq_nth by exact H. reflexivity.
Qed.

Lemma existsb_map {A B} (p : B -> bool) (f : A -> B) (l : list A) :
  existsb p (map f l) = existsb (fun a => p (f a)) l.
Proof.
  induction l as [|a r IH]; [reflexivity|]. cbn [map existsb]. now rewrite IH.
Qed.

Lemma existsb_ext_in {A} (p q : A -> bool) (l : list A) :
  (forall a, In a l -> p a = q a) -> existsb p l = existsb q l.
Proof.
  induction l as [|a r IH]; intro H; [reflexivity|].
  cbn [existsb]. rewrite (H a (or_introl eq_refl)), IH; [reflexivity|].
  intros x Hx. apply H. right. exact Hx.
Qed.

(** The rest of [colocate_dataarray] on a restricted target with sorted
    numeric coordinates, no more cells than the ceiling and at least one,
    for a query on every dimension: one value per row, [row_value]. *)
Lemma colocate_rest_full
    (da xdr : DataArray) (verbose : bool) (coords : query) (len : nat) :
  numeric_sorted xdr ->
  da_dims xdr = da_dims da ->
  (forall k, In k (keys_of coords) -> In k (da_dims da)) ->
  full_query da coords ->
  same_length coords len ->
  (0 < da_size xdr <= max_size)%Z ->
  exists out,
    result (colocate_rest da xdr verbose coords len) = Return out /\
    nd_shape out = [len] /\
    forall j, j < len -> nd_get out [j] = row_value xdr coords j.
Proof.
  intros Hs Hdims Hkeys Hfull Hlen Hsize.
  unfold colocate_rest.
  destruct (da_size xdr >? max_size)%Z eqn:E1; [apply Z.gtb_lt in E1; lia|].
  destruct (da_size xdr =? 0)%Z eqn:E2; [apply Z.eqb_eq in E2; lia|].
  rewrite result_vprint_bind, result_emit_bind, result_vprint_bind.
  rewrite (mapM_ret _ (fun kx => (fst kx, edges_of (elems (snd kx))))).
  2:{ intros kx Hin. destruct (edges_of_ok (snd kx)) as [Hmb _].
      - apply Hs, Hin.
      - apply (size_pos_axes xdr); [lia|exact Hin].
      - rewrite Hmb, bind_ret_l. reflexivity. }
  rewrite bind_ret_l.
  rewrite (mapM_ret _ (fun k => (k, map (cut1 (bins_for xdr k)) (elems (coord coords k))))).
  2:{ intros k Hk.
      rewrite (assoc_map_snd (fun kx => edges_of (elems (snd kx)))).
      destruct (assoc_In k (da_axes xdr)) as (x & Hx & Hin).
      { fold (da_dims xdr). rewrite Hdims. apply Hkeys, Hk. }
      rewrite Hx. cbn [snd].
      unfold bins_for, da_coord. rewrite Hx.
      destruct (edges_of_ok x) as [_ Hok].
      - apply (Hs (k, x)), Hin.
      - apply (size_pos_axes xdr ltac:(lia) (k, x)), Hin.
      - rewrite (cut_ok _ _ Hok), bind_ret_l. reflexivity. }
  rewrite bind_ret_l, result_vprint_bind.
  pose (h := fun k => map (cut1 (bins_for xdr k)) (elems (coord coords k))).
  pose (binned := map (fun k => (k, h k)) (keys_of coords)).
  change (map (fun k => (k, map (cut1 (bins_for xdr k)) (elems (coord coords k))))
              (keys_of coords)) with binned.
  assert (Hindex :
    map (fun key => match assoc key binned with
                    | Some col => IdxArray (fillna0 col)
                    | None => IdxSlice
                    end) (da_dims da)
    = map IdxArray (map (fun d => fillna0 (h d)) (da_dims da))).
  { rewrite map_map. apply map_ext_in. intros d Hd.
    unfold binned. rewrite (assoc_map_key h d _ (Hfull d Hd)). reflexivity. }
  rewrite Hindex.
  set (a := mkndarray (da_shape xdr) (da_values xdr)).
  set (ixs := map (fun d => fillna0 (h d)) (da_dims da)).
  destruct (getitem_arrays a ixs len) as [Hshape Hget].
  unfold setitem_mask_nan. cbn [transpose nd_shape].
  rewrite Hshape, length_isnull_any. cbn [rev app hd].
  rewrite Nat.eqb_refl.
  eexists. split; [reflexivity|]. split; [reflexivity|].
  intros j Hj. cbn [nd_get hd rev app].
  change (nd_get (transpose (getitem a (map IdxArray ixs) len)) [j])
    with (nd_get (getitem a (map IdxArray ixs) len) [j]).
  rewrite (nth_isnull_any binned len j Hj), Hget.
  unfold row_value, row_null, binned. rewrite existsb_map. cbn [snd].
  assert (Hcode : forall k, In k (keys_of coords) ->
            nth j (h k) None = row_code xdr coords k j).
  { intros k Hk. unfold h, row_code.
    apply (nth_map_in _ _ j None NaN). rewrite <- (Hlen k Hk) in Hj. exact Hj. }
  rewrite (existsb_ext_in _ (fun k => is_none (row_code xdr coords k j)))
    by (intros k Hk; rewrite (Hcode k Hk); reflexivity).
  destruct (existsb _ (keys_of coords)); [reflexivity|].
  unfold a. cbn [nd_get]. f_equal.
  unfold ixs, row_cell. rewrite map_map, Hdims. apply map_ext_in. intros d Hd.
  rewrite nth_fillna0.
  - rewrite (Hcode d (Hfull d Hd)). reflexivity.
  - unfold h. rewrite length_map. specialize (Hlen d (Hfull d Hd)).
    unfold size in Hlen. lia.
Qed.

Lemma query_ranges_ok (coords : query) (len : nat) :
  same_length coords len -> 1 <= len ->
  query_ranges coords = ret (ranges_of coords).
Proof.
  intros Hlen Hpos. unfold query_ranges, ranges_of.
  apply mapM_ret. intros k Hk.
  specialize (Hlen k Hk). unfold size in Hlen.
  destruct (elems (coord coords k)) as [|a r]; [simpl in Hlen; lia|].
  cbn [nanmin nanmax range_of]. rewrite !bind_ret_l. reflexivity.
Qed.

Lemma keys_matched (da : DataArray) (coords : query) :
  not_matched_of da coords = [] ->
  forall k, In k (keys_of coords) -> In k (da_dims da).
Proof.
  intros H k Hk.
  destruct (mem k (da_dims da)) eqn:E; [apply mem_In; exact E|].
  exfalso. assert (Hin : In k (not_matched_of da coords)).
  { unfold not_matched_of. apply filter_In. split; [exact Hk|]. rewrite E. reflexivity. }
  rewrite H in Hin. destruct Hin.
Qed.

Lemma restricted_dims (da : DataArray) (ranges : list (string * (val * val))) :
  da_dims (restricted da ranges) = da_dims da.
Proof.
  unfold da_dims, restricted. cbn [da_axes]. rewrite !map_map.
  apply map_ext. intros [k x]. unfold restrict_axis. cbn [fst snd].
  destruct (assoc k ranges) as [[lo hi]|]; reflexivity.
Qed.

(** A valid query on a sorted numeric target, step by step: the result of
    [colocate_dataarray] is that of [colocate_rest] on the target
    restricted to the bounding ranges. *)
Lemma colocate_sorted (da : DataArray) (verbose : bool) (coords : query) (len : nat) :
  numeric_sorted da -> valid_query da coords len -> 1 <= len ->
  result (colocate_dataarray da verbose coords) =
    result (colocate_rest da (restricted da (ranges_of coords)) verbose coords len).
Proof.
  intros Hs Hv Hpos.
  rewrite (colocate_valid da verbose coords len Hv).
  rewrite result_vprint_bind.
  rewrite (query_ranges_ok coords len (vq_length _ _ _ Hv) Hpos), bind_ret_l.
  rewrite (sel_sorted da _ Hs), bind_ret_l. reflexivity.
Qed.

(** ** What [pd.cut] answers on sorted edges *)

Lemma searchsorted_left_Num (bq : list Q) (v : Q) :
  searchsorted_left (map Num bq) (Num v) = length (filter (fun q => Qltb q v) bq).
Proof.
  unfold searchsorted_left. induction bq as [|a r IH]; [reflexivity|].
  cbn [map filter sort_ltb]. destruct (Qltb a v); cbn [length]; rewrite IH; reflexivity.
Qed.

Lemma searchsorted_right_Num (bq : list Q) (v : Q) :
  searchsorted_right (map Num bq) (Num v) = length (filter (fun q => Qle_bool q v) bq).
Proof.
  unfold searchsorted_right. induction bq as [|a r IH]; [reflexivity|].
  cbn [map filter]. unfold sort_leb at 1. cbn [sort_ltb]. unfold Qltb.
  rewrite negb_involutive.
  destruct (Qle_bool a v); cbn [length]; rewrite IH; reflexivity.
Qed.

(** In a sorted list the elements below [v] are a prefix. *)
Lemma count_lt_prefix (bq : list Q) (v : Q) (i : nat) :
  increasing bq -> i < length bq ->
  (Qltb (nth i bq 0%Q) v = true <-> i < length (filter (fun q => Qltb q v) bq)).
Proof.
  revert i. induction bq as [|a r IH]; intros i Hinc Hi; [simpl in Hi; lia|].
  cbn [filter]. destruct (Qltb a v) eqn:Ea.
  - destruct i as [|i]; cbn [nth length].
    + rewrite Ea. split; [lia|reflexivity].
    + rewrite (IH i (increasing_tail a r Hinc)) by (simpl in Hi; lia). lia.
  - assert (Hnone : filter (fun q => Qltb q v) r = []).
    { apply filter_none. pose proof (increasing_head a r Hinc) as Hall.
      eapply Forall_impl; [|exact Hall]. intros q Hq. cbv beta in Hq.
      apply Qltb_ge. apply Qltb_ge in Ea. lra. }
    rewrite Hnone. cbn [length]. destruct i as [|i]; cbn [nth].
    + rewrite Ea. split; [discriminate|lia].
    + split; [|lia]. intro H. exfalso.
      assert (Hin : In (nth i r 0%Q) (filter (fun q => Qltb q v) r)).
      { apply filter_In. split; [apply nth_In; simpl in Hi; lia|exact H]. }
      rewrite Hnone in Hin. destruct Hin.
Qed.

Lemma count_le_length {A} (p : A -> bool) (l : list A) : length (filter p l) <= length l.
Proof.
  induction l as [|a r IH]; [simpl; lia|]. cbn [filter]. destruct (p a); simpl; lia.
Qed.

(** The answer [Some i] means that [v] is in bin [i]. *)
Lemma cut1_sorted_some (bq : list Q) (v : Q) (i : nat) :
  increasing bq -> cut1 (map Num bq) (Num v) = Some i ->
  S i < length bq /\ (nth i bq 0 < v)%Q /\ (v <= nth (S i) bq 0)%Q.
Proof.
  intros Hinc. unfold cut1. rewrite searchsorted_left_Num, length_map.
  cbn [isnan orb].
  set (c := length (filter (fun q => Qltb q v) bq)).
  pose proof (count_le_length (fun q => Qltb q v) bq) as Hle. fold c in Hle.
  destruct (c =? length bq) eqn:E1; [discriminate|].
  destruct (c =? 0) eqn:E2; [discriminate|].
  apply Nat.eqb_neq in E1, E2. cbn [orb]. intro H. injection H as H.
  assert (Hc : c = S i) by lia. split; [lia|]. split.
  - apply Qltb_lt. apply (count_lt_prefix bq v i Hinc); [lia|]. fold c. lia.
  - apply Qltb_ge. destruct (Qltb (nth (S i) bq 0%Q) v) eqn:E; [|reflexivity].
    apply (count_lt_prefix bq v (S i) Hinc) in E; [|lia]. fold c in E. lia.
Qed.

(** A value in bin [i] gets the answer [Some i]. *)
Lemma cut1_in_bin (bq : list Q) (v : Q) (i : nat) :
  increasing bq -> S i < length bq ->
  (nth i bq 0 < v)%Q -> (v <= nth (S i) bq 0)%Q ->
  cut1 (map Num bq) (Num v) = Some i.
Proof.
  intros Hinc Hi Hlo Hhi. unfold cut1. rewrite searchsorted_left_Num, length_map.
  cbn [isnan orb].
  set (c := length (filter (fun q => Qltb q v) bq)).
  assert (H1 : i < c).
  { apply (count_lt_prefix bq v i Hinc); [lia|]. apply Qltb_lt. exact Hlo. }
  assert (H2 : ~ S i < c).
  { intro H. apply (count_lt_prefix bq v (S i) Hinc) in H; [|lia].
    apply Qltb_lt in H. lra. }
  assert (Hc : c = S i) by lia. rewrite Hc.
  replace (S i =? length bq) with false by (symmetry; apply Nat.eqb_neq; lia).
  cbn [Nat.eqb orb]. f_equal. lia.
Qed.

(** The answer null means that [v] is in no bin. *)
Lemma cut1_sorted_none (bq : list Q) (v : Q) :
  increasing bq -> cut1 (map Num bq) (Num v) = None ->
  outside_every_bin (map Num bq) (Num v).
Proof.
  intros Hinc H i Hi Hin. rewrite length_map in Hi.
  unfold in_bin in Hin.
  rewrite !nth_map_Num in Hin by lia. cbn [inside] in Hin. destruct Hin as [Hlo Hhi].
  rewrite (cut1_in_bin bq v i Hinc Hi Hlo Hhi) in H. discriminate.
Qed.

(** Both facts for the edges [make_bins] returns on a sorted numeric
    coordinate. *)
Lemma cut1_spec (bins : list val) (v : val) :
  bins = [NaN; NaN] \/ (exists bq, bins = map Num bq /\ increasing bq) ->
  match cut1 bins v with
  | Some i => S i < length bins /\ in_bin bins i v
  | None => outside_every_bin bins v
  end.
Proof.
  intros [-> | (bq & -> & Hinc)].
  - replace (cut1 [NaN; NaN] v) with (@None nat)
      by (unfold cut1; destruct v; reflexivity).
    intros i Hi Hin. unfold in_bin, inside in Hin.
    destruct i as [|[|i]]; simpl in *; try lia; exact Hin.
  - destruct v as [|v].
    + cbn [cut1 isnan orb]. intros i Hi Hin. unfold in_bin, inside in Hin.
      destruct (nth i (map Num bq) NaN); exact Hin.
    + destruct (cut1 (map Num bq) (Num v)) as [i|] eqn:E.
      * destruct (cut1_sorted_some bq v i Hinc E) as (Hi & Hlo & Hhi).
        rewrite length_map. split; [exact Hi|].
        unfold in_bin. rewrite !nth_map_Num by lia. split; assumption.
      * apply cut1_sorted_none; assumption.
Qed.

Lemma bins_for_ok (xdr : DataArray) (k : string) :
  numeric_sorted xdr -> da_size xdr <> 0%Z -> In k (da_dims xdr) ->
  bins_for xdr k = [NaN; NaN] \/
  exists bq, bins_for xdr k = map Num bq /\ increasing bq.
Proof.
  intros Hs Hsize Hk. unfold bins_for, da_coord.
  destruct (assoc_In k (da_axes xdr) Hk) as (x & Hx & Hin). rewrite Hx.
  apply (edges_of_ok x).
  - apply (Hs (k, x)), Hin.
  - apply (size_pos_axes xdr Hsize (k, x)), Hin.
Qed.

(** A row whose coordinates all lie in bins falls in the cell made of
    those bins. *)
Lemma row_value_in_bins (xdr : DataArray) (coords : query) (j : nat)
    (cell : string -> nat) :
  numeric_sorted xdr -> da_size xdr <> 0%Z ->
  (forall k, In k (keys_of coords) -> In k (da_dims xdr)) ->
  (forall d, In d (da_dims xdr) -> In d (keys_of coords)) ->
  (forall k, In k (keys_of coords) ->
     S (cell k) < length (bins_for xdr k) /\
     in_bin (bins_for xdr k) (cell k) (query_at coords k j)) ->
  row_value xdr coords j = da_values xdr (map cell (da_dims xdr)).
Proof.
  intros Hs Hsize Hkeys Hfull Hcell.
  assert (Hcode : forall k, In k (keys_of coords) ->
            row_code xdr coords k j = Some (cell k)).
  { intros k Hk. destruct (Hcell k Hk) as [Hi Hin].
    unfold row_code. fold (query_at coords k j).
    destruct (bins_for_ok xdr k Hs Hsize (Hkeys k Hk)) as [E | (bq & E & Hinc)].
    - rewrite E in Hin. unfold in_bin, inside in Hin.
      destruct (cell k) as [|[|c]]; simpl in Hin; try contradiction.
      rewrite E in Hi. simpl in Hi. lia.
    - rewrite E in *. rewrite length_map in Hi.
      unfold in_bin in Hin. rewrite !nth_map_Num in Hin by lia.
      destruct (query_at coords k j) as [|v]; [contradiction|].
      destruct Hin as [Hlo Hhi].
      apply (cut1_in_bin bq v (cell k) Hinc Hi Hlo Hhi). }
  unfold row_value, row_null.
  replace (existsb (fun k => is_none (row_code xdr coords k j)) (keys_of coords))
    with false.
  - f_equal. unfold row_cell. apply map_ext_in. intros d Hd.
    rewrite (Hcode d (Hfull d Hd)). reflexivity.
  - symmetry. apply not_true_is_false. intro H.
    apply existsb_exists in H. destruct H as (k & Hk & Hn).
    rewrite (Hcode k Hk) in Hn. discriminate.
Qed.

(** A row with a coordinate outside every bin is null. *)
Lemma row_value_outside (xdr : DataArray) (coords : query) (j : nat) (k : string) :
  numeric_sorted xdr -> da_size xdr <> 0%Z ->
  (forall k, In k (keys_of coords) -> In k (da_dims xdr)) ->
  In k (keys_of coords) ->
  outside_every_bin (bins_for xdr k) (query_at coords k j) ->
  row_value xdr coords j = NaN.
Proof.
  intros Hs Hsize Hkeys Hk Hout. unfold row_value, row_null.
  replace (existsb (fun k => is_none (row_code xdr coords k j)) (keys_of coords))
    with true; [reflexivity|].
  symmetry. apply existsb_exists. exists k. split; [exact Hk|].
  unfold row_code. fold (query_at coords k j).
  pose proof (cut1_spec (bins_for xdr k) (query_at coords k j)
                (bins_for_ok xdr k Hs Hsize (Hkeys k Hk))) as Hspec.
  destruct (cut1 (bins_for xdr k) (query_at coords k j)) as [i|]; [|reflexivity].
  destruct Hspec as [Hi Hin]. exfalso. exact (Hout i Hi Hin).
Qed.

(** Every row is of one of the two sorts. *)
Lemma row_dichotomy (xdr : DataArray) (coords : query) (j : nat) :
  numeric_sorted xdr -> da_size xdr <> 0%Z ->
  (forall k, In k (keys_of coords) -> In k (da_dims xdr)) ->
  (exists k, In k (keys_of coords) /\
             outside_every_bin (bins_for xdr k) (query_at coords k j)) \/
  (exists cell, forall k, In k (keys_of coords) ->
     S (cell k) < length (bins_for xdr k) /\
     in_bin (bins_for xdr k) (cell k) (query_at coords k j)).
Proof.
  intros Hs Hsize Hkeys.
  destruct (row_null xdr coords j) eqn:E.
  - left. unfold row_null in E. apply existsb_exists in E.
    destruct E as (k & Hk & Hn). exists k. split; [exact Hk|].
    unfold row_code in Hn. fold (query_at coords k j) in Hn.
    pose proof (cut1_spec (bins_for xdr k) (query_at coords k j)
                  (bins_for_ok xdr k Hs Hsize (Hkeys k Hk))) as Hspec.
    destruct (cut1 (bins_for xdr k) (query_at coords k j)); [discriminate|exact Hspec].
  - right.
    exists (fun k => match row_code xdr coords k j with Some i => i | None => 0 end).
    intros k Hk.
    assert (Hsome : is_none (row_code xdr coords k j) = false).
    { destruct (is_none (row_code xdr coords k j)) eqn:En; [|reflexivity].
      unfold row_null in E.
      assert (existsb (fun k => is_none (row_code xdr coords k j)) (keys_of coords) = true)
        by (apply existsb_exists; exists k; split; assumption).
      congruence. }
    unfold row_code in *. fold (query_at coords k j) in *.
    pose proof (cut1_spec (bins_for xdr k) (query_at coords k j)
                  (bins_for_ok xdr k Hs Hsize (Hkeys k Hk))) as Hspec.
    destruct (cut1 (bins_for xdr k) (query_at coords k j)); [exact Hspec|discriminate].
Qed.

(** ** Queries out of the range of the target *)




(** ** Rows that hold a NaN *)

Lemma cut_eq (x bins : list val) :
  cut x bins = match cut_check bins with
               | Some e => raise e
               | None => ret (map (cut1 bins) x)
               end.
Proof.
  unfold cut, cut_check.
  destruct (existsb _ (diff bins)); [reflexivity|].
  destruct (_ && _); reflexivity.
Qed.

Lemma mapM_cut (X : string -> list val) (B : string -> list val) (keys : list string) :
  mapM (fun k => bind (cut (X k) (B k)) (fun c => ret (k, c))) keys =
    match first_error B keys with
    | Some e => raise e
    | None => ret (map (fun k => (k, map (cut1 (B k)) (X k))) keys)
    end.
Proof.
  induction keys as [|k r IH]; [reflexivity|].
  cbn [mapM first_error map]. rewrite cut_eq.
  destruct (cut_check (B k)) as [e|]; [reflexivity|].
  rewrite !bind_ret_l, IH.
  destruct (first_error B r) as [e|]; [reflexivity|].
  rewrite bind_ret_l. reflexivity.
Qed.

Lemma same_outcome_bind {A} (m : M A) (f g : A -> M ndarray) :
  (forall a, same_outcome (f a) (g a)) -> same_outcome (bind m f) (bind m g).
Proof.
  intro H. unfold same_outcome. rewrite !events_bind, !result_bind.
  destruct (result m) as [e|a].
  - split; reflexivity.
  - destruct (H a) as [He Hr]. rewrite He. split; [reflexivity|exact Hr].
Qed.

Lemma same_outcome_refl (m : M ndarray) : same_outcome m m.
Proof.
  split; [reflexivity|]. destruct (result m); reflexivity.
Qed.

(** The shape of [a[index]] depends on where the slices are, not on what
    the integer arrays hold. *)
Lemma drop_while_pattern (p : bool -> bool) (items items' : list index_item) :
  map is_slice items = map is_slice items' ->
  map is_slice (drop_while (fun i => p (is_slice i)) items)
  = map is_slice (drop_while (fun i => p (is_slice i)) items').
Proof.
  revert items'. induction items as [|i r IH]; intros [|i' r'] H; try discriminate.
  - reflexivity.
  - cbn [map] in H. injection H as Hi Hr. cbn [drop_while]. rewrite Hi.
    destruct (p (is_slice i')).
    + apply IH, Hr.
    + cbn [map]. rewrite Hi, Hr. reflexivity.
Qed.

Lemma forallb_pattern (items items' : list index_item) :
  map is_slice items = map is_slice items' ->
  forallb is_slice items = forallb is_slice items'.
Proof.
  revert items'. induction items as [|i r IH]; intros [|i' r'] H; try discriminate.
  - reflexivity.
  - cbn [map] in H. injection H as Hi Hr. cbn [forallb].
    rewrite Hi, (IH r' Hr). reflexivity.
Qed.

Lemma sliced_shape_pattern (items items' : list index_item) (sh : list nat) :
  map is_slice items = map is_slice items' ->
  sliced_shape items sh = sliced_shape items' sh.
Proof.
  revert items' sh. induction items as [|i r IH]; intros [|i' r'] sh H; try discriminate.
  - reflexivity.
  - cbn [map] in H. injection H as Hi Hr.
    destruct i, i'; try discriminate; destruct sh as [|n ns]; cbn [sliced_shape];
      try reflexivity; try (f_equal; apply IH, Hr); apply IH, Hr.
Qed.

Lemma getitem_shape_pattern (a : ndarray) (items items' : list index_item) (len : nat) :
  map is_slice items = map is_slice items' ->
  nd_shape (getitem a items len) = nd_shape (getitem a items' len).
Proof.
  intro H. unfold getitem.
  assert (Hadj : adjacent items = adjacent items').
  { unfold adjacent. apply forallb_pattern.
    apply (drop_while_pattern negb).
    apply (drop_while_pattern (fun b => b)). exact H. }
  assert (Hnb : count_leading_slices items = count_leading_slices items').
  { unfold count_leading_slices.
    pose proof (drop_while_pattern (fun b => b) items items' H) as Hd.
    apply (f_equal (@length bool)) in Hd. rewrite !length_map in Hd.
    apply (f_equal (@length bool)) in H. rewrite !length_map in H.
    change (fun i => is_slice i) with is_slice in Hd. rewrite Hd, H. reflexivity. }
  rewrite Hadj, Hnb, (sliced_shape_pattern items items' _ H).
  destruct (adjacent items'); reflexivity.
Qed.

Lemma is_slice_index (h : string -> list (option nat)) (keys : list string)
    (key : string) :
  is_slice (match assoc key (map (fun k => (k, h k)) keys) with
            | Some col => IdxArray (fillna0 col)
            | None => IdxSlice
            end) = negb (mem key keys).
Proof.
  unfold mem. induction keys as [|k r IH]; [reflexivity|].
  cbn [map assoc existsb]. destruct (String.eqb key k); [reflexivity|]. exact IH.
Qed.

(** With the same names and as many rows, two queries fare alike on the
    restricted target: same events, same exception or same shape. *)
Lemma colocate_rest_same
    (da xdr : DataArray) (verbose : bool) (coords coords' : query) (len : nat) :
  keys_of coords' = keys_of coords ->
  same_outcome (colocate_rest da xdr verbose coords len)
               (colocate_rest da xdr verbose coords' len).
Proof.
  intro Hk. unfold colocate_rest.
  destruct (da_size xdr >? max_size)%Z; [apply same_outcome_refl|].
  destruct (da_size xdr =? 0)%Z; [apply same_outcome_refl|].
  do 3 (apply same_outcome_bind; intros _).
  apply same_outcome_bind. intro bins.
  rewrite (mapM_cut (fun k => elems (coord coords k)) (edges_in bins)).
  rewrite (mapM_cut (fun k => elems (coord coords' k)) (edges_in bins)).
  rewrite Hk.
  destruct (first_error (edges_in bins) (keys_of coords)) as [e|];
    [apply same_outcome_refl|].
  rewrite !bind_ret_l. apply same_outcome_bind. intros _.
  unfold setitem_mask_nan. rewrite !length_isnull_any. cbn [transpose nd_shape].
  rewrite (getitem_shape_pattern _ _
             (map (fun key =>
                     match assoc key (map (fun k => (k, map (cut1 (edges_in bins k))
                                                           (elems (coord coords' k))))
                                          (keys_of coords)) with
                     | Some col => IdxArray (fillna0 col)
                     | None => IdxSlice
                     end) (da_dims da))).
  - destruct (hd 0 (rev _) =? len); split; reflexivity.
  - rewrite !map_map. apply map_ext. intro key.
    rewrite !is_slice_index. reflexivity.
Qed.

(** The rows of the output for a query on every dimension, whatever the
    coordinates of the target are, once the edges are there and pass. *)
Lemma colocate_rest_rows
    (da xdr : DataArray) (verbose : bool) (coords : query) (len : nat)
    (bins : list (string * list val)) :
  da_dims xdr = da_dims da ->
  full_query da coords ->
  same_length coords len ->
  (da_size xdr >? max_size)%Z = false ->
  (da_size xdr =? 0)%Z = false ->
  result (all_bins xdr) = Return bins ->
  first_error (edges_in bins) (keys_of coords) = None ->
  exists out,
    result (colocate_rest da xdr verbose coords len) = Return out /\
    nd_shape out = [len] /\
    forall j, j < len -> nd_get out [j] = row_value_with bins xdr coords j.
Proof.
  intros Hdims Hfull Hlen E1 E2 Hbins Herr.
  unfold colocate_rest. rewrite E1, E2.
  rewrite result_vprint_bind, result_emit_bind, result_vprint_bind.
  fold (all_bins xdr). rewrite result_bind, Hbins.
  rewrite (mapM_cut (fun k => elems (coord coords k)) (edges_in bins)), Herr.
  rewrite bind_ret_l, result_vprint_bind.
  pose (h := fun k => map (cut1 (edges_in bins k)) (elems (coord coords k))).
  pose (binned := map (fun k => (k, h k)) (keys_of coords)).
  change (map (fun k => (k, map (cut1 (edges_in bins k)) (elems (coord coords k))))
              (keys_of coords)) with binned.
  assert (Hindex :
    map (fun key => match assoc key binned with
                    | Some col => IdxArray (fillna0 col)
                    | None => IdxSlice
                    end) (da_dims da)
    = map IdxArray (map (fun d => fillna0 (h d)) (da_dims da))).
  { rewrite map_map. apply map_ext_in. intros d Hd.
    unfold binned. rewrite (assoc_map_key h d _ (Hfull d Hd)). reflexivity. }
  rewrite Hindex.
  set (a := mkndarray (da_shape xdr) (da_values xdr)).
  set (ixs := map (fun d => fillna0 (h d)) (da_dims da)).
  destruct (getitem_arrays a ixs len) as [Hshape Hget].
  unfold setitem_mask_nan. cbn [transpose nd_shape].
  rewrite Hshape, length_isnull_any. cbn [rev app hd].
  rewrite Nat.eqb_refl.
  eexists. split; [reflexivity|]. split; [reflexivity|].
  intros j Hj. cbn [nd_get hd rev app].
  change (nd_get (transpose (getitem a (map IdxArray ixs) len)) [j])
    with (nd_get (getitem a (map IdxArray ixs) len) [j]).
  rewrite (nth_isnull_any binned len j Hj), Hget.
  unfold row_value_with, binned. rewrite existsb_map. cbn [snd].
  assert (Hcode : forall k, In k (keys_of coords) ->
            nth j (h k) None = cut1 (edges_in bins k) (query_at coords k j)).
  { intros k Hk. unfold h, query_at.
    apply (nth_map_in _ _ j None NaN). rewrite <- (Hlen k Hk) in Hj. exact Hj. }
  rewrite (existsb_ext_in _
             (fun k => is_none (cut1 (edges_in bins k) (query_at coords k j))))
    by (intros k Hk; rewrite (Hcode k Hk); reflexivity).
  destruct (existsb _ (keys_of coords)); [reflexivity|].
  unfold a. cbn [nd_get]. f_equal.
  unfold ixs. rewrite map_map, Hdims. apply map_ext_in. intros d Hd.
  rewrite nth_fillna0.
  - rewrite (Hcode d (Hfull d Hd)). reflexivity.
  - unfold h. rewrite length_map. specialize (Hlen d (Hfull d Hd)).
    unfold size in Hlen. lia.
Qed.

Lemma vmin_nan_r (a : val) : vmin a NaN = a.
Proof. destruct a; reflexivity. Qed.

Lemma vmax_nan_r (a : val) : vmax a NaN = a.
Proof. destruct a; reflexivity. Qed.

Lemma fold_ignores_nan (f : val -> val -> val) (r : list val) (acc : val) :
  (forall a, f a NaN = a) ->
  fold_left f r acc = fold_left f (filter notnan r) acc.
Proof.
  intro Hf. revert acc. induction r as [|v r IH]; intro acc; [reflexivity|].
  cbn [fold_left filter]. destruct v as [|q]; cbn [notnan isnan negb].
  - rewrite Hf. apply IH.
  - cbn [fold_left]. apply IH.
Qed.

(** [np.nanmin] and [np.nanmax] do not see the NaNs of the array. *)
Lemma range_of_ignores_nan (l : list val) :
  filter notnan l <> [] -> range_of l = range_of (filter notnan l).
Proof.
  intro Hne. destruct l as [|a r]; [reflexivity|].
  cbn [range_of filter] in *. destruct a as [|q]; cbn [notnan isnan negb] in *.
  - rewrite (fold_ignores_nan vmin r NaN vmin_nan_r).
    rewrite (fold_ignores_nan vmax r NaN vmax_nan_r).
    destruct (filter notnan r) as [|b r']; [congruence|].
    cbn [range_of fold_left]. reflexivity.
  - cbn [range_of].
    rewrite (fold_ignores_nan vmin r (Num q) vmin_nan_r).
    rewrite (fold_ignores_nan vmax r (Num q) vmax_nan_r). reflexivity.
Qed.

Lemma result_mapM_fst {A B} (f : A -> M B) (ka : A -> string) (kb : B -> string)
    (l : list A) (bs : list B) :
  (forall a b, result (f a) = Return b -> kb b = ka a) ->
  result (mapM f l) = Return bs -> map kb bs = map ka l.
Proof.
  intro Hf. revert bs. induction l as [|a r IH]; intros bs H.
  - cbn in H. injection H as <-. reflexivity.
  - cbn [mapM] in H. rewrite result_bind in H.
    destruct (result (f a)) as [e|b] eqn:Eb; [discriminate|].
    rewrite result_bind in H.
    destruct (result (mapM f r)) as [e|bs'] eqn:Er; [discriminate|].
    cbn in H. injection H as <-. cbn [map]. rewrite (Hf a b Eb), (IH bs' eq_refl).
    reflexivity.
Qed.

Lemma sel_dims (da xdr : DataArray) (ranges : list (string * (val * val))) :
  result (sel da ranges) = Return xdr -> da_dims xdr = da_dims da.
Proof.
  unfold sel. rewrite result_bind.
  destruct (result (mapM (sel_axis ranges) (da_axes da))) as [e|axs] eqn:E; [discriminate|].
  cbn [ret result snd]. intro H. injection H as <-.
  unfold da_dims. cbn [da_axes]. rewrite map_map.
  apply (result_mapM_fst (sel_axis ranges) fst (fun t => fst (fst t)) _ _) in E; [exact E|].
  intros [k x] [[k' x'] s]. unfold sel_axis.
  destruct (assoc k ranges) as [[lo hi]|].
  - rewrite result_bind. destruct (result (slice_locs (elems x) lo hi)) as [e|[start stop]];
      [discriminate|]. cbn. intro H. injection H as <- _ _. reflexivity.
  - cbn. intro H. injection H as <- _ _. reflexivity.
Qed.

(** A row that holds a NaN is null. *)
Lemma row_value_with_nan (bins : list (string * list val)) (xdr : DataArray)
    (coords : query) (j : nat) :
  nan_row coords j -> row_value_with bins xdr coords j = NaN.
Proof.
  intros (k & Hk & Hnan). unfold row_value_with.
  replace (existsb _ (keys_of coords)) with true; [reflexivity|].
  symmetry. apply existsb_exists. exists k. split; [exact Hk|].
  rewrite Hnan. reflexivity.
Qed.

(** The value of a row depends on that row only. *)
Lemma row_value_with_same (bins : list (string * list val)) (xdr : DataArray)
    (coords coords' : query) (j : nat) :
  keys_of coords' = keys_of coords ->
  (forall d, In d (da_dims xdr) -> In d (keys_of coords)) ->
  same_row coords coords' j ->
  row_value_with bins xdr coords' j = row_value_with bins xdr coords j.
Proof.
  intros Hk Hfull Hrow. unfold row_value_with. rewrite Hk.
  rewrite (existsb_ext_in
             (fun k => is_none (cut1 (edges_in bins k) (query_at coords' k j)))
             (fun k => is_none (cut1 (edges_in bins k) (query_at coords k j))))
    by (intros k Hin; rewrite (Hrow k Hin); reflexivity).
  destruct (existsb _ (keys_of coords)); [reflexivity|].
  f_equal. apply map_ext_in. intros d Hd. rewrite (Hrow d (Hfull d Hd)). reflexivity.
Qed.

(** Take a valid query and a second one with the same names, as many
    rows and the same bounding ranges (such as the first with its NaNs
    replaced by values within the ranges).  The bounding ranges do not see
    the NaNs.  The two runs emit the same events and end alike, with the
    same exception if any: a NaN in the query is no cause for an
    exception.  When the query names every dimension and a result is
    returned, it has one value per row, NaN for each row that holds a NaN,
    and every row that the two queries share has the same value in both
    results. *)
Lemma nan_rows_beside
    (da : DataArray) (verbose : bool) (coords coords' : query) (len : nat) :
  valid_query da coords len -> valid_query da coords' len ->
  keys_of coords' = keys_of coords ->
  query_ranges coords' = query_ranges coords ->
  (forall k, In k (keys_of coords) ->
     filter notnan (elems (coord coords k)) <> [] ->
     range_of (elems (coord coords k))
       = range_of (filter notnan (elems (coord coords k)))) /\
  (1 <= len -> query_ranges coords = ret (ranges_of coords)) /\
  same_outcome (colocate_dataarray da verbose coords)
               (colocate_dataarray da verbose coords') /\
  (full_query da coords ->
   forall out, result (colocate_dataarray da verbose coords) = Return out ->
     nd_shape out = [len] /\
     (forall j, j < len -> nan_row coords j -> nd_get out [j] = NaN) /\
     exists out',
       result (colocate_dataarray da verbose coords') = Return out' /\
       forall j, j < len -> same_row coords coords' j ->
         nd_get out' [j] = nd_get out [j]).
Proof.
  intros Hv Hv' Hk Hr.
  split; [intros k _ Hne; apply range_of_ignores_nan, Hne|].
  split; [intro Hpos; apply (query_ranges_ok coords len (vq_length _ _ _ Hv) Hpos)|].
  rewrite (colocate_valid da verbose coords len Hv).
  rewrite (colocate_valid da verbose coords' len Hv'), Hr.
  split.
  - apply same_outcome_bind. intros _.
    apply same_outcome_bind. intro ranges.
    apply same_outcome_bind. intro xdr.
    apply colocate_rest_same, Hk.
  - intros Hfull out. rewrite !result_vprint_bind, !result_bind.
    destruct (result (query_ranges coords)) as [e|ranges]; [discriminate|].
    rewrite !result_bind.
    destruct (result (sel da ranges)) as [e|xdr] eqn:Esel; [discriminate|].
    pose proof (sel_dims da xdr ranges Esel) as Hdims.
    assert (Hfull' : full_query da coords') by (intros d Hd; rewrite Hk; apply Hfull, Hd).
    destruct (da_size xdr >? max_size)%Z eqn:E1;
      [unfold colocate_rest; rewrite E1; discriminate|].
    destruct (da_size xdr =? 0)%Z eqn:E2.
    + unfold colocate_rest. rewrite E1, E2, !result_vprint_bind.
      cbn [ret result snd]. intro H. injection H as <-.
      split; [reflexivity|]. split; [reflexivity|].
      eexists. split; reflexivity.
    + destruct (result (all_bins xdr)) as [e|bins] eqn:Eb.
      { unfold colocate_rest. rewrite E1, E2.
        rewrite result_vprint_bind, result_emit_bind, result_vprint_bind.
        fold (all_bins xdr). rewrite result_bind, Eb. discriminate. }
      destruct (first_error (edges_in bins) (keys_of coords)) as [e|] eqn:Ee.
      { unfold colocate_rest. rewrite E1, E2.
        rewrite result_vprint_bind, result_emit_bind, result_vprint_bind.
        fold (all_bins xdr). rewrite result_bind, Eb.
        rewrite (mapM_cut (fun k => elems (coord coords k)) (edges_in bins)), Ee.
        discriminate. }
      destruct (colocate_rest_rows da xdr verbose coords len bins Hdims Hfull
                  (vq_length _ _ _ Hv) E1 E2 Eb Ee) as (o & Ho & Hshape & Hrows).
      assert (Ee' : first_error (edges_in bins) (keys_of coords') = None)
        by (rewrite Hk; exact Ee).
      destruct (colocate_rest_rows da xdr verbose coords' len bins Hdims Hfull'
                  (vq_length _ _ _ Hv') E1 E2 Eb Ee') as (o' & Ho' & Hshape' & Hrows').
      rewrite Ho. intro H. injection H as <-.
      split; [exact Hshape|]. split.
      * intros j Hj Hnan. rewrite (Hrows j Hj). apply row_value_with_nan, Hnan.
      * exists o'. split; [exact Ho'|]. intros j Hj Hrow.
        rewrite (Hrows j Hj), (Hrows' j Hj).
        apply row_value_with_same; [exact Hk| |exact Hrow].
        intros d Hd. apply Hfull. rewrite <- Hdims. exact Hd.
Qed.

(** A NaN falls in no bin. *)
Lemma cut1_nan (bins : list val) : cut1 bins NaN = None.
Proof. reflexivity. Qed.

Lemma row_value_nan (xdr : DataArray) (coords : query) (j : nat) :
  nan_row coords j -> row_value xdr coords j = NaN.
Proof.
  intros (k & Hk & Hnan). unfold row_value, row_null.
  replace (existsb _ (keys_of coords)) with true; [reflexivity|].
  symmetry. apply existsb_exists. exists k. split; [exact Hk|].
  unfold row_code. fold (query_at coords k j). rewrite Hnan. reflexivity.
Qed.

(** The value of a row is read from that row alone. *)
Lemma row_value_same (xdr : DataArray) (coords coords' : query) (j : nat) :
  keys_of coords' = keys_of coords ->
  (forall d, In d (da_dims xdr) -> In d (keys_of coords)) ->
  same_row coords coords' j ->
  row_value xdr coords' j = row_value xdr coords j.
Proof.
  intros Hk Hfull Hrow.
  assert (Hcode : forall k, In k (keys_of coords) ->
            row_code xdr coords' k j = row_code xdr coords k j).
  { intros k Hin. unfold row_code. fold (query_at coords' k j) (query_at coords k j).
    rewrite (Hrow k Hin). reflexivity. }
  unfold row_value, row_null, row_cell. rewrite Hk.
  rewrite (existsb_ext_in (fun k => is_none (row_code xdr coords' k j))
                          (fun k => is_none (row_code xdr coords k j)))
    by (intros k Hin; rewrite (Hcode k Hin); reflexivity).
  destruct (existsb _ (keys_of coords)); [reflexivity|].
  f_equal. apply map_ext_in. intros d Hd. rewrite (Hcode d (Hfull d Hd)). reflexivity.
Qed.




(* ================================================================= *)
(** * Seasonal-cycle fitters *)

Lemma get_count_above (y : Z) (l : list (Z * nat)) :
  Forall (fun p => (y < fst p)%Z) l -> get_count y l = 0.
Proof.
  induction 1 as [|[y' c] r Hy _ IH]; [reflexivity|].
  cbn [get_count]. cbn [fst] in Hy.
  destruct (y =? y')%Z eqn:E; [apply Z.eqb_eq in E; lia|exact IH].
Qed.

Lemma insert_count_above (k y : Z) (l : list (Z * nat)) :
  (k < y)%Z -> Forall (fun p => (k < fst p)%Z) l ->
  Forall (fun p => (k < fst p)%Z) (SeasCycle.insert_count y l).
Proof.
  intros Hk. induction 1 as [|[y' c] r Hy Hr IH]; cbn [SeasCycle.insert_count].
  - constructor; [exact Hk|constructor].
  - destruct (y <? y')%Z; [constructor; [exact Hk|constructor; assumption]|].
    destruct (y =? y')%Z; constructor; assumption.
Qed.

Lemma insert_count_sorted (y : Z) (l : list (Z * nat)) :
  sorted_years l -> sorted_years (SeasCycle.insert_count y l).
Proof.
  induction l as [|[y' c] r IH]; intro H; cbn [SeasCycle.insert_count].
  - split; [constructor|exact I].
  - destruct H as [Hall Hr]. destruct (y <? y')%Z eqn:E1.
    + apply Z.ltb_lt in E1. split; [|split; assumption].
      constructor; [exact E1|].
      eapply Forall_impl; [|exact Hall]. intros p Hp. cbv beta in *. lia.
    + destruct (y =? y')%Z eqn:E2; [split; assumption|].
      apply Z.ltb_ge in E1. apply Z.eqb_neq in E2.
      split; [|apply IH, Hr].
      apply insert_count_above; [lia|exact Hall].
Qed.

Lemma get_count_insert (k y : Z) (l : list (Z * nat)) :
  sorted_years l ->
  get_count k (SeasCycle.insert_count y l) =
    if (k =? y)%Z then S (get_count k l) else get_count k l.
Proof.
  induction l as [|[y' c] r IH]; intro H; cbn [SeasCycle.insert_count].
  - cbn [get_count]. destruct (k =? y)%Z; reflexivity.
  - destruct H as [Hall Hr]. destruct (y <? y')%Z eqn:E1.
    + apply Z.ltb_lt in E1. cbn [get_count].
      destruct (k =? y)%Z eqn:Ek; [|reflexivity].
      apply Z.eqb_eq in Ek. subst k.
      destruct (y =? y')%Z eqn:E; [apply Z.eqb_eq in E; lia|].
      rewrite get_count_above; [reflexivity|].
      eapply Forall_impl; [|exact Hall]. intros p Hp. cbv beta in *. lia.
    + destruct (y =? y')%Z eqn:E2.
      * apply Z.eqb_eq in E2. subst y'. cbn [get_count].
        destruct (k =? y)%Z; reflexivity.
      * cbn [get_count]. destruct (k =? y')%Z eqn:Ek.
        -- apply Z.eqb_eq in Ek. subst k. rewrite Z.eqb_sym, E2. reflexivity.
        -- apply IH, Hr.
Qed.

Lemma unique_counts_sorted (years : list Z) :
  sorted_years (SeasCycle.unique_counts years).
Proof.
  induction years as [|y r IH]; [exact I|]. apply insert_count_sorted, IH.
Qed.

(** [np.unique(..., return_counts=True)] counts the occurrences. *)
Lemma get_count_unique_counts (years : list Z) (k : Z) :
  get_count k (SeasCycle.unique_counts years) = count_occ Z.eq_dec years k.
Proof.
  induction years as [|y r IH]; [reflexivity|].
  change (SeasCycle.unique_counts (y :: r))
    with (SeasCycle.insert_count y (SeasCycle.unique_counts r)).
  rewrite (get_count_insert k y _ (unique_counts_sorted r)), IH.
  cbn [count_occ]. destruct (Z.eq_dec y k) as [->|Hne].
  - rewrite Z.eqb_refl. reflexivity.
  - destruct (k =? y)%Z eqn:E; [apply Z.eqb_eq in E; congruence|reflexivity].
Qed.

Lemma get_count_In (k : Z) (l : list (Z * nat)) :
  get_count k l <> 0 -> In (get_count k l) (map snd l).
Proof.
  induction l as [|[y c] r IH]; cbn [get_count map snd In]; intro H; [congruence|].
  destruct (k =? y)%Z; [left; reflexivity|right; apply IH, H].
Qed.

(** The count of every sampled year is among the counts. *)
Lemma samples_in_counts (time : list SeasCycle.datetime) (t : SeasCycle.datetime) :
  In t time ->
  In (samples_in time (SeasCycle.year t))
     (map snd (SeasCycle.unique_counts (map SeasCycle.year time))).
Proof.
  intro Ht. unfold samples_in. rewrite <- get_count_unique_counts.
  apply get_count_In. rewrite get_count_unique_counts.
  assert (Hin : In (SeasCycle.year t) (map SeasCycle.year time)) by (apply in_map, Ht).
  apply (count_occ_In Z.eq_dec) in Hin. lia.
Qed.

(** When [_get_number_of_time_steps_in_year] returns, every sampled year
    has that many samples. *)
Lemma steps_in_year_returns (time : list SeasCycle.datetime) (c : nat) :
  result (SeasCycle._get_number_of_time_steps_in_year time true) = Return c ->
  forall t, In t time -> samples_in time (SeasCycle.year t) = c.
Proof.
  unfold SeasCycle._get_number_of_time_steps_in_year. intros H t Ht.
  pose proof (samples_in_counts time t Ht) as Hin.
  destruct (map snd (SeasCycle.unique_counts (map SeasCycle.year time)))
    as [|c0 cs] eqn:E; [destruct Hin|].
  destruct (forallb (fun c => c =? c0) (c0 :: cs)) eqn:Ef; cbn in H; [|discriminate].
  injection H as <-.
  rewrite forallb_forall in Ef. apply Nat.eqb_eq, Ef, Hin.
Qed.

(** It raises the ValueError, and nothing else, exactly when two sampled
    years differ in their number of samples. *)
Lemma steps_in_year_uneven (time : list SeasCycle.datetime)
    (t1 t2 : SeasCycle.datetime) :
  In t1 time -> In t2 time ->
  samples_in time (SeasCycle.year t1) <> samples_in time (SeasCycle.year t2) ->
  SeasCycle._get_number_of_time_steps_in_year time true
    = raise (ValueError MsgNotEvenlySpaced).
Proof.
  intros H1 H2 Hne.
  pose proof (samples_in_counts time t1 H1) as Hin1.
  pose proof (samples_in_counts time t2 H2) as Hin2.
  unfold SeasCycle._get_number_of_time_steps_in_year.
  destruct (map snd (SeasCycle.unique_counts (map SeasCycle.year time)))
    as [|c0 cs] eqn:E; [destruct Hin1|].
  destruct (forallb (fun c => c =? c0) (c0 :: cs)) eqn:Ef; [|reflexivity].
  exfalso. rewrite forallb_forall in Ef.
  apply Ef, Nat.eqb_eq in Hin1. apply Ef, Nat.eqb_eq in Hin2. congruence.
Qed.

Lemma count_occ_map_filter {A} (g : A -> Z) (l : list A) (y : Z) :
  count_occ Z.eq_dec (map g l) y = length (filter (fun a => (g a =? y)%Z) l).
Proof.
  induction l as [|a r IH]; [reflexivity|].
  cbn [map count_occ filter]. destruct (Z.eq_dec (g a) y) as [E|E].
  - rewrite E, Z.eqb_refl. cbn [length]. rewrite IH. reflexivity.
  - destruct (g a =? y)%Z eqn:Eb; [apply Z.eqb_eq in Eb; congruence|exact IH].
Qed.

(** If the indices that pass a test all lie in a window of [k] indices,
    at most [k] of them pass. *)
Lemma filter_seq_window (p : nat -> bool) (n a k : nat) :
  (forall i, i < n -> p i = true -> a <= i < a + k) ->
  length (filter p (seq 0 n)) <= k.
Proof.
  intro H. rewrite <- (length_seq k a).
  apply NoDup_incl_length.
  - apply NoDup_filter, seq_NoDup.
  - intros i Hi. apply filter_In in Hi. destruct Hi as [Hi Hp].
    apply in_seq in Hi. apply in_seq. apply H; [lia|exact Hp].
Qed.

Lemma samples_in_monthly (start : Z) (n : nat) (y : Z) :
  samples_in (SeasCycle.monthly_from start n) y =
    length (filter (fun i => ((start + Z.of_nat i) / 12 =? y)%Z) (seq 0 n)).
Proof.
  unfold samples_in, SeasCycle.monthly_from. rewrite map_map. cbn [SeasCycle.year].
  apply count_occ_map_filter.
Qed.

(** A monthly series that starts after January has fewer than twelve
    samples in its first year. *)
Lemma first_year_incomplete (start : Z) (n : nat) :
  (start mod 12 <> 0)%Z ->
  samples_in (SeasCycle.monthly_from start n) (start / 12) < 12.
Proof.
  intro H. rewrite samples_in_monthly.
  apply Nat.le_lt_trans with (m := Z.to_nat (12 - start mod 12)).
  - apply (filter_seq_window _ n 0). intros i _ Hp.
    apply Z.eqb_eq in Hp. split; [lia|].
    assert (Z.of_nat i < 12 - start mod 12)%Z; [|lia].
    pose proof (Z.mod_pos_bound start 12 ltac:(lia)).
    pose proof (Z.div_mod start 12 ltac:(lia)).
    pose proof (Z.div_mod (start + Z.of_nat i) 12 ltac:(lia)).
    pose proof (Z.mod_pos_bound (start + Z.of_nat i) 12 ltac:(lia)).
    rewrite Hp in *. lia.
  - pose proof (Z.mod_pos_bound start 12 ltac:(lia)). lia.
Qed.

(** A monthly series that stops before December has fewer than twelve
    samples in its last year. *)
Lemma last_year_incomplete (start : Z) (n : nat) :
  1 <= n -> ((start + Z.of_nat n) mod 12 <> 0)%Z ->
  samples_in (SeasCycle.monthly_from start n) ((start + Z.of_nat n - 1) / 12) < 12.
Proof.
  intros Hn H. rewrite samples_in_monthly.
  set (y := ((start + Z.of_nat n - 1) / 12)%Z).
  set (k := Z.to_nat ((start + Z.of_nat n - 1) mod 12 + 1)).
  pose proof (Z.mod_pos_bound (start + Z.of_nat n - 1) 12 ltac:(lia)) as Hb.
  pose proof (Z.div_mod (start + Z.of_nat n - 1) 12 ltac:(lia)) as Hd. fold y in Hd.
  assert (Hk : k < 12).
  { unfold k.
    assert ((start + Z.of_nat n - 1) mod 12 <> 11)%Z; [|lia].
    intro E. apply H.
    replace (start + Z.of_nat n)%Z with ((start + Z.of_nat n - 1) + 1)%Z by lia.
    rewrite Z.add_mod, E by lia. reflexivity. }
  apply Nat.le_lt_trans with (m := k); [|exact Hk].
  apply (filter_seq_window _ n (n - k)). intros i Hi Hp.
  apply Z.eqb_eq in Hp.
  pose proof (Z.div_mod (start + Z.of_nat i) 12 ltac:(lia)) as Hdi.
  pose proof (Z.mod_pos_bound (start + Z.of_nat i) 12 ltac:(lia)) as Hbi.
  rewrite Hp in Hdi. unfold k. lia.
Qed.

Lemma monthly_cadence_seq (start : Z) (n a : nat) :
  SeasCycle.monthly_cadence
    (map (fun i => let k := (start + Z.of_nat i)%Z in
                   SeasCycle.mkdatetime (k / 12) (Z.to_nat (k mod 12) + 1) 15)
         (seq a n)) = true.
Proof.
  revert a. induction n as [|n IH]; intro a; [reflexivity|].
  destruct n as [|n]; [reflexivity|].
  specialize (IH (S a)).
  change (seq a (S (S n))) with (a :: seq (S a) (S n)).
  cbn [map]. change (seq (S a) (S n)) with (S a :: seq (S (S a)) n) in *.
  cbn [map] in *. cbn [SeasCycle.monthly_cadence] in *.
  apply andb_true_iff. split; [|exact IH].
  apply Z.eqb_eq. unfold SeasCycle.month_index. cbn [SeasCycle.year SeasCycle.month].
  pose proof (Z.mod_pos_bound (start + Z.of_nat a) 12 ltac:(lia)).
  pose proof (Z.mod_pos_bound (start + Z.of_nat (S a)) 12 ltac:(lia)).
  pose proof (Z.div_mod (start + Z.of_nat a) 12 ltac:(lia)).
  pose proof (Z.div_mod (start + Z.of_nat (S a)) 12 ltac:(lia)).
  lia.
Qed.

Lemma monthly_from_cadence (start : Z) (n : nat) :
  SeasCycle.monthly_cadence (SeasCycle.monthly_from start n) = true.
Proof.
  apply monthly_cadence_seq.
Qed.

Section FitterChecks.

Variables Values Dataset : Type.
Variable graven_fit : list SeasCycle.datetime -> Values -> Z -> Z -> M Dataset.
Variable climatology_means : list SeasCycle.datetime -> Values -> Z -> Z -> M Dataset.

Local Abbreviation fit_graven := (SeasCycle.seascycl_fit_graven graven_fit).
Local Abbreviation fit_climatology := (SeasCycle.seascycl_fit_climatology climatology_means).

(** Both fitters start by counting the time steps of a year. *)
Lemma fit_graven_steps (da : SeasCycle.DataArray Values) (n_years : Z) (dim : string)
    (time : list SeasCycle.datetime) :
  assoc dim (SeasCycle.da_coords da) = Some time ->
  fit_graven da n_years dim =
    bind (SeasCycle._get_number_of_time_steps_in_year time true) (fun stride =>
    bind (assert (stride =? 12) MsgMonthlyOnly) (fun _ =>
    bind (assert (negb (n_years mod 2 =? 0)%Z) MsgOddYears) (fun _ =>
    graven_fit time (SeasCycle.da_data da) (n_years * Z.of_nat stride)%Z
               (Z.of_nat stride)))).
Proof.
  intro H. unfold SeasCycle.seascycl_fit_graven, SeasCycle.da_getitem.
  rewrite H, bind_ret_l. reflexivity.
Qed.

Lemma fit_climatology_steps (da : SeasCycle.DataArray Values) (n_years : Z)
    (dim : string) (time : list SeasCycle.datetime) :
  assoc dim (SeasCycle.da_coords da) = Some time ->
  fit_climatology da n_years dim =
    bind (SeasCycle._get_number_of_time_steps_in_year time true) (fun stride =>
    bind (assert (stride =? 12) MsgMonthlyOnly) (fun _ =>
    climatology_means time (SeasCycle.da_data da) (n_years * Z.of_nat stride)%Z
                      (Z.of_nat stride))).
Proof.
  intro H. unfold SeasCycle.seascycl_fit_climatology, SeasCycle.da_getitem.
  rewrite H, bind_ret_l. reflexivity.
Qed.

Lemma steps_in_year_cases (time : list SeasCycle.datetime) (t : SeasCycle.datetime) :
  In t time ->
  SeasCycle._get_number_of_time_steps_in_year time true
    = ret (samples_in time (SeasCycle.year t)) \/
  SeasCycle._get_number_of_time_steps_in_year time true
    = raise (ValueError MsgNotEvenlySpaced).
Proof.
  intro Ht.
  destruct (SeasCycle._get_number_of_time_steps_in_year time true) as [l o] eqn:E.
  assert (Hl : l = []).
  { unfold SeasCycle._get_number_of_time_steps_in_year in E.
    destruct (map snd _) as [|c0 cs]; [injection E as <- _; reflexivity|].
    destruct (negb _ && true); injection E as <- _; reflexivity. }
  subst l. destruct o as [e|c].
  - right. unfold SeasCycle._get_number_of_time_steps_in_year in E.
    pose proof (samples_in_counts time t Ht) as Hin.
    destruct (map snd _) as [|c0 cs]; [destruct Hin|].
    destruct (negb _ && true); [symmetry; exact E|discriminate].
  - left. assert (Hr : result (SeasCycle._get_number_of_time_steps_in_year time true)
                       = Return c) by (rewrite E; reflexivity).
    rewrite (steps_in_year_returns time c Hr t Ht). reflexivity.
Qed.

(** A sampled year without exactly twelve samples makes both fitters
    fail: on the ValueError of uneven years, or on the assertion that the
    data is monthly. *)
Lemma not_twelve_rejected (da : SeasCycle.DataArray Values) (n_years : Z)
    (dim : string) (time : list SeasCycle.datetime) (t : SeasCycle.datetime) :
  assoc dim (SeasCycle.da_coords da) = Some time ->
  In t time -> samples_in time (SeasCycle.year t) <> 12 ->
  (fit_graven da n_years dim = raise (ValueError MsgNotEvenlySpaced) \/
   fit_graven da n_years dim = raise (AssertionError MsgMonthlyOnly)) /\
  (fit_climatology da n_years dim = raise (ValueError MsgNotEvenlySpaced) \/
   fit_climatology da n_years dim = raise (AssertionError MsgMonthlyOnly)).
Proof.
  intros Hd Ht Hne.
  rewrite (fit_graven_steps da n_years dim time Hd).
  rewrite (fit_climatology_steps da n_years dim time Hd).
  destruct (steps_in_year_cases time t Ht) as [E|E]; rewrite E.
  - rewrite !bind_ret_l.
    replace (samples_in time (SeasCycle.year t) =? 12) with false
      by (symmetry; apply Nat.eqb_neq; exact Hne).
    split; right; reflexivity.
  - split; left; reflexivity.
Qed.

(** C10.  Both fitters raise the ValueError of [_get_number_of_time_steps_in_year]
    whenever two sampled years differ in their number of samples.  In
    particular a series of [n] consecutive months whose first year or last
    year is incomplete is rejected by both, although its cadence is
    monthly: with that ValueError as soon as one of its years is complete,
    and otherwise at the latest by the assertion that a year has twelve
    steps. *)
Theorem C10_uneven_years_rejected
    (da : SeasCycle.DataArray Values) (n_years : Z) (dim : string)
    (time : list SeasCycle.datetime) :
  assoc dim (SeasCycle.da_coords da) = Some time ->
  (forall t1 t2, In t1 time -> In t2 time ->
     samples_in time (SeasCycle.year t1) <> samples_in time (SeasCycle.year t2) ->
     fit_graven da n_years dim = raise (ValueError MsgNotEvenlySpaced) /\
     fit_climatology da n_years dim = raise (ValueError MsgNotEvenlySpaced)) /\
  (forall start n,
     time = SeasCycle.monthly_from start n -> 1 <= n ->
     (start mod 12 <> 0 \/ (start + Z.of_nat n) mod 12 <> 0)%Z ->
     SeasCycle.monthly_cadence time = true /\
     rejected (fit_graven da n_years dim) /\
     rejected (fit_climatology da n_years dim) /\
     (forall t, In t time -> samples_in time (SeasCycle.year t) = 12 ->
        fit_graven da n_years dim = raise (ValueError MsgNotEvenlySpaced) /\
        fit_climatology da n_years dim = raise (ValueError MsgNotEvenlySpaced))).
Proof.
  intro Hd.
  assert (Hmain : forall t1 t2, In t1 time -> In t2 time ->
     samples_in time (SeasCycle.year t1) <> samples_in time (SeasCycle.year t2) ->
     fit_graven da n_years dim = raise (ValueError MsgNotEvenlySpaced) /\
     fit_climatology da n_years dim = raise (ValueError MsgNotEvenlySpaced)).
  { intros t1 t2 H1 H2 Hne.
    rewrite (fit_graven_steps da n_years dim time Hd).
    rewrite (fit_climatology_steps da n_years dim time Hd).
    rewrite (steps_in_year_uneven time t1 t2 H1 H2 Hne). split; reflexivity. }
  split; [exact Hmain|].
  intros start n -> Hn Hpart.
  assert (Hshort : exists t, In t (SeasCycle.monthly_from start n) /\
            samples_in (SeasCycle.monthly_from start n) (SeasCycle.year t) < 12).
  { destruct Hpart as [H|H].
    - exists (SeasCycle.mkdatetime ((start + Z.of_nat 0) / 12)
                (Z.to_nat ((start + Z.of_nat 0) mod 12) + 1) 15).
      split.
      + unfold SeasCycle.monthly_from.
        apply (in_map (fun i => SeasCycle.mkdatetime ((start + Z.of_nat i) / 12)
                                  (Z.to_nat ((start + Z.of_nat i) mod 12) + 1) 15)).
        apply in_seq. lia.
      + cbn [SeasCycle.year]. change (Z.of_nat 0) with 0%Z. rewrite Z.add_0_r.
        apply first_year_incomplete, H.
    - exists (SeasCycle.mkdatetime ((start + Z.of_nat (n - 1)) / 12)
                (Z.to_nat ((start + Z.of_nat (n - 1)) mod 12) + 1) 15).
      split.
      + unfold SeasCycle.monthly_from.
        apply (in_map (fun i => SeasCycle.mkdatetime ((start + Z.of_nat i) / 12)
                                  (Z.to_nat ((start + Z.of_nat i) mod 12) + 1) 15)).
        apply in_seq. lia.
      + cbn [SeasCycle.year].
        replace (start + Z.of_nat (n - 1))%Z with (start + Z.of_nat n - 1)%Z by lia.
        apply last_year_incomplete; assumption. }
  destruct Hshort as (t0 & Ht0 & Hlt).
  split; [apply monthly_from_cadence|].
  destruct (not_twelve_rejected da n_years dim _ t0 Hd Ht0 ltac:(lia)) as [Hg Hc].
  split; [|split].
  - destruct Hg as [-> | ->]; eexists; reflexivity.
  - destruct Hc as [-> | ->]; eexists; reflexivity.
  - intros t Ht H12. apply (Hmain t t0 Ht Ht0). lia.
Qed.

(** Both fitters fail when the first year has not twelve samples, and
    [seascycl_fit_graven] fails when [n_years] is even. *)
Lemma graven_even_years_fails (da : SeasCycle.DataArray Values) (n_years : Z)
    (dim : string) (time : list SeasCycle.datetime) :
  assoc dim (SeasCycle.da_coords da) = Some time ->
  (n_years mod 2 = 0)%Z ->
  rejected (fit_graven da n_years dim).
Proof.
  intros Hd Heven. rewrite (fit_graven_steps da n_years dim time Hd).
  unfold rejected. rewrite result_bind.
  destruct (result (SeasCycle._get_number_of_time_steps_in_year time true)) as [e|c];
    [eexists; reflexivity|].
  rewrite result_bind. destruct (c =? 12); [|eexists; reflexivity].
  cbn [assert ret result snd]. rewrite result_bind.
  apply Z.eqb_eq in Heven. rewrite Heven. eexists. reflexivity.
Qed.

(** C7: what the code does on two complete years of monthly samples with
    the even window [n_years = 2].  [seascycl_fit_graven] fails on its
    assertion; [seascycl_fit_climatology] has no such assertion and goes on
    to the rolling means with a window of 24 steps. *)
Theorem C7_climatology_accepts_even_window (data : Values) :
  fit_graven (SeasCycle.mkDataArray [("time", two_years)] data) 2 "time"
    = raise (AssertionError MsgOddYears) /\
  fit_climatology (SeasCycle.mkDataArray [("time", two_years)] data) 2 "time"
    = climatology_means two_years data 24 12.
Proof.
  split.
  - reflexivity.
  - unfold SeasCycle.seascycl_fit_climatology.
    change (SeasCycle.da_getitem (SeasCycle.mkDataArray [("time", two_years)] data) "time")
      with (ret two_years).
    rewrite bind_ret_l.
    change (SeasCycle._get_number_of_time_steps_in_year two_years true) with (ret 12).
    rewrite !bind_ret_l. cbn [Nat.eqb assert]. rewrite bind_ret_l. reflexivity.
Qed.

(** Twelve samples in each year pass the check of the cadence whether or
    not they are a month apart. *)
Lemma january_days_pass (data : Values) :
  SeasCycle.monthly_cadence january_days = false /\
  fit_climatology (SeasCycle.mkDataArray [("time", january_days)] data) 3 "time"
    = climatology_means january_days data 36 12.
Proof.
  split; [reflexivity|].
  unfold SeasCycle.seascycl_fit_climatology.
  change (SeasCycle.da_getitem (SeasCycle.mkDataArray [("time", january_days)] data) "time")
    with (ret january_days).
  rewrite bind_ret_l.
  change (SeasCycle._get_number_of_time_steps_in_year january_days true) with (ret 12).
  rewrite !bind_ret_l. cbn [Nat.eqb assert]. rewrite bind_ret_l. reflexivity.
Qed.

End FitterChecks.

(** The theorem on monthly samples from March 2000 to December 2001:
    ten samples in 2000 and twelve in 2001. *)
Lemma C10_witness :
  SeasCycle.seascycl_fit_graven (fun _ _ _ _ => ret tt)
    (SeasCycle.mkDataArray [("time", late_start)] tt) 3 "time"
    = raise (ValueError MsgNotEvenlySpaced) /\
  SeasCycle.seascycl_fit_climatology (fun _ _ _ _ => ret tt)
    (SeasCycle.mkDataArray [("time", late_start)] tt) 3 "time"
    = raise (ValueError MsgNotEvenlySpaced).
Proof.
  destruct (C10_uneven_years_rejected unit unit (fun _ _ _ _ => ret tt) (fun _ _ _ _ => ret tt)
              (SeasCycle.mkDataArray [("time", late_start)] tt) 3 "time" late_start eq_refl)
    as [H _].
  apply (H (SeasCycle.mkdatetime 2000 3 15) (SeasCycle.mkdatetime 2001 1 15)).
  - left. reflexivity.
  - vm_compute. do 10 right. left. reflexivity.
  - vm_compute. discriminate.
Defined.

(* ================================================================= *)
(** * The history written by the conform transforms *)

Lemma string_app_assoc (a b c : string) :
  ((a ++ b) ++ c = a ++ (b ++ c))%string.
Proof.
  induction a as [|x r IH]; [reflexivity|]. cbn [String.append]. now rewrite IH.
Qed.

Lemma contains_app (c : ascii) (a b : string) :
  contains c (a ++ b)%string = contains c a || contains c b.
Proof.
  induction a as [|c' r IH]; [reflexivity|].
  cbn [String.append contains]. rewrite IH, orb_assoc. reflexivity.
Qed.

Lemma split_nonempty (sep : ascii) (s : string) : Conform.split sep s <> [].
Proof.
  destruct s as [|c r]; cbn [Conform.split]; [discriminate|].
  destruct (Ascii.eqb c sep); [discriminate|].
  destruct (Conform.split sep r); discriminate.
Qed.

(** The pieces of [s.split(sep)] do not hold the separator. *)
Lemma split_no_sep (sep : ascii) (s : string) :
  Forall (fun x => contains sep x = false) (Conform.split sep s).
Proof.
  induction s as [|c r IH]; cbn [Conform.split].
  - constructor; [reflexivity|constructor].
  - destruct (Ascii.eqb c sep) eqn:E.
    + constructor; [reflexivity|exact IH].
    + destruct (Conform.split sep r) as [|h t].
      * constructor; [|constructor]. cbn [contains]. rewrite E. reflexivity.
      * inversion IH as [|? ? Hh Ht]; subst.
        constructor; [|exact Ht]. cbn [contains]. rewrite E, Hh. reflexivity.
Qed.

(** Joining one more piece appends the separator and the piece. *)
Lemma join_snoc (sep : string) (l : list string) (x : string) :
  l <> [] ->
  Conform.join sep (l ++ [x]) = (Conform.join sep l ++ sep ++ x)%string.
Proof.
  induction l as [|a r IH]; intro H; [congruence|].
  destruct r as [|b r'].
  - reflexivity.
  - change ((a :: b :: r') ++ [x]) with (a :: ((b :: r') ++ [x])).
    change (Conform.join sep (a :: (b :: r') ++ [x]))
      with (a ++ sep ++ Conform.join sep ((b :: r') ++ [x]))%string.
    rewrite IH by discriminate.
    change (Conform.join sep (a :: b :: r'))
      with (a ++ sep ++ Conform.join sep (b :: r'))%string.
    rewrite !string_app_assoc. reflexivity.
Qed.

Lemma assoc_dict_set_same {A} (k : string) (a : A) (d : list (string * A)) :
  assoc k (dict_set k a d) = Some a.
Proof.
  induction d as [|[k' a'] r IH]; cbn [dict_set assoc].
  - rewrite String.eqb_refl. reflexivity.
  - destruct (String.eqb k k') eqn:E; cbn [assoc].
    + rewrite String.eqb_refl. reflexivity.
    + rewrite E. exact IH.
Qed.

Lemma assoc_dict_set_other {A} (k k0 : string) (a : A) (d : list (string * A)) :
  k0 <> k -> assoc k0 (dict_set k a d) = assoc k0 d.
Proof.
  intro Hne. induction d as [|[k' a'] r IH]; cbn [dict_set assoc].
  - destruct (String.eqb k0 k) eqn:E; [apply String.eqb_eq in E; congruence|reflexivity].
  - destruct (String.eqb k k') eqn:E; cbn [assoc].
    + apply String.eqb_eq in E. subst k'.
      destruct (String.eqb k0 k) eqn:E0; [apply String.eqb_eq in E0; congruence|reflexivity].
    + destruct (String.eqb k0 k'); [reflexivity|exact IH].
Qed.

Section History.

Variables Content Arg Kwargs : Type.
Variable arg_of : Conform.Dataset Content -> Arg.
Variable __version__ : string.
Variable now : string.
Variables lon_180W_180E_body lon_0E_360E_body coord_05_offset_body
  transpose_dims_body correct_coord_names_body interpolate_1deg_body
  time_center_monthly_body : list Arg -> Kwargs -> M (Conform.Dataset Content).

Local Abbreviation registry :=
  (Conform._func_registry lon_180W_180E_body lon_0E_360E_body coord_05_offset_body
     transpose_dims_body correct_coord_names_body interpolate_1deg_body
     time_center_monthly_body).

(** The message kept by the decorator is one line. *)
Lemma init_msg_one_line (f : list Arg -> Kwargs -> M (Conform.Dataset Content))
    (f_name : string) (docs : option string) :
  contains Conform.newline (Conform.msg (Conform.init f f_name docs)) = false.
Proof.
  unfold Conform.init. cbn [Conform.msg]. destruct docs as [d|]; [|reflexivity].
  pose proof (split_no_sep Conform.newline (Conform.strip d)) as H.
  pose proof (split_nonempty Conform.newline (Conform.strip d)) as Hne.
  destruct (Conform.split Conform.newline (Conform.strip d)) as [|h t]; [congruence|].
  inversion H; subst. assumption.
Qed.

Lemma registry_msg_one_line (t : Conform.decorated Content Arg Kwargs) :
  In t registry -> contains Conform.newline (Conform.msg t) = false.
Proof.
  unfold Conform._func_registry.
  intros [<-|[<-|[<-|[<-|[<-|[<-|[<-|[]]]]]]]]; apply init_msg_one_line.
Qed.

Lemma prefix_one_line :
  contains Conform.newline now = false ->
  contains Conform.newline (Conform.prefix __version__ now) = false.
Proof.
  intro H. unfold Conform.prefix, Conform.version.
  rewrite !contains_app, H.
  destruct (String.eqb __version__ EmptyString); reflexivity.
Qed.

(** What [_add_history] leaves in the attributes. *)
Lemma add_history_spec (self : Conform.decorated Content Arg Kwargs)
    (ds : Conform.Dataset Content) :
  let note := (Conform.prefix __version__ now ++ Conform.msg self)%string in
  let out := Conform._add_history __version__ now self ds "history" in
  Conform.content out = Conform.content ds /\
  (forall k, k <> "history" ->
     assoc k (Conform.attrs out) = assoc k (Conform.attrs ds)) /\
  (Conform.attrs_get ds "history" = EmptyString ->
     assoc "history" (Conform.attrs out) = Some note) /\
  (Conform.attrs_get ds "history" <> EmptyString ->
     assoc "history" (Conform.attrs out) =
       Some (Conform.join "; "
               (map Conform.strip
                    (Conform.split Conform.semicolon (Conform.attrs_get ds "history")))
             ++ "; " ++ note)%string).
Proof.
  intros note out. unfold out, Conform._add_history, Conform.assign_attrs.
  cbn [Conform.content Conform.attrs].
  split; [reflexivity|]. split; [intros k Hk; apply assoc_dict_set_other, Hk|].
  rewrite assoc_dict_set_same. split.
  - intros ->. reflexivity.
  - intro Hne.
    destruct (String.eqb (Conform.attrs_get ds "history") EmptyString) eqn:E;
      [apply String.eqb_eq in E; congruence|].
    cbn [negb]. f_equal. apply join_snoc.
    pose proof (split_nonempty Conform.semicolon (Conform.attrs_get ds "history")) as H.
    destruct (Conform.split _ _); [congruence|discriminate].
Qed.

(** C8.  Take any of the seven conform transforms, called with a dataset
    as its one positional argument, and suppose its body returns [ds'].
    Then the call returns [ds'] with its [history] attribute rewritten and
    nothing else changed.  The note is ["[amc" ++ version ++ "@" ++ now ++ "] "]
    followed by the first line of the docstring; it holds no newline.  An
    absent or empty history becomes the note; any other history is split
    at its semicolons, the pieces stripped and joined again with ["; "],
    and ["; "] and the note are appended.  The bound method [__caller__]
    does the same. *)
Theorem C8_history_note
    (t : Conform.decorated Content Arg Kwargs) (ds : Conform.Dataset Content)
    (kwargs : Kwargs) (ds' : Conform.Dataset Content) :
  In t registry ->
  contains Conform.newline now = false ->
  result (Conform.func t [arg_of ds] kwargs) = Return ds' ->
  let note := ("[amc" ++ Conform.version __version__ ++ "@" ++ now ++ "] "
               ++ Conform.msg t)%string in
  exists out,
    result (Conform.__call__ __version__ now t [arg_of ds] kwargs)
      = Return (Conform.Out Kwargs out) /\
    result (Conform.__caller__ arg_of __version__ now t kwargs ds) = Return out /\
    Conform.content out = Conform.content ds' /\
    (forall k, k <> "history" ->
       assoc k (Conform.attrs out) = assoc k (Conform.attrs ds')) /\
    contains Conform.newline note = false /\
    (Conform.attrs_get ds' "history" = EmptyString ->
       assoc "history" (Conform.attrs out) = Some note) /\
    (Conform.attrs_get ds' "history" <> EmptyString ->
       assoc "history" (Conform.attrs out) =
         Some (Conform.join "; "
                 (map Conform.strip
                      (Conform.split Conform.semicolon
                                     (Conform.attrs_get ds' "history")))
               ++ "; " ++ note)%string).
Proof.
  intros Hin Hnow Hbody note.
  assert (Hnote : note = (Conform.prefix __version__ now ++ Conform.msg t)%string).
  { unfold note, Conform.prefix. rewrite !string_app_assoc. reflexivity. }
  exists (Conform._add_history __version__ now t ds' "history").
  destruct (add_history_spec t ds') as (Hc & Hother & Hempty & Hsome).
  split; [|split; [|split; [|split; [|split; [|split]]]]].
  - unfold Conform.__call__. cbn [length Nat.eqb].
    rewrite result_bind, Hbody. reflexivity.
  - unfold Conform.__caller__. rewrite result_bind, Hbody. reflexivity.
  - exact Hc.
  - exact Hother.
  - rewrite Hnote, contains_app, (prefix_one_line Hnow), (registry_msg_one_line t Hin).
    reflexivity.
  - rewrite Hnote. exact Hempty.
  - rewrite Hnote. exact Hsome.
Qed.

End History.

(** The theorem on [lon_0E_360E] applied to a dataset whose history
    already holds a note, on 4 November 2026 and without a version. *)
Lemma C8_witness :
  exists out,
    result (Conform.__call__ EmptyString "261104"
              (Conform.lon_0E_360E (fun args _ => ret (hd (Conform.mkDataset [] tt) args)))
              [Conform.mkDataset [("history", "created ;regridded")] tt] tt)
      = Return (Conform.Out unit out) /\
    assoc "history" (Conform.attrs out)
      = Some "created; regridded; [amc@261104] Regrid the data to [0 : 360] from [-180 : 180]".
Proof.
  pose (body := fun (args : list (Conform.Dataset unit)) (_ : unit) =>
                  ret (hd (Conform.mkDataset [] tt) args)).
  destruct (C8_history_note unit (Conform.Dataset unit) unit (fun d => d) EmptyString "261104"
              body body body body body body body
              (Conform.lon_0E_360E body)
              (Conform.mkDataset [("history", "created ;regridded")] tt) tt
              (Conform.mkDataset [("history", "created ;regridded")] tt))
    as (out & Hcall & _ & _ & _ & _ & _ & Hhist).
  - left. reflexivity.
  - reflexivity.
  - reflexivity.
  - exists out. split; [exact Hcall|].
    rewrite Hhist by discriminate. vm_compute. reflexivity.
Defined.

(* ================================================================= *)
(** * [grid_flat_data] *)

Lemma dict_get_int {A} (d : list (string * A)) (rows : list nat) :
  existsb (fun k => match k with Some _ => true | None => false end)
          (map (dict_get d) (map LInt rows)) = false.
Proof.
  induction rows as [|i r IH]; [reflexivity|]. exact IH.
Qed.

(** Whatever the columns are, the rows of the frame are labelled by
    integers, the dict that is given as [by] is keyed by the names of the
    columns, and no row gets a group: when [grid_flat_data] returns, it
    returns a pandas frame without rows, never an xarray object. *)
Lemma grid_flat_data_returns_no_row
    (data_columns : list Series) (sparse : bool)
    (coordinate_columns : list (string * Series)) (out : pyobj) :
  result (grid_flat_data data_columns sparse coordinate_columns) = Return out ->
  exists cols,
    out = PdDataFrame (mkDataFrame [] cols) /\
    Forall (fun c => snd c = []) cols.
Proof.
  unfold grid_flat_data. rewrite result_bind.
  destruct (result (assert _ MsgSameLength)) as [e|[]]; [discriminate|].
  rewrite result_bind.
  set (cols := dict_update _ _).
  unfold from_dict.
  destruct (forallb _ cols); [|discriminate].
  cbn [ret result snd]. rewrite result_bind.
  unfold groupby_dict_mean. cbn [df_index]. rewrite dict_get_int.
  cbn [ret result snd]. intro H. injection H as <-.
  eexists. split; [reflexivity|].
  unfold take_rows. cbn [df_columns]. apply Forall_forall.
  intros c Hc. apply in_map_iff in Hc. destruct Hc as (c0 & <- & _). reflexivity.
Qed.

(** C6: what the code does on three rows, two of which share their
    latitude.  The specification asks for the means 1.5 at latitude 0 and
    3 at latitude 1; [grid_flat_data] returns a pandas frame with the two
    columns and no row. *)
Theorem C6_grid_flat_data_groups_nothing :
  grid_flat_data [flat_v] true [("lat", flat_lat)]
    = ([], Return (PdDataFrame (mkDataFrame [] [("lat", []); ("v", [])]))) /\
  spec_group_means [flat_v] [("lat", flat_lat)]
    = [([Num 0], [("v", Num (3 # 2))]); ([Num 1], [("v", Num (3 # 1))])].
Proof.
  split; vm_compute; reflexivity.
Qed.

(* ================================================================= *)
(** * Round trip on an evenly spaced grid *)

Lemma increasing_lt (l : list Q) (i j : nat) :
  increasing l -> i < j -> j < length l -> (nth i l 0 < nth j l 0)%Q.
Proof.
  intros Hinc Hij Hj. induction j as [|j IH]; [lia|].
  destruct (Nat.eq_dec i j) as [->|Hne].
  - apply nth_increasing; assumption.
  - apply Qlt_trans with (y := nth j l 0%Q).
    + apply IH; lia.
    + apply nth_increasing; assumption.
Qed.

Lemma increasing_le_pos (l : list Q) (i j : nat) :
  increasing l -> i < length l -> j < length l ->
  (nth i l 0 <= nth j l 0)%Q -> i <= j.
Proof.
  intros Hinc Hi Hj Hle. destruct (Nat.le_gt_cases i j) as [H|H]; [exact H|].
  pose proof (increasing_lt l j i Hinc H Hi). lra.
Qed.

Lemma even_increasing (qs : list Q) (a d : Q) :
  (0 < d)%Q -> evenly_spaced qs a d -> increasing qs.
Proof.
  intros Hd Hev. apply increasing_nth. intros i Hi.
  rewrite (Hev i) by lia. rewrite (Hev (S i)) by lia.
  rewrite Nat2Z.inj_succ, <- Z.add_1_r, inject_Z_plus.
  change (inject_Z 1) with 1%Q. lra.
Qed.

(** In a sorted list the elements up to [v] are a prefix. *)
Lemma count_le_prefix (bq : list Q) (v : Q) (i : nat) :
  increasing bq -> i < length bq ->
  (Qle_bool (nth i bq 0%Q) v = true <-> i < length (filter (fun q => Qle_bool q v) bq)).
Proof.
  revert i. induction bq as [|a r IH]; intros i Hinc Hi; [simpl in Hi; lia|].
  cbn [filter]. destruct (Qle_bool a v) eqn:Ea.
  - destruct i as [|i]; cbn [nth length].
    + rewrite Ea. split; [lia|reflexivity].
    + rewrite (IH i (increasing_tail a r Hinc)) by (simpl in Hi; lia). lia.
  - assert (Hnone : filter (fun q => Qle_bool q v) r = []).
    { apply filter_none. pose proof (increasing_head a r Hinc) as Hall.
      eapply Forall_impl; [|exact Hall]. intros q Hq. cbv beta in Hq.
      destruct (Qle_bool q v) eqn:E; [|reflexivity].
      apply Qle_bool_iff in E.
      assert (Hav : ~ (a <= v)%Q) by (intro H; apply Qle_bool_iff in H; congruence).
      exfalso. apply Hav. lra. }
    rewrite Hnone. cbn [length]. destruct i as [|i]; cbn [nth].
    + rewrite Ea. split; [discriminate|lia].
    + split; [|lia]. intro H. exfalso.
      assert (Hin : In (nth i r 0%Q) (filter (fun q => Qle_bool q v) r)).
      { apply filter_In. split; [apply nth_In; simpl in Hi; lia|exact H]. }
      rewrite Hnone in Hin. destruct Hin.
Qed.

(** Searching a sorted coordinate for the value of its center [p]. *)
Lemma searchsorted_left_at (qs : list Q) (v : Q) (p : nat) :
  increasing qs -> p < length qs -> (v == nth p qs 0)%Q ->
  searchsorted_left (map Num qs) (Num v) = p.
Proof.
  intros Hinc Hp Hv. rewrite searchsorted_left_Num.
  set (c := length (filter (fun q => Qltb q v) qs)).
  pose proof (count_le_length (fun q => Qltb q v) qs) as Hle. fold c in Hle.
  destruct (Nat.lt_trichotomy c p) as [H|[H|H]]; [|exact H|].
  - exfalso. assert (Hc : c < length qs) by lia.
    pose proof (count_lt_prefix qs v c Hinc Hc) as [Hfwd _]. fold c in Hfwd.
    assert (Qltb (nth c qs 0%Q) v = true).
    { apply Qltb_lt. rewrite Hv. apply increasing_lt; assumption. }
    specialize (Hfwd H0). lia.
  - exfalso. pose proof (count_lt_prefix qs v p Hinc Hp) as [_ Hbwd]. fold c in Hbwd.
    specialize (Hbwd H). apply Qltb_lt in Hbwd. lra.
Qed.

Lemma searchsorted_right_at (qs : list Q) (v : Q) (p : nat) :
  increasing qs -> p < length qs -> (v == nth p qs 0)%Q ->
  searchsorted_right (map Num qs) (Num v) = S p.
Proof.
  intros Hinc Hp Hv. rewrite searchsorted_right_Num.
  set (c := length (filter (fun q => Qle_bool q v) qs)).
  pose proof (count_le_length (fun q => Qle_bool q v) qs) as Hle. fold c in Hle.
  assert (H1 : p < c).
  { apply (count_le_prefix qs v p Hinc Hp). apply Qle_bool_iff. lra. }
  destruct (Nat.eq_dec c (S p)) as [E|E]; [exact E|].
  exfalso. assert (Hsp : S p < c) by lia.
  pose proof (count_le_prefix qs v (S p) Hinc ltac:(lia)) as [_ Hbwd]. fold c in Hbwd.
  specialize (Hbwd Hsp). apply Qle_bool_iff in Hbwd.
  pose proof (increasing_lt qs p (S p) Hinc ltac:(lia) ltac:(lia)). lra.
Qed.

(** The smallest and the largest of a list of numbers. *)
Lemma fold_vmin_spec (r : list Q) (acc : Q) :
  exists m, fold_left vmin (map Num r) (Num acc) = Num m /\
            In m (acc :: r) /\ forall q, In q (acc :: r) -> (m <= q)%Q.
Proof.
  revert acc. induction r as [|q r IH]; intro acc.
  - exists acc. split; [reflexivity|]. split; [left; reflexivity|].
    intros q [<-|[]]. lra.
  - cbn [map fold_left vmin]. destruct (Qle_bool acc q) eqn:E.
    + apply Qle_bool_iff in E. destruct (IH acc) as (m & Hm & Hin & Hle).
      exists m. split; [exact Hm|]. split.
      * destruct Hin as [<-|Hin]; [left; reflexivity|right; right; exact Hin].
      * intros x [<-|[<-|Hx]].
        -- apply Hle. left. reflexivity.
        -- apply Qle_trans with (y := acc); [apply Hle; left; reflexivity|exact E].
        -- apply Hle. right. exact Hx.
    + assert (Hlt : (q < acc)%Q).
      { apply Qnot_le_lt. intro H. apply Qle_bool_iff in H. congruence. }
      destruct (IH q) as (m & Hm & Hin & Hle).
      exists m. split; [exact Hm|]. split.
      * right. exact Hin.
      * intros x [<-|Hx].
        -- apply Qle_trans with (y := q); [apply Hle; left; reflexivity|lra].
        -- apply Hle. exact Hx.
Qed.

Lemma fold_vmax_spec (r : list Q) (acc : Q) :
  exists m, fold_left vmax (map Num r) (Num acc) = Num m /\
            In m (acc :: r) /\ forall q, In q (acc :: r) -> (q <= m)%Q.
Proof.
  revert acc. induction r as [|q r IH]; intro acc.
  - exists acc. split; [reflexivity|]. split; [left; reflexivity|].
    intros q [<-|[]]. lra.
  - cbn [map fold_left vmax]. destruct (Qle_bool acc q) eqn:E.
    + apply Qle_bool_iff in E. destruct (IH q) as (m & Hm & Hin & Hle).
      exists m. split; [exact Hm|]. split.
      * right. exact Hin.
      * intros x [<-|Hx].
        -- apply Qle_trans with (y := q); [exact E|apply Hle; left; reflexivity].
        -- apply Hle. exact Hx.
    + assert (Hlt : (q < acc)%Q).
      { apply Qnot_le_lt. intro H. apply Qle_bool_iff in H. congruence. }
      destruct (IH acc) as (m & Hm & Hin & Hle).
      exists m. split; [exact Hm|]. split.
      * destruct Hin as [<-|Hin]; [left; reflexivity|right; right; exact Hin].
      * intros x [<-|[<-|Hx]].
        -- apply Hle. left. reflexivity.
        -- apply Qle_trans with (y := acc); [lra|apply Hle; left; reflexivity].
        -- apply Hle. right. exact Hx.
Qed.

Lemma range_of_spec (cq : list Q) :
  cq <> [] ->
  exists lo hi, range_of (map Num cq) = (Num lo, Num hi) /\
                In lo cq /\ In hi cq /\
                forall q, In q cq -> (lo <= q <= hi)%Q.
Proof.
  intro Hne. destruct cq as [|a r]; [congruence|].
  destruct (fold_vmin_spec r a) as (lo & Hlo & Hinlo & Hlel).
  destruct (fold_vmax_spec r a) as (hi & Hhi & Hinhi & Hleh).
  exists lo, hi. cbn [map range_of]. rewrite Hlo, Hhi.
  split; [reflexivity|]. split; [exact Hinlo|]. split; [exact Hinhi|].
  intros q Hq. split; [apply Hlel|apply Hleh]; exact Hq.
Qed.

Lemma length_py_slice {A} (l : list A) (s e : nat) :
  e <= length l -> length (py_slice l s e) = e - s.
Proof.
  intro H. unfold py_slice. rewrite length_firstn, length_skipn. lia.
Qed.

Lemma nth_py_slice {A} (l : list A) (s e i : nat) (d : A) :
  i < e - s -> nth i (py_slice l s e) d = nth (s + i) l d.
Proof.
  intro H. unfold py_slice. rewrite nth_firstn.
  replace (i <? e - s) with true by (symmetry; apply Nat.ltb_lt; exact H).
  apply nth_skipn.
Qed.

Lemma py_slice_even (qs : list Q) (a d : Q) (s e : nat) :
  evenly_spaced qs a d -> e <= length qs ->
  evenly_spaced (py_slice qs s e) (a + inject_Z (Z.of_nat s) * d)%Q d.
Proof.
  intros Hev He i Hi. rewrite (length_py_slice qs s e He) in Hi.
  rewrite (nth_py_slice qs s e i 0%Q Hi), (Hev (s + i)) by lia.
  rewrite Nat2Z.inj_add, inject_Z_plus. ring.
Qed.

(** The edges of two or more evenly spaced centers. *)
Lemma edges_of_even (qs : list Q) (a d : Q) :
  2 <= length qs -> (0 < d)%Q -> evenly_spaced qs a d ->
  length (edges_of (map Num qs)) = S (length qs) /\
  forall i, i <= length qs ->
    edge_is (edges_of (map Num qs)) i (a - d / 2 + inject_Z (Z.of_nat i) * d)%Q.
Proof.
  intros Hn Hd Hev. destruct qs as [|q0 r] eqn:Eqs; [simpl in Hn; lia|].
  rewrite edges_of_cons.
  destruct (nanmean_diff_even (q0 :: r) a d Hn Hev) as (m & Hm & Hmd).
  rewrite Hm. split.
  - rewrite length_linspace. simpl. lia.
  - intros i Hi. apply (linspace_even (q0 :: r) a d m q0 r eq_refl); try assumption.
    simpl in Hn. lia.
Qed.

Lemma all_Num (c : list val) :
  (forall j, j < length c -> exists q, nth j c NaN = Num q) ->
  exists cq, c = map Num cq.
Proof.
  induction c as [|v r IH]; intro H; [exists []; reflexivity|].
  destruct (H 0 ltac:(simpl; lia)) as (q & Hq). cbn [nth] in Hq. subst v.
  destruct IH as (cq & ->).
  - intros j Hj. apply (H (S j)). simpl. lia.
  - exists (q :: cq). reflexivity.
Qed.

(** One dimension of the round trip.  The coordinate is evenly spaced;
    row [j] of the query sits at its center [pos j], and two rows sit at
    different centers.  Then the bounding range selects the centers from
    the lowest to the highest position queried, and [pd.cut] on the edges
    of these centers puts each row in the bin of its own center. *)
Lemma axis_round_trip (qs : list Q) (a d : Q) (cq : list Q) (pos : nat -> nat) :
  (0 < d)%Q -> evenly_spaced qs a d ->
  (forall j, j < length cq ->
     pos j < length qs /\ (nth j cq 0 == nth (pos j) qs 0)%Q) ->
  (exists j j', j < length cq /\ j' < length cq /\ pos j < pos j') ->
  exists lo hi,
    range_of (map Num cq) = (Num lo, Num hi) /\
    let start := searchsorted_left (map Num qs) (Num lo) in
    let stop := searchsorted_right (map Num qs) (Num hi) in
    let bins := edges_of (py_slice (map Num qs) start stop) in
    start + 2 <= stop /\ stop <= length qs /\
    forall j, j < length cq ->
      start <= pos j /\
      S (pos j - start) < length bins /\
      in_bin bins (pos j - start) (Num (nth j cq 0%Q)).
Proof.
  intros Hd Hev Hpos (j1 & j2 & Hj1 & Hj2 & Hlt).
  pose proof (even_increasing qs a d Hd Hev) as Hinc.
  destruct (range_of_spec cq) as (lo & hi & Hr & Hinlo & Hinhi & Hb).
  { destruct cq; [simpl in Hj1; lia|discriminate]. }
  exists lo, hi. split; [exact Hr|].
  destruct (In_nth cq lo 0%Q Hinlo) as (jlo & Hjlo & Elo).
  destruct (In_nth cq hi 0%Q Hinhi) as (jhi & Hjhi & Ehi).
  destruct (Hpos jlo Hjlo) as [Hplo Hvlo]. rewrite Elo in Hvlo.
  destruct (Hpos jhi Hjhi) as [Hphi Hvhi]. rewrite Ehi in Hvhi.
  rewrite (searchsorted_left_at qs lo (pos jlo) Hinc Hplo Hvlo).
  rewrite (searchsorted_right_at qs hi (pos jhi) Hinc Hphi Hvhi).
  cbv zeta.
  assert (Hrange : forall j, j < length cq -> pos jlo <= pos j <= pos jhi).
  { intros j Hj. destruct (Hpos j Hj) as [Hp Hv].
    destruct (Hb (nth j cq 0%Q) (nth_In cq 0%Q Hj)) as [H1 H2]. split.
    - apply (increasing_le_pos qs _ _ Hinc Hplo Hp). rewrite <- Hvlo, <- Hv. exact H1.
    - apply (increasing_le_pos qs _ _ Hinc Hp Hphi). rewrite <- Hvhi, <- Hv. exact H2. }
  pose proof (Hrange j1 Hj1) as R1. pose proof (Hrange j2 Hj2) as R2.
  split; [lia|]. split; [lia|].
  rewrite py_slice_map.
  set (qs' := py_slice qs (pos jlo) (S (pos jhi))).
  assert (Hlen' : length qs' = S (pos jhi) - pos jlo)
    by (apply length_py_slice; lia).
  assert (Hev' : evenly_spaced qs' (a + inject_Z (Z.of_nat (pos jlo)) * d)%Q d)
    by (apply py_slice_even; [exact Hev|lia]).
  destruct (edges_of_even qs' _ d ltac:(lia) Hd Hev') as [Hbl Hedge].
  intros j Hj. pose proof (Hrange j Hj) as R. destruct (Hpos j Hj) as [Hp Hv].
  split; [lia|]. split; [lia|].
  pose proof (Hedge (pos j - pos jlo) ltac:(lia)) as Elow.
  pose proof (Hedge (S (pos j - pos jlo)) ltac:(lia)) as Ehigh.
  unfold in_bin, inside. unfold edge_is in Elow, Ehigh.
  destruct (nth (pos j - pos jlo) (edges_of (map Num qs')) NaN) as [|bl]; [contradiction|].
  destruct (nth (S (pos j - pos jlo)) (edges_of (map Num qs')) NaN) as [|bh]; [contradiction|].
  rewrite Elow, Ehigh, Hv, (Hev (pos j) Hp).
  rewrite (Nat2Z.inj_succ (pos j - pos jlo)), <- Z.add_1_r, inject_Z_plus.
  replace (Z.of_nat (pos j - pos jlo)) with (Z.of_nat (pos j) - Z.of_nat (pos jlo))%Z by lia.
  unfold Zminus. rewrite inject_Z_plus, inject_Z_opp.
  change (inject_Z 1) with 1%Q.
  set (P := inject_Z (Z.of_nat (pos j))). set (L := inject_Z (Z.of_nat (pos jlo))).
  unfold Qdiv. change (/ 2)%Q with (1 # 2)%Q.
  split; nra.
Qed.

Lemma assoc_NoDup {A} (k : string) (a : A) (l : list (string * A)) :
  NoDup (map fst l) -> In (k, a) l -> assoc k l = Some a.
Proof.
  induction l as [|[k' a'] r IH]; intros Hnd Hin; [destruct Hin|].
  cbn [map fst] in Hnd. inversion Hnd as [|? ? Hnot Hnd']; subst.
  cbn [assoc]. destruct Hin as [E|Hin].
  - injection E as -> ->. rewrite String.eqb_refl. reflexivity.
  - destruct (String.eqb k k') eqn:E.
    + apply String.eqb_eq in E. subst k'. exfalso. apply Hnot.
      apply (in_map fst) in Hin. exact Hin.
    + apply IH; assumption.
Qed.

Lemma restrict_axis_name (ranges : list (string * (val * val))) (kx : string * array) :
  fst (fst (restrict_axis ranges kx)) = fst kx.
Proof.
  unfold restrict_axis. destruct (assoc (fst kx) ranges) as [[lo hi]|]; reflexivity.
Qed.

(** The coordinate of a dimension after the restriction. *)
Lemma restricted_coord (da : DataArray) (ranges : list (string * (val * val)))
    (k : string) (x : array) :
  assoc k (da_axes da) = Some x ->
  da_coord (restricted da ranges) k = snd (fst (restrict_axis ranges (k, x))).
Proof.
  unfold da_coord, restricted. cbn [da_axes].
  induction (da_axes da) as [|[k' x'] r IH]; intro H; [discriminate|].
  cbn [map assoc] in *.
  pose proof (restrict_axis_name ranges (k', x')) as Hn. cbn [fst] in Hn.
  destruct (fst (restrict_axis ranges (k', x'))) as [k0 x0] eqn:E.
  cbn [fst] in Hn. subst k0.
  destruct (String.eqb k k') eqn:Ek.
  - apply String.eqb_eq in Ek. subst k'. injection H as ->. rewrite E. reflexivity.
  - apply IH, H.
Qed.

Lemma shift_map {A} (o c : A -> nat) (l : list A) :
  shift (map o l) (map c l) = map (fun a => o a + c a) l.
Proof.
  induction l as [|a r IH]; [reflexivity|]. cbn [map shift]. rewrite IH. reflexivity.
Qed.

Lemma da_size_nonzero (xdr : DataArray) :
  (forall kx, In kx (da_axes xdr) -> size (snd kx) <> 0) -> da_size xdr <> 0%Z.
Proof.
  unfold da_size, da_shape. induction (da_axes xdr) as [|kx r IH]; intro H.
  - cbn. lia.
  - cbn [map fold_right].
    specialize (IH (fun kx' Hin => H kx' (or_intror Hin))).
    pose proof (H kx (or_introl eq_refl)). nia.
Qed.

Lemma even_grid_sorted (da : DataArray) : even_grid da -> numeric_sorted da.
Proof.
  intros H kx Hin. destruct (H kx Hin) as (Hk & qs & a & d & Hqs & Hd & Hev).
  split; [exact Hk|]. exists qs. split; [exact Hqs|].
  apply (even_increasing qs a d Hd Hev).
Qed.

(** What the round trip gives along the dimension [k]: where the
    restriction starts, and the bin of each row. *)
Lemma dimension_round_trip
    (da : DataArray) (coords : query) (len : nat) (pos : string -> nat -> nat)
    (k : string) (x : array) :
  even_axis x -> assoc k (da_axes da) = Some x ->
  In k (keys_of coords) -> same_length coords len ->
  on_grid da coords len pos -> two_centers coords len pos ->
  let xdr := restricted da (ranges_of coords) in
  let start := snd (restrict_axis (ranges_of coords) (k, x)) in
  2 <= size (da_coord xdr k) /\
  forall j, j < len ->
    start <= pos k j /\
    S (pos k j - start) < length (bins_for xdr k) /\
    in_bin (bins_for xdr k) (pos k j - start) (query_at coords k j).
Proof.
  intros (Hkind & qs & a & d & Hqs & Hd & Hev) Hassoc Hk Hlen Hgrid Htwo xdr start.
  assert (Hcoord : da_coord da k = x) by (unfold da_coord; rewrite Hassoc; reflexivity).
  specialize (Hlen k Hk). unfold size in Hlen.
  destruct (all_Num (elems (coord coords k))) as (cq & Hcq).
  { intros j Hj. rewrite Hlen in Hj. destruct (Hgrid k Hk j Hj) as [_ Hc].
    unfold query_at in Hc. destruct (nth j (elems (coord coords k)) NaN) as [|q];
      [contradiction|]. exists q. reflexivity. }
  assert (Hlcq : length cq = len) by (rewrite Hcq, length_map in Hlen; exact Hlen).
  destruct (axis_round_trip qs a d cq (pos k) Hd Hev) as (lo & hi & Hr & H).
  { intros j Hj. rewrite Hlcq in Hj. destruct (Hgrid k Hk j Hj) as [Hp Hc].
    rewrite Hcoord in Hp, Hc. unfold size in Hp. rewrite Hqs, length_map in Hp.
    split; [exact Hp|]. unfold query_at in Hc. rewrite Hcq, Hqs in Hc.
    rewrite !nth_map_Num in Hc by lia. exact Hc. }
  { rewrite Hlcq. apply (Htwo k Hk). }
  cbv zeta in H. destruct H as (H2 & Hstop & Hrows).
  assert (Hrestrict : restrict_axis (ranges_of coords) (k, x) =
            (k, mkarray (dtype_kind x)
                  (py_slice (elems x) (searchsorted_left (map Num qs) (Num lo))
                            (searchsorted_right (map Num qs) (Num hi))),
             searchsorted_left (map Num qs) (Num lo))).
  { unfold restrict_axis. cbn [fst snd]. unfold ranges_of.
    rewrite (assoc_map_key (fun k => range_of (elems (coord coords k))) k _ Hk).
    rewrite Hcq, Hr, Hqs. reflexivity. }
  assert (Hxdr : da_coord xdr k =
            mkarray (dtype_kind x)
              (py_slice (elems x) (searchsorted_left (map Num qs) (Num lo))
                        (searchsorted_right (map Num qs) (Num hi)))).
  { unfold xdr. rewrite (restricted_coord da _ k x Hassoc), Hrestrict. reflexivity. }
  unfold start. rewrite Hrestrict. cbn [snd].
  unfold bins_for. rewrite Hxdr. cbn [elems]. unfold size. cbn [elems].
  rewrite Hqs. split.
  - rewrite py_slice_map, length_map, length_py_slice by lia. lia.
  - intros j Hj. rewrite <- Hlcq in Hj. destruct (Hrows j Hj) as (R1 & R2 & R3).
    split; [exact R1|]. split; [exact R2|].
    unfold query_at. rewrite Hcq, nth_map_Num by exact Hj. exact R3.
Qed.




(** The two queries of the specification's scenario, run. *)
Example scenario_inside :
  let (ev, r) := colocate_dataarray lat3 true [("lat", mkarray Kf [Num (-1); Num 1])] in
  ev = [Print "sst:"; Print "loading"; Load; Print "making bins"; Print "fetch data"] /\
  match r with
  | Return out => tolist out = [Num 10; Num 30]
  | Raise _ => False
  end.
Proof. vm_compute. split; reflexivity. Qed.

Example scenario_outside :
  let (ev, r) := colocate_dataarray lat3 true [("lat", mkarray Kf [Num 5])] in
  ev = [Print "sst:"; Print "no data within coordinate ranges - returning nans"] /\
  match r with
  | Return out => tolist out = [NaN]
  | Raise _ => False
  end.
Proof. vm_compute. split; reflexivity. Qed.

(** ** Where the hypotheses of the theorems above are needed *)

(** Datetime centers one nanosecond apart: half the step truncates to
    zero, [np.arange] returns one edge too few and the assertion of
    [make_bins] fails. *)
Example make_bins_one_nanosecond :
  make_bins (mkarray KM [Num 0; Num 1; Num 2])
    = ([], Raise (AssertionError MsgBinsLonger)).
Proof. reflexivity. Qed.

(** Two daily centers, the second on the last nanosecond an int64 holds:
    the end given to [np.arange] wraps around below its start, no edge is
    returned and the assertion fails. *)
Example make_bins_wraps_around :
  make_bins (mkarray KM [Num (inject_Z (2 ^ 63 - 1 - 86400000000000));
                         Num (inject_Z (2 ^ 63 - 1))])
    = ([], Raise (AssertionError MsgBinsLonger)).
Proof. vm_compute. reflexivity. Qed.

(** A single center has no spacing: both edges are NaN. *)
Example make_bins_single_center :
  make_bins (mkarray Kf [Num 0]) = ([], Return [NaN; NaN]).
Proof. reflexivity. Qed.

(** A query on the first of two dimensions: the rows of the output run
    along its last dimension after the transposition, and the mask of the
    null rows does not fit the first one. *)
Example partial_query_mask_mismatch :
  result (colocate_dataarray latlon true
            [("lat", mkarray Kf [Num (-1); Num 0; Num 1])])
    = Raise (IndexError (MsgBoolIndexMismatch 2 3)).
Proof. vm_compute. reflexivity. Qed.

(* ================================================================= *)
(** * Further properties of [colocate_dataarray] *)

(** ** What [verbose] changes *)

Lemma quiet_bind {A B} (m m' : M A) (f f' : A -> M B) :
  quiet m m' -> (forall a, quiet (f a) (f' a)) -> quiet (bind m f) (bind m' f').
Proof.
  intros [Hr He] Hf. unfold quiet.
  rewrite !result_bind, !events_bind, He, Hr, filter_app.
  destruct (result m') as [e|a]; [split; reflexivity|].
  destruct (Hf a) as [Hr' He']. rewrite Hr', He'. split; reflexivity.
Qed.

Lemma quiet_silent {A} (m : M A) : events m = [] -> quiet m m.
Proof. intro H. unfold quiet. rewrite H. split; reflexivity. Qed.

Lemma quiet_vprint (s : string) : quiet (vprint false s) (vprint true s).
Proof. split; reflexivity. Qed.

Lemma events_assert (c : bool) (m : message) : events (assert c m) = [].
Proof. destruct c; reflexivity. Qed.

Lemma events_arange (start stop step : Z) :
  events (arange_datetime start stop step) = [].
Proof.
  unfold arange_datetime.
  destruct (_ || _); [reflexivity|].
  destruct (step =? 0)%Z; [reflexivity|].
  destruct (_ <? 0)%Z; reflexivity.
Qed.

Lemma events_make_bins (x : array) : events (make_bins x) = [].
Proof.
  unfold make_bins.
  assert (H : forall m : M (list val), events m = [] ->
            events (bind m (fun bins =>
                      bind (assert (size x + 1 =? length bins) MsgBinsLonger)
                           (fun _ => ret bins))) = []).
  { intros m Hm. rewrite events_bind, Hm. cbn [app].
    destruct (result m) as [e|bins]; [reflexivity|].
    rewrite events_bind, events_assert. cbn [app].
    destruct (result (assert _ _)); reflexivity. }
  apply H.
  destruct (is_datetime x); destruct (elems x) as [|a r]; try reflexivity.
  cbn [item_first item_last]. rewrite !bind_ret_l. apply events_arange.
Qed.

Lemma events_cut (x bins : list val) : events (cut x bins) = [].
Proof. rewrite cut_eq. destruct (cut_check bins); reflexivity. Qed.

Lemma events_setitem_mask_nan (a : ndarray) (mask : list bool) :
  events (setitem_mask_nan a mask) = [].
Proof. unfold setitem_mask_nan. destruct (_ =? _); reflexivity. Qed.

Lemma events_tagged {A B} (m : M A) (g : A -> B) :
  events m = [] -> events (bind m (fun a => ret (g a))) = [].
Proof.
  intro H. rewrite events_bind, H. destruct (result m); reflexivity.
Qed.

(** X1.  [verbose] only switches the printing: with [verbose=False] the
    call ends as it does with [verbose=True] (the same array or the same
    exception), it loads the restricted array in the same cases, and it
    prints nothing. *)
Theorem verbose_only_prints (da : DataArray) (coords : query) :
  result (colocate_dataarray da false coords)
    = result (colocate_dataarray da true coords) /\
  events (colocate_dataarray da false coords)
    = filter is_load (events (colocate_dataarray da true coords)) /\
  forall s, ~ In (Print s) (events (colocate_dataarray da false coords)).
Proof.
  assert (H : quiet (colocate_dataarray da false coords)
                    (colocate_dataarray da true coords)).
  { unfold colocate_dataarray.
    apply quiet_bind; [apply quiet_silent, events_assert|intros _].
    apply quiet_bind; [apply quiet_silent, events_assert|intros _].
    apply quiet_bind; [apply quiet_silent, events_assert|intros _].
    apply quiet_bind; [apply quiet_silent, events_assert|intros _].
    apply quiet_bind; [apply quiet_vprint|intros _].
    apply quiet_bind; [apply quiet_silent, events_query_ranges|intros ranges].
    apply quiet_bind; [apply quiet_silent, events_sel|intros xdr].
    destruct (da_size xdr >? max_size)%Z; [apply quiet_silent; reflexivity|].
    destruct (da_size xdr =? 0)%Z.
    - apply quiet_bind; [apply quiet_vprint|intros _].
      apply quiet_silent. reflexivity.
    - apply quiet_bind; [apply quiet_vprint|intros _].
      apply quiet_bind; [split; reflexivity|intros _].
      apply quiet_bind; [apply quiet_vprint|intros _].
      apply quiet_bind.
      { apply quiet_silent, events_mapM. intro kx.
        apply events_tagged, events_make_bins. }
      intros bins.
      apply quiet_bind.
      { apply quiet_silent, events_mapM. intro k.
        apply events_tagged, events_cut. }
      intros binned.
      apply quiet_bind; [apply quiet_vprint|intros _].
      apply quiet_silent, events_setitem_mask_nan. }
  destruct H as [Hr He]. split; [exact Hr|]. split; [exact He|].
  intros s Hin. rewrite He in Hin. apply filter_In in Hin.
  destruct Hin as [_ Hl]. discriminate.
Qed.

(** ** How [colocate_dataarray] fails *)

Lemma raises_bind {A B} (m : M A) (f : A -> M B) (e : exn) :
  result (bind m f) = Raise e ->
  result m = Raise e \/ exists a, result m = Return a /\ result (f a) = Raise e.
Proof.
  rewrite result_bind. destruct (result m) as [e'|a]; intro H.
  - left. injection H as ->. reflexivity.
  - right. exists a. split; [reflexivity|exact H].
Qed.

Lemma raises_mapM {A B} (f : A -> M B) (l : list A) (e : exn) :
  result (mapM f l) = Raise e -> exists a, In a l /\ result (f a) = Raise e.
Proof.
  induction l as [|a r IH]; [discriminate|].
  cbn [mapM]. intro H. apply raises_bind in H. destruct H as [H|(b & _ & H)].
  - exists a. split; [left; reflexivity|exact H].
  - apply raises_bind in H. destruct H as [H|(bs & _ & H)]; [|discriminate].
    destruct (IH H) as (a' & Hin & Ha'). exists a'. split; [right; exact Hin|exact Ha'].
Qed.

Lemma raises_tagged {A B} (m : M A) (g : A -> B) (e : exn) :
  result (bind m (fun a => ret (g a))) = Raise e -> result m = Raise e.
Proof.
  intro H. apply raises_bind in H. destruct H as [H|(a & _ & H)]; [exact H|discriminate].
Qed.

Lemma nodup_singleton (l : list nat) (n : nat) :
  nodup Nat.eq_dec l = [n] -> forall x, In x l -> x = n.
Proof.
  intros H x Hx. apply (nodup_In Nat.eq_dec) in Hx. rewrite H in Hx.
  destruct Hx as [Hx|[]]. symmetry. exact Hx.
Qed.

(** The four assertions: a query fails one of them, with nothing printed,
    or it is valid. *)
Lemma colocate_checks (da : DataArray) (verbose : bool) (coords : query) :
  colocate_dataarray da verbose coords = ([], Raise (AssertionError MsgSameLength)) \/
  colocate_dataarray da verbose coords
    = ([], Raise (AssertionError (MsgNotInDa (not_matched_of da coords)))) \/
  colocate_dataarray da verbose coords
    = ([], Raise (AssertionError (MsgTypeMismatch (type_missmatch_of da coords)))) \/
  exists len, valid_query da coords len.
Proof.
  unfold colocate_dataarray.
  fold (keys_of coords). fold (not_matched_of da coords).
  fold (type_missmatch_of da coords).
  destruct (nodup Nat.eq_dec (map (fun k => size (coord coords k)) (keys_of coords)))
    as [|len [|len' r]] eqn:E; [left; reflexivity| |left; reflexivity].
  cbn [length Nat.eqb assert]. rewrite bind_ret_l.
  assert (Hne : coords <> []) by (intros ->; discriminate E).
  assert (Hkeys : (0 <? length (keys_of coords)) = true).
  { destruct coords; [congruence|]. reflexivity. }
  rewrite Hkeys. cbn [assert]. rewrite bind_ret_l.
  destruct (not_matched_of da coords) as [|x r] eqn:Em; [|right; left; reflexivity].
  cbn [length Nat.eqb assert]. rewrite bind_ret_l.
  destruct (type_missmatch_of da coords) as [|y s] eqn:Et;
    [|right; right; left; reflexivity].
  right. right. right. exists len. constructor.
  - exact Hne.
  - intros k Hk. apply (nodup_singleton _ _ E).
    apply in_map_iff. exists k. split; [reflexivity|exact Hk].
  - exact Em.
  - exact Et.
Qed.

Lemma raises_arange (start stop step : Z) (e : exn) :
  result (arange_datetime start stop step) = Raise e ->
  e = ValueError MsgArangeNaT \/ e = ValueError MsgArangeZeroStep \/
  e = ValueError MsgNegativeDimensions.
Proof.
  unfold arange_datetime.
  destruct (_ || _); [intro H; injection H as <-; auto|].
  destruct (step =? 0)%Z; [intro H; injection H as <-; auto|].
  destruct (_ <? 0)%Z; [intro H; injection H as <-; auto|discriminate].
Qed.

Lemma raises_make_bins (x : array) (e : exn) :
  elems x <> [] -> result (make_bins x) = Raise e ->
  e = ValueError MsgArangeNaT \/ e = ValueError MsgArangeZeroStep \/
  e = ValueError MsgNegativeDimensions \/ e = AssertionError MsgBinsLonger.
Proof.
  intros Hne H. unfold make_bins in H.
  destruct (elems x) as [|a r] eqn:E; [congruence|].
  apply raises_bind in H. destruct H as [H|(bins & _ & H)].
  - destruct (is_datetime x); cbn [item_first item_last] in H;
      rewrite !bind_ret_l in H; [|discriminate].
    apply raises_arange in H. tauto.
  - apply raises_bind in H. destruct H as [H|(u & _ & H)]; [|discriminate].
    destruct (_ =? _); [discriminate|].
    right. right. right. injection H as <-. reflexivity.
Qed.

Lemma raises_colocate_rest (da xdr : DataArray) (verbose : bool) (coords : query)
    (len : nat) (e : exn) :
  result (colocate_rest da xdr verbose coords len) = Raise e -> colocate_failure e.
Proof.
  unfold colocate_rest.
  destruct (da_size xdr >? max_size)%Z; [intro H; injection H as <-; exact I|].
  destruct (da_size xdr =? 0)%Z eqn:E0.
  { rewrite result_vprint_bind. discriminate. }
  rewrite result_vprint_bind, result_emit_bind, result_vprint_bind.
  intro H. apply raises_bind in H. destruct H as [H|(bins & _ & H)].
  - apply raises_mapM in H. destruct H as (kx & Hin & H).
    apply raises_tagged in H. apply raises_make_bins in H.
    + destruct H as [->|[->|[->| ->]]]; exact I.
    + apply (size_pos_axes xdr); [|exact Hin].
      intro Hz. rewrite Hz in E0. discriminate.
  - apply raises_bind in H. destruct H as [H|(binned & _ & H)].
    + apply raises_mapM in H. destruct H as (k & _ & H).
      apply raises_tagged in H. rewrite cut_eq in H. unfold cut_check in H.
      destruct (existsb _ _); [injection H as <-; exact I|].
      destruct (_ && _); [injection H as <-; exact I|discriminate].
    + rewrite result_vprint_bind in H. unfold setitem_mask_nan in H.
      destruct (_ =? _); [discriminate|]. injection H as <-. exact I.
Qed.

Lemma raises_slice_locs (idx : list val) (lo hi : val) (e : exn) :
  result (slice_locs idx lo hi) = Raise e -> e = KeyError MsgIndexNotMonotonic.
Proof.
  unfold slice_locs, searchsorted_monotonic.
  destruct (is_monotonic_increasing idx); [rewrite !bind_ret_l; discriminate|].
  destruct (is_monotonic_decreasing idx); [rewrite !bind_ret_l; discriminate|].
  intro H. injection H as <-. reflexivity.
Qed.

Lemma raises_colocate (da : DataArray) (verbose : bool) (coords : query) (e : exn) :
  result (colocate_dataarray da verbose coords) = Raise e -> colocate_failure e.
Proof.
  destruct (colocate_checks da verbose coords) as [H|[H|[H|(len & Hv)]]];
    try (rewrite H; intro H'; injection H' as <-; exact I).
  rewrite (colocate_valid da verbose coords len Hv), result_vprint_bind.
  intro H. apply raises_bind in H. destruct H as [H|(ranges & _ & H)].
  - apply raises_mapM in H. destruct H as (k & _ & H).
    destruct (elems (coord coords k)) as [|a r]; [injection H as <-; exact I|].
    cbn [nanmin nanmax] in H. rewrite !bind_ret_l in H. discriminate.
  - apply raises_bind in H. destruct H as [H|(xdr & _ & H)].
    + unfold sel in H. apply raises_tagged in H.
      apply raises_mapM in H. destruct H as ([k x] & _ & H).
      unfold sel_axis in H. destruct (assoc k ranges) as [[lo hi]|]; [|discriminate].
      apply raises_bind in H. destruct H as [H|([start stop] & _ & H)]; [|discriminate].
      apply raises_slice_locs in H. subst e. exact I.
    + apply (raises_colocate_rest _ _ _ _ _ _ H).
Qed.

(** X2.  The guards of [colocate_dataarray].  A call without any
    coordinate fails the equal-length assertion; the assertion "You need to
    have at least one coordinate to match" that follows it never fails on
    any input; and [x[0]] in [make_bins] never meets an empty coordinate. *)
Theorem colocate_guards (da : DataArray) (verbose : bool) (coords : query) :
  colocate_dataarray da verbose [] = ([], Raise (AssertionError MsgSameLength)) /\
  result (colocate_dataarray da verbose coords) <> Raise (AssertionError MsgAtLeastOne) /\
  result (colocate_dataarray da verbose coords) <> Raise (IndexError MsgIndexOutOfBounds).
Proof.
  split; [reflexivity|].
  split; intro H; apply raises_colocate in H; exact H.
Qed.

Lemma kind_eqb_eq (a b : kind) : kind_eqb a b = true <-> a = b.
Proof. destruct a, b; simpl; split; intro H; congruence. Qed.

(** X3.  A query array whose dtype kind differs from that of the coordinate
    it names (integers against a float coordinate, say) is rejected: when
    the arrays have one length and every name is a dimension, the call
    fails the fourth assertion before anything is printed or loaded, and
    the error lists exactly the query names whose kinds differ. *)
Theorem kind_mismatch_fails
    (da : DataArray) (verbose : bool) (coords : query) (len : nat) (bad : string) :
  same_length coords len ->
  not_matched_of da coords = [] ->
  In bad (keys_of coords) ->
  dtype_kind (coord coords bad) <> dtype_kind (da_coord da bad) ->
  colocate_dataarray da verbose coords
    = ([], Raise (AssertionError (MsgTypeMismatch (type_missmatch_of da coords)))) /\
  forall k, In k (type_missmatch_of da coords) <->
            In k (keys_of coords) /\
            dtype_kind (coord coords k) <> dtype_kind (da_coord da k).
Proof.
  intros Hlen Hm Hin Hbad.
  assert (Hspec : forall k, In k (type_missmatch_of da coords) <->
            In k (keys_of coords) /\
            dtype_kind (coord coords k) <> dtype_kind (da_coord da k)).
  { intro k. unfold type_missmatch_of. rewrite filter_In, negb_true_iff.
    pose proof (kind_eqb_eq (dtype_kind (coord coords k)) (dtype_kind (da_coord da k))) as E.
    destruct (kind_eqb _ _); intuition congruence. }
  split; [|exact Hspec].
  assert (Hne : coords <> []) by (intros ->; exact Hin).
  assert (Htm : In bad (type_missmatch_of da coords)) by (apply Hspec; auto).
  unfold colocate_dataarray.
  rewrite (coord_lengths_same coords len Hne Hlen).
  fold (keys_of coords). fold (not_matched_of da coords).
  fold (type_missmatch_of da coords). rewrite Hm.
  assert (Hkeys : (0 <? length (keys_of coords)) = true).
  { destruct coords; [congruence|]. reflexivity. }
  rewrite Hkeys. cbn [length Nat.eqb assert]. rewrite !bind_ret_l.
  destruct (type_missmatch_of da coords) as [|x r]; [destruct Htm|].
  reflexivity.
Qed.

(** The theorem on the scenario's target, queried with integers. *)
Lemma kind_mismatch_witness :
  colocate_dataarray lat3 true [("lat", mkarray Ki [Num 0; Num 1])]
    = ([], Raise (AssertionError (MsgTypeMismatch
             (type_missmatch_of lat3 [("lat", mkarray Ki [Num 0; Num 1])])))) /\
  forall k, In k (type_missmatch_of lat3 [("lat", mkarray Ki [Num 0; Num 1])]) <->
            In k (keys_of [("lat", mkarray Ki [Num 0; Num 1])]) /\
            dtype_kind (coord [("lat", mkarray Ki [Num 0; Num 1])] k)
              <> dtype_kind (da_coord lat3 k).
Proof.
  apply (kind_mismatch_fails lat3 true [("lat", mkarray Ki [Num 0; Num 1])] 2 "lat").
  - intros k [<-|[]]. reflexivity.
  - reflexivity.
  - left. reflexivity.
  - simpl. discriminate.
Defined.

(** X4.  A valid query without rows (arrays of length zero) fails: once
    the name of the target is printed, [np.nanmin] raises on the first
    empty array.  Nothing is restricted or loaded. *)
Theorem no_rows_fails (da : DataArray) (verbose : bool) (coords : query) :
  valid_query da coords 0 ->
  colocate_dataarray da verbose coords
    = ((if verbose then [Print (da_name da ++ ":")%string] else []),
       Raise (ValueError MsgZeroSizeReduction)).
Proof.
  intro Hv. rewrite (colocate_valid da verbose coords 0 Hv).
  destruct Hv as [Hne Hlen _ _].
  destruct coords as [|[k x] r]; [congruence|].
  assert (Hk : elems (coord ((k, x) :: r) k) = []).
  { specialize (Hlen k (or_introl eq_refl)). unfold size in Hlen.
    destruct (elems _); [reflexivity|discriminate]. }
  unfold query_ranges. cbn [keys_of map fst mapM]. rewrite Hk.
  destruct verbose; reflexivity.
Qed.

(** The theorem on the scenario's target and an empty list of latitudes. *)
Lemma no_rows_witness :
  colocate_dataarray lat3 true [("lat", mkarray Kf [])]
    = ([Print "sst:"], Raise (ValueError MsgZeroSizeReduction)).
Proof.
  apply (no_rows_fails lat3 true [("lat", mkarray Kf [])]).
  constructor.
  - discriminate.
  - intros k [<-|[]]. reflexivity.
  - reflexivity.
  - reflexivity.
Defined.

(** ** The edges and the positions they give *)

Lemma make_bins_length (x : array) (bins : list val) :
  result (make_bins x) = Return bins -> length bins = size x + 1.
Proof.
  unfold make_bins. rewrite result_bind.
  destruct (result _) as [e|b]; [discriminate|].
  rewrite result_bind.
  destruct (size x + 1 =? length b) eqn:E; [|discriminate].
  cbn [assert ret result snd]. intro H. injection H as <-.
  apply Nat.eqb_eq in E. symmetry. exact E.
Qed.

Lemma gridded_bins_length (est : list val -> val) (x : array) (bins : list val) :
  result (_make_bins_from_gridded_coord est x) = Return bins ->
  length bins = size x + 1.
Proof.
  unfold _make_bins_from_gridded_coord. rewrite result_bind.
  destruct (result _) as [e|b]; [discriminate|].
  rewrite result_bind.
  destruct (size x + 1 =? length b) eqn:E; [|discriminate].
  cbn [assert ret result snd]. intro H. injection H as <-.
  apply Nat.eqb_eq in E. symmetry. exact E.
Qed.

(** X5.  The edges either constructor returns are one more than the
    centers, so every bin code [pd.cut] gives with them is a position of
    the coordinate: the indexing that follows in [colocate_dataarray] never
    reads outside the restricted array, and the labels given to [pd.cut] in
    [grid_flat_dataframe_to_target] are as many as the bins. *)
Theorem bin_codes_in_bounds
    (est : list val -> val) (x : array) (bins : list val) :
  result (make_bins x) = Return bins \/
  result (_make_bins_from_gridded_coord est x) = Return bins ->
  length bins = size x + 1 /\
  forall v c, cut1 bins v = Some c -> c < size x.
Proof.
  intro H.
  assert (Hlen : length bins = size x + 1).
  { destruct H as [H|H]; [apply make_bins_length|apply (gridded_bins_length est)];
      exact H. }
  split; [exact Hlen|].
  intros v c. unfold cut1.
  destruct (isnan v || _ || _) eqn:E; [discriminate|].
  apply orb_false_iff in E. destruct E as [E E0].
  apply orb_false_iff in E. destruct E as [_ El].
  apply Nat.eqb_neq in E0, El.
  intro Hc. injection Hc as <-.
  assert (searchsorted_left bins v <= length bins)
    by (unfold searchsorted_left; apply count_le_length).
  lia.
Qed.

(** The theorem on the three latitudes of the scenario. *)
Lemma bin_codes_witness :
  length [Num (-288 # 192); Num (-96 # 192); Num (96 # 192); Num (6 # 4)]
    = size (mkarray Kf [Num (-1); Num 0; Num 1]) + 1 /\
  forall v c,
    cut1 [Num (-288 # 192); Num (-96 # 192); Num (96 # 192); Num (6 # 4)] v = Some c ->
    c < size (mkarray Kf [Num (-1); Num 0; Num 1]).
Proof.
  apply (bin_codes_in_bounds (fun _ => NaN) (mkarray Kf [Num (-1); Num 0; Num 1])).
  left. vm_compute. reflexivity.
Defined.

(** ** A coordinate in decreasing order *)

Lemma decreasing_monotonic (qs : list Q) :
  decreasing qs -> is_monotonic_decreasing (map Num qs) = true.
Proof.
  unfold is_monotonic_decreasing.
  induction qs as [|a r IH]; [reflexivity|].
  destruct r as [|b r']; [reflexivity|].
  intros [Hab Hr]. specialize (IH Hr). cbn [map] in IH |- *.
  change (vleb (Num b) (Num a)
          && pairwise (fun a b => vleb b a) (Num b :: map Num r') = true).
  rewrite IH, andb_true_r.
  apply Qle_bool_iff. apply Qlt_le_weak. exact Hab.
Qed.

Lemma decreasing_not_increasing (qs : list Q) :
  decreasing qs -> 2 <= length qs -> is_monotonic_increasing (map Num qs) = false.
Proof.
  destruct qs as [|a [|b r]]; simpl; intros H Hl; try lia.
  destruct H as [Hab _]. unfold is_monotonic_increasing. cbn [pairwise vleb].
  destruct (Qle_bool a b) eqn:E; [|reflexivity].
  apply Qle_bool_iff in E. exfalso. apply (Qlt_not_le _ _ Hab E).
Qed.

Lemma filter_length_le {A} (p q : A -> bool) (l : list A) :
  (forall x, p x = true -> q x = true) ->
  length (filter p l) <= length (filter q l).
Proof.
  intro H. induction l as [|a r IH]; [apply le_n|].
  cbn [filter]. destruct (p a) eqn:E.
  - rewrite (H a E). cbn [length]. lia.
  - destruct (q a); cbn [length]; lia.
Qed.

(** On a strictly decreasing index the label slice [lo:hi] with [lo < hi]
    selects nothing. *)
Lemma slice_locs_decreasing (qs : list Q) (lo hi : Q) :
  decreasing qs -> 2 <= length qs -> (lo < hi)%Q ->
  exists start stop,
    slice_locs (map Num qs) (Num lo) (Num hi) = ret (start, stop) /\ stop <= start.
Proof.
  intros Hd Hl Hlt. unfold slice_locs, searchsorted_monotonic.
  rewrite (decreasing_not_increasing qs Hd Hl), (decreasing_monotonic qs Hd).
  rewrite !bind_ret_l. eexists. eexists. split; [reflexivity|].
  assert (searchsorted_right (rev (map Num qs)) (Num lo)
          <= searchsorted_left (rev (map Num qs)) (Num hi)); [|lia].
  unfold searchsorted_right, searchsorted_left. apply filter_length_le.
  intros [|x]; unfold sort_leb; cbn [sort_ltb negb]; [discriminate|].
  intro H. apply negb_true_iff in H. apply Qltb_ge in H.
  apply Qltb_lt. apply (Qle_lt_trans _ lo); assumption.
Qed.

Lemma sel_axis_monotonic (ranges : list (string * (val * val))) (kx : string * array) :
  monotonic_axis (snd kx) ->
  exists x start, sel_axis ranges kx = ret (fst kx, x, start).
Proof.
  destruct kx as [k x]. cbn [fst snd]. intro Hm. unfold sel_axis.
  destruct (assoc k ranges) as [[lo hi]|]; [|eexists; eexists; reflexivity].
  unfold slice_locs, searchsorted_monotonic.
  destruct (is_monotonic_increasing (elems x)) eqn:Ei.
  - rewrite !bind_ret_l. eexists. eexists. reflexivity.
  - destruct Hm as [Hm|Hm]; [congruence|]. rewrite Hm.
    rewrite !bind_ret_l. eexists. eexists. reflexivity.
Qed.

Lemma mapM_returns {A B} (f : A -> M B) (l : list A) :
  (forall a, In a l -> exists b, f a = ret b) ->
  exists bs, mapM f l = ret bs /\ Forall2 (fun a b => f a = ret b) l bs.
Proof.
  induction l as [|a r IH]; intro H.
  - exists []. split; [reflexivity|constructor].
  - destruct (H a (or_introl eq_refl)) as (b & Hb).
    destruct IH as (bs & Hbs & Hall); [intros x Hx; apply H; right; exact Hx|].
    exists (b :: bs). split.
    + cbn [mapM]. rewrite Hb, bind_ret_l, Hbs, bind_ret_l. reflexivity.
    + constructor; assumption.
Qed.

Lemma fold_size_zero (sh : list nat) :
  In 0 sh -> fold_right (fun n acc => (Z.of_nat n * acc)%Z) 1%Z sh = 0%Z.
Proof.
  induction sh as [|n r IH]; intros []; cbn [fold_right].
  - subst n. reflexivity.
  - rewrite IH by assumption. lia.
Qed.

Lemma assoc_ranges_of (coords : query) (k : string) :
  In k (keys_of coords) ->
  assoc k (ranges_of coords) = Some (range_of (elems (coord coords k))).
Proof.
  intro Hk. unfold ranges_of.
  apply (assoc_map_key (fun k => range_of (elems (coord coords k))) k _ Hk).
Qed.

(** X6.  A coordinate stored in decreasing order (latitudes from north to
    south) is restricted with the slice [min:max] of the query, which
    selects nothing of it as soon as the query spans two different values:
    the call prints that no data is within the ranges and returns NaN for
    every row, also for the rows that sit on grid centers. *)
Theorem descending_coordinate_gives_nan
    (da : DataArray) (verbose : bool) (coords : query) (len : nat)
    (k : string) (kd : kind) (qs : list Q) (lo hi : Q) :
  valid_query da coords len ->
  (forall kx, In kx (da_axes da) -> monotonic_axis (snd kx)) ->
  In (k, mkarray kd (map Num qs)) (da_axes da) ->
  decreasing qs -> 2 <= length qs ->
  In k (keys_of coords) ->
  range_of (elems (coord coords k)) = (Num lo, Num hi) -> (lo < hi)%Q ->
  exists out,
    colocate_dataarray da verbose coords
      = ((if verbose
          then [Print (da_name da ++ ":")%string;
                Print "no data within coordinate ranges - returning nans"]
          else []),
         Return out) /\
    all_nan out len.
Proof.
  intros Hv Hmono Hin Hd Hl Hk Hrange Hlt.
  assert (Hpos : 1 <= len).
  { pose proof (vq_length _ _ _ Hv k Hk) as Hs. unfold size in Hs.
    destruct (elems (coord coords k)); [discriminate Hrange|].
    simpl in Hs. lia. }
  rewrite (colocate_valid da verbose coords len Hv).
  rewrite (query_ranges_ok coords len (vq_length _ _ _ Hv) Hpos), bind_ret_l.
  destruct (mapM_returns (sel_axis (ranges_of coords)) (da_axes da))
    as (axs & Haxs & Hall).
  { intros kx Hkx. destruct (sel_axis_monotonic (ranges_of coords) kx (Hmono kx Hkx))
      as (x & start & E). eexists. exact E. }
  unfold sel. rewrite Haxs, !bind_ret_l.
  assert (Hzero : In 0 (map (fun kx => size (snd kx)) (map fst axs))).
  { clear Haxs Hmono. induction Hall as [|kx b r bs Hb Hr IH]; [destruct Hin|].
    destruct Hin as [->|Hin].
    - left. unfold sel_axis in Hb. rewrite (assoc_ranges_of coords k Hk), Hrange in Hb.
      cbn [elems] in Hb.
      destruct (slice_locs_decreasing qs lo hi Hd Hl Hlt) as (start & stop & E & Hle).
      rewrite E, bind_ret_l in Hb. injection Hb as <-.
      cbn [fst snd size elems]. unfold py_slice.
      replace (stop - start) with 0 by lia. reflexivity.
    - right. apply IH. exact Hin. }
  unfold colocate_rest, da_size, da_shape. cbn [da_axes].
  rewrite (fold_size_zero _ Hzero). cbn [Z.gtb Z.compare Z.eqb].
  eexists. split.
  - destruct verbose; reflexivity.
  - split; reflexivity.
Qed.

(** The theorem on three latitudes from north to south, queried at the
    centers -1 and 1. *)
Lemma descending_witness :
  exists out,
    colocate_dataarray north_south true [("lat", mkarray Kf [Num (-1); Num 1])]
      = ([Print "sst:"; Print "no data within coordinate ranges - returning nans"],
         Return out) /\
    all_nan out 2.
Proof.
  apply (descending_coordinate_gives_nan north_south true
           [("lat", mkarray Kf [Num (-1); Num 1])] 2 "lat" Kf [1; 0; -1]%Q (-1) 1).
  - constructor.
    + discriminate.
    + intros k [<-|[]]. reflexivity.
    + reflexivity.
    + reflexivity.
  - intros kx [<-|[]]. right. reflexivity.
  - left. reflexivity.
  - simpl. repeat split.
  - simpl. lia.
  - left. reflexivity.
  - reflexivity.
  - reflexivity.
Defined.

(** ** Datetime centers that are not evenly spaced *)

(** The number of values [np.arange] returns when the ends are [n] steps
    and [t] nanoseconds apart. *)
Lemma arange_len (n dx t : Z) :
  (1 <= dx)%Z ->
  let len := ((n * dx + t + dx - 1) / dx)%Z in
  (((1 <=? t) && (t <=? dx))%Z = true -> len = (n + 1)%Z) /\
  (((1 <=? t) && (t <=? dx))%Z = false -> len <> (n + 1)%Z).
Proof.
  intros Hdx len.
  assert (E : len = (n + 1 + (t - 1) / dx)%Z).
  { unfold len.
    replace (n * dx + t + dx - 1)%Z with ((t - 1) + (n + 1) * dx)%Z by ring.
    rewrite Z.div_add by lia. lia. }
  split; intro H.
  - apply andb_true_iff in H. destruct H as [H1 H2].
    apply Z.leb_le in H1, H2.
    rewrite E, Z.div_small by lia. lia.
  - apply andb_false_iff in H. destruct H as [H|H]; apply Z.leb_gt in H.
    + assert ((t - 1) / dx < 0)%Z by (apply Z.div_lt_upper_bound; lia). lia.
    + assert (1 <= (t - 1) / dx)%Z by (apply Z.div_le_lower_bound; lia). lia.
Qed.

Lemma stored_datetimes (zs : list Z) :
  Forall in_int64 zs -> map stored (map (fun z => Num (inject_Z z)) zs) = zs.
Proof.
  induction 1 as [|z r [Hlo Hhi] _ IH]; [reflexivity|].
  cbn [map]. rewrite IH. f_equal.
  apply stored_inject; [reflexivity|lia].
Qed.

Lemma last_in_int64 (z0 : Z) (r : list Z) :
  Forall in_int64 (z0 :: r) -> in_int64 (List.last r z0).
Proof.
  intro H. apply (proj1 (Forall_forall _ _) H).
  destruct r as [|b r']; [left; reflexivity|].
  right. apply last_In. discriminate.
Qed.

(** What [np.arange] and the assertion make of the ends and the step. *)
Lemma datetime_arange (z0 : Z) (r : list Z) (n : nat) :
  n = S (length r) ->
  Forall in_int64 (z0 :: r) ->
  (1 <= datetime_step (z0 :: r))%Z ->
  arange_fits z0 (List.last r z0) (datetime_step (z0 :: r)) ->
  bind (arange_datetime
          (dt_sub z0 (timedelta_div (datetime_step (z0 :: r)) 2))
          (dt_add (List.last r z0) (datetime_step (z0 :: r)))
          (datetime_step (z0 :: r)))
       (fun bins => bind (assert (n + 1 =? length bins) MsgBinsLonger)
                         (fun _ => ret bins))
  = if edges_fit z0 r
    then ret (datetime_edges z0 (datetime_step (z0 :: r)) (S (length r)))
    else raise (AssertionError MsgBinsLonger).
Proof.
  intros -> Hin Hdx (Hlo & Hhi & Hnum).
  pose proof (last_in_int64 z0 r Hin) as [Hl1 Hl2].
  inversion Hin as [|? ? [H01 H02] _]; subst.
  unfold edges_fit, datetime_rest.
  set (dx := datetime_step (z0 :: r)) in *.
  set (zl := List.last r z0) in *.
  assert (Hh : (0 <= Z.quot dx 2 <= dx)%Z).
  { rewrite Z.quot_div_nonneg by lia. split.
    - apply Z.div_pos; lia.
    - apply Z.div_le_upper_bound; lia. }
  set (h := Z.quot dx 2) in *.
  rewrite pow_2_63 in *.
  assert (Hdiv : timedelta_div dx 2 = h).
  { unfold timedelta_div. rewrite NaT_eqb by (rewrite pow_2_63; lia). reflexivity. }
  rewrite Hdiv.
  assert (Hstart : dt_sub z0 h = (z0 - h)%Z).
  { destruct (Z.eq_dec h 0) as [->|Hh0].
    - unfold dt_sub. rewrite (NaT_eqb z0) by (rewrite pow_2_63; lia).
      cbn [NaT Z.eqb orb]. apply wrap64_id. rewrite pow_2_63. lia.
    - apply dt_sub_id; rewrite pow_2_63; lia. }
  rewrite Hstart, dt_add_id by (rewrite pow_2_63; lia).
  unfold arange_datetime.
  rewrite !NaT_eqb by (rewrite pow_2_63; lia). cbn [orb].
  replace (dx =? 0)%Z with false by (symmetry; apply Z.eqb_neq; lia).
  replace (0 <? dx)%Z with true by (symmetry; apply Z.ltb_lt; lia).
  cbn [andb].
  set (t := (zl - z0 - Z.of_nat (length r) * dx + h)%Z).
  destruct (arange_len (Z.of_nat (S (length r))) dx t Hdx) as [Hyes Hno].
  destruct (z0 - h <? zl + dx)%Z eqn:Elt.
  - apply Z.ltb_lt in Elt.
    replace (zl + dx - (z0 - h) + (dx - 1))%Z
      with (Z.of_nat (S (length r)) * dx + t + dx - 1)%Z
      by (unfold t; rewrite Nat2Z.inj_succ; ring).
    assert (Hn0 : (0 <= Z.of_nat (S (length r)) * dx + t + dx - 1 < 9223372036854775808)%Z).
    { unfold t. rewrite Nat2Z.inj_succ. lia. }
    rewrite wrap64_id by (rewrite pow_2_63; lia).
    rewrite Z.quot_div_nonneg by lia.
    destruct ((1 <=? t) && (t <=? dx))%Z eqn:Efit.
    + rewrite (Hyes eq_refl).
      replace (Z.of_nat (S (length r)) + 1 <? 0)%Z with false
        by (symmetry; apply Z.ltb_ge; lia).
      replace (Z.to_nat (Z.of_nat (S (length r)) + 1)) with (S (S (length r))) by lia.
      rewrite bind_ret_l, length_map, length_seq.
      replace (S (length r) + 1) with (S (S (length r))) by lia.
      rewrite Nat.eqb_refl. cbn [assert]. rewrite bind_ret_l.
      unfold datetime_edges, ret. do 2 f_equal.
      apply map_ext_in. intros i Hi. apply in_seq in Hi.
      apply andb_true_iff in Efit. destruct Efit as [E1 E2].
      apply Z.leb_le in E1, E2. unfold t in E1, E2.
      assert (Hi' : (- 9223372036854775808 < z0 - h + Z.of_nat i * dx
                     < 9223372036854775808)%Z) by nia.
      rewrite wrap64_id by (rewrite pow_2_63; lia).
      apply of_stored_id. rewrite pow_2_63. lia.
    + specialize (Hno eq_refl).
      assert (Hpos : (0 <= (Z.of_nat (S (length r)) * dx + t + dx - 1) / dx)%Z)
        by (apply Z.div_pos; lia).
      replace (_ <? 0)%Z with false by (symmetry; apply Z.ltb_ge; exact Hpos).
      rewrite bind_ret_l, length_map, length_seq.
      destruct (S (length r) + 1 =? Z.to_nat _) eqn:E; [|reflexivity].
      apply Nat.eqb_eq in E. lia.
  - apply Z.ltb_ge in Elt.
    replace (dx <? 0)%Z with false by (symmetry; apply Z.ltb_ge; lia).
    cbn [andb Z.ltb Z.compare Z.to_nat seq map].
    rewrite bind_ret_l. cbn [length].
    replace (S (length r) + 1 =? 0) with false
      by (symmetry; apply Nat.eqb_neq; lia).
    replace ((1 <=? t) && (t <=? dx))%Z with false; [reflexivity|].
    symmetry. apply andb_false_iff. left. apply Z.leb_gt. unfold t. nia.
Qed.

(** X7.  Datetime centers, evenly spaced or not.  Both bin constructors
    take one step for all edges, [dx]: the mean of the differences, which
    numpy takes in float64, truncated to whole nanoseconds (for the first
    days of the twelve months of a common year the mean 2623418181818181.8
    is rounded to the float64 above it, and [dx] is 2623418181818182).
    For N >= 2 centers from [z0] whose [dx] is at least one nanosecond
    and whose ends stay within the int64, they return the N+1 edges
    [z0 - dx/2 + i * dx] when what the centers span beyond N-1 steps, plus
    half a step, lies between one nanosecond and a whole step, and fail
    the assertion "bins must be one longer than centers" otherwise. *)
Theorem datetime_bins_any_spacing
    (estimate_grid_spacing : list val -> val) (z0 : Z) (r : list Z) :
  r <> [] ->
  Forall in_int64 (z0 :: r) ->
  (1 <= datetime_step (z0 :: r))%Z ->
  arange_fits z0 (List.last r z0) (datetime_step (z0 :: r)) ->
  make_bins (datetimes (z0 :: r))
    = (if edges_fit z0 r
       then ret (datetime_edges z0 (datetime_step (z0 :: r)) (S (length r)))
       else raise (AssertionError MsgBinsLonger)) /\
  _make_bins_from_gridded_coord estimate_grid_spacing (datetimes (z0 :: r))
    = (if edges_fit z0 r
       then ret (datetime_edges z0 (datetime_step (z0 :: r)) (S (length r)))
       else raise (AssertionError MsgBinsLonger)).
Proof.
  intros Hr Hin Hdx Hfit.
  pose proof (last_in_int64 z0 r Hin) as [Hl1 Hl2].
  assert (E0 : stored (Num (inject_Z z0)) = z0).
  { inversion Hin as [|? ? [H01 H02] _]; subst.
    apply stored_inject; [reflexivity|lia]. }
  assert (El : stored (Num (inject_Z (List.last r z0))) = List.last r z0)
    by (apply stored_inject; [reflexivity|lia]).
  split.
  - unfold make_bins, is_datetime, datetimes, size. cbn [dtype_kind elems kind_eqb].
    rewrite (stored_datetimes (z0 :: r) Hin). fold (datetime_step (z0 :: r)).
    cbn [map item_first item_last].
    rewrite (last_map (fun z => Num (inject_Z z))). rewrite !bind_ret_l.
    rewrite E0, El.
    apply (datetime_arange z0 r _ (f_equal S (length_map _ r)) Hin Hdx Hfit).
  - unfold _make_bins_from_gridded_coord, is_datetime, datetimes, size.
    cbn [dtype_kind elems kind_eqb].
    rewrite (stored_datetimes (z0 :: r) Hin). fold (datetime_step (z0 :: r)).
    cbn [map item_first item_last].
    rewrite (last_map (fun z => Num (inject_Z z))). rewrite !bind_ret_l.
    rewrite E0, El.
    apply (datetime_arange z0 r _ (f_equal S (length_map _ r)) Hin Hdx Hfit).
Qed.

(** The theorem on the first days of the months of 1970, whose step is
    2623418181818182 ns, and on five centers 3, 4, 4 and 4 ns apart. *)
Lemma datetime_bins_witness :
  datetime_step month_starts = 2623418181818182%Z /\
  make_bins (datetimes month_starts)
    = ret (datetime_edges 0 2623418181818182 12) /\
  make_bins (datetimes [0; 3; 7; 11; 15]%Z) = raise (AssertionError MsgBinsLonger).
Proof.
  split; [vm_compute; reflexivity|]. split.
  - apply (datetime_bins_any_spacing (fun _ => NaN) 0 (tl month_starts)).
    + discriminate.
    + apply Forall_forall. intros z Hz. unfold in_int64. rewrite pow_2_63.
      vm_compute in Hz. intuition (subst; lia).
    + vm_compute. discriminate.
    + unfold arange_fits. rewrite pow_2_63. vm_compute. intuition discriminate.
  - apply (datetime_bins_any_spacing (fun _ => NaN) 0 [3; 7; 11; 15]%Z).
    + discriminate.
    + apply Forall_forall. intros z Hz. unfold in_int64. rewrite pow_2_63.
      vm_compute in Hz. intuition (subst; lia).
    + vm_compute. discriminate.
    + unfold arange_fits. rewrite pow_2_63. vm_compute. intuition discriminate.
Defined.

(** ** Queries on the trailing dimensions *)

Lemma drop_while_slices (nb : nat) (ixs : list (list nat)) :
  drop_while is_slice (repeat IdxSlice nb ++ map IdxArray ixs) = map IdxArray ixs.
Proof.
  induction nb as [|nb IH]; [|exact IH].
  destruct ixs; reflexivity.
Qed.

Lemma drop_while_arrays (ixs : list (list nat)) :
  drop_while (fun i => negb (is_slice i)) (map IdxArray ixs) = [].
Proof. induction ixs as [|ix r IH]; [reflexivity|exact IH]. Qed.

Lemma sliced_shape_slices (nb : nat) (ixs : list (list nat)) (sh : list nat) :
  nb <= length sh ->
  sliced_shape (repeat IdxSlice nb ++ map IdxArray ixs) sh = firstn nb sh.
Proof.
  revert sh. induction nb as [|nb IH]; intros sh Hl.
  - cbn [repeat app firstn]. apply sliced_shape_arrays.
  - destruct sh as [|n ns]; [simpl in Hl; lia|].
    cbn [repeat app sliced_shape firstn]. rewrite IH by (simpl in Hl; lia).
    reflexivity.
Qed.

Lemma fill_slices (nb : nat) (ixs : list (list nat)) (j : nat) (s : list nat) :
  length s = nb ->
  fill (repeat IdxSlice nb ++ map IdxArray ixs) j s
    = s ++ map (fun ix => nth j ix 0) ixs.
Proof.
  revert s. induction nb as [|nb IH]; intros s Hl.
  - destruct s; [|discriminate]. cbn [repeat app]. apply fill_arrays.
  - destruct s as [|h t]; [discriminate|].
    cbn [repeat app fill]. rewrite IH by (simpl in Hl; lia). reflexivity.
Qed.

(** [a[:, ..., :, ix1, ..., ixm]]: the dimension of the integer arrays
    comes last. *)
Lemma getitem_trailing (a : ndarray) (nb : nat) (ixs : list (list nat)) (len : nat) :
  nb <= length (nd_shape a) ->
  nd_shape (getitem a (repeat IdxSlice nb ++ map IdxArray ixs) len)
    = firstn nb (nd_shape a) ++ [len] /\
  forall s j, length s = nb ->
    nd_get (getitem a (repeat IdxSlice nb ++ map IdxArray ixs) len) (s ++ [j])
    = nd_get a (s ++ map (fun ix => nth j ix 0) ixs).
Proof.
  intro Hl. unfold getitem, adjacent, count_leading_slices.
  rewrite drop_while_slices, drop_while_arrays. cbn [forallb].
  rewrite sliced_shape_slices by exact Hl.
  assert (Hnb : length (repeat IdxSlice nb ++ map IdxArray ixs)
                - length (map IdxArray ixs) = nb).
  { rewrite length_app, repeat_length. lia. }
  rewrite Hnb. cbn [nd_shape nd_get].
  assert (Hf : length (firstn nb (nd_shape a)) = nb)
    by (rewrite length_firstn; lia).
  split.
  - rewrite firstn_all2 by lia. rewrite skipn_all2 by lia. reflexivity.
  - intros s j Hs.
    rewrite app_nth2 by lia. rewrite Hs, Nat.sub_diag. cbn [nth].
    rewrite firstn_app, Hs, Nat.sub_diag, firstn_all2 by lia.
    cbn [firstn]. rewrite app_nil_r.
    rewrite skipn_all2 by (rewrite length_app; simpl; lia).
    rewrite app_nil_r. f_equal. apply fill_slices. exact Hs.
Qed.

Lemma assoc_not_in {A} (k : string) (l : list (string * A)) :
  ~ In k (map fst l) -> assoc k l = None.
Proof.
  induction l as [|[k' a] r IH]; intro H; [reflexivity|].
  cbn [assoc]. destruct (String.eqb k k') eqn:E.
  - apply String.eqb_eq in E. subst. exfalso. apply H. left. reflexivity.
  - apply IH. intro Hin. apply H. right. exact Hin.
Qed.

(** The rest of [colocate_dataarray] for a query on the trailing
    dimensions [queried] of a sorted numeric target, the leading dimensions
    [free] being left out. *)
Lemma colocate_rest_trailing
    (da xdr : DataArray) (verbose : bool) (coords : query) (len : nat)
    (free queried : list string) :
  numeric_sorted xdr ->
  da_dims xdr = da_dims da ->
  da_dims da = free ++ queried ->
  (forall d, In d free -> ~ In d (keys_of coords)) ->
  (forall d, In d queried -> In d (keys_of coords)) ->
  (forall k, In k (keys_of coords) -> In k (da_dims da)) ->
  same_length coords len ->
  (0 < da_size xdr <= max_size)%Z ->
  exists out,
    result (colocate_rest da xdr verbose coords len) = Return out /\
    nd_shape out = len :: rev (firstn (length free) (da_shape xdr)) /\
    forall j t, j < len -> length t = length free ->
      nd_get out (j :: t)
      = if row_null xdr coords j then NaN
        else da_values xdr (rev t ++ row_cell_on xdr coords queried j).
Proof.
  intros Hs Hdims Hsplit Hfree Hq Hkeys Hlen Hsize.
  unfold colocate_rest.
  destruct (da_size xdr >? max_size)%Z eqn:E1; [apply Z.gtb_lt in E1; lia|].
  destruct (da_size xdr =? 0)%Z eqn:E2; [apply Z.eqb_eq in E2; lia|].
  rewrite result_vprint_bind, result_emit_bind, result_vprint_bind.
  rewrite (mapM_ret _ (fun kx => (fst kx, edges_of (elems (snd kx))))).
  2:{ intros kx Hin. destruct (edges_of_ok (snd kx)) as [Hmb _].
      - apply Hs, Hin.
      - apply (size_pos_axes xdr); [lia|exact Hin].
      - rewrite Hmb, bind_ret_l. reflexivity. }
  rewrite bind_ret_l.
  rewrite (mapM_ret _ (fun k => (k, map (cut1 (bins_for xdr k)) (elems (coord coords k))))).
  2:{ intros k Hk.
      rewrite (assoc_map_snd (fun kx => edges_of (elems (snd kx)))).
      destruct (assoc_In k (da_axes xdr)) as (x & Hx & Hin).
      { fold (da_dims xdr). rewrite Hdims. apply Hkeys, Hk. }
      rewrite Hx. cbn [snd].
      unfold bins_for, da_coord. rewrite Hx.
      destruct (edges_of_ok x) as [_ Hok].
      - apply (Hs (k, x)), Hin.
      - apply (size_pos_axes xdr ltac:(lia) (k, x)), Hin.
      - rewrite (cut_ok _ _ Hok), bind_ret_l. reflexivity. }
  rewrite bind_ret_l, result_vprint_bind.
  pose (h := fun k => map (cut1 (bins_for xdr k)) (elems (coord coords k))).
  pose (binned := map (fun k => (k, h k)) (keys_of coords)).
  change (map (fun k => (k, map (cut1 (bins_for xdr k)) (elems (coord coords k))))
              (keys_of coords)) with binned.
  assert (Hindex :
    map (fun key => match assoc key binned with
                    | Some col => IdxArray (fillna0 col)
                    | None => IdxSlice
                    end) (da_dims da)
    = repeat IdxSlice (length free)
      ++ map IdxArray (map (fun d => fillna0 (h d)) queried)).
  { rewrite Hsplit, map_app. f_equal.
    - clear Hsplit. induction free as [|d r IH]; [reflexivity|].
      cbn [map length repeat]. rewrite IH by (intros d' Hd'; apply Hfree; right; exact Hd').
      rewrite assoc_not_in; [reflexivity|].
      unfold binned. rewrite map_map. cbn [fst]. rewrite map_id.
      apply Hfree. left. reflexivity.
    - rewrite map_map. apply map_ext_in. intros d Hd.
      unfold binned. rewrite (assoc_map_key h d _ (Hq d Hd)). reflexivity. }
  rewrite Hindex.
  set (a := mkndarray (da_shape xdr) (da_values xdr)).
  set (ixs := map (fun d => fillna0 (h d)) queried).
  assert (Hnb : length free <= length (nd_shape a)).
  { unfold a, da_shape. cbn [nd_shape]. rewrite length_map.
    change (length (da_axes xdr)) with (length (da_axes xdr)).
    rewrite <- (length_map fst (da_axes xdr)). fold (da_dims xdr).
    rewrite Hdims, Hsplit, length_app. lia. }
  destruct (getitem_trailing a (length free) ixs len Hnb) as [Hshape Hget].
  unfold setitem_mask_nan. cbn [transpose nd_shape].
  rewrite Hshape, length_isnull_any, rev_app_distr. cbn [rev app hd].
  rewrite Nat.eqb_refl.
  eexists. split; [reflexivity|]. split; [reflexivity|].
  intros j t Hj Ht. cbn [nd_get hd].
  change (nd_get (transpose (getitem a (repeat IdxSlice (length free) ++ map IdxArray ixs) len))
                 (j :: t))
    with (nd_get (getitem a (repeat IdxSlice (length free) ++ map IdxArray ixs) len)
                 (rev t ++ [j])).
  rewrite (nth_isnull_any binned len j Hj).
  rewrite Hget by (rewrite length_rev; exact Ht).
  unfold row_null, binned. rewrite existsb_map. cbn [snd].
  assert (Hcode : forall k, In k (keys_of coords) ->
            nth j (h k) None = row_code xdr coords k j).
  { intros k Hk. unfold h, row_code.
    apply (nth_map_in _ _ j None NaN). rewrite <- (Hlen k Hk) in Hj. exact Hj. }
  rewrite (existsb_ext_in _ (fun k => is_none (row_code xdr coords k j)))
    by (intros k Hk; rewrite (Hcode k Hk); reflexivity).
  destruct (existsb _ (keys_of coords)); [reflexivity|].
  unfold a. cbn [nd_get]. do 2 f_equal.
  unfold ixs, row_cell_on. rewrite map_map. apply map_ext_in. intros d Hd.
  rewrite nth_fillna0.
  - rewrite (Hcode d (Hq d Hd)). reflexivity.
  - unfold h. rewrite length_map. specialize (Hlen d (Hq d Hd)).
    unfold size in Hlen. lia.
Qed.

Lemma keys_ranges_of (coords : query) : map fst (ranges_of coords) = keys_of coords.
Proof. unfold ranges_of. rewrite map_map. cbn [fst]. apply map_id. Qed.

(** The dimensions a query leaves out keep their coordinates. *)
Lemma restricted_shape_free (ranges : list (string * (val * val)))
    (axes : list (string * array)) (free rest : list string) :
  map fst axes = free ++ rest ->
  (forall d, In d free -> assoc d ranges = None) ->
  firstn (length free)
    (map (fun kx => size (snd kx)) (map fst (map (restrict_axis ranges) axes)))
  = firstn (length free) (map (fun kx => size (snd kx)) axes).
Proof.
  revert axes. induction free as [|d r IH]; intros axes Hs Hf; [reflexivity|].
  destruct axes as [|[k x] axes']; [discriminate|].
  cbn [map fst app] in Hs. injection Hs as Hk Hs'. subst k.
  cbn [map length firstn]. f_equal.
  - unfold restrict_axis. cbn [fst snd].
    rewrite (Hf d (or_introl eq_refl)). reflexivity.
  - apply IH; [exact Hs'|]. intros d' Hd'. apply Hf. right. exact Hd'.
Qed.

(** X8.  A query on the trailing dimensions of a target (latitude and
    longitude of a field that also has a time or depth dimension).  On a
    target with sorted numeric coordinates, for a valid query whose
    restriction has cells and no more than the ceiling, the call returns
    one profile per row: an array whose first dimension is that of the
    rows, followed by the dimensions left out IN REVERSE ORDER (the
    transposition), whole.  A row with a coordinate outside every bin is
    NaN throughout; any other row holds the values of the target along the
    dimensions left out, at the cell of the row. *)
Theorem trailing_query_gives_profiles
    (da : DataArray) (verbose : bool) (coords : query) (len : nat)
    (free queried : list string) :
  numeric_sorted da -> valid_query da coords len -> 1 <= len ->
  da_dims da = free ++ queried ->
  (forall d, In d free -> ~ In d (keys_of coords)) ->
  (forall d, In d queried -> In d (keys_of coords)) ->
  let xdr := restricted da (ranges_of coords) in
  (0 < da_size xdr <= 720 * 1440 * 365 * 2)%Z ->
  exists out,
    result (colocate_dataarray da verbose coords) = Return out /\
    nd_shape out = len :: rev (firstn (length free) (da_shape da)) /\
    forall j t, j < len -> length t = length free ->
      nd_get out (j :: t)
      = if row_null xdr coords j then NaN
        else da_values xdr (rev t ++ row_cell_on xdr coords queried j).
Proof.
  intros Hs Hv Hpos Hsplit Hfree Hq xdr Hsize.
  rewrite (colocate_sorted da verbose coords len Hs Hv Hpos). fold xdr.
  assert (Hsx : numeric_sorted xdr) by (apply restricted_sorted, Hs).
  assert (Hdims : da_dims xdr = da_dims da) by apply restricted_dims.
  assert (Hkeys : forall k, In k (keys_of coords) -> In k (da_dims da))
    by (apply keys_matched, Hv).
  destruct (colocate_rest_trailing da xdr verbose coords len free queried
              Hsx Hdims Hsplit Hfree Hq Hkeys (vq_length _ _ _ Hv))
    as (out & Hres & Hshape & Hget).
  { unfold max_size. exact Hsize. }
  exists out. split; [exact Hres|]. split; [|exact Hget].
  rewrite Hshape. do 2 f_equal.
  unfold xdr, restricted, da_shape. cbn [da_axes].
  apply (restricted_shape_free _ _ free queried Hsplit).
  intros d Hd. apply assoc_not_in. rewrite keys_ranges_of. apply Hfree, Hd.
Qed.

(** The theorem on two depths and three latitudes, queried at the
    latitudes 0 and 1: one row per latitude, two depths each. *)
Lemma trailing_query_witness :
  exists out,
    result (colocate_dataarray profiles true [("lat", mkarray Kf [Num 0; Num 1])])
      = Return out /\
    nd_shape out = [2; 2] /\
    nd_get out [0; 1] = Num 11 /\ nd_get out [1; 0] = Num 20.
Proof.
  destruct (trailing_query_gives_profiles profiles true
              [("lat", mkarray Kf [Num 0; Num 1])] 2 ["depth"] ["lat"])
    as (out & Hres & Hshape & Hget).
  - intros kx [<-|[<-|[]]]; (split; [reflexivity|]).
    + exists [5; 15]%Q. split; [reflexivity|]. repeat split.
    + exists [-1; 0; 1]%Q. split; [reflexivity|]. repeat split.
  - constructor.
    + discriminate.
    + intros k [<-|[]]. reflexivity.
    + reflexivity.
    + reflexivity.
  - lia.
  - reflexivity.
  - intros d [<-|[]] [H|[]]. discriminate.
  - intros d [<-|[]]. left. reflexivity.
  - vm_compute. split; [reflexivity|discriminate].
  - exists out. split; [exact Hres|]. split; [exact Hshape|].
    split.
    + rewrite (Hget 0 [1]) by (simpl; lia). vm_compute. reflexivity.
    + rewrite (Hget 1 [0]) by (simpl; lia). vm_compute. reflexivity.
Defined.

(** ** Queries on the leading dimensions *)

Lemma drop_while_not_slices (ixs : list (list nat)) (nf : nat) :
  drop_while (fun i => negb (is_slice i)) (map IdxArray ixs ++ repeat IdxSlice nf)
  = repeat IdxSlice nf.
Proof.
  induction ixs as [|ix r IH]; [|exact IH].
  destruct nf; reflexivity.
Qed.

Lemma forallb_slices (nf : nat) : forallb is_slice (repeat IdxSlice nf) = true.
Proof. induction nf as [|nf IH]; [reflexivity|exact IH]. Qed.

Lemma sliced_shape_all (nf : nat) (sh : list nat) :
  length sh = nf -> sliced_shape (repeat IdxSlice nf) sh = sh.
Proof.
  revert sh. induction nf as [|nf IH]; intros [|n ns] H; try discriminate; [reflexivity|].
  cbn [repeat sliced_shape]. rewrite IH by (simpl in H; lia). reflexivity.
Qed.

Lemma sliced_shape_leading (ixs : list (list nat)) (nf : nat) (sh : list nat) :
  length sh = length ixs + nf ->
  sliced_shape (map IdxArray ixs ++ repeat IdxSlice nf) sh = skipn (length ixs) sh.
Proof.
  revert sh. induction ixs as [|ix r IH]; intros sh Hl.
  - cbn [map app length skipn]. apply sliced_shape_all. exact Hl.
  - destruct sh as [|n ns]; [discriminate|].
    cbn [map app sliced_shape length skipn]. apply IH. simpl in Hl. lia.
Qed.

Lemma fill_all_slices (nf j : nat) (s : list nat) :
  length s = nf -> fill (repeat IdxSlice nf) j s = s.
Proof.
  revert s. induction nf as [|nf IH]; intros [|h t] H; try discriminate; [reflexivity|].
  cbn [repeat fill]. rewrite IH by (simpl in H; lia). reflexivity.
Qed.

Lemma fill_leading (ixs : list (list nat)) (nf j : nat) (s : list nat) :
  length s = nf ->
  fill (map IdxArray ixs ++ repeat IdxSlice nf) j s
    = map (fun ix => nth j ix 0) ixs ++ s.
Proof.
  intro H. induction ixs as [|ix r IH].
  - cbn [map app]. apply fill_all_slices. exact H.
  - cbn [map app fill]. rewrite IH. reflexivity.
Qed.

(** [a[ix1, ..., ixm, :, ..., :]]: the dimension of the integer arrays
    comes first. *)
Lemma getitem_leading (a : ndarray) (ixs : list (list nat)) (nf len : nat) :
  ixs <> [] -> length (nd_shape a) = length ixs + nf ->
  nd_shape (getitem a (map IdxArray ixs ++ repeat IdxSlice nf) len)
    = len :: skipn (length ixs) (nd_shape a) /\
  forall j s, length s = nf ->
    nd_get (getitem a (map IdxArray ixs ++ repeat IdxSlice nf) len) (j :: s)
    = nd_get a (map (fun ix => nth j ix 0) ixs ++ s).
Proof.
  intros Hne Hl. unfold getitem, adjacent, count_leading_slices.
  assert (Hd : drop_while is_slice (map IdxArray ixs ++ repeat IdxSlice nf)
               = map IdxArray ixs ++ repeat IdxSlice nf)
    by (destruct ixs; [congruence|reflexivity]).
  rewrite Hd, drop_while_not_slices, forallb_slices, Nat.sub_diag.
  rewrite sliced_shape_leading by exact Hl.
  cbn [firstn skipn app nd_shape nd_get]. split; [reflexivity|].
  intros j s Hs. cbn [nth skipn]. f_equal. apply fill_leading. exact Hs.
Qed.

Lemma restricted_shape_tail (ranges : list (string * (val * val)))
    (axes : list (string * array)) (queried free : list string) :
  map fst axes = queried ++ free ->
  (forall d, In d free -> assoc d ranges = None) ->
  skipn (length queried)
    (map (fun kx => size (snd kx)) (map fst (map (restrict_axis ranges) axes)))
  = skipn (length queried) (map (fun kx => size (snd kx)) axes).
Proof.
  revert axes. induction queried as [|d r IH]; intros axes Hs Hf.
  - cbn [length skipn app] in *. rewrite !map_map. apply map_ext_in.
    intros [k x] Hin. unfold restrict_axis. cbn [fst snd].
    rewrite Hf; [reflexivity|]. rewrite <- Hs.
    apply (in_map fst) in Hin. exact Hin.
  - destruct axes as [|[k x] axes']; [discriminate|].
    cbn [map fst app] in Hs. injection Hs as _ Hs'.
    cbn [map length skipn]. apply IH; assumption.
Qed.

Lemma hd_rev_app {A} (d : A) (l l' : list A) :
  l <> [] -> hd d (rev l ++ l') = List.last l d.
Proof.
  intro Hne. destruct (exists_last Hne) as (r & x & ->).
  rewrite rev_app_distr, last_last. reflexivity.
Qed.

Lemma last_skipn {A} (d : A) (k : nat) (l : list A) :
  k < length l -> List.last (skipn k l) d = List.last l d.
Proof.
  revert l. induction k as [|k IH]; intros l Hl; [reflexivity|].
  destruct l as [|a r]; [simpl in Hl; lia|].
  cbn [skipn]. rewrite IH by (simpl in Hl; lia).
  destruct r as [|b r']; [simpl in Hl; lia|]. reflexivity.
Qed.

(** X9.  A query on the leading dimensions only (the time of a field that
    also has latitudes, the latitudes of one that also has longitudes).
    After the transposition the rows of the query run along the LAST
    dimension of the output and the last dimension left out comes first,
    so the mask of the null rows is laid along that dimension: the call
    raises the IndexError of a mask that does not fit unless that
    dimension happens to have as many coordinates as the query has rows,
    and in that case position [p] of that dimension is set to NaN, for
    every row, when row [p] of the query is null. *)
Theorem leading_query_mask_misfit
    (da : DataArray) (verbose : bool) (coords : query) (len : nat)
    (queried free : list string) :
  numeric_sorted da -> valid_query da coords len -> 1 <= len ->
  da_dims da = queried ++ free -> free <> [] ->
  (forall d, In d free -> ~ In d (keys_of coords)) ->
  (forall d, In d queried -> In d (keys_of coords)) ->
  let xdr := restricted da (ranges_of coords) in
  (0 < da_size xdr <= 720 * 1440 * 365 * 2)%Z ->
  let n := List.last (da_shape da) 0 in
  (n <> len ->
   result (colocate_dataarray da verbose coords)
     = Raise (IndexError (MsgBoolIndexMismatch n len))) /\
  (n = len ->
   exists out,
     result (colocate_dataarray da verbose coords) = Return out /\
     nd_shape out = rev (skipn (length queried) (da_shape da)) ++ [len] /\
     forall p t j, length t + 1 = length free ->
       nd_get out (p :: t ++ [j])
       = if nth p (map (row_null xdr coords) (seq 0 len)) false then NaN
         else da_values xdr (row_cell_on xdr coords queried j ++ rev (p :: t))).
Proof.
  intros Hs Hv Hpos Hsplit Hfne Hfree Hq xdr Hsize n.
  rewrite (colocate_sorted da verbose coords len Hs Hv Hpos). fold xdr.
  assert (Hsx : numeric_sorted xdr) by (apply restricted_sorted, Hs).
  assert (Hdims : da_dims xdr = da_dims da) by apply restricted_dims.
  assert (Hkeys : forall k, In k (keys_of coords) -> In k (da_dims da))
    by (apply keys_matched, Hv).
  assert (Hlen := vq_length _ _ _ Hv).
  assert (Hqne : queried <> []).
  { destruct (keys_of coords) as [|k ks] eqn:Ek.
    - exfalso. apply (vq_nonempty _ _ _ Hv). destruct coords; [reflexivity|discriminate].
    - assert (Hk : In k (da_dims da)) by (apply Hkeys; left; reflexivity).
      rewrite Hsplit in Hk. apply in_app_or in Hk. destruct Hk as [Hk|Hk].
      + intros ->. destruct Hk.
      + exfalso. apply (Hfree k Hk). left. reflexivity. }
  unfold colocate_rest.
  destruct (da_size xdr >? max_size)%Z eqn:E1;
    [apply Z.gtb_lt in E1; unfold max_size in E1; lia|].
  destruct (da_size xdr =? 0)%Z eqn:E2; [apply Z.eqb_eq in E2; lia|].
  rewrite result_vprint_bind, result_emit_bind, result_vprint_bind.
  rewrite (mapM_ret _ (fun kx => (fst kx, edges_of (elems (snd kx))))).
  2:{ intros kx Hin. destruct (edges_of_ok (snd kx)) as [Hmb _].
      - apply Hsx, Hin.
      - apply (size_pos_axes xdr); [lia|exact Hin].
      - rewrite Hmb, bind_ret_l. reflexivity. }
  rewrite bind_ret_l.
  rewrite (mapM_ret _ (fun k => (k, map (cut1 (bins_for xdr k)) (elems (coord coords k))))).
  2:{ intros k Hk.
      rewrite (assoc_map_snd (fun kx => edges_of (elems (snd kx)))).
      destruct (assoc_In k (da_axes xdr)) as (x & Hx & Hin).
      { fold (da_dims xdr). rewrite Hdims. apply Hkeys, Hk. }
      rewrite Hx. cbn [snd].
      unfold bins_for, da_coord. rewrite Hx.
      destruct (edges_of_ok x) as [_ Hok].
      - apply (Hsx (k, x)), Hin.
      - apply (size_pos_axes xdr ltac:(lia) (k, x)), Hin.
      - rewrite (cut_ok _ _ Hok), bind_ret_l. reflexivity. }
  rewrite bind_ret_l, result_vprint_bind.
  pose (h := fun k => map (cut1 (bins_for xdr k)) (elems (coord coords k))).
  pose (binned := map (fun k => (k, h k)) (keys_of coords)).
  change (map (fun k => (k, map (cut1 (bins_for xdr k)) (elems (coord coords k))))
              (keys_of coords)) with binned.
  assert (Hindex :
    map (fun key => match assoc key binned with
                    | Some col => IdxArray (fillna0 col)
                    | None => IdxSlice
                    end) (da_dims da)
    = map IdxArray (map (fun d => fillna0 (h d)) queried)
      ++ repeat IdxSlice (length free)).
  { rewrite Hsplit, map_app. f_equal.
    - rewrite map_map. apply map_ext_in. intros d Hd.
      unfold binned. rewrite (assoc_map_key h d _ (Hq d Hd)). reflexivity.
    - clear Hsplit Hfne. induction free as [|d r IH]; [reflexivity|].
      cbn [map length repeat]. rewrite IH by (intros d' Hd'; apply Hfree; right; exact Hd').
      rewrite assoc_not_in; [reflexivity|].
      unfold binned. rewrite map_map. cbn [fst]. rewrite map_id.
      apply Hfree. left. reflexivity. }
  rewrite Hindex.
  set (a := mkndarray (da_shape xdr) (da_values xdr)).
  set (ixs := map (fun d => fillna0 (h d)) queried).
  assert (Hixs : length ixs = length queried) by (unfold ixs; apply length_map).
  assert (Hshapelen : length (da_shape xdr) = length queried + length free).
  { unfold da_shape. rewrite length_map, <- (length_map fst (da_axes xdr)).
    fold (da_dims xdr). rewrite Hdims, Hsplit, length_app. reflexivity. }
  destruct (getitem_leading a ixs (length free) len) as [Hshape Hget].
  { unfold ixs. destruct queried; [congruence|discriminate]. }
  { unfold a. cbn [nd_shape]. rewrite Hixs. exact Hshapelen. }
  assert (Htail : skipn (length queried) (da_shape xdr)
                  = skipn (length queried) (da_shape da)).
  { unfold xdr, restricted, da_shape. cbn [da_axes].
    apply (restricted_shape_tail _ _ queried free Hsplit).
    intros d Hd. apply assoc_not_in. rewrite keys_ranges_of. apply Hfree, Hd. }
  assert (Hdalen : length (da_shape da) = length queried + length free).
  { unfold da_shape. rewrite length_map, <- (length_map fst (da_axes da)).
    fold (da_dims da). rewrite Hsplit, length_app. reflexivity. }
  assert (Hfpos : 0 < length free) by (destruct free; [congruence|simpl; lia]).
  assert (Hhd : hd 0 (rev (skipn (length queried) (da_shape da)) ++ [len]) = n).
  { rewrite hd_rev_app.
    - apply last_skipn. lia.
    - intro E. apply (f_equal (@length nat)) in E.
      rewrite length_skipn in E. simpl in E. lia. }
  unfold setitem_mask_nan. cbn [transpose nd_shape].
  rewrite Hshape. change (nd_shape a) with (da_shape xdr). rewrite Hixs, Htail.
  cbn [rev]. rewrite !Hhd, length_isnull_any.
  split; intro Hn.
  - apply Nat.eqb_neq in Hn. rewrite Hn. reflexivity.
  - rewrite Hn, Nat.eqb_refl.
    eexists. split; [reflexivity|]. split; [reflexivity|].
    intros p t j Ht. cbn [nd_get hd].
    change (nd_get (transpose (getitem a (map IdxArray ixs ++ repeat IdxSlice (length free)) len))
                   (p :: t ++ [j]))
      with (nd_get (getitem a (map IdxArray ixs ++ repeat IdxSlice (length free)) len)
                   (rev (p :: t ++ [j]))).
    assert (Hrev : rev (p :: t ++ [j]) = j :: rev (p :: t)).
    { change (p :: t ++ [j]) with ((p :: t) ++ [j]). rewrite rev_app_distr. reflexivity. }
    rewrite Hrev, Hget by (rewrite length_rev; simpl; lia).
    assert (Hmask : isnull_any binned len = map (row_null xdr coords) (seq 0 len)).
    { unfold isnull_any. apply map_ext_in. intros i Hi. apply in_seq in Hi.
      unfold row_null, binned. rewrite existsb_map. cbn [snd].
      apply existsb_ext_in. intros k Hk. unfold h, row_code, is_none.
      rewrite (nth_map_in _ _ i None NaN); [reflexivity|].
      specialize (Hlen k Hk). unfold size in Hlen. lia. }
    rewrite Hmask.
    destruct (nth p (map (row_null xdr coords) (seq 0 len)) false); [reflexivity|].
    unfold a. cbn [nd_get]. do 2 f_equal.
    unfold ixs, row_cell_on. rewrite map_map. apply map_ext_in. intros d Hd.
    unfold h. unfold fillna0. rewrite map_map.
    unfold row_code.
    destruct (Nat.lt_ge_cases j len) as [Hj|Hj].
    + rewrite (nth_map_in _ _ j 0 NaN); [reflexivity|].
      specialize (Hlen d (Hq d Hd)). unfold size in Hlen. lia.
    + rewrite !nth_overflow; [reflexivity| |].
      * specialize (Hlen d (Hq d Hd)). unfold size in Hlen. lia.
      * rewrite length_map. specialize (Hlen d (Hq d Hd)). unfold size in Hlen. lia.
Qed.

(** The theorem on three latitudes and two longitudes, queried on the
    latitudes alone: with three rows the mask does not fit the two
    longitudes; with the two rows -1 and 5 it does, the second row is null,
    and it is the second longitude of every row that is set to NaN while
    the null row keeps a value of the target. *)
Lemma leading_query_witness :
  result (colocate_dataarray latlon true [("lat", mkarray Kf [Num (-1); Num 0; Num 1])])
    = Raise (IndexError (MsgBoolIndexMismatch 2 3)) /\
  exists out,
    result (colocate_dataarray latlon true [("lat", mkarray Kf [Num (-1); Num 5])])
      = Return out /\
    nd_get out [1; 0] = NaN /\ nd_get out [0; 1] = Num 0.
Proof.
  assert (Hs : numeric_sorted latlon).
  { intros kx [<-|[<-|[]]]; (split; [reflexivity|]).
    - exists [-1; 0; 1]%Q. split; [reflexivity|]. repeat split.
    - exists [0; 1]%Q. split; [reflexivity|]. repeat split. }
  assert (Hv : forall x, valid_query latlon [("lat", mkarray Kf x)] (length x)).
  { intro x. constructor.
    - discriminate.
    - intros k [<-|[]]. reflexivity.
    - reflexivity.
    - reflexivity. }
  assert (Hfree : forall x d, In d ["lon"] -> ~ In d (keys_of [("lat", mkarray Kf x)])).
  { intros x d [<-|[]] [H|[]]. discriminate. }
  assert (Hq : forall x d, In d ["lat"] -> In d (keys_of [("lat", mkarray Kf x)])).
  { intros x d [<-|[]]. left. reflexivity. }
  split.
  - destruct (leading_query_mask_misfit latlon true
                [("lat", mkarray Kf [Num (-1); Num 0; Num 1])] 3 ["lat"] ["lon"]
                Hs (Hv _) (le_S _ _ (le_S _ _ (le_n 1))) eq_refl
                ltac:(discriminate) (Hfree _) (Hq _)) as [H _].
    + vm_compute. split; [reflexivity|discriminate].
    + apply H. vm_compute. discriminate.
  - destruct (leading_query_mask_misfit latlon true
                [("lat", mkarray Kf [Num (-1); Num 5])] 2 ["lat"] ["lon"]
                Hs (Hv _) (le_S _ _ (le_n 1)) eq_refl
                ltac:(discriminate) (Hfree _) (Hq _)) as [_ H].
    + vm_compute. split; [reflexivity|discriminate].
    + destruct (H eq_refl) as (out & Hres & _ & Hget).
      exists out. split; [exact Hres|]. split.
      * change [1; 0] with (1 :: [] ++ [0]).
        rewrite (Hget 1 [] 0 eq_refl). vm_compute. reflexivity.
      * change [0; 1] with (0 :: [] ++ [1]).
        rewrite (Hget 0 [] 1 eq_refl). vm_compute. reflexivity.
Defined.

(* ================================================================= *)
(** * Further properties of the seasonal cycle *)

(** ** The number of time steps in a year *)

Lemma sorted_get_count (y : Z) (c : nat) (l : list (Z * nat)) :
  sorted_years l -> In (y, c) l -> get_count y l = c.
Proof.
  induction l as [|[y' c'] r IH]; intros Hs Hin; [destruct Hin|].
  destruct Hs as [Hall Hr]. cbn [get_count]. destruct Hin as [E|Hin].
  - injection E as -> ->. rewrite Z.eqb_refl. reflexivity.
  - destruct (y =? y')%Z eqn:E; [|apply IH; assumption].
    apply Z.eqb_eq in E. subst y'. rewrite Forall_forall in Hall.
    specialize (Hall (y, c) Hin). cbn [fst] in Hall. lia.
Qed.

Lemma insert_count_positive (y : Z) (l : list (Z * nat)) :
  Forall (fun p => 1 <= snd p) l ->
  Forall (fun p => 1 <= snd p) (SeasCycle.insert_count y l).
Proof.
  induction 1 as [|[y' c] r Hc Hr IH]; cbn [SeasCycle.insert_count].
  - constructor; [apply le_n|constructor].
  - destruct (y <? y')%Z.
    + constructor; [apply le_n|]. constructor; assumption.
    + destruct (y =? y')%Z.
      * constructor; [cbn [snd] in *; lia|exact Hr].
      * constructor; assumption.
Qed.

Lemma unique_counts_positive (years : list Z) :
  Forall (fun p => 1 <= snd p) (SeasCycle.unique_counts years).
Proof.
  induction years as [|y r IH]; [constructor|].
  apply insert_count_positive, IH.
Qed.

(** Each entry of [np.unique(years, return_counts=True)] is a year of the
    array with the number of times it occurs. *)
Lemma unique_counts_entry (years : list Z) (y : Z) (c : nat) :
  In (y, c) (SeasCycle.unique_counts years) ->
  In y years /\ c = count_occ Z.eq_dec years y.
Proof.
  intro Hin.
  assert (Hc : c = count_occ Z.eq_dec years y).
  { rewrite <- get_count_unique_counts. symmetry.
    apply sorted_get_count; [apply unique_counts_sorted|exact Hin]. }
  split; [|exact Hc].
  apply (count_occ_In Z.eq_dec).
  pose proof (unique_counts_positive years) as Hp. rewrite Forall_forall in Hp.
  specialize (Hp (y, c) Hin). cbn [snd] in Hp. lia.
Qed.

Lemma insert_count_nonempty (y : Z) (l : list (Z * nat)) :
  SeasCycle.insert_count y l <> [].
Proof.
  destruct l as [|[y' c] r]; cbn [SeasCycle.insert_count]; [discriminate|].
  destruct (y <? y')%Z; [discriminate|]. destruct (y =? y')%Z; discriminate.
Qed.

Lemma insert_count_total (y : Z) (l : list (Z * nat)) :
  list_sum (map snd (SeasCycle.insert_count y l)) = S (list_sum (map snd l)).
Proof.
  induction l as [|[y' c] r IH]; cbn [SeasCycle.insert_count]; [reflexivity|].
  destruct (y <? y')%Z; [reflexivity|].
  destruct (y =? y')%Z; [reflexivity|].
  change (list_sum (map snd ((y', c) :: SeasCycle.insert_count y r)))
    with (c + list_sum (map snd (SeasCycle.insert_count y r))).
  rewrite IH. simpl. lia.
Qed.

Lemma unique_counts_total (years : list Z) :
  list_sum (map snd (SeasCycle.unique_counts years)) = length years.
Proof.
  induction years as [|y r IH]; [reflexivity|].
  cbn [SeasCycle.unique_counts fold_right length].
  change (fold_right SeasCycle.insert_count [] r) with (SeasCycle.unique_counts r).
  rewrite insert_count_total, IH. reflexivity.
Qed.

Lemma list_sum_constant (l : list nat) (c : nat) :
  (forall x, In x l -> x = c) -> list_sum l = c * length l.
Proof.
  induction l as [|a r IH]; intro H; [simpl; lia|].
  change (list_sum (a :: r)) with (a + list_sum r). cbn [length].
  rewrite IH by (intros x Hx; apply H; right; exact Hx).
  rewrite (H a (or_introl eq_refl)). lia.
Qed.

(** When every sampled year has [c] samples, [c] is returned. *)
Lemma steps_all_equal (time : list SeasCycle.datetime) (c : nat) (b : bool) :
  time <> [] ->
  (forall t, In t time -> samples_in time (SeasCycle.year t) = c) ->
  SeasCycle._get_number_of_time_steps_in_year time b = ret c.
Proof.
  intros Hne Hall. unfold SeasCycle._get_number_of_time_steps_in_year.
  assert (Hcounts : forall n, In n (map snd (SeasCycle.unique_counts
                                             (map SeasCycle.year time))) -> n = c).
  { intros n Hn. apply in_map_iff in Hn. destruct Hn as ([y n'] & <- & Hin).
    apply unique_counts_entry in Hin. destruct Hin as [Hy ->]. cbn [snd].
    apply in_map_iff in Hy. destruct Hy as (t & <- & Ht).
    apply (Hall t Ht). }
  destruct (map snd (SeasCycle.unique_counts (map SeasCycle.year time)))
    as [|c0 r] eqn:E.
  - exfalso. destruct time as [|t r]; [congruence|].
    cbn [map SeasCycle.unique_counts fold_right] in E.
    apply map_eq_nil in E. exact (insert_count_nonempty _ _ E).
  - assert (c0 = c) as -> by (apply Hcounts; left; reflexivity).
    assert (Hf : forallb (fun n => n =? c) (c :: r) = true).
    { apply forallb_forall. intros n Hn. apply Nat.eqb_eq, Hcounts, Hn. }
    rewrite Hf. reflexivity.
Qed.

(** X10.  What [_get_number_of_time_steps_in_year] returns.  When it
    returns [c] with [raise_if_uneven=True], every sampled year has exactly
    [c >= 1] samples and the series has [c] times as many steps as it has
    distinct years.  With [raise_if_uneven=False] it returns, on any series
    that is not empty, the number of samples of the earliest year, whatever
    the other years hold; on an empty series it raises IndexError
    ([counts[0]]) in both modes. *)
Theorem steps_in_year_invariant (time : list SeasCycle.datetime) (b : bool) :
  (forall c, result (SeasCycle._get_number_of_time_steps_in_year time true) = Return c ->
     1 <= c /\
     (forall t, In t time -> samples_in time (SeasCycle.year t) = c) /\
     length time
       = c * length (SeasCycle.unique_counts (map SeasCycle.year time))) /\
  (time <> [] ->
   exists t0, In t0 time /\
     (forall t, In t time -> (SeasCycle.year t0 <= SeasCycle.year t)%Z) /\
     SeasCycle._get_number_of_time_steps_in_year time false
       = ret (samples_in time (SeasCycle.year t0))) /\
  SeasCycle._get_number_of_time_steps_in_year [] b
    = raise (IndexError MsgIndexOutOfBounds).
Proof.
  split; [|split; [|reflexivity]].
  - intros c Hc.
    pose proof (steps_in_year_returns time c Hc) as Hall.
    assert (Hcounts : forall n, In n (map snd (SeasCycle.unique_counts
                                               (map SeasCycle.year time))) -> n = c).
    { intros n Hn. apply in_map_iff in Hn. destruct Hn as ([y n'] & <- & Hin).
      apply unique_counts_entry in Hin. destruct Hin as [Hy ->]. cbn [snd].
      apply in_map_iff in Hy. destruct Hy as (t & <- & Ht).
      apply (Hall t Ht). }
    assert (Hlen : length time
              = c * length (SeasCycle.unique_counts (map SeasCycle.year time))).
    { rewrite <- (length_map SeasCycle.year time), <- unique_counts_total.
      rewrite (list_sum_constant _ c Hcounts), length_map. reflexivity. }
    split; [|split; [exact Hall|exact Hlen]].
    unfold SeasCycle._get_number_of_time_steps_in_year in Hc.
    destruct (map snd (SeasCycle.unique_counts (map SeasCycle.year time)))
      as [|c0 r] eqn:E; [discriminate|].
    assert (c0 = c) as -> by (apply Hcounts; left; reflexivity).
    assert (Hin : In c (map snd (SeasCycle.unique_counts (map SeasCycle.year time))))
      by (rewrite E; left; reflexivity).
    apply in_map_iff in Hin. destruct Hin as (p & Hp & Hin).
    pose proof (unique_counts_positive (map SeasCycle.year time)) as Hpos.
    rewrite Forall_forall in Hpos. specialize (Hpos p Hin). lia.
  - intro Hne. unfold SeasCycle._get_number_of_time_steps_in_year.
    pose proof (unique_counts_sorted (map SeasCycle.year time)) as Hs.
    destruct (SeasCycle.unique_counts (map SeasCycle.year time))
      as [|[y0 c0] r] eqn:E.
    { exfalso. destruct time as [|t r]; [congruence|].
      cbn [map SeasCycle.unique_counts fold_right] in E.
      exact (insert_count_nonempty _ _ E). }
    assert (Hin0 : In (y0, c0) (SeasCycle.unique_counts (map SeasCycle.year time)))
      by (rewrite E; left; reflexivity).
    destruct (unique_counts_entry _ _ _ Hin0) as [Hy0 Hc0].
    apply in_map_iff in Hy0. destruct Hy0 as (t0 & Ht0 & Hin).
    exists t0. split; [exact Hin|]. split.
    + intros t Ht. rewrite Ht0.
      assert (Hc : count_occ Z.eq_dec (map SeasCycle.year time) (SeasCycle.year t) <> 0).
      { assert (In (SeasCycle.year t) (map SeasCycle.year time))
          by (apply in_map, Ht).
        apply (count_occ_In Z.eq_dec) in H. lia. }
      rewrite <- get_count_unique_counts, E in Hc.
      cbn [get_count] in Hc. destruct Hs as [Hall _].
      destruct (SeasCycle.year t =? y0)%Z eqn:Ey; [apply Z.eqb_eq in Ey; lia|].
      destruct (Z_lt_le_dec (SeasCycle.year t) y0) as [Hlt|]; [|assumption].
      exfalso. apply Hc. apply get_count_above.
      eapply Forall_impl; [|exact Hall]. intros p Hp. cbv beta in *. lia.
    + cbn [map snd]. rewrite andb_false_r. rewrite Ht0.
      unfold samples_in. rewrite <- Hc0. reflexivity.
Qed.

(** ** The months of the climatology *)

Lemma filter_seq_range (p : nat -> bool) (n a w : nat) :
  a + w <= n ->
  (forall i, i < n -> (p i = true <-> a <= i < a + w)) ->
  filter p (seq 0 n) = seq a w.
Proof.
  intros Hle Hp.
  replace n with (a + (w + (n - a - w))) by lia.
  rewrite seq_app, (seq_app w). cbn [Nat.add].
  rewrite !filter_app.
  rewrite (filter_none p (seq 0 a)), (filter_all p (seq a w)),
          (filter_none p (seq (a + w) (n - a - w))).
  - rewrite app_nil_r. reflexivity.
  - apply Forall_forall. intros i Hi. apply in_seq in Hi.
    destruct (p i) eqn:E; [|reflexivity]. apply Hp in E; lia.
  - apply Forall_forall. intros i Hi. apply in_seq in Hi. apply Hp; lia.
  - apply Forall_forall. intros i Hi. apply in_seq in Hi.
    destruct (p i) eqn:E; [|reflexivity]. apply Hp in E; lia.
Qed.

(** Whole years of monthly samples have twelve samples in each year. *)
Lemma whole_years_steps (y0 : Z) (k : nat) (b : bool) :
  1 <= k ->
  SeasCycle._get_number_of_time_steps_in_year
    (SeasCycle.monthly_from (12 * y0) (12 * k)) b = ret 12.
Proof.
  intro Hk. apply steps_all_equal.
  - unfold SeasCycle.monthly_from.
    destruct (12 * k) as [|m] eqn:E; [lia|]. discriminate.
  - intros t Ht. unfold SeasCycle.monthly_from in Ht.
    apply in_map_iff in Ht. destruct Ht as (i & <- & Hi). apply in_seq in Hi.
    cbn [SeasCycle.year]. rewrite samples_in_monthly.
    rewrite (filter_seq_range _ (12 * k) (12 * (i / 12)) 12).
    + apply length_seq.
    + pose proof (Nat.div_mod_eq i 12). pose proof (Nat.mod_upper_bound i 12).
      assert (i / 12 < k) by (apply Nat.Div0.div_lt_upper_bound; lia). lia.
    + intros j Hj. rewrite Z.eqb_eq.
      pose proof (Nat.div_mod_eq i 12). pose proof (Nat.mod_upper_bound i 12 ltac:(lia)).
      pose proof (Z.div_mod (12 * y0 + Z.of_nat i) 12 ltac:(lia)).
      pose proof (Z.mod_pos_bound (12 * y0 + Z.of_nat i) 12 ltac:(lia)).
      pose proof (Z.div_mod (12 * y0 + Z.of_nat j) 12 ltac:(lia)).
      pose proof (Z.mod_pos_bound (12 * y0 + Z.of_nat j) 12 ltac:(lia)).
      lia.
Qed.

Lemma every_twelve (k : nat) :
  Climatology.every 12 (12 * k) = map (fun r => r * 12) (seq 0 k).
Proof.
  unfold Climatology.every. do 2 f_equal.
  symmetry. apply (Nat.div_unique _ 12 k 11); lia.
Qed.

Lemma isin_In (m : nat) (l : list nat) : Climatology.isin m l = true <-> In m l.
Proof.
  unfold Climatology.isin. rewrite existsb_exists. split.
  - intros (x & Hx & E). apply Nat.eqb_eq in E. subst. exact Hx.
  - intro H. exists m. split; [exact H|apply Nat.eqb_refl].
Qed.

Lemma In_month_labels (n m : nat) :
  1 <= n -> (In m (Climatology.month_labels (12 * n)) <-> 1 <= m <= 12).
Proof.
  intro Hn. unfold Climatology.month_labels. rewrite in_map_iff. split.
  - intros (p & <- & _). pose proof (Nat.mod_upper_bound p 12). lia.
  - intro Hm. exists (m - 1). split.
    + rewrite Nat.mod_small by lia. lia.
    + apply in_seq. lia.
Qed.

Lemma unique_month_labels (n : nat) :
  1 <= n -> Climatology.unique_sorted (Climatology.month_labels (12 * n)) = seq 1 12.
Proof.
  intro Hn. unfold Climatology.unique_sorted.
  assert (Hmax : list_max (Climatology.month_labels (12 * n)) = 12).
  { apply Nat.le_antisymm.
    - apply list_max_le. apply Forall_forall. intros m Hm.
      apply (In_month_labels n m Hn) in Hm. lia.
    - assert (H12 : In 12 (Climatology.month_labels (12 * n)))
        by (apply (In_month_labels n 12 Hn); lia).
      pose proof (proj1 (list_max_le (Climatology.month_labels (12 * n))
                           (list_max (Climatology.month_labels (12 * n))))
                        (le_n _)) as Hall.
      rewrite Forall_forall in Hall. apply Hall, H12. }
  rewrite Hmax.
  rewrite (filter_ext_in _ (fun m => 1 <=? m)).
  - reflexivity.
  - intros m Hseq. apply in_seq in Hseq.
    destruct (Climatology.isin m (Climatology.month_labels (12 * n))) eqn:E.
    + apply isin_In, (In_month_labels n m Hn) in E. symmetry. apply Nat.leb_le. lia.
    + destruct (1 <=? m) eqn:E1; [|reflexivity]. apply Nat.leb_le in E1.
      destruct (Nat.le_gt_cases m 12) as [H12|H12].
      * assert (Hin : In m (Climatology.month_labels (12 * n)))
          by (apply (In_month_labels n m Hn); lia).
        apply isin_In in Hin. congruence.
      * lia.
Qed.

Lemma labelled_elements (l : nat -> nat) (g : nat -> val) (s : list nat) (m : nat) :
  map snd (filter (fun lv => fst lv =? m) (combine (map l s) (map g s)))
  = map g (filter (fun p => l p =? m) s).
Proof.
  induction s as [|p r IH]; [reflexivity|].
  cbn [map combine filter fst]. destruct (l p =? m); cbn [map snd]; rewrite IH; reflexivity.
Qed.

Lemma seq_offset (a w : nat) : seq a w = map (fun j => a + j) (seq 0 w).
Proof.
  revert a. induction w as [|w IH]; intro a; [reflexivity|].
  cbn [seq map]. rewrite Nat.add_0_r. f_equal.
  rewrite (IH (S a)), (IH 1), map_map. apply map_ext. intro j. lia.
Qed.

Lemma filter_of_map {A B} (p : B -> bool) (f : A -> B) (l : list A) :
  filter p (map f l) = map f (filter (fun a => p (f a)) l).
Proof.
  induction l as [|a r IH]; [reflexivity|].
  cbn [map filter]. destruct (p (f a)); cbn [map]; rewrite IH; reflexivity.
Qed.

(** The positions of a window of [n] years that carry the label [m]. *)
Lemma positions_of_label (n m : nat) :
  1 <= m <= 12 ->
  filter (fun p => p mod 12 + 1 =? m) (seq 0 (12 * n))
  = map (fun q => 12 * q + (m - 1)) (seq 0 n).
Proof.
  intro Hm. induction n as [|n IH]; [reflexivity|].
  replace (12 * S n) with (12 * n + 12) by lia.
  rewrite seq_app, filter_app, IH, (seq_S n 0), map_app. f_equal.
  cbn [Nat.add map]. rewrite (seq_offset (12 * n) 12), filter_of_map.
  rewrite (filter_ext (fun a => (12 * n + a) mod 12 + 1 =? m)
                      (fun a => a mod 12 + 1 =? m)).
  2:{ intro a. replace (12 * n + a) with (a + n * 12) by lia.
      rewrite Nat.Div0.mod_add. reflexivity. }
  do 13 (destruct m as [|m]; [try lia; reflexivity|]). lia.
Qed.

Lemma nth_seq_map {A} (f : nat -> A) (a w i : nat) (d : A) :
  i < w -> nth i (map f (seq a w)) d = f (a + i).
Proof.
  intro H. rewrite (nth_map_in f (seq a w) i d 0) by (rewrite length_seq; exact H).
  rewrite seq_nth by exact H. reflexivity.
Qed.

(** The row of the kept step [12 * r], with its twelve labelled means. *)
Lemma climatology_row (x : list val) (n r : nat) :
  1 <= n ->
  Climatology.groupby_mean (Climatology.month_labels (12 * n))
    (map (fun p => if 12 * n <=? r * 12 + p + 1
                   then nth (r * 12 + p + 1 - 12 * n) x NaN
                   else NaN)
         (seq 0 (12 * n)))
  = map (fun m => (m, Climatology.labelled_mean x n r m)) (seq 1 12).
Proof.
  intro Hn. unfold Climatology.groupby_mean.
  rewrite (unique_month_labels n Hn). apply map_ext_in. intros m Hm.
  apply in_seq in Hm. f_equal. unfold Climatology.month_labels.
  rewrite labelled_elements, positions_of_label by lia.
  unfold Climatology.labelled_mean. rewrite map_map. f_equal.
  apply map_ext. intro q.
  replace (r * 12 + (12 * q + (m - 1)) + 1) with (12 * (r + q) + m) by lia.
  reflexivity.
Qed.

Lemma exc_mapM_ok {A B} (f : A -> Exc.res B) (g : A -> B) (l : list A) :
  (forall a, In a l -> f a = Exc.Ok (g a)) -> Exc.mapM f l = Exc.Ok (map g l).
Proof.
  induction l as [|a r IH]; intro H; [reflexivity|].
  cbn [Exc.mapM map]. rewrite (H a (or_introl eq_refl)). cbn [Exc.bind].
  rewrite IH by (intros b Hb; apply H; right; exact Hb). reflexivity.
Qed.

(** The step labelled [m] in the window that ends at the first month of a
    year is a month later than [m] in the calendar. *)
Lemma labelled_step_month (y0 : Z) (k n r q m : nat) :
  r < k -> q < n -> 1 <= m <= 12 -> 12 * n <= 12 * (r + q) + m ->
  12 * (r + q) + m - 12 * n < 12 * k /\
  SeasCycle.month (nth (12 * (r + q) + m - 12 * n)
                       (SeasCycle.monthly_from (12 * y0) (12 * k))
                       (SeasCycle.mkdatetime 0 0 0))
  = m mod 12 + 1.
Proof.
  intros Hr Hq Hm Hle.
  assert (Ht : 12 * (r + q) + m - 12 * n < 12 * k) by lia.
  split; [exact Ht|].
  unfold SeasCycle.monthly_from. rewrite nth_seq_map by exact Ht.
  cbn [SeasCycle.month Nat.add]. f_equal.
  set (t := 12 * (r + q) + m - 12 * n) in *.
  assert (Hmod : t mod 12 = m mod 12).
  { assert (E : t + n * 12 = m + (r + q) * 12) by lia.
    rewrite <- (Nat.Div0.mod_add t n 12), E, Nat.Div0.mod_add. reflexivity. }
  rewrite <- Hmod.
  replace (12 * y0 + Z.of_nat t)%Z with (Z.of_nat t + y0 * 12)%Z by lia.
  rewrite Z.mod_add by lia.
  change (Z.of_nat t mod 12)%Z with (Z.of_nat t mod Z.of_nat 12)%Z.
  rewrite <- Nat2Z.inj_mod. apply Nat2Z.id.
Qed.

(** X11.  The months of [seascycl_fit_climatology].  For [k >= 1] whole
    years of monthly samples that start in January and a window of
    [n_years = n >= 1], the fitter returns one row per year (the windows
    kept are those that END at the January of a year), and the mean
    labelled [month = m] in row [r] is the mean of the samples at the steps
    [12 * (r + q) + m - 12 * n] for the years [q] of the window: each of
    these steps is in the calendar month [m mod 12 + 1], so [month = 1]
    holds the Februaries, [month = 12] the Januaries, and [jja_minus_djf],
    taken from the labels 6, 7, 8 and 12, 1, 2, compares July to September
    with January to March. *)
Theorem climatology_labels_are_a_month_late
    (da : SeasCycle.DataArray (list val)) (dim : string)
    (y0 : Z) (k n : nat) :
  1 <= k -> 1 <= n ->
  assoc dim (SeasCycle.da_coords da)
    = Some (SeasCycle.monthly_from (12 * y0) (12 * k)) ->
  exists ds,
    SeasCycle.seascycl_fit_climatology Climatology.climatology_means
        da (Z.of_nat n) dim
      = ret (Exc.Ok ds) /\
    length (Climatology.seas_cycle ds) = k /\
    length (Climatology.jja_minus_djf ds) = k /\
    forall r, r < k ->
      (forall m, 1 <= m <= 12 ->
         nth (m - 1) (nth r (Climatology.seas_cycle ds) []) (0, NaN)
           = (m, Climatology.labelled_mean (SeasCycle.da_data da) n r m) /\
         forall q, q < n -> 12 * n <= 12 * (r + q) + m ->
           SeasCycle.month (nth (12 * (r + q) + m - 12 * n)
                                (SeasCycle.monthly_from (12 * y0) (12 * k))
                                (SeasCycle.mkdatetime 0 0 0))
           = m mod 12 + 1) /\
      nth r (Climatology.jja_minus_djf ds) NaN
        = vsub (nanmean [Climatology.labelled_mean (SeasCycle.da_data da) n r 6;
                         Climatology.labelled_mean (SeasCycle.da_data da) n r 7;
                         Climatology.labelled_mean (SeasCycle.da_data da) n r 8])
               (nanmean [Climatology.labelled_mean (SeasCycle.da_data da) n r 12;
                         Climatology.labelled_mean (SeasCycle.da_data da) n r 1;
                         Climatology.labelled_mean (SeasCycle.da_data da) n r 2]).
Proof.
  intros Hk Hn Hd.
  set (x := SeasCycle.da_data da).
  set (time := SeasCycle.monthly_from (12 * y0) (12 * k)) in *.
  set (rowf := fun r => map (fun m => (m, Climatology.labelled_mean x n r m)) (seq 1 12)).
  set (jf := fun r =>
               vsub (nanmean [Climatology.labelled_mean x n r 6;
                              Climatology.labelled_mean x n r 7;
                              Climatology.labelled_mean x n r 8])
                    (nanmean [Climatology.labelled_mean x n r 12;
                              Climatology.labelled_mean x n r 1;
                              Climatology.labelled_mean x n r 2])).
  exists (Climatology.mkDataset (map rowf (seq 0 k)) (map jf (seq 0 k))).
  split; [|split; [|split]].
  - rewrite (fit_climatology_steps _ _ _ da (Z.of_nat n) dim time Hd).
    unfold time. rewrite (whole_years_steps y0 k true Hk), bind_ret_l.
    cbn [Nat.eqb assert]. rewrite bind_ret_l.
    unfold Climatology.climatology_means. f_equal.
    destruct (Z.of_nat n * Z.of_nat 12 <=? 0)%Z eqn:E; [apply Z.leb_le in E; lia|].
    replace (Z.to_nat (Z.of_nat n * Z.of_nat 12)) with (12 * n) by lia.
    replace (Z.to_nat (Z.of_nat 12)) with 12 by reflexivity.
    assert (Hseas :
      map (Climatology.groupby_mean (Climatology.month_labels (12 * n)))
          (Climatology.construct (SeasCycle.da_data da)
             (length (SeasCycle.monthly_from (12 * y0) (12 * k))) (12 * n) 12)
      = map rowf (seq 0 k)).
    { unfold Climatology.construct, SeasCycle.monthly_from.
      rewrite length_map, length_seq, every_twelve, !map_map.
      apply map_ext. intro r. apply (climatology_row x n r Hn). }
    cbv zeta. rewrite Hseas.
    rewrite (exc_mapM_ok _ (fun row => vsub (nanmean [snd (nth 5 row (0, NaN));
                                                       snd (nth 6 row (0, NaN));
                                                       snd (nth 7 row (0, NaN))])
                                            (nanmean [snd (nth 11 row (0, NaN));
                                                      snd (nth 0 row (0, NaN));
                                                      snd (nth 1 row (0, NaN))]))).
    + cbn [Exc.bind]. rewrite map_map. reflexivity.
    + intros row Hrow. apply in_map_iff in Hrow. destruct Hrow as (r & <- & _).
      reflexivity.
  - cbn [Climatology.seas_cycle]. rewrite length_map, length_seq. reflexivity.
  - cbn [Climatology.jja_minus_djf]. rewrite length_map, length_seq. reflexivity.
  - intros r Hr. cbn [Climatology.seas_cycle Climatology.jja_minus_djf].
    split.
    + intros m Hm. split.
      * rewrite (nth_seq_map rowf 0 k r []) by exact Hr. cbn [Nat.add].
        unfold rowf. rewrite nth_seq_map by lia.
        replace (1 + (m - 1)) with m by lia. reflexivity.
      * intros q Hq Hle.
        apply (labelled_step_month y0 k n r q m Hr Hq Hm Hle).
    + rewrite (nth_seq_map jf 0 k r NaN) by exact Hr. reflexivity.
Qed.

(** The theorem on two years of samples that hold the number of their
    calendar month, with a window of one year: in the row of January 2001
    the mean labelled 1 is 2 (February 2000), the mean labelled 12 is 1
    (January 2001). *)
Lemma climatology_labels_witness :
  exists ds,
    SeasCycle.seascycl_fit_climatology Climatology.climatology_means
        month_numbers 1 "time"
      = ret (Exc.Ok ds) /\
    nth 0 (nth 1 (Climatology.seas_cycle ds) []) (0, NaN) = (1, Num 2) /\
    nth 11 (nth 1 (Climatology.seas_cycle ds) []) (0, NaN) = (12, Num 1).
Proof.
  destruct (climatology_labels_are_a_month_late month_numbers "time" 2000 2 1
              (le_S _ _ (le_n 1)) (le_n 1) eq_refl)
    as (ds & Hres & _ & _ & Hrows).
  exists ds. split; [exact Hres|].
  destruct (Hrows 1 (le_n 2)) as [Hm _].
  split.
  - destruct (Hm 1 ltac:(lia)) as [H _]. cbn [Nat.sub] in H. rewrite H.
    vm_compute. reflexivity.
  - destruct (Hm 12 ltac:(lia)) as [H _]. cbn [Nat.sub] in H. rewrite H.
    vm_compute. reflexivity.
Defined.

(* ================================================================= *)
(** * Properties of the longitude transforms *)

(** ** Python's modulo *)

Lemma pymod_360 (x : Q) :
  (Lon.pymod x 360 == x - 360 * inject_Z (Qfloor (x / 360)))%Q /\
  (0 <= Lon.pymod x 360)%Q /\ (Lon.pymod x 360 < 360)%Q.
Proof.
  unfold Lon.pymod. split; [reflexivity|].
  pose proof (Qfloor_le (x / 360)) as Hlo.
  pose proof (Qlt_floor (x / 360)) as Hhi.
  rewrite inject_Z_plus in Hhi. change (inject_Z 1) with 1%Q in Hhi.
  set (f := inject_Z (Qfloor (x / 360))) in *.
  unfold Qdiv in Hlo, Hhi. change (/ 360)%Q with (1 # 360)%Q in Hlo, Hhi.
  split; lra.
Qed.

Lemma pymod_small (x : Q) :
  (0 <= x)%Q -> (x < 360)%Q -> (Lon.pymod x 360 == x)%Q.
Proof.
  intros H0 H1. unfold Lon.pymod.
  assert (Hf : Qfloor (x / 360) = 0%Z).
  { pose proof (Qfloor_le (x / 360)) as Hlo.
    pose proof (Qlt_floor (x / 360)) as Hhi.
    rewrite inject_Z_plus in Hhi. change (inject_Z 1) with 1%Q in Hhi.
    unfold Qdiv in Hlo, Hhi. change (/ 360)%Q with (1 # 360)%Q in Hlo, Hhi.
    assert (Ha : (inject_Z (Qfloor (x * (1 # 360))) < inject_Z 1)%Q)
      by (change (inject_Z 1) with 1%Q; lra).
    assert (Hb : (inject_Z (-1) < inject_Z (Qfloor (x * (1 # 360))))%Q)
      by (change (inject_Z (-1)) with (-1)%Q; lra).
    rewrite <- Zlt_Qlt in Ha, Hb.
    unfold Qdiv. change (/ 360)%Q with (1 # 360)%Q. lia. }
  rewrite Hf. change (inject_Z 0) with 0%Q. ring.
Qed.

Lemma pymod_shift (x : Q) (z : Z) :
  (Lon.pymod (x + 360 * inject_Z z) 360 == Lon.pymod x 360)%Q.
Proof.
  unfold Lon.pymod.
  assert (Hf : Qfloor ((x + 360 * inject_Z z) / 360) = (Qfloor (x / 360) + z)%Z).
  { pose proof (Qfloor_le (x / 360)) as Hlo.
    pose proof (Qlt_floor (x / 360)) as Hhi.
    pose proof (Qfloor_le ((x + 360 * inject_Z z) / 360)) as Hlo'.
    pose proof (Qlt_floor ((x + 360 * inject_Z z) / 360)) as Hhi'.
    rewrite inject_Z_plus in Hhi, Hhi'. change (inject_Z 1) with 1%Q in Hhi, Hhi'.
    unfold Qdiv in *. change (/ 360)%Q with (1 # 360)%Q in *.
    set (a := Qfloor (x * (1 # 360))) in *.
    set (b := Qfloor ((x + 360 * inject_Z z) * (1 # 360))) in *.
    assert (H1 : (inject_Z b < inject_Z (a + z + 1))%Q).
    { rewrite !inject_Z_plus. change (inject_Z 1) with 1%Q. lra. }
    assert (H2 : (inject_Z (a + z - 1) < inject_Z b)%Q).
    { unfold Zminus. rewrite !inject_Z_plus, inject_Z_opp.
      change (inject_Z 1) with 1%Q. lra. }
    rewrite <- Zlt_Qlt in H1, H2. lia. }
  rewrite Hf, inject_Z_plus. ring.
Qed.

(** ** Sorting the positions by their keys *)

Lemma insert_pos_perm (key : nat -> val) (i : nat) (l : list nat) :
  Permutation (Lon.insert_pos key i l) (i :: l).
Proof.
  induction l as [|j r IH]; cbn [Lon.insert_pos]; [apply Permutation_refl|].
  destruct (sort_leb (key i) (key j)); [apply Permutation_refl|].
  apply perm_trans with (j :: i :: r); [apply perm_skip, IH|apply perm_swap].
Qed.

Lemma argsort_perm (xs : list val) :
  Permutation (Lon.argsort xs) (seq 0 (length xs)).
Proof.
  unfold Lon.argsort. induction (seq 0 (length xs)) as [|i r IH]; [constructor|].
  cbn [fold_right].
  apply perm_trans with (i :: fold_right (Lon.insert_pos (fun i => nth i xs NaN)) [] r).
  - apply insert_pos_perm.
  - apply perm_skip, IH.
Qed.

Lemma nondecreasing_cons (a : Q) (l : list Q) :
  nondecreasing l -> (forall b, hd_error l = Some b -> (a <= b)%Q) ->
  nondecreasing (a :: l).
Proof.
  destruct l as [|b r]; intros Hl Hh; [exact I|].
  split; [apply Hh; reflexivity|exact Hl].
Qed.

Lemma insert_pos_sorted (q : nat -> Q) (i : nat) (l : list nat) :
  nondecreasing (map q l) ->
  nondecreasing (map q (Lon.insert_pos (fun j => Num (q j)) i l)).
Proof.
  induction l as [|j r IH]; intro Hs; [exact I|].
  cbn [Lon.insert_pos]. unfold sort_leb. cbn [sort_ltb].
  destruct (Qltb (q j) (q i)) eqn:E; cbn [negb].
  - apply Qltb_lt in E.
    assert (Hr : nondecreasing (map q r)) by (destruct r; [exact I|apply Hs]).
    specialize (IH Hr). cbn [map]. apply nondecreasing_cons; [exact IH|].
    intros b Hb. destruct r as [|j' r']; cbn [Lon.insert_pos] in Hb.
    + injection Hb as <-. apply Qlt_le_weak, E.
    + unfold sort_leb in Hb. cbn [sort_ltb] in Hb.
      destruct (Qltb (q j') (q i)); cbn [negb map hd_error] in Hb;
        injection Hb as <-; [apply Hs|apply Qlt_le_weak, E].
  - apply Qltb_ge in E. cbn [map]. split; [exact E|exact Hs].
Qed.

Lemma insert_pos_ext (key key' : nat -> val) (i : nat) (l : list nat) :
  key i = key' i -> (forall j, In j l -> key j = key' j) ->
  Lon.insert_pos key i l = Lon.insert_pos key' i l.
Proof.
  intros Hi Hl. induction l as [|j r IH]; [reflexivity|].
  cbn [Lon.insert_pos]. rewrite Hi, (Hl j (or_introl eq_refl)).
  rewrite IH by (intros j' Hj'; apply Hl; right; exact Hj'). reflexivity.
Qed.

Lemma fold_insert_ext (key key' : nat -> val) (s : list nat) :
  (forall j, In j s -> key j = key' j) ->
  fold_right (Lon.insert_pos key) [] s = fold_right (Lon.insert_pos key') [] s.
Proof.
  induction s as [|i r IH]; intro H; [reflexivity|].
  cbn [fold_right]. rewrite <- IH by (intros j Hj; apply H; right; exact Hj).
  apply insert_pos_ext; [apply H; left; reflexivity|].
  intros j Hj. apply H. right.
  assert (Hp : Permutation (fold_right (Lon.insert_pos key) [] r) r).
  { clear. induction r as [|a r IH]; [constructor|]. cbn [fold_right].
    apply perm_trans with (a :: fold_right (Lon.insert_pos key) [] r);
      [apply insert_pos_perm|apply perm_skip, IH]. }
  apply (Permutation_in _ Hp Hj).
Qed.

Lemma fold_insert_sorted (q : nat -> Q) (s : list nat) :
  nondecreasing (map q (fold_right (Lon.insert_pos (fun j => Num (q j))) [] s)).
Proof.
  induction s as [|i r IH]; [exact I|].
  cbn [fold_right]. apply insert_pos_sorted, IH.
Qed.

(** The order [np.lexsort] gives numbers: their positions, rearranged so
    that the numbers do not decrease. *)
Lemma argsort_sorted (qs : list Q) :
  nondecreasing (map (fun i => nth i qs 0%Q) (Lon.argsort (map Num qs))).
Proof.
  unfold Lon.argsort. rewrite length_map.
  rewrite (fold_insert_ext _ (fun j => Num (nth j qs 0%Q))).
  - apply fold_insert_sorted.
  - intros j Hj. apply in_seq in Hj.
    rewrite (nth_map_in Num qs j NaN 0%Q) by lia. reflexivity.
Qed.

(** ** A coordinate relabelled and sorted *)

Lemma assoc_replace {A} (name : string) (h : A -> A) (k : string)
    (l : list (string * A)) :
  assoc k (map (fun kx => if String.eqb (fst kx) name then (fst kx, h (snd kx)) else kx) l)
  = if String.eqb k name
    then match assoc k l with Some a => Some (h a) | None => None end
    else assoc k l.
Proof.
  induction l as [|[k' a] r IH]; [destruct (String.eqb k name); reflexivity|].
  cbn [map fst snd]. destruct (String.eqb k' name) eqn:E'; cbn [assoc];
    destruct (String.eqb k k') eqn:E; try rewrite IH.
  - apply String.eqb_eq in E, E'. subst. rewrite String.eqb_refl. reflexivity.
  - reflexivity.
  - apply String.eqb_eq in E. subst. rewrite E'. reflexivity.
  - reflexivity.
Qed.

Lemma dims_replace {A} (name : string) (h : A -> A) (l : list (string * A)) :
  map fst (map (fun kx => if String.eqb (fst kx) name then (fst kx, h (snd kx)) else kx) l)
  = map fst l.
Proof.
  rewrite map_map. apply map_ext. intros [k a]. cbn [fst snd].
  destruct (String.eqb k name); reflexivity.
Qed.

Lemma index_of_In (k : string) (dims : list string) :
  In k dims -> exists d, Lon.index_of k dims = Some d /\ d < length dims.
Proof.
  induction dims as [|k' r IH]; intro H; [destruct H|].
  cbn [Lon.index_of]. destruct (String.eqb k k') eqn:E.
  - exists 0. split; [reflexivity|simpl; lia].
  - destruct H as [H|H]; [subst; rewrite String.eqb_refl in E; discriminate|].
    destruct (IH H) as (d & -> & Hd). exists (S d). split; [reflexivity|simpl; lia].
Qed.

Lemma map_nth_Num (qs : list Q) (order : list nat) :
  (forall i, In i order -> i < length qs) ->
  map (fun i => nth i (map Num qs) NaN) order
  = map Num (map (fun i => nth i qs 0%Q) order).
Proof.
  intro H. rewrite map_map. apply map_ext_in. intros i Hi.
  apply (nth_map_in Num qs i NaN 0%Q). apply H, Hi.
Qed.

(** What both longitude transforms do once the name is found: the
    coordinate is sent through [vf], and the positions are put in the order
    of the new coordinate, the values with them. *)
Lemma relabel_sort_spec (vf : val -> val) (f : Q -> Q)
    (da : DataArray) (name : string) (qs : list Q) :
  (forall q, vf (Num q) = Num (f q)) ->
  In name (da_dims da) -> elems (da_coord da name) = map Num qs ->
  exists out d,
    Exc.bind (Lon.getitem da name) (fun lon =>
      Exc.bind (Lon.assign_coords da name (map vf (elems lon))) (fun ds' =>
      Lon.sortby ds' name)) = Exc.Ok out /\
    Lon.index_of name (da_dims da) = Some d /\
    rearranged da out name d (Lon.argsort (map Num (map f qs)))
      (map (fun i => nth i (map f qs) 0%Q) (Lon.argsort (map Num (map f qs)))) /\
    nondecreasing
      (map (fun i => nth i (map f qs) 0%Q) (Lon.argsort (map Num (map f qs)))).
Proof.
  intros Hvf Hin Hx.
  destruct (assoc_In name (da_axes da) Hin) as (x & Hassoc & _).
  destruct (index_of_In name (da_dims da) Hin) as (d & Hd & _).
  unfold da_coord in Hx. rewrite Hassoc in Hx.
  assert (Hnew : map vf (elems x) = map Num (map f qs)).
  { rewrite Hx, !map_map. apply map_ext. exact Hvf. }
  set (order := Lon.argsort (map Num (map f qs))).
  assert (Hperm : Permutation order (seq 0 (length qs))).
  { unfold order. pose proof (argsort_perm (map Num (map f qs))) as H.
    rewrite !length_map in H. exact H. }
  assert (Hbound : forall i, In i order -> i < length (map f qs)).
  { intros i Hi. apply (Permutation_in _ Hperm), in_seq in Hi.
    rewrite length_map. lia. }
  unfold Lon.getitem. rewrite Hassoc. cbn [Exc.bind].
  unfold Lon.assign_coords. rewrite Hassoc, Hnew.
  assert (Hsize : (length (map Num (map f qs)) =? size x) = true).
  { apply Nat.eqb_eq. unfold size. rewrite Hx, !length_map. reflexivity. }
  rewrite Hsize. cbn [Exc.bind].
  unfold Lon.sortby, da_dims. cbn [da_axes da_name da_values].
  rewrite (assoc_replace name (fun a => mkarray (dtype_kind a) (map Num (map f qs)))).
  rewrite String.eqb_refl, Hassoc.
  rewrite (dims_replace name (fun a => mkarray (dtype_kind a) (map Num (map f qs)))).
  fold (da_dims da). rewrite Hd. cbn [elems]. fold order.
  eexists. exists d. split; [reflexivity|]. split; [reflexivity|]. split.
  - constructor.
    + unfold da_dims. cbn [da_axes].
      rewrite (dims_replace name
                 (fun a => mkarray (dtype_kind a)
                             (map (fun i => nth i (elems a) NaN) order))).
      apply (dims_replace name (fun a => mkarray (dtype_kind a) (map Num (map f qs)))).
    + intros k Hk. unfold da_coord. cbn [da_axes].
      rewrite (assoc_replace name
                 (fun a => mkarray (dtype_kind a)
                             (map (fun i => nth i (elems a) NaN) order))).
      rewrite (assoc_replace name (fun a => mkarray (dtype_kind a) (map Num (map f qs)))).
      assert (E : String.eqb k name = false) by (apply String.eqb_neq; exact Hk).
      rewrite E. reflexivity.
    + unfold da_coord. cbn [da_axes].
      rewrite (assoc_replace name
                 (fun a => mkarray (dtype_kind a)
                             (map (fun i => nth i (elems a) NaN) order))).
      rewrite (assoc_replace name (fun a => mkarray (dtype_kind a) (map Num (map f qs)))).
      rewrite String.eqb_refl, Hassoc. cbn [elems].
      apply (map_nth_Num (map f qs) order Hbound).
    + rewrite length_map, (Permutation_length Hperm), length_seq. exact Hperm.
    + intro idx. reflexivity.
  - apply argsort_sorted.
Qed.

Lemma nth_rearranged (f : Q -> Q) (qs : list Q) (order : list nat) (j : nat) :
  Permutation order (seq 0 (length qs)) -> j < length qs ->
  nth j (map (fun i => nth i (map f qs) 0%Q) order) 0%Q = f (nth (nth j order 0) qs 0%Q) /\
  nth j order 0 < length qs.
Proof.
  intros Hp Hj.
  assert (Hl : length order = length qs)
    by (rewrite (Permutation_length Hp); apply length_seq).
  assert (Hb : nth j order 0 < length qs).
  { assert (Hin : In (nth j order 0) order) by (apply nth_In; lia).
    apply (Permutation_in _ Hp), in_seq in Hin. lia. }
  split; [|exact Hb].
  rewrite (nth_map_in _ order j 0%Q 0) by lia.
  apply (nth_map_in f qs _ 0%Q 0%Q). exact Hb.
Qed.





(** ** There and back *)

Lemma pymod_comp (x y : Q) : (x == y)%Q -> (Lon.pymod x 360 == Lon.pymod y 360)%Q.
Proof.
  intro H. unfold Lon.pymod.
  assert (E : Qfloor (x / 360) = Qfloor (y / 360))
    by (apply Qfloor_comp; rewrite H; reflexivity).
  rewrite E, H. reflexivity.
Qed.

(** A longitude in [0, 360) sent to [-180, 180) and back is itself. *)
Lemma to_360_to_180 (q : Q) :
  (0 <= q)%Q -> (q < 360)%Q ->
  (Lon.pymod (Lon.pymod (q - 180) 360 - 180) 360 == q)%Q.
Proof.
  intros H0 H1.
  destruct (pymod_360 (q - 180)) as (Heq & _ & _).
  rewrite (pymod_comp _ (q + 360 * inject_Z (- (Qfloor ((q - 180) / 360) + 1)))).
  - rewrite pymod_shift. apply pymod_small; assumption.
  - rewrite Heq, inject_Z_opp, inject_Z_plus. change (inject_Z 1) with 1%Q. ring.
Qed.

Lemma at_pos_compose (d : nat) (f g : nat -> nat) (idx : list nat) :
  Lon.at_pos d f (Lon.at_pos d g idx) = Lon.at_pos d (fun j => f (g j)) idx.
Proof.
  revert d. induction idx as [|i r IH]; intro d; [reflexivity|].
  destruct d as [|d']; cbn [Lon.at_pos]; [reflexivity|].
  rewrite IH. reflexivity.
Qed.

Lemma at_pos_id (d : nat) (f : nat -> nat) (idx : list nat) :
  f (nth d idx 0) = nth d idx 0 -> Lon.at_pos d f idx = idx.
Proof.
  revert d. induction idx as [|i r IH]; intros d H; [reflexivity|].
  destruct d as [|d']; cbn [Lon.at_pos nth] in *; [rewrite H; reflexivity|].
  rewrite IH by exact H. reflexivity.
Qed.

Lemma nondecreasing_nth (l : list Q) (a b : nat) :
  nondecreasing l -> a <= b -> b < length l -> (nth a l 0 <= nth b l 0)%Q.
Proof.
  revert a b. induction l as [|x r IH]; intros a b Hs Hab Hb; [simpl in Hb; lia|].
  assert (Hr : nondecreasing r) by (destruct r; [exact I|apply Hs]).
  destruct b as [|b'].
  - assert (a = 0) as -> by lia. apply Qle_refl.
  - destruct a as [|a'].
    + cbn [nth]. apply Qle_trans with (nth 0 r 0%Q).
      * destruct r as [|y r']; [simpl in Hb; lia|]. apply Hs.
      * apply IH; [exact Hr|lia|simpl in Hb; lia].
    + cbn [nth]. apply IH; [exact Hr|lia|simpl in Hb; lia].
Qed.

(** A strictly increasing sequence of [n] positions below [n] is the
    identity. *)
Lemma increasing_positions (n : nat) (p : nat -> nat) :
  (forall a b, a < b -> b < n -> p a < p b) ->
  (forall a, a < n -> p a < n) ->
  forall j, j < n -> p j = j.
Proof.
  intros Hinc Hb j Hj.
  assert (Hlo : forall a, a < n -> a <= p a).
  { induction a as [|a IH]; intro Ha; [lia|].
    specialize (IH ltac:(lia)). specialize (Hinc a (S a) ltac:(lia) Ha). lia. }
  assert (Hup : forall e a, a + e < n -> p a + e <= p (a + e)).
  { induction e as [|e IH]; intros a Ha.
    - rewrite !Nat.add_0_r. apply le_n.
    - specialize (IH a ltac:(lia)).
      specialize (Hinc (a + e) (a + S e) ltac:(lia) Ha). lia. }
  specialize (Hlo j Hj). specialize (Hup (n - 1 - j) j ltac:(lia)).
  specialize (Hb (j + (n - 1 - j)) ltac:(lia)). lia.
Qed.



(* ================================================================= *)
(** * Properties of [transpose_dims] *)

Lemma has_duplicate_NoDup (l : list string) :
  NoDup l -> Transpose.has_duplicate l = false.
Proof.
  induction 1 as [|k r Hk _ IH]; [reflexivity|].
  cbn [Transpose.has_duplicate]. rewrite IH, orb_false_r.
  destruct (mem k r) eqn:E; [|reflexivity]. apply mem_In in E. contradiction.
Qed.

Lemma forallb_mem_incl (l l' : list string) :
  (forall k, In k l -> In k l') -> forallb (fun k => mem k l') l = true.
Proof.
  intro H. apply forallb_forall. intros k Hk. apply mem_In, H, Hk.
Qed.

Lemma index_of_nth (pos : string -> nat) (k : string) (dims : list string) :
  In k dims ->
  match Lon.index_of k dims with
  | Some i => nth i (map pos dims) 0
  | None => 0
  end = pos k.
Proof.
  induction dims as [|k' r IH]; intro H; [destruct H|].
  cbn [Lon.index_of]. destruct (String.eqb k k') eqn:E.
  - apply String.eqb_eq in E. subst. reflexivity.
  - destruct H as [H|H]; [subst; rewrite String.eqb_refl in E; discriminate|].
    specialize (IH H). destruct (Lon.index_of k r); exact IH.
Qed.

Lemma matching_same (l l' : list string) :
  length l = length l' ->
  forallb (fun ab => String.eqb (fst ab) (snd ab)) (combine l l') = true ->
  l = l'.
Proof.
  revert l'. induction l as [|a r IH]; intros [|b r'] Hl Hm; try discriminate;
    [reflexivity|].
  cbn [combine forallb fst snd] in Hm. apply andb_true_iff in Hm.
  destruct Hm as [E Hm]. apply String.eqb_eq in E. subst b.
  f_equal. apply IH; [simpl in Hl; lia|exact Hm].
Qed.

Lemma filter_partition_perm {A} (p : A -> bool) (l : list A) :
  Permutation (filter (fun a => negb (p a)) l ++ filter p l) l.
Proof.
  induction l as [|a r IH]; [constructor|].
  cbn [filter]. destruct (p a); cbn [negb app].
  - apply Permutation_sym, Permutation_cons_app, Permutation_sym, IH.
  - apply perm_skip, IH.
Qed.

Lemma NoDup_filter {A} (p : A -> bool) (l : list A) : NoDup l -> NoDup (filter p l).
Proof.
  induction 1 as [|a r Ha _ IH]; [constructor|].
  cbn [filter]. destruct (p a); [|exact IH].
  constructor; [|exact IH]. intro H. apply filter_In in H. apply Ha, H.
Qed.

(** The new order holds each dimension once. *)
Lemma new_order_perm (order_of : list string -> list string)
    (dims default : list string) (b : bool) :
  (forall l, NoDup l -> Permutation (order_of l) l) ->
  NoDup dims -> NoDup default ->
  let defaults := filter (fun d => mem d dims) default in
  let others := order_of (filter (fun d => negb (mem d defaults)) dims) in
  Permutation (if b then others ++ defaults else defaults ++ others) dims.
Proof.
  intros Hord Hnd Hndd defaults others.
  assert (Hd : Permutation defaults (filter (fun d => mem d defaults) dims)).
  { apply NoDup_Permutation.
    - apply NoDup_filter, Hndd.
    - apply NoDup_filter, Hnd.
    - intro k. unfold defaults. rewrite !filter_In. split.
      + intros [Hk Hm]. split; [apply mem_In, Hm|].
        apply mem_In. apply filter_In. split; assumption.
      + intros [_ Hm]. apply mem_In, filter_In in Hm. exact Hm. }
  assert (Ho : Permutation others (filter (fun d => negb (mem d defaults)) dims))
    by (apply Hord, NoDup_filter, Hnd).
  assert (H : Permutation (others ++ defaults) dims).
  { apply perm_trans with (filter (fun d => negb (mem d defaults)) dims
                           ++ filter (fun d => mem d defaults) dims).
    - apply Permutation_app; assumption.
    - apply filter_partition_perm. }
  destruct b; [exact H|].
  apply perm_trans with (others ++ defaults); [apply Permutation_app_comm|exact H].
Qed.

(** X15.  [transpose_dims] on a DataArray whose dimensions are distinct:
    whatever order Python iterates its sets in, the result has the same
    dimensions, those of [default] that the array has coming in the order
    of [default], after all the others (before them when
    [other_dims_before=False]); each dimension keeps its coordinate, and
    the value at an index given name by name is unchanged. *)
Theorem transpose_dims_by_name
    (order_of : list string -> list string)
    (ds : DataArray) (default : list string) (other_dims_before : bool) :
  (forall l, NoDup l -> Permutation (order_of l) l) ->
  NoDup (da_dims ds) -> NoDup default ->
  exists out,
    Transpose.transpose_dims order_of ds default other_dims_before = Exc.Ok out /\
    da_dims out
      = (let defaults := filter (fun d => mem d (da_dims ds)) default in
         let others :=
           order_of (filter (fun d => negb (mem d defaults)) (da_dims ds)) in
         if other_dims_before then others ++ defaults else defaults ++ others) /\
    Permutation (da_dims out) (da_dims ds) /\
    da_name out = da_name ds /\
    (forall k, In k (da_dims ds) -> da_coord out k = da_coord ds k) /\
    (forall pos : string -> nat,
       da_values out (map pos (da_dims out)) = da_values ds (map pos (da_dims ds))).
Proof.
  intros Hord Hnd Hndd.
  pose proof (new_order_perm order_of (da_dims ds) default other_dims_before
                Hord Hnd Hndd) as Hperm.
  cbv zeta in Hperm |- *. unfold Transpose.transpose_dims. cbv zeta.
  set (defaults := filter (fun d => mem d (da_dims ds)) default) in *.
  set (others := order_of (filter (fun d => negb (mem d defaults)) (da_dims ds))) in *.
  set (new_order := if other_dims_before then others ++ defaults
                    else defaults ++ others) in *.
  destruct (forallb (fun ab => String.eqb (fst ab) (snd ab))
                    (combine (da_dims ds) new_order)) eqn:Em; cbn [negb].
  - (* the dimensions are in that order already *)
    assert (E : da_dims ds = new_order).
    { apply matching_same; [|exact Em].
      symmetry. apply Permutation_length, Hperm. }
    exists ds. split; [reflexivity|]. split; [exact E|].
    split; [apply Permutation_refl|]. split; [reflexivity|].
    split; [reflexivity|]. reflexivity.
  - unfold Transpose.transpose.
    rewrite (forallb_mem_incl new_order (da_dims ds))
      by (intros k Hk; apply (Permutation_in _ Hperm Hk)).
    rewrite (forallb_mem_incl (da_dims ds) new_order)
      by (intros k Hk; apply (Permutation_in _ (Permutation_sym Hperm) Hk)).
    rewrite (has_duplicate_NoDup new_order)
      by (apply (Permutation_NoDup (Permutation_sym Hperm) Hnd)).
    cbn [negb].
    assert (Hdims : forall f : string -> array,
              map fst (map (fun k => (k, f k)) new_order) = new_order).
    { intro f. rewrite map_map. cbn [fst]. apply map_id. }
    match goal with
    | |- exists out, Exc.Ok ?o = Exc.Ok out /\ _ =>
        exists o;
        assert (Hod : da_dims o = new_order)
          by (unfold da_dims; cbn [da_axes]; apply Hdims)
    end.
    split; [reflexivity|]. rewrite Hod.
    split; [reflexivity|]. split; [exact Hperm|]. split; [reflexivity|].
    split.
    + intros k Hk. unfold da_coord at 1. cbn [da_axes].
      rewrite (assoc_map_key (da_coord ds) k new_order); [reflexivity|].
      apply (Permutation_in _ (Permutation_sym Hperm) Hk).
    + intro pos. cbn [da_values]. f_equal. apply map_ext_in. intros k Hk.
      apply index_of_nth.
      apply (Permutation_in _ (Permutation_sym Hperm) Hk).
Qed.

(** The theorem on a field stored as (lon, member, time, lat), Python
    iterating its sets in the order of insertion, say. *)
Lemma transpose_dims_witness :
  exists out,
    Transpose.transpose_dims (fun l => l) scrambled ["time"; "depth"; "lat"; "lon"] true
      = Exc.Ok out /\
    da_dims out = ["member"; "time"; "lat"; "lon"] /\
    da_values out [2; 0; 1; 0] = da_values scrambled [0; 2; 0; 1].
Proof.
  destruct (transpose_dims_by_name (fun l => l) scrambled
              ["time"; "depth"; "lat"; "lon"] true)
    as (out & Hres & Hdims & _ & _ & _ & Hval).
  - intros l _. apply Permutation_refl.
  - unfold scrambled, da_dims. cbn [da_axes map fst].
    repeat constructor; simpl; intuition discriminate.
  - repeat constructor; simpl; intuition discriminate.
  - exists out. split; [exact Hres|]. split; [exact Hdims|].
    specialize (Hval (fun k => if String.eqb k "member" then 2
                               else if String.eqb k "lat" then 1 else 0)).
    rewrite Hdims in Hval. exact Hval.
Defined.

(* ================================================================= *)
(** * Properties of the decorator object and of the accessor *)

Section SharedKwargs.

Variables Content Arg Kwargs : Type.
Variable arg_of : Conform.Dataset Content -> Arg.
Variable __version__ : string.
Variable now : string.

Local Abbreviation call := (DecoratorObject.__call__ Content Arg Kwargs __version__ now).
Local Abbreviation caller :=
  (DecoratorObject.__caller__ Content Arg Kwargs arg_of __version__ now).
Local Abbreviation configure self := (fun st kwargs => fst (call self [] kwargs st)).

Lemma configure_all (self : Conform.decorated Content Arg Kwargs)
    (kws : list Kwargs) (kw : Kwargs) (st0 : DecoratorObject.attribute Kwargs) :
  fold_left (configure self) (kws ++ [kw]) st0 = Some kw.
Proof.
  rewrite fold_left_app. reflexivity.
Qed.

(** X16.  The keyword arguments of a configured transform live on the
    decorator, not in the callable it returns.  After any sequence of
    configurations of one transform, the last with the arguments [kw], the
    bound method they all returned runs the function with [kw], the
    arguments of the LAST configuration, whichever of the callables is
    used; calls of the transform on a dataset in between leave the stored
    arguments alone.  A call with two or more positional arguments, which
    is what the accessor makes of a call with one or more
    ([ds.conform.name(x)] is [t(ds, x)]), is a configuration as well: the
    function is not run, nothing is raised, the positional arguments are
    dropped and the callable is returned in place of a dataset.  Before
    any configuration the bound method raises AttributeError. *)
Theorem configured_kwargs_are_shared
    (self : Conform.decorated Content Arg Kwargs)
    (kws : list Kwargs) (kw : Kwargs) (ds obj : Conform.Dataset Content)
    (a : Arg) (args : list Arg) (kw' : Kwargs)
    (st0 : DecoratorObject.attribute Kwargs) :
  let st := fold_left (configure self) (kws ++ [kw]) st0 in
  caller self ds st
    = Exc.Ok (Conform.__caller__ arg_of __version__ now self kw ds) /\
  fst (call self [a] kw' st) = st /\
  snd (call self [a] kw' st)
    = bind (Conform.__call__ __version__ now self [a] kw')
           (fun c => match c with
                     | Conform.Out _ out => ret (DecoratorObject.Out Content out)
                     | Conform.Caller _ _ => ret (DecoratorObject.BoundCaller Content)
                     end) /\
  DecoratorObject.run_func Content Arg Kwargs arg_of __version__ now
      self obj (a :: args) kw' st
    = (Some kw', ret (DecoratorObject.BoundCaller Content)) /\
  caller self ds None
    = Exc.Err (Exc.AttributeError
        "'add_docs_line1_to_attribute_history' object has no attribute 'kwargs'").
Proof.
  intro st. unfold st. rewrite configure_all.
  split; [reflexivity|]. split; [reflexivity|]. split; [|split; reflexivity].
  unfold DecoratorObject.__call__, Conform.__call__. cbn [length Nat.eqb snd].
  destruct (Conform.func self [a] kw') as [evs [e|out]]; cbn [bind ret].
  - reflexivity.
  - rewrite !app_nil_r. reflexivity.
Qed.

End SharedKwargs.

(* ================================================================= *)
(** * The history left by a pipeline of transforms *)

Lemma split_app_sep (c : ascii) (a b : string) :
  Conform.split c (a ++ String c b) = Conform.split c a ++ Conform.split c b.
Proof.
  induction a as [|x r IH]; cbn [String.append Conform.split app].
  - rewrite Ascii.eqb_refl. reflexivity.
  - destruct (Ascii.eqb x c); rewrite IH; [reflexivity|].
    pose proof (split_nonempty c r) as H.
    destruct (Conform.split c r) as [|h t]; [congruence|]. reflexivity.
Qed.

Lemma split_without_sep (c : ascii) (s : string) :
  contains c s = false -> Conform.split c s = [s].
Proof.
  induction s as [|x r IH]; cbn [contains Conform.split]; [reflexivity|].
  intro H. apply orb_false_iff in H. destruct H as [E H].
  rewrite E, (IH H). reflexivity.
Qed.

Lemma contains_lstrip (c : ascii) (s : string) :
  contains c s = false -> contains c (Conform.lstrip s) = false.
Proof.
  induction s as [|x r IH]; [auto|]. cbn [Conform.lstrip]. intro H.
  destruct (Conform.is_space x); [|exact H].
  cbn [contains] in H. apply orb_false_iff in H. apply IH, H.
Qed.

Lemma contains_rstrip (c : ascii) (s : string) :
  contains c s = false -> contains c (Conform.rstrip s) = false.
Proof.
  induction s as [|x r IH]; [auto|]. cbn [contains Conform.rstrip]. intro H.
  apply orb_false_iff in H. destruct H as [E H]. specialize (IH H).
  destruct (Conform.rstrip r) as [|y r'].
  - destruct (Conform.is_space x); [reflexivity|].
    cbn [contains]. rewrite E. reflexivity.
  - change (Ascii.eqb x c || contains c (String y r') = false).
    rewrite E, IH. reflexivity.
Qed.

Lemma rstrip_idem (s : string) : Conform.rstrip (Conform.rstrip s) = Conform.rstrip s.
Proof.
  induction s as [|x r IH]; [reflexivity|]. cbn [Conform.rstrip].
  destruct (Conform.rstrip r) as [|y r'] eqn:E.
  - destruct (Conform.is_space x) eqn:Ex; [reflexivity|].
    cbn [Conform.rstrip]. rewrite Ex. reflexivity.
  - change (Conform.rstrip (String x (String y r')))
      with (match Conform.rstrip (String y r') with
            | EmptyString =>
                if Conform.is_space x then EmptyString else String x EmptyString
            | String _ _ as r'' => String x r''
            end).
    rewrite IH. reflexivity.
Qed.

Lemma lstrip_starts_ok (s : string) : starts_ok (Conform.lstrip s).
Proof.
  induction s as [|x r IH]; [exact I|]. cbn [Conform.lstrip].
  destruct (Conform.is_space x) eqn:E; [exact IH|exact E].
Qed.

Lemma rstrip_starts_ok (s : string) : starts_ok s -> starts_ok (Conform.rstrip s).
Proof.
  destruct s as [|x r]; [auto|]. cbn [starts_ok Conform.rstrip]. intro H.
  destruct (Conform.rstrip r); [rewrite H|]; exact H.
Qed.

Lemma lstrip_of_ok (s : string) : starts_ok s -> Conform.lstrip s = s.
Proof.
  destruct s as [|x r]; [auto|]. cbn [starts_ok Conform.lstrip].
  intros ->. reflexivity.
Qed.

Lemma strip_idem (s : string) : Conform.strip (Conform.strip s) = Conform.strip s.
Proof.
  unfold Conform.strip.
  rewrite (lstrip_of_ok (Conform.rstrip (Conform.lstrip s)))
    by apply rstrip_starts_ok, lstrip_starts_ok.
  apply rstrip_idem.
Qed.

Lemma strip_after_space (s : string) :
  Conform.strip (String " " s) = Conform.strip s.
Proof. reflexivity. Qed.

(** The pieces of a history are clean. *)
Lemma pieces_clean (s : string) : Forall clean (pieces s).
Proof.
  unfold pieces. apply Forall_map.
  eapply Forall_impl; [|apply (split_no_sep Conform.semicolon s)].
  intros x Hx. split; [|apply strip_idem].
  unfold Conform.strip. apply contains_rstrip, contains_lstrip, Hx.
Qed.

Lemma entries_clean (h : string) : Forall clean (entries h).
Proof.
  unfold entries. destruct (String.eqb h EmptyString); [constructor|apply pieces_clean].
Qed.

Lemma pieces_of_clean (e : string) : clean e -> pieces e = [e].
Proof.
  intros [Hc Hs]. unfold pieces. rewrite (split_without_sep _ _ Hc).
  cbn [map]. rewrite Hs. reflexivity.
Qed.

Lemma flat_map_pieces_clean (l : list string) :
  Forall clean l -> flat_map pieces l = l.
Proof.
  induction 1 as [|e r He _ IH]; [reflexivity|].
  cbn [flat_map]. rewrite (pieces_of_clean e He), IH. reflexivity.
Qed.

Lemma Forall_flat_map {A B} (P : B -> Prop) (f : A -> list B) (l : list A) :
  (forall a, Forall P (f a)) -> Forall P (flat_map f l).
Proof.
  intro H. induction l as [|a r IH]; [constructor|].
  cbn [flat_map]. apply Forall_app. split; [apply H|exact IH].
Qed.

(** Splitting a joined list gives the pieces of its elements. *)
Lemma pieces_join (l : list string) :
  l <> [] -> pieces (Conform.join "; " l) = flat_map pieces l.
Proof.
  induction l as [|e r IH]; [congruence|]. intros _. destruct r as [|e2 r'].
  - cbn [Conform.join flat_map]. rewrite app_nil_r. reflexivity.
  - change (Conform.join "; " (e :: e2 :: r'))
      with (e ++ String ";" (String " " (Conform.join "; " (e2 :: r'))))%string.
    change (flat_map pieces (e :: e2 :: r'))
      with (pieces e ++ flat_map pieces (e2 :: r')).
    rewrite <- IH by discriminate.
    unfold pieces, Conform.semicolon. rewrite split_app_sep, map_app. f_equal.
    set (J := Conform.join "; " (e2 :: r')).
    change (Conform.split ";" (String " " J))
      with (match Conform.split ";" J with
            | h :: t => String " " h :: t
            | [] => [String " " EmptyString]
            end).
    pose proof (split_nonempty ";" J) as H.
    destruct (Conform.split ";" J) as [|h t]; [congruence|].
    cbn [map]. rewrite strip_after_space. reflexivity.
Qed.

Lemma join_snoc_not_empty (l : list string) (c : ascii) (n : string) :
  Conform.join "; " (l ++ [String c n]) <> EmptyString.
Proof.
  destruct l as [|a r]; [discriminate|].
  rewrite join_snoc by discriminate.
  destruct (Conform.join "; " (a :: r)); discriminate.
Qed.

Section PipelineHistory.

Variables Content Arg Kwargs : Type.
Variable arg_of : Conform.Dataset Content -> Arg.
Variable __version__ : string.
Variable now : string.

Local Abbreviation note t := (Conform.prefix __version__ now ++ Conform.msg t)%string.
Local Abbreviation step :=
  (fun s : Conform.decorated Content Arg Kwargs * Kwargs =>
     Conform.__caller__ arg_of __version__ now (fst s) (snd s)).
Local Abbreviation earlier steps :=
  (flat_map (fun s : Conform.decorated Content Arg Kwargs * Kwargs =>
               pieces (note (fst s))) steps).

Lemma history_added (self : Conform.decorated Content Arg Kwargs)
    (ds : Conform.Dataset Content) :
  Conform.attrs_get (Conform._add_history __version__ now self ds "history") "history"
    = Conform.join "; " (entries (Conform.attrs_get ds "history") ++ [note self]).
Proof.
  unfold Conform._add_history, Conform.assign_attrs.
  unfold Conform.attrs_get at 1. cbn [Conform.attrs].
  rewrite assoc_dict_set_same. unfold entries, pieces.
  destruct (String.eqb (Conform.attrs_get ds "history") EmptyString); reflexivity.
Qed.

Lemma history_grows (l : list string) (self : Conform.decorated Content Arg Kwargs) :
  Forall clean l ->
  entries (Conform.join "; " (l ++ [note self])) = l ++ pieces (note self).
Proof.
  intro Hl. unfold entries.
  destruct (String.eqb (Conform.join "; " (l ++ [note self])) EmptyString) eqn:E.
  - apply String.eqb_eq in E. exfalso. revert E. apply join_snoc_not_empty.
  - rewrite pieces_join by (destruct l; discriminate).
    rewrite flat_map_app, (flat_map_pieces_clean l Hl).
    cbn [flat_map]. rewrite app_nil_r. reflexivity.
Qed.

(** X17.  A pipeline of decorated transforms whose bodies return and leave
    the history alone writes one note per transform, in the order of the
    calls: the history of the result is the entries of the history of the
    input, the notes of the transforms but the last as the later calls
    normalise them (split at semicolons, each piece stripped), and the
    note of the last transform as it is, joined with ["; "]; every entry
    before the last is free of semicolons and of white space at its
    ends. *)
Theorem pipeline_history
    (steps : list (Conform.decorated Content Arg Kwargs * Kwargs))
    (t : Conform.decorated Content Arg Kwargs) (kw : Kwargs)
    (ds : Conform.Dataset Content) :
  (forall s d, In s (steps ++ [(t, kw)]) ->
     exists d', result (Conform.func (fst s) [arg_of d] (snd s)) = Return d' /\
                Conform.attrs_get d' "history" = Conform.attrs_get d "history") ->
  exists out,
    result (DecoratorObject.apply_process_pipeline Content ds
              (map step (steps ++ [(t, kw)]))) = Return out /\
    Conform.attrs_get out "history"
      = Conform.join "; "
          ((entries (Conform.attrs_get ds "history") ++ earlier steps) ++ [note t]) /\
    Forall clean (entries (Conform.attrs_get ds "history") ++ earlier steps).
Proof.
  revert t kw. induction steps as [|[t1 kw1] steps' IH] using rev_ind;
    intros t kw Hbody.
  - destruct (Hbody (t, kw) ds (or_introl eq_refl)) as (d' & Hr & Hh).
    exists (Conform._add_history __version__ now t d' "history").
    split; [|split].
    + cbn [app map]. unfold DecoratorObject.apply_process_pipeline.
      cbn [fold_left]. rewrite bind_ret_l. unfold Conform.__caller__.
      rewrite result_bind. cbn [fst snd] in *. rewrite Hr. reflexivity.
    + rewrite history_added, Hh. cbn [flat_map]. rewrite app_nil_r. reflexivity.
    + cbn [flat_map]. rewrite app_nil_r. apply entries_clean.
  - destruct (IH t1 kw1) as (mid & Hmid & Hhist & Hclean).
    { intros s d Hs. apply Hbody. apply in_or_app. left. exact Hs. }
    destruct (Hbody (t, kw) mid) as (d' & Hr & Hh).
    { apply in_or_app. right. left. reflexivity. }
    exists (Conform._add_history __version__ now t d' "history").
    assert (Hall : Forall clean
                     (entries (Conform.attrs_get ds "history")
                      ++ earlier (steps' ++ [(t1, kw1)]))).
    { rewrite flat_map_app, app_assoc. apply Forall_app. split; [exact Hclean|].
      cbn [flat_map fst]. rewrite app_nil_r. apply pieces_clean. }
    split; [|split; [|exact Hall]].
    + rewrite map_app. cbn [map]. unfold DecoratorObject.apply_process_pipeline in *.
      rewrite fold_left_app. cbn [fold_left]. rewrite result_bind, Hmid.
      unfold Conform.__caller__. rewrite result_bind. cbn [fst snd] in *.
      rewrite Hr. reflexivity.
    + rewrite history_added, Hh, Hhist, (history_grows _ t1 Hclean).
      rewrite flat_map_app. cbn [flat_map fst]. rewrite app_nil_r, !app_assoc.
      reflexivity.
Qed.

End PipelineHistory.

(** The theorem on [correct_coord_names], [transpose_dims] and
    [lon_180W_180E] applied in a row to a dataset without history, the
    bodies returning the dataset they are given. *)
Lemma pipeline_history_witness :
  let body := fun (args : list (Conform.Dataset unit)) (_ : unit) =>
                ret (hd (Conform.mkDataset [] tt) args) in
  exists out,
    result (DecoratorObject.apply_process_pipeline unit (Conform.mkDataset [] tt)
              (map (fun s => Conform.__caller__ (fun d => d) EmptyString "261104"
                                (fst s) (snd s))
                   [(Conform.correct_coord_names body, tt);
                    (Conform.transpose_dims body, tt);
                    (Conform.lon_180W_180E body, tt)])) = Return out /\
    Conform.attrs_get out "history"
      = ("[amc@261104] Rename coordinates to [time, lat, lon, depth] with fuzzy matching; "
         ++ "[amc@261104] Transpose dimensions to [time, depth, lat, lon].; "
         ++ "[amc@261104] Regrid the data to [-180 : 180] from [0 : 360]")%string.
Proof.
  intro body.
  destruct (pipeline_history unit (Conform.Dataset unit) unit (fun d => d)
              EmptyString "261104"
              [(Conform.correct_coord_names body, tt);
               (Conform.transpose_dims body, tt)]
              (Conform.lon_180W_180E body) tt (Conform.mkDataset [] tt))
    as (out & Hres & Hhist & _).
  - intros s d Hs. exists d. split; [|reflexivity].
    cbn [app In] in Hs. destruct Hs as [<-|[<-|[<-|[]]]]; reflexivity.
  - exists out. split; [exact Hres|]. rewrite Hhist. vm_compute. reflexivity.
Defined.

(* ================================================================= *)
(** * Properties of [coord_05_offset] *)

Lemma frac_of_bounds (q : Q) : (0 <= frac_of q)%Q /\ (frac_of q < 1)%Q.
Proof.
  unfold frac_of.
  pose proof (Qfloor_le q) as Hlo. pose proof (Qlt_floor q) as Hhi.
  rewrite inject_Z_plus in Hhi. change (inject_Z 1) with 1%Q in Hhi.
  split; lra.
Qed.

Lemma Qfloor_between (q : Q) (z : Z) :
  (inject_Z z <= q)%Q -> (q < inject_Z z + 1)%Q -> Qfloor q = z.
Proof.
  intros Hlo Hhi.
  pose proof (Qfloor_le q) as Flo. pose proof (Qlt_floor q) as Fhi.
  rewrite inject_Z_plus in Fhi. change (inject_Z 1) with 1%Q in Fhi.
  assert (Ha : (inject_Z (Qfloor q) < inject_Z (z + 1))%Q)
    by (rewrite inject_Z_plus; change (inject_Z 1) with 1%Q; lra).
  assert (Hb : (inject_Z z < inject_Z (Qfloor q + 1))%Q)
    by (rewrite inject_Z_plus; change (inject_Z 1) with 1%Q; lra).
  rewrite <- Zlt_Qlt in Ha, Hb. lia.
Qed.

(** A grid point moved by the centre lies at the centre exactly when it
    was a whole number. *)
Lemma shifted_centred (q c : Q) :
  (frac_of (q + frac_of c) == frac_of c)%Q <-> (frac_of q == 0)%Q.
Proof.
  destruct (frac_of_bounds c) as [C0 C1]. set (cf := frac_of c) in *.
  pose proof (Qfloor_le q) as Hlo. pose proof (Qlt_floor q) as Hhi.
  rewrite inject_Z_plus in Hhi. change (inject_Z 1) with 1%Q in Hhi.
  split; intro H.
  - unfold frac_of in H.
    assert (E : Qfloor q = Qfloor (q + cf)).
    { apply Qfloor_between; lra. }
    unfold frac_of. rewrite E. lra.
  - unfold frac_of in H.
    assert (E : Qfloor (q + cf) = Qfloor q).
    { apply Qfloor_between; lra. }
    unfold frac_of. rewrite E. lra.
Qed.

Lemma off_centre_spec (qs : list Q) (cf : Q) :
  existsb (fun m => Offset.vneb m (Num cf)) (map Offset.frac (map Num qs)) = false
  <-> Forall (fun q => (frac_of q == cf)%Q) qs.
Proof.
  induction qs as [|q r IH]; cbn [map existsb].
  - split; [constructor|reflexivity].
  - change (Offset.vneb (Offset.frac (Num q)) (Num cf))
      with (negb (Qeq_bool (frac_of q) cf)).
    rewrite orb_false_iff, negb_false_iff, Qeq_bool_iff, IH. split.
    + intros [H1 H2]. constructor; assumption.
    + intro H. inversion H; subst. split; assumption.
Qed.


